(** * Depletion chains: a shallow embedding of [openmc/deplete/chain.py]

    The development follows the Python module top to bottom:
    - the arithmetic the module computes with (Python [float]) as an
      interface, with the binary64 instance the interpreter runs and an
      exact instance over the rationals;
    - exceptions as an error monad;
    - the records of the data model ([DecayTuple], [ReactionTuple],
      [Nuclide], [Chain]);
    - [replace_missing], the decay block of [Chain.from_endf],
      [Chain.form_matrix] and [Chain.set_branch_ratios];
    - [Chain.get_branch_ratios], the loop of [Chain.from_xml], the whole
      of [Chain.from_endf] once its files are read, the loop of
      [Chain.validate], and [get_temp] of
      [scripts/imagingreso_getdata_from_ace.py];
    - the properties of these functions. *)

From Stdlib Require Import ZArith QArith Qabs Qcanon Floats.
From Stdlib Require Import String Ascii DecimalString List Bool Lia.
From stdpp Require Import base option list gmap strings sorting.

Set Warnings "-inexact-float,-clear-no-such-hyp".
#[local] Open Scope string_scope.
#[local] Open Scope list_scope.
#[local] Open Scope nat_scope.

(** ** Arithmetic

    Every number the module handles is a Python [float].  The functions
    below are written once, over the operations they use; [binary64] is
    the arithmetic CPython runs (IEEE 754 double precision, round to
    nearest even), [exact] is arithmetic without rounding. *)

Class Arith (F : Type) : Type := {
  f0 : F;                       (* 0.0 *)
  f1 : F;                       (* 1.0 *)
  fadd : F -> F -> F;           (* x + y *)
  fsub : F -> F -> F;           (* x - y *)
  fmul : F -> F -> F;           (* x * y *)
  fdiv : F -> F -> F;           (* x / y, for y != 0 *)
  fabs : F -> F;                (* abs(x) *)
  feqb : F -> F -> bool;        (* x == y *)
  fltb : F -> F -> bool;        (* x < y *)
  fleb : F -> F -> bool         (* x <= y *)
}.

Definition fneb {F} `{Arith F} (x y : F) : bool := negb (feqb x y). (* x != y *)
Definition fgeb {F} `{Arith F} (x y : F) : bool := fleb y x.        (* x >= y *)
Definition fgtb {F} `{Arith F} (x y : F) : bool := fltb y x.        (* x > y *)

(** [sum(xs)]: Python adds from the left, starting from zero. *)
Definition fsum {F} `{Arith F} (xs : list F) : F := fold_left fadd xs f0.

#[export] Instance binary64 : Arith float := {
  f0 := 0%float;
  f1 := 1%float;
  fadd := PrimFloat.add;
  fsub := PrimFloat.sub;
  fmul := PrimFloat.mul;
  fdiv := PrimFloat.div;
  fabs := PrimFloat.abs;
  feqb := PrimFloat.eqb;
  fltb := PrimFloat.ltb;
  fleb := PrimFloat.leb
}.

#[export] Instance exact : Arith Qc := {
  f0 := Q2Qc 0;
  f1 := Q2Qc 1;
  fadd := Qcplus;
  fsub := Qcminus;
  fmul := Qcmult;
  fdiv := Qcdiv;
  fabs := fun x => Q2Qc (Qabs (this x));
  feqb := Qc_eq_bool;
  fltb := fun x y => negb (Qle_bool (this y) (this x));
  fleb := fun x y => Qle_bool (this x) (this y)
}.

(** [math.log(2)] as the C library returns it in double precision. *)
Definition log2_binary64 : float := 0x1.62e42fefa39efp-1%float.

(** ** Exceptions *)

Inductive exn : Type :=
| KeyError (key : string)
| IndexError
| AttributeError
| ValueError
| TypeError
| ZeroDivisionError
| UnboundLocalError.

Inductive result (A : Type) : Type :=
| Ok (a : A)
| Raise (e : exn).
Arguments Ok {A} a.
Arguments Raise {A} e.

#[export] Instance result_ret : MRet result := fun A a => Ok a.
#[export] Instance result_bind : MBind result := fun A B k c =>
  match c with
  | Ok a => k a
  | Raise e => Raise e
  end.

Definition raised {A} (r : result A) : Prop :=
  match r with Ok _ => False | Raise _ => True end.

(** [d[k]] on a dict, [l[i]] on a list. *)
Definition getitem {V} (d : gmap string V) (k : string) : result V :=
  match d !! k with
  | Some v => Ok v
  | None => Raise (KeyError k)
  end.

Definition nth_item {A} (l : list A) (i : nat) : result A :=
  match l !! i with
  | Some a => Ok a
  | None => Raise IndexError
  end.

(** ** Strings *)

(** [p in s] on strings. *)
Fixpoint contains (p s : string) : bool :=
  if String.prefix p s then true
  else match s with
       | EmptyString => false
       | String _ s' => contains p s'
       end.

(** ['{}{}'.format(symbol, A)] *)
Definition str_of_Z (z : Z) : string := NilZero.string_of_int (Z.to_int z).
Definition format2 (symbol : string) (A : Z) : string := symbol ++ str_of_Z A.

Definition is_digit (c : ascii) : bool :=
  let n := nat_of_ascii c in (48 <=? n) && (n <=? 57).

Fixpoint leading_digits (s : string) : list ascii :=
  match s with
  | String c s' => if is_digit c then c :: leading_digits s' else []
  | EmptyString => []
  end.

(** [int(ds)] for a run of decimal digits. *)
Definition int_of_digits (ds : list ascii) : Z :=
  fold_left (fun acc c => (10 * acc + Z.of_nat (nat_of_ascii c - 48))%Z) ds 0%Z.

Fixpoint strip_prefix (p s : string) : option string :=
  match p, s with
  | EmptyString, _ => Some s
  | String a p', String b s' => if Ascii.eqb a b then strip_prefix p' s' else None
  | String _ _, EmptyString => None
  end.

(** [re.match(r'{}(\d+)(?:_m\d+)?'.format(symbol), nuclide)], with
    [int(m.group(1))] when it matches: the name must start with the symbol
    followed by at least one digit, and the group is the whole run of
    digits (the trailing group is optional, so the greedy run stands). *)
Definition match_isotope (symbol nuclide : string) : option Z :=
  match strip_prefix symbol nuclide with
  | Some rest =>
      match leading_digits rest with
      | [] => None
      | ds => Some (int_of_digits ds)
      end
  | None => None
  end.

(** ** Ordered dictionaries

    A Python dict iterates in insertion order.  Where the order is
    observable (the decay data scanned by [replace_missing], the ratios
    given to [set_branch_ratios], [rxn_ix_map]) a dict is an association
    list with pairwise distinct keys. *)

Definition odict (V : Type) : Type := list (string * V).

Fixpoint od_get {V} (d : odict V) (k : string) : option V :=
  match d with
  | [] => None
  | (k', v) :: d' => if String.eqb k' k then Some v else od_get d' k
  end.

Definition od_mem {V} (d : odict V) (k : string) : bool :=
  match od_get d k with Some _ => true | None => false end.

(** [d[k] = v]: a known key keeps its place, a new key goes last. *)
Fixpoint od_set {V} (d : odict V) (k : string) (v : V) : odict V :=
  match d with
  | [] => [(k, v)]
  | (k', v') :: d' =>
      if String.eqb k' k then (k', v) :: d' else (k', v') :: od_set d' k v
  end.

Definition od_keys {V} (d : odict V) : list string := map fst d.
Definition od_values {V} (d : odict V) : list V := map snd d.

(** ** Data model ([openmc/deplete/nuclide.py]) *)

(** The target of a reaction is a nuclide name, except for fission, whose
    tuple carries [0] (from [from_endf]) or [None] (from [from_xml]). *)
Inductive target : Type :=
| TName (name : string)
| TZero
| TNone.

Record DecayTuple (F : Type) : Type := mkDecay {
  d_type : string;
  d_target : string;
  d_branching_ratio : F
}.
Arguments mkDecay {F}.
Arguments d_type {F}.
Arguments d_target {F}.
Arguments d_branching_ratio {F}.

Record ReactionTuple (F : Type) : Type := mkReaction {
  r_type : string;
  r_target : target;
  r_Q : F;
  r_branching_ratio : F
}.
Arguments mkReaction {F}.
Arguments r_type {F}.
Arguments r_target {F}.
Arguments r_Q {F}.
Arguments r_branching_ratio {F}.

Record Nuclide (F : Type) : Type := mkNuclide {
  name : string;
  half_life : option F;                        (* None until set *)
  decay_energy : F;
  decay_modes : list (DecayTuple F);
  reactions : list (ReactionTuple F);
  yield_data : list (F * list (string * F))    (* energy -> [(product, yield)] *)
}.
Arguments mkNuclide {F}.
Arguments name {F}.
Arguments half_life {F}.
Arguments decay_energy {F}.
Arguments decay_modes {F}.
Arguments reactions {F}.
Arguments yield_data {F}.

Definition n_decay_modes {F} (n : Nuclide F) : nat := length (decay_modes n).

Definition set_reactions {F} (n : Nuclide F) (rs : list (ReactionTuple F)) : Nuclide F :=
  mkNuclide (name n) (half_life n) (decay_energy n) (decay_modes n) rs (yield_data n).

Record Chain (F : Type) : Type := mkChain {
  nuclides : list (Nuclide F);
  chain_reactions : list string;
  nuclide_dict : gmap string nat
}.
Arguments mkChain {F}.
Arguments nuclides {F}.
Arguments chain_reactions {F}.
Arguments nuclide_dict {F}.

(** [nuclide in self] *)
Definition chain_contains {F} (c : Chain F) (n : string) : bool :=
  bool_decide (is_Some (nuclide_dict c !! n)).

(** [self[name]] *)
Definition chain_getitem {F} (c : Chain F) (n : string) : result (Nuclide F) :=
  i ← getitem (nuclide_dict c) n;
  nth_item (nuclides c) i.

(** [len(self)] *)
Definition chain_len {F} (c : Chain F) : nat := length (nuclides c).

(** ** Nuclear data ([openmc.data])

    [replace_missing] and [set_branch_ratios] call into [openmc.data],
    which is not part of this module: the table of element symbols and
    the two functions on nuclide names are taken as given. *)

Class NuclearData : Type := {
  ATOMIC_SYMBOL : gmap Z string;           (* {0: 'n', 1: 'H', ...} *)
  zam : string -> result (Z * Z * Z);      (* name -> (Z, A, state), or ValueError *)
  gnd_name : Z -> Z -> Z -> string         (* (Z, A, state) -> name *)
}.

(** The parts of an [openmc.data.Decay] evaluation the chain reads. *)
Record DecayMode (F : Type) : Type := mkMode {
  m_modes : list string;
  m_daughter : string;
  m_branching_ratio : F
}.
Arguments mkMode {F}.
Arguments m_modes {F}.
Arguments m_daughter {F}.
Arguments m_branching_ratio {F}.

Record Decay (F : Type) : Type := mkDecayData {
  dk_stable : bool;
  dk_atomic_number : Z;
  dk_mass_number : Z;
  dk_half_life : F;
  dk_average_energies : list F;
  dk_modes : list (DecayMode F)
}.
Arguments mkDecayData {F}.
Arguments dk_stable {F}.
Arguments dk_atomic_number {F}.
Arguments dk_mass_number {F}.
Arguments dk_half_life {F}.
Arguments dk_average_energies {F}.
Arguments dk_modes {F}.

Section Build.
Context {F : Type} `{Arith F} `{NuclearData}.

(** ** [replace_missing] *)

(** The scan for the longest-lived isotope of the element (lines 76-86):
    [mass] is [mass_longest_lived], unbound ([None]) until an isotope
    assigns it; a stable isotope ends the scan. *)
Fixpoint scan_isotopes (symbol : string) (items : odict (Decay F))
    (mass : option Z) (hl : F) : option Z :=
  match items with
  | [] => mass
  | (nuclide, data) :: rest =>
      match match_isotope symbol nuclide with
      | Some a =>
          if dk_stable data then Some a
          else if fgtb (dk_half_life data) hl
               then scan_isotopes symbol rest (Some a) (dk_half_life data)
               else scan_isotopes symbol rest mass hl
      | None => scan_isotopes symbol rest mass hl
      end
  end.

(** One turn of the [while] loop (lines 94-102): the next (Z, A). *)
Definition decay_step (beta_minus : bool) (za : Z * Z) : Z * Z :=
  let '(z, a) := za in
  if (98 <? z)%Z then (z - 2, a - 4)%Z
  else if beta_minus then (z + 1, a)%Z else (z - 1, a)%Z.

(** The [while product not in decay_data] loop.  [None]: the loop has not
    ended after [fuel] turns. *)
Fixpoint search (fuel : nat) (decay_data : odict (Decay F)) (beta_minus : bool)
    (za : Z * Z) (product : string) : option (result string) :=
  if od_mem decay_data product then Some (Ok product)
  else match fuel with
       | O => None
       | S fuel' =>
           let za' := decay_step beta_minus za in
           match ATOMIC_SYMBOL !! fst za' with
           | None => Some (Raise (KeyError (str_of_Z (fst za'))))
           | Some sym => search fuel' decay_data beta_minus za' (format2 sym (snd za'))
           end
       end.

Definition replace_missing (fuel : nat) (product : string)
    (decay_data : odict (Decay F)) : option (result string) :=
  match zam product with
  | Raise e => Some (Raise e)
  | Ok (z, a, state) =>
      match ATOMIC_SYMBOL !! z with
      | None => Some (Raise (KeyError (str_of_Z z)))
      | Some symbol =>
          if ((z =? 0) && (a =? 1))%Z then Some (Ok "H1")
          else
            let product := if (state =? 0)%Z then product else format2 symbol a in
            match scan_isotopes symbol decay_data None f0 with
            | None => Some (Raise UnboundLocalError)
            | Some mass_longest_lived =>
                search fuel decay_data (mass_longest_lived <? a)%Z (z, a) product
            end
      end
  end.

(** ** [Chain.from_endf]: the decay block of one nuclide (lines 218-239) *)

(** [Nuclide()] named [parent]. *)
Definition new_nuclide (parent : string) : Nuclide F :=
  mkNuclide parent None f0 [] [] [].

(** Lines 225-229: the daughter itself, or its replacement. *)
Definition mode_target (fuel : nat) (decay_data : odict (Decay F))
    (mode : DecayMode F) : option (result string) :=
  if od_mem decay_data (m_daughter mode) then Some (Ok (m_daughter mode))
  else replace_missing fuel (m_daughter mode) decay_data.

(** The loop over [enumerate(data.modes)]: [modes] is all of
    [data.modes], [rest] what is left to visit, [i] the index of its
    head; [out] grows into [nuclide.decay_modes]. *)
Fixpoint decay_loop (fuel : nat) (decay_data : odict (Decay F))
    (modes : list (DecayMode F)) (i : nat) (rest : list (DecayMode F))
    (sum_br : F) (out : list (DecayTuple F)) : option (result (list (DecayTuple F))) :=
  match rest with
  | [] => Some (Ok out)
  | mode :: rest' =>
      let type_ := String.concat "," (m_modes mode) in
      match mode_target fuel decay_data mode with
      | None => None
      | Some (Raise e) => Some (Raise e)
      | Some (Ok tgt) =>
          let br := m_branching_ratio mode in
          let sum_br := fadd sum_br br in
          let br :=
            if (i =? length modes - 1) && fneb sum_br f1
            then fsub f1 (fsum (map m_branching_ratio (removelast modes)))
            else br in
          decay_loop fuel decay_data modes (S i) rest' sum_br
                     (out ++ [mkDecay type_ tgt br])
      end
  end.

Definition from_endf_decay (fuel : nat) (decay_data : odict (Decay F))
    (parent : string) (data : Decay F) : option (result (Nuclide F)) :=
  let nuclide := new_nuclide parent in
  if negb (dk_stable data) && fneb (dk_half_life data) f0 then
    match decay_loop fuel decay_data (dk_modes data) 0 (dk_modes data) f0
                     (decay_modes nuclide) with
    | None => None
    | Some (Raise e) => Some (Raise e)
    | Some (Ok dms) =>
        Some (Ok (mkNuclide parent (Some (dk_half_life data))
                            (fsum (dk_average_energies data)) dms
                            (reactions nuclide) (yield_data nuclide)))
    end
  else Some (Ok nuclide).

End Build.

(** ** [Chain.form_matrix] *)

(** The [rates] argument: a two-dimensional array with the two indexes
    that name its rows (nuclides) and columns (reactions). *)
Record ReactionRates (F : Type) : Type := mkRates {
  index_nuc : gmap string nat;
  index_rx : gmap string nat;
  rates_data : list (list F)
}.
Arguments mkRates {F}.
Arguments index_nuc {F}.
Arguments index_rx {F}.
Arguments rates_data {F}.

(** A [for] loop whose body may raise. *)
Fixpoint foldM {A B} (f : A -> B -> result A) (a : A) (l : list B) : result A :=
  match l with
  | [] => Ok a
  | b :: l' => a' ← f a b; foldM f a' l'
  end.

Section Matrix.
Context {F : Type} `{Arith F}.
Variable log2 : F.    (* math.log(2) *)

(** [matrix = defaultdict(float)], keyed by (row, column). *)
Definition m_get (m : gmap (nat * nat) F) (k : nat * nat) : F := default f0 (m !! k).
Definition m_add (m : gmap (nat * nat) F) (k : nat * nat) (v : F) : gmap (nat * nat) F :=
  <[k := fadd (m_get m k) v]> m.                       (* matrix[k] += v *)
Definition m_sub (m : gmap (nat * nat) F) (k : nat * nat) (v : F) : gmap (nat * nat) F :=
  <[k := fsub (m_get m k) v]> m.                       (* matrix[k] -= v *)

(** Lines 418-425: the gain of one decay mode. *)
Definition decay_gain (c : Chain F) (i : nat) (decay_constant : F)
    (m : gmap (nat * nat) F) (mode : DecayTuple F) : result (gmap (nat * nat) F) :=
  if negb (String.eqb (d_target mode) "Nothing") then
    let branch_val := fmul (d_branching_ratio mode) decay_constant in
    if fneb branch_val f0 then
      k ← getitem (nuclide_dict c) (d_target mode);
      Ok (m_add m (k, i) branch_val)
    else Ok m
  else Ok m.

(** Lines 409-425.  Dividing by a half-life that was never set is a
    [TypeError], dividing by zero a [ZeroDivisionError]. *)
Definition decay_terms (c : Chain F) (i : nat) (nuc : Nuclide F)
    (m : gmap (nat * nat) F) : result (gmap (nat * nat) F) :=
  if negb (n_decay_modes nuc =? 0) then
    match half_life nuc with
    | None => Raise TypeError
    | Some hl =>
        if feqb hl f0 then Raise ZeroDivisionError
        else
          let decay_constant := fdiv log2 hl in
          let m := if fneb decay_constant f0 then m_sub m (i, i) decay_constant else m in
          foldM (decay_gain c i decay_constant) m (decay_modes nuc)
    end
  else Ok m.

(** [sorted(nuc.yield_data.items())]: the items are compared as tuples,
    and the keys of a dict are pairwise different, so the energies decide.
    The sort is stable and uses [<] only. *)
Fixpoint insert_item (x : F * list (string * F)) (l : list (F * list (string * F)))
    : list (F * list (string * F)) :=
  match l with
  | [] => [x]
  | y :: l' => if fltb (fst x) (fst y) then x :: l else y :: insert_item x l'
  end.

Definition sorted_items (l : list (F * list (string * F))) : list (F * list (string * F)) :=
  fold_left (fun acc x => insert_item x acc) l [].

(** Lines 455-459: the gain of one fission product. *)
Definition yield_gain (c : Chain F) (i : nat) (path_rate : F)
    (m : gmap (nat * nat) F) (py : string * F) : result (gmap (nat * nat) F) :=
  let yield_val := fmul (snd py) path_rate in
  if fneb yield_val f0 then
    k ← getitem (nuclide_dict c) (fst py);
    Ok (m_add m (k, i) yield_val)
  else Ok m.

(** Lines 454-459. *)
Definition fission_gain (c : Chain F) (i : nat) (nuc : Nuclide F) (path_rate : F)
    (m : gmap (nat * nat) F) : result (gmap (nat * nat) F) :=
  '(energy, data) ← nth_item (sorted_items (yield_data nuc)) 0;
  foldM (yield_gain c i path_rate) m data.

Definition target_is_nothing (t : target) : bool :=
  match t with
  | TName s => String.eqb s "Nothing"
  | _ => false
  end.

(** [self.nuclide_dict[target]] *)
Definition target_index (c : Chain F) (t : target) : result nat :=
  match t with
  | TName s => getitem (nuclide_dict c) s
  | TZero => Raise (KeyError "0")
  | TNone => Raise (KeyError "None")
  end.

(** Lines 437-442: the loss term, counted once for each reaction type. *)
Definition reaction_loss (i : nat) (rx : ReactionTuple F) (path_rate : F)
    (st : gmap (nat * nat) F * gset string) : gmap (nat * nat) F * gset string :=
  let '(m, seen) := st in
  if bool_decide (r_type rx ∉ seen) then
    (if fneb path_rate f0 then m_sub m (i, i) path_rate else m, {[r_type rx]} ∪ seen)
  else (m, seen).

(** Lines 444-459: the gain term. *)
Definition reaction_gain (c : Chain F) (i : nat) (nuc : Nuclide F)
    (rx : ReactionTuple F) (path_rate : F) (m : gmap (nat * nat) F)
    : result (gmap (nat * nat) F) :=
  if negb (target_is_nothing (r_target rx)) then
    if negb (String.eqb (r_type rx) "fission") then
      if fneb path_rate f0 then
        k ← target_index c (r_target rx);
        Ok (m_add m (k, i) (fmul path_rate (r_branching_ratio rx)))
      else Ok m
    else fission_gain c i nuc path_rate m
  else Ok m.

(** Lines 432-459: the body of the loop over [nuc.reactions]; the state
    is the matrix and the set [reactions] of the types seen so far. *)
Definition reaction_term (c : Chain F) (rates : ReactionRates F) (i : nat)
    (nuc : Nuclide F) (nuc_rates : list F)
    (st : gmap (nat * nat) F * gset string) (rx : ReactionTuple F)
    : result (gmap (nat * nat) F * gset string) :=
  r_id ← getitem (index_rx rates) (r_type rx);
  path_rate ← nth_item nuc_rates r_id;
  let st' := reaction_loss i rx path_rate st in
  m ← reaction_gain c i nuc rx path_rate (fst st');
  Ok (m, snd st').

(** Lines 427-462.  The set is empty when the block starts: it is
    cleared at the end of every block. *)
Definition reaction_terms (c : Chain F) (rates : ReactionRates F) (i : nat)
    (nuc : Nuclide F) (m : gmap (nat * nat) F) : result (gmap (nat * nat) F) :=
  match index_nuc rates !! name nuc with
  | None => Ok m
  | Some nuc_ind =>
      nuc_rates ← nth_item (rates_data rates) nuc_ind;
      st ← foldM (reaction_term c rates i nuc nuc_rates) (m, ∅) (reactions nuc);
      Ok (fst st)
  end.

(** The loop over [enumerate(self.nuclides)]. *)
Fixpoint form_loop (c : Chain F) (rates : ReactionRates F) (i : nat)
    (nucs : list (Nuclide F)) (m : gmap (nat * nat) F) : result (gmap (nat * nat) F) :=
  match nucs with
  | [] => Ok m
  | nuc :: rest =>
      m ← decay_terms c i nuc m;
      m ← reaction_terms c rates i nuc m;
      form_loop c rates (S i) rest m
  end.

(** The result: the order [n] of the square matrix and its stored
    entries; an entry that is not stored is zero. *)
Definition form_matrix (c : Chain F) (rates : ReactionRates F)
    : result (nat * gmap (nat * nat) F) :=
  m ← form_loop c rates 0 (nuclides c) ∅;
  Ok (chain_len c, m).

End Matrix.

(** ** [Chain.set_branch_ratios] *)

Definition SECONDARY_PARTICLES : odict (list string) :=
  [ ("(n,p)", ["H1"]); ("(n,d)", ["H2"]); ("(n,t)", ["H3"]); ("(n,3He)", ["He3"]);
    ("(n,a)", ["He4"]); ("(n,2nd)", ["H2"]); ("(n,na)", ["He4"]); ("(n,3na)", ["He4"]);
    ("(n,n3a)", ["He4"; "He4"; "He4"]); ("(n,2na)", ["He4"]); ("(n,np)", ["H1"]);
    ("(n,n2a)", ["He4"; "He4"]); ("(n,2n2a)", ["He4"; "He4"]); ("(n,nd)", ["H2"]);
    ("(n,nt)", ["H3"]); ("(n,nHe-3)", ["He3"]); ("(n,nd2a)", ["H2"; "He4"]);
    ("(n,nt2a)", ["H3"; "He4"; "He4"]); ("(n,2np)", ["H1"]); ("(n,3np)", ["H1"]);
    ("(n,n2p)", ["H1"; "H1"]); ("(n,2a)", ["He4"; "He4"]); ("(n,3a)", ["He4"; "He4"; "He4"]);
    ("(n,2p)", ["H1"; "H1"]); ("(n,pa)", ["H1"; "He4"]);
    ("(n,t2a)", ["H3"; "He4"; "He4"]); ("(n,d2a)", ["H2"; "He4"; "He4"]);
    ("(n,pd)", ["H1"; "H2"]); ("(n,pt)", ["H1"; "H3"]); ("(n,da)", ["H2"; "He4"]) ].

(** [_SECONDARY_PARTICLES.get(reaction, [])] *)
Definition secondary_of (reaction : string) : list string :=
  default [] (od_get SECONDARY_PARTICLES reaction).

(** [rx.target in secondary] *)
Definition target_in (t : target) (l : list string) : bool :=
  match t with
  | TName s => existsb (String.eqb s) l
  | _ => false
  end.

(** The [branch_ratios] argument.  Its values are dict objects, and the
    method writes into them (line 677): an entry is the parent, the
    identity of the dict it maps to, and that dict's contents.  Entries
    with one identity are one object and hold the same contents. *)
Definition branch_ratios (F : Type) : Type := odict (nat * odict F).

(** [obj[k] = v] for the object [id], seen from every entry. *)
Definition store_set {F} (brs : branch_ratios F) (id : nat) (k : string) (v : F)
    : branch_ratios F :=
  map (fun e : string * (nat * odict F) =>
         if fst (snd e) =? id then (fst e, (id, od_set (snd (snd e)) k v)) else e) brs.

(** What validation collects (lines 550-559). *)
Record vstate (F : Type) : Type := mkV {
  sums : gmap string F;
  rxn_ix_map : odict (list nat);
  grounds : gmap string string;
  missing_parents : gset string;
  missing_products : gmap string string;
  missing_reaction : gset string;
  bad_sums : gmap string F
}.
Arguments mkV {F}.
Arguments sums {F}.
Arguments rxn_ix_map {F}.
Arguments grounds {F}.
Arguments missing_parents {F}.
Arguments missing_products {F}.
Arguments missing_reaction {F}.
Arguments bad_sums {F}.

Definition vstate0 {F} : vstate F := mkV ∅ [] ∅ ∅ ∅ ∅ ∅.

(** What a call leaves behind: the exception it ended with, if any, the
    chain and the caller's dicts as they are then, and what validation
    recorded (the text of the warnings is built from it). *)
Record outcome (F : Type) : Type := mkOut {
  out_exn : option exn;
  out_chain : Chain F;
  out_ratios : branch_ratios F;
  out_report : vstate F
}.
Arguments mkOut {F}.
Arguments out_exn {F}.
Arguments out_chain {F}.
Arguments out_ratios {F}.
Arguments out_report {F}.

Section Edit.
Context {F : Type} `{Arith F} `{NuclearData}.

(** Lines 590-595: the positions of the parent's reactions of the
    requested type, and the ground state they name. *)
Definition scan_reaction (reaction parent : string) (secondary : list string)
    (st : list nat * gmap string string) (ixrx : nat * ReactionTuple F)
    : result (list nat * gmap string string) :=
  let '(indexes, grounds) := st in
  let '(ix, rx) := ixrx in
  if String.eqb (r_type rx) reaction && negb (target_in (r_target rx) secondary) then
    match r_target rx with
    | TName t =>
        Ok (indexes ++ [ix],
            if negb (contains "_m" t) then <[parent := t]> grounds else grounds)
    | _ => Raise TypeError
    end
  else Ok (indexes, grounds).

(** Lines 605-619: the test on the sum. *)
Definition sum_is_bad (tolerance this_sum : F) (sub : odict F) (grounds : gmap string string)
    (parent : string) : result bool :=
  if fgeb this_sum (fadd f1 tolerance) then Ok true
  else
    g ← getitem grounds parent;
    Ok (od_mem sub g && fleb this_sum (fsub f1 tolerance)).

(** Lines 566-619: the body of the validation loop. *)
Definition validate_parent (c : Chain F) (reaction : string) (strict : bool)
    (tolerance : F) (st : vstate F) (entry : string * (nat * odict F))
    : result (vstate F) :=
  let parent := fst entry in
  let sub := snd (snd entry) in
  if negb (chain_contains c parent) then
    if strict then Raise (KeyError parent)
    else Ok (mkV (sums st) (rxn_ix_map st) (grounds st)
                 ({[parent]} ∪ missing_parents st) (missing_products st)
                 (missing_reaction st) (bad_sums st))
  else
    match List.find (fun product => negb (chain_contains c product)) (od_keys sub) with
    | Some product =>
        if strict then Raise (KeyError product)
        else Ok (mkV (sums st) (rxn_ix_map st) (grounds st)
                     (missing_parents st) (<[parent := product]> (missing_products st))
                     (missing_reaction st) (bad_sums st))
    | None =>
        nuc ← chain_getitem c parent;
        '(indexes, grounds') ←
          foldM (scan_reaction reaction parent (secondary_of reaction))
                ([], grounds st) (imap pair (reactions nuc));
        if length indexes =? 0 then
          if strict then Raise AttributeError
          else Ok (mkV (sums st) (rxn_ix_map st) grounds'
                       (missing_parents st) (missing_products st)
                       ({[parent]} ∪ missing_reaction st) (bad_sums st))
        else
          let this_sum := fsum (od_values sub) in
          bad ← sum_is_bad tolerance this_sum sub grounds' parent;
          if bad : bool then
            if strict then Raise ValueError
            else Ok (mkV (sums st) (rxn_ix_map st) grounds'
                         (missing_parents st) (missing_products st)
                         (missing_reaction st) (<[parent := this_sum]> (bad_sums st)))
          else Ok (mkV (<[parent := this_sum]> (sums st))
                       (od_set (rxn_ix_map st) parent indexes) grounds'
                       (missing_parents st) (missing_products st)
                       (missing_reaction st) (bad_sums st))
    end.

(** Lines 661-662: [parent.reactions.pop(ix)] for each index, last first.
    The list is changed in place: an [IndexError] leaves what has been
    popped so far. *)
Fixpoint pop_all (ixs : list nat) (rs : list (ReactionTuple F))
    : option exn * list (ReactionTuple F) :=
  match ixs with
  | [] => (None, rs)
  | ix :: ixs' =>
      if ix <? length rs then pop_all ixs' (delete ix rs)
      else (Some IndexError, rs)
  end.

(** Lines 664-669. *)
Definition append_ratio (reaction : string) (rxn_Q : F)
    (st : bool * list (ReactionTuple F)) (kv : string * F)
    : bool * list (ReactionTuple F) :=
  (fst st && contains "_m" (fst kv),
   snd st ++ [mkReaction reaction (TName (fst kv)) rxn_Q (snd kv)]).

(** [parent.reactions = rs] for the nuclide at position [idx]. *)
Definition write_reactions (c : Chain F) (idx : nat) (nuc : Nuclide F)
    (rs : list (ReactionTuple F)) : Chain F :=
  mkChain (<[idx := set_reactions nuc rs]> (nuclides c)) (chain_reactions c)
          (nuclide_dict c).

(** Lines 652-679: the body of the loop that applies the new ratios.
    The state is the chain and the caller's dicts; an exception leaves
    them as they are when it is raised. *)
Definition apply_parent (reaction : string) (vs : vstate F)
    (st : Chain F * branch_ratios F) (entry : string * list nat)
    : option exn * (Chain F * branch_ratios F) :=
  let '(c, brs) := st in
  let '(parent_name, rxn_index) := entry in
  match nuclide_dict c !! parent_name with
  | None => (Some (KeyError parent_name), st)
  | Some idx =>
  match nuclides c !! idx with
  | None => (Some IndexError, st)
  | Some parent =>
  match od_get brs parent_name with
  | None => (Some (KeyError parent_name), st)
  | Some (id, new_ratios) =>
  match rxn_index with
  | [] => (Some IndexError, st)
  | ix0 :: _ =>
  match reactions parent !! ix0 with
  | None => (Some IndexError, st)
  | Some rx0 =>
      let rxn_Q := r_Q rx0 in
      match pop_all (rev rxn_index) (reactions parent) with
      | (Some e, rs) => (Some e, (write_reactions c idx parent rs, brs))
      | (None, rs) =>
          let '(all_meta, rs) :=
            fold_left (append_ratio reaction rxn_Q) new_ratios (true, rs) in
          let c1 := write_reactions c idx parent rs in
          if all_meta : bool then
            match sums vs !! parent_name with
            | None => (Some (KeyError parent_name), (c1, brs))
            | Some s =>
                if fneb s f1 then
                  let ground_br := fsub f1 s in
                  match
                    match grounds vs !! parent_name with
                    | Some g => Ok g
                    | None => '(pz, pa, pm) ← zam parent_name;
                              Ok (gnd_name pz (pa + 1) 0)
                    end
                  with
                  | Raise e => (Some e, (c1, brs))
                  | Ok ground_tgt =>
                      (None,
                       (write_reactions c idx parent
                          (rs ++ [mkReaction reaction (TName ground_tgt) rxn_Q ground_br]),
                        store_set brs id ground_tgt ground_br))
                  end
                else (None, (c1, brs))
            end
          else (None, (c1, brs))
      end
  end end end end end.

(** The loop over [rxn_ix_map.items()] (lines 650-679). *)
Fixpoint apply_all (reaction : string) (vs : vstate F)
    (st : Chain F * branch_ratios F) (entries : odict (list nat))
    : option exn * (Chain F * branch_ratios F) :=
  match entries with
  | [] => (None, st)
  | entry :: rest =>
      match apply_parent reaction vs st entry with
      | (Some e, st') => (Some e, st')
      | (None, st') => apply_all reaction vs st' rest
      end
  end.

Definition set_branch_ratios (c : Chain F) (brs : branch_ratios F)
    (reaction : string) (strict : bool) (tolerance : F) : outcome F :=
  let tolerance := fabs tolerance in
  match foldM (validate_parent c reaction strict tolerance) vstate0 brs with
  | Raise e => mkOut (Some e) c brs vstate0
  | Ok vs =>
      if length (rxn_ix_map vs) =? 0 then mkOut (Some IndexError) c brs vs
      else
        let '(e, (c', brs')) := apply_all reaction vs (c, brs) (rxn_ix_map vs) in
        mkOut e c' brs' vs
  end.

End Edit.

(** ** [Chain.get_branch_ratios] *)

(** [a == b] on the targets of reaction tuples. *)
Definition target_eqb (a b : target) : bool :=
  match a, b with
  | TName s, TName t => String.eqb s t
  | TZero, TZero => true
  | TNone, TNone => true
  | _, _ => false
  end.

(** A dict keyed by targets, in insertion order. *)
Definition tdict (V : Type) : Type := list (target * V).

(** [d[k] = v] *)
Fixpoint td_set {V} (d : tdict V) (k : target) (v : V) : tdict V :=
  match d with
  | [] => [(k, v)]
  | (k', v') :: d' =>
      if target_eqb k' k then (k', v) :: d' else (k', v') :: td_set d' k v
  end.

Section Query.
Context {F : Type} `{Arith F}.

(** Lines 496-498: the body of the loop over [nuclide.reactions]. *)
Definition capt_step (reaction : string) (nuc_capt : tdict F) (rx : ReactionTuple F)
    : tdict F :=
  if String.eqb (r_type rx) reaction && fneb (r_branching_ratio rx) f1
  then td_set nuc_capt (r_target rx) (r_branching_ratio rx)
  else nuc_capt.

(** Lines 495-498: [nuc_capt] for one nuclide. *)
Definition nuc_capt_of (reaction : string) (nuclide : Nuclide F) : tdict F :=
  fold_left (capt_step reaction) (reactions nuclide) [].

(** Lines 493-501. *)
Definition get_branch_ratios (c : Chain F) (reaction : string) : odict (tdict F) :=
  fold_left (fun capt nuclide =>
               let nuc_capt := nuc_capt_of reaction nuclide in
               if 0 <? length nuc_capt then od_set capt (name nuclide) nuc_capt else capt)
            (nuclides c) [].

End Query.

(** ** [Chain.from_xml]

    The XML tree and [Nuclide.from_xml] belong to other modules: the
    method is given the [nuclide] elements of the file in document order,
    the [name] attribute of an element and the parser of one element,
    which may raise. *)

Section Load.
Context {F : Type} `{Arith F}.
Variable Element : Type.
Variable element_name : Element -> option string.                    (* elem.get("name") *)
Variable Nuclide_from_xml : Element -> option F -> result (Nuclide F).

(** Lines 361-363. *)
Definition track_reaction (rs : list string) (rx : ReactionTuple F) : list string :=
  if bool_decide (r_type rx ∈ rs) then rs else rs ++ [r_type rx].

(** Lines 355-365: the body of the loop over the elements. *)
Definition from_xml_step (fission_q : gmap string F) (chain : Chain F)
    (ie : nat * Element) : result (Chain F) :=
  let '(i, nuclide_elem) := ie in
  let this_q := match element_name nuclide_elem with
                | Some n => fission_q !! n
                | None => None
                end in
  nuc ← Nuclide_from_xml nuclide_elem this_q;
  Ok (mkChain (nuclides chain ++ [nuc])
              (fold_left track_reaction (reactions nuc) (chain_reactions chain))
              (<[name nuc := i]> (nuclide_dict chain))).

(** Lines 344-367; [fission_q] is [None] or a mapping. *)
Definition from_xml (fission_q : option (gmap string F)) (elems : list Element)
    : result (Chain F) :=
  foldM (from_xml_step (default ∅ fission_q)) (mkChain [] [] ∅) (imap pair elems).

End Load.

(** ** [Chain.from_endf]

    The method reads three sets of ENDF files into three dicts (lines
    175-201) and builds the chain from them (lines 203-303).  The dicts
    are the input here: [rx_data] (the dict [reactions] of the method)
    maps a nuclide to the Q values of its MF=3 sections by MT number,
    [decay_data] maps a nuclide to its decay evaluation, in the order of
    the files, and [fpy_data] maps a nuclide to its fission product
    yields. *)

(** The parts of an [openmc.data.FissionProductYields] the chain reads:
    the energies, or [None], and one table of independent yields for each
    energy. *)
Record FissionProductYields (F : Type) : Type := mkFPY {
  fpy_energies : option (list F);
  fpy_independent : list (odict F)
}.
Arguments mkFPY {F}.
Arguments fpy_energies {F}.
Arguments fpy_independent {F}.

(** [_REACTIONS]: the name of a reaction, its MT values as [sorted(mts)]
    lists them, and the change (dA, dZ) of the mass and atomic numbers. *)
Definition REACTIONS : list (string * list Z * (Z * Z)) :=
  [ ("(n,2n)", 16%Z :: map Z.of_nat (seq 875 17), (-1, 0)%Z);
    ("(n,3n)", [17%Z], (-2, 0)%Z);
    ("(n,4n)", [37%Z], (-3, 0)%Z);
    ("(n,gamma)", [102%Z], (1, 0)%Z);
    ("(n,p)", 103%Z :: map Z.of_nat (seq 600 50), (0, -1)%Z);
    ("(n,a)", 107%Z :: map Z.of_nat (seq 800 50), (-3, -2)%Z) ].

(** What the method keeps besides the chain: the attribute
    [yield_energies] of each nuclide, by position ([None] where the
    method does not assign it), and the lists its messages are printed
    from. *)
Record endf_log (F : Type) : Type := mkLog {
  yield_energies : list (option (list F));
  missing_rx_product : list (string * string * string);
  missing_fpy : list string;
  missing_fp : list (string * F * F)
}.
Arguments mkLog {F}.
Arguments yield_energies {F}.
Arguments missing_rx_product {F}.
Arguments missing_fpy {F}.
Arguments missing_fp {F}.

(** A computation that may raise and whose loops run on fuel. *)
Definition fuel_bind {A B} (c : option (result A)) (k : A -> option (result B))
    : option (result B) :=
  match c with
  | None => None
  | Some (Raise e) => Some (Raise e)
  | Some (Ok a) => k a
  end.

Fixpoint fuel_foldM {A B} (f : A -> B -> option (result A)) (a : A) (l : list B)
    : option (result A) :=
  match l with
  | [] => Some (Ok a)
  | b :: l' => fuel_bind (f a b) (fun a' => fuel_foldM f a' l')
  end.

(** [[f(x) for x in l]] where [f] may raise. *)
Fixpoint mapM {A B} (f : A -> result B) (l : list A) : result (list B) :=
  match l with
  | [] => Ok []
  | a :: l' => b ← f a; bs ← mapM f l'; Ok (b :: bs)
  end.

(** [x < y] on tuples of three integers. *)
Definition zam_ltb (x y : Z * Z * Z) : bool :=
  let '(z1, a1, m1) := x in
  let '(z2, a2, m2) := y in
  ((z1 <? z2) || ((z1 =? z2) && ((a1 <? a2) || ((a1 =? a2) && (m1 <? m2)))))%Z.

Fixpoint insert_by_zam (x : (Z * Z * Z) * string) (l : list ((Z * Z * Z) * string))
    : list ((Z * Z * Z) * string) :=
  match l with
  | [] => [x]
  | y :: l' => if zam_ltb (fst x) (fst y) then x :: l else y :: insert_by_zam x l'
  end.

Section Endf.
Context {F : Type} `{Arith F} `{NuclearData}.

(** [sorted(names, key=openmc.data.zam)]: the keys are computed first,
    and the sort is stable. *)
Definition sorted_by_zam (names : list string) : result (list string) :=
  keyed ← mapM (fun n => k ← zam n; Ok (k, n)) names;
  Ok (map snd (fold_left (fun acc x => insert_by_zam x acc) keyed [])).

(** [mts & reactions_available] is not empty. *)
Definition available (rx : gmap Z F) (mts : list Z) : bool :=
  existsb (fun mt => bool_decide (is_Some (rx !! mt))) mts.

(** Lines 257-262: the Q value of the first MT of [sorted(mts)] that the
    evaluation has; 0.0 when the loop ends without [break]. *)
Fixpoint first_q (rx : gmap Z F) (mts : list Z) : F :=
  match mts with
  | [] => f0
  | mt :: mts' =>
      match rx !! mt with
      | Some q_value => q_value
      | None => first_q rx mts'
      end
  end.

(** [if name not in chain.reactions: chain.reactions.append(name)] *)
Definition append_new (l : list string) (x : string) : list string :=
  if bool_decide (x ∈ l) then l else l ++ [x].

(** Lines 243-265: the body of the loop over [_REACTIONS].  The state is
    [nuclide.reactions], [chain.reactions] and [missing_rx_product]. *)
Definition endf_reaction (decay_data : odict (Decay F)) (parent : string)
    (data : Decay F) (rx : gmap Z F)
    (st : list (ReactionTuple F) * list string * list (string * string * string))
    (entry : string * list Z * (Z * Z))
    : result (list (ReactionTuple F) * list string * list (string * string * string)) :=
  let '(rs, chain_rs, missing) := st in
  let '(nm, mts, (delta_A, delta_Z)) := entry in
  if available rx mts then
    let A := (dk_mass_number data + delta_A)%Z in
    let Z := (dk_atomic_number data + delta_Z)%Z in
    match ATOMIC_SYMBOL !! Z with
    | None => Raise (KeyError (str_of_Z Z))
    | Some symbol =>
        let daughter := format2 symbol A in
        let chain_rs := append_new chain_rs nm in
        let missing :=
          if od_mem decay_data daughter then missing
          else missing ++ [(parent, nm, daughter)] in
        Ok (rs ++ [mkReaction nm (TName daughter) (first_q rx mts) f1], chain_rs, missing)
    end
  else Ok st.

(** Lines 267-276: the fission tuple.  The state is [nuclide.reactions],
    [chain.reactions] and [missing_fpy]. *)
Definition endf_fission (has_fpy : bool) (parent : string) (rx : gmap Z F)
    (st : list (ReactionTuple F) * list string * list string)
    : result (list (ReactionTuple F) * list string * list string) :=
  let '(rs, chain_rs, missing) := st in
  if available rx [18; 19; 20; 21; 38]%Z then
    if has_fpy then
      match rx !! 18%Z with
      | None => Raise (KeyError "18")
      | Some q_value =>
          Ok (rs ++ [mkReaction "fission" TZero q_value f1],
              append_new chain_rs "fission", missing)
      end
    else Ok (rs, chain_rs, missing ++ [parent])
  else Ok st.

(** Lines 241-276 for one nuclide: the new [nuclide.reactions],
    [chain.reactions] and the two lists of missing data. *)
Definition from_endf_reactions (rx_data : gmap string (gmap Z F))
    (decay_data : odict (Decay F)) (has_fpy : bool) (parent : string) (data : Decay F)
    (rs : list (ReactionTuple F)) (chain_rs : list string)
    (missing_rx : list (string * string * string)) (missing_fy : list string)
    : result (list (ReactionTuple F) * list string *
              list (string * string * string) * list string) :=
  match rx_data !! parent with
  | None => Ok (rs, chain_rs, missing_rx, missing_fy)
  | Some rx =>
      '(rs, chain_rs, missing_rx) ←
        foldM (endf_reaction decay_data parent data rx) (rs, chain_rs, missing_rx) REACTIONS;
      '(rs, chain_rs, missing_fy) ← endf_fission has_fpy parent rx (rs, chain_rs, missing_fy);
      Ok (rs, chain_rs, missing_rx, missing_fy)
  end.

(** [yields[product] += y] on a [defaultdict(float)]. *)
Fixpoint od_add (d : odict F) (k : string) (y : F) : odict F :=
  match d with
  | [] => [(k, fadd f0 y)]
  | (k', v) :: d' =>
      if String.eqb k' k then (k', fadd v y) :: d' else (k', v) :: od_add d' k y
  end.

(** Lines 289-296: the body of the loop over one table of yields.  The
    state is [yield_replace] and [yields]. *)
Definition yield_step (fuel : nat) (decay_data : odict (Decay F))
    (st : F * odict F) (py : string * F) : option (result (F * odict F)) :=
  let '(yield_replace, yields) := st in
  let '(product, y) := py in
  if od_mem decay_data product then Some (Ok (yield_replace, od_add yields product y))
  else
    fuel_bind (replace_missing fuel product decay_data) (fun daughter =>
      Some (Ok (fadd yield_replace y, od_add yields daughter y))).

(** [d[E] = v] on [nuclide.yield_data], whose keys are floats. *)
Fixpoint yd_set (d : list (F * list (string * F))) (E : F) (v : list (string * F))
    : list (F * list (string * F)) :=
  match d with
  | [] => [(E, v)]
  | (E', v') :: d' => if feqb E' E then (E', v) :: d' else (E', v') :: yd_set d' E v
  end.

(** Lines 286-303: the body of the loop over the energies.  The state is
    [nuclide.yield_data] and [missing_fp]. *)
Definition yield_table (fuel : nat) (decay_data : odict (Decay F)) (parent : string)
    (st : list (F * list (string * F)) * list (string * F * F)) (Et : F * odict F)
    : option (result (list (F * list (string * F)) * list (string * F * F))) :=
  let '(yield_data, missing) := st in
  let '(E, table) := Et in
  fuel_bind (fuel_foldM (yield_step fuel decay_data) (f0, []) table)
    (fun '(yield_replace, yields) =>
       let missing :=
         if fgtb yield_replace f0 then missing ++ [(parent, E, yield_replace)]
         else missing in
       match sorted_by_zam (od_keys yields) with
       | Raise e => Some (Raise e)
       | Ok ks =>
           Some (Ok (yd_set yield_data E
                            (map (fun k => (k, default f0 (od_get yields k))) ks),
                     missing))
       end).

(** Lines 278-303 for one nuclide: its [yield_energies], the new
    [nuclide.yield_data] and [missing_fp]. *)
Definition from_endf_yields (fuel : nat) (decay_data : odict (Decay F))
    (parent : string) (fpy : FissionProductYields F)
    (yield_data : list (F * list (string * F))) (missing : list (string * F * F))
    : option (result (list F * list (F * list (string * F)) * list (string * F * F))) :=
  let energies := match fpy_energies fpy with
                  | Some es => es
                  | None => [f0]
                  end in
  fuel_bind (fuel_foldM (yield_table fuel decay_data parent) (yield_data, missing)
                        (zip energies (fpy_independent fpy)))
    (fun '(yield_data, missing) => Some (Ok (energies, yield_data, missing))).

(** Lines 209-303: the body of the loop over the sorted parents.  The
    nuclide is appended to the chain when the body starts and filled in
    place; an exception ends the method, so that the chain is observed
    with complete nuclides only. *)
Definition from_endf_nuclide (fuel : nat) (rx_data : gmap string (gmap Z F))
    (decay_data : odict (Decay F)) (fpy_data : gmap string (FissionProductYields F))
    (st : Chain F * endf_log F) (ip : nat * string)
    : option (result (Chain F * endf_log F)) :=
  let '(chain, log) := st in
  let '(idx, parent) := ip in
  match od_get decay_data parent with
  | None => Some (Raise (KeyError parent))
  | Some data =>
      fuel_bind (from_endf_decay fuel decay_data parent data) (fun nuclide =>
      fuel_bind (Some (from_endf_reactions rx_data decay_data
                         (bool_decide (is_Some (fpy_data !! parent))) parent data
                         (reactions nuclide) (chain_reactions chain)
                         (missing_rx_product log) (missing_fpy log)))
        (fun '(rs, chain_rs, missing_rx, missing_fy) =>
      fuel_bind (match fpy_data !! parent with
                 | None => Some (Ok (None, yield_data nuclide, missing_fp log))
                 | Some fpy =>
                     fuel_bind (from_endf_yields fuel decay_data parent fpy
                                  (yield_data nuclide) (missing_fp log))
                       (fun '(es, yd, mfp) => Some (Ok (Some es, yd, mfp)))
                 end)
        (fun '(energies, yd, mfp) =>
           Some (Ok (mkChain (nuclides chain ++
                                [mkNuclide (name nuclide) (half_life nuclide)
                                           (decay_energy nuclide) (decay_modes nuclide) rs yd])
                             chain_rs
                             (<[parent := idx]> (nuclide_dict chain)),
                     mkLog (yield_energies log ++ [energies]) missing_rx missing_fy mfp)))))
  end.

(** Lines 171 and 203-329. *)
Definition from_endf (fuel : nat) (rx_data : gmap string (gmap Z F))
    (decay_data : odict (Decay F)) (fpy_data : gmap string (FissionProductYields F))
    : option (result (Chain F * endf_log F)) :=
  match sorted_by_zam (od_keys decay_data) with
  | Raise e => Some (Raise e)
  | Ok parents =>
      fuel_foldM (from_endf_nuclide fuel rx_data decay_data fpy_data)
                 (mkChain [] [] ∅, mkLog [] [] [] []) (imap pair parents)
  end.

End Endf.

(** ** [get_temp] ([scripts/imagingreso_getdata_from_ace.py]) *)

(** [s[-n]] for a literal [n] that is not 0: the character [n] places
    before the end. *)
Definition from_end (s : string) (n : nat) : result ascii :=
  let l := list_ascii_of_string s in
  if n <=? length l then nth_item l (length l - n) else Raise IndexError.

Definition temp_dict : list (ascii * string) :=
  [ ("0"%char, "294K"); ("1"%char, "600K"); ("2"%char, "900K"); ("3"%char, "1200K");
    ("4"%char, "2500K"); ("5"%char, "0K"); ("6"%char, "250K") ].

Definition get_temp (path : string) : result string :=
  _temp_key ← from_end path 3;
  match List.find (fun kv => Ascii.eqb (fst kv) _temp_key) temp_dict with
  | Some kv => Ok (snd kv)
  | None => Raise (KeyError (String _temp_key EmptyString))
  end.

(** ** [Chain.validate]

    [check_type] and [check_greater_than] belong to
    [openmc.checkvalue] and [Nuclide.validate] to [nuclide.py]: the
    method is given the check of the tolerance and the validation of one
    nuclide, which may raise. *)

(** [sorted(names)] on strings. *)
Fixpoint insert_name (x : string) (l : list string) : list string :=
  match l with
  | [] => [x]
  | y :: l' => if String.ltb x y then x :: l else y :: insert_name x l'
  end.

Definition sorted_names (names : list string) : list string :=
  fold_left (fun acc x => insert_name x acc) names [].

Section Validate.
Context {F : Type} `{Arith F}.
Variable check_tolerance : F -> result unit.
Variable Nuclide_validate : Nuclide F -> bool -> bool -> F -> result bool.

(** Lines 725-729: the loop over the sorted names, from [valid]. *)
Fixpoint validate_loop (c : Chain F) (strict quiet : bool) (tolerance : F)
    (names : list string) (valid : bool) : result bool :=
  match names with
  | [] => Ok valid
  | name :: names' =>
      nuc ← chain_getitem c name;
      stat ← Nuclide_validate nuc strict quiet tolerance;
      if quiet && negb stat then Ok stat
      else validate_loop c strict quiet tolerance names' (valid && stat)
  end.

(** Lines 721-730. *)
Definition validate (c : Chain F) (strict quiet : bool) (tolerance : F) : result bool :=
  _ ← check_tolerance tolerance;
  validate_loop c strict quiet tolerance
                (sorted_names (map fst (map_to_list (nuclide_dict c)))) true.

End Validate.

(** ** A concrete [openmc.data] *)

(** Modelled from the spec: the element symbols of
    [openmc.data.ATOMIC_SYMBOL], by atomic number, the free neutron being
    Z = 0 and the proton [H1]. *)
Definition element_symbols : list string :=
  [ "n"; "H"; "He"; "Li"; "Be"; "B"; "C"; "N"; "O"; "F"; "Ne"; "Na"; "Mg"; "Al";
    "Si"; "P"; "S"; "Cl"; "Ar"; "K"; "Ca"; "Sc"; "Ti"; "V"; "Cr"; "Mn"; "Fe"; "Co";
    "Ni"; "Cu"; "Zn"; "Ga"; "Ge"; "As"; "Se"; "Br"; "Kr"; "Rb"; "Sr"; "Y"; "Zr";
    "Nb"; "Mo"; "Tc"; "Ru"; "Rh"; "Pd"; "Ag"; "Cd"; "In"; "Sn"; "Sb"; "Te"; "I";
    "Xe"; "Cs"; "Ba"; "La"; "Ce"; "Pr"; "Nd"; "Pm"; "Sm"; "Eu"; "Gd"; "Tb"; "Dy";
    "Ho"; "Er"; "Tm"; "Yb"; "Lu"; "Hf"; "Ta"; "W"; "Re"; "Os"; "Ir"; "Pt"; "Au";
    "Hg"; "Tl"; "Pb"; "Bi"; "Po"; "At"; "Rn"; "Fr"; "Ra"; "Ac"; "Th"; "Pa"; "U";
    "Np"; "Pu"; "Am"; "Cm"; "Bk"; "Cf"; "Es"; "Fm"; "Md"; "No"; "Lr"; "Rf"; "Db";
    "Sg"; "Bh"; "Hs"; "Mt"; "Ds"; "Rg"; "Cn"; "Nh"; "Fl"; "Mc"; "Lv"; "Ts"; "Og" ].

Definition is_lower (c : ascii) : bool :=
  let n := nat_of_ascii c in (97 <=? n) && (n <=? 122).
Definition is_upper (c : ascii) : bool :=
  let n := nat_of_ascii c in (65 <=? n) && (n <=? 90).

Fixpoint span_lower (s : string) : string * string :=
  match s with
  | String c s' =>
      if is_lower c then let '(a, b) := span_lower s' in (String c a, b)
      else (EmptyString, s)
  | EmptyString => (EmptyString, EmptyString)
  end.

Fixpoint drop_str (n : nat) (s : string) : string :=
  match n, s with
  | S n', String _ s' => drop_str n' s'
  | _, _ => s
  end.

Fixpoint symbol_number (symbol : string) (z : Z) (table : list string) : option Z :=
  match table with
  | [] => None
  | s :: table' => if String.eqb s symbol then Some z else symbol_number symbol (z + 1) table'
  end.

(** The metastable suffix: [_m] or [_e] and a number, 0 when absent. *)
Definition parse_state (s : string) : Z :=
  match s with
  | String "_" (String c rest) =>
      if (Ascii.eqb c "m" || Ascii.eqb c "e") then int_of_digits (leading_digits rest)
      else 0%Z
  | _ => 0%Z
  end.

(** Modelled from the spec: [openmc.data.zam], [openmc.data.gnd_name] and
    the table [openmc.data.ATOMIC_SYMBOL] are outside this module.  A name
    is "Symbol+MassNumber[_metastable-suffix]" and is decomposed into
    (atomic number Z, mass number A, metastable state); the free neutron
    is Z = 0, A = 1 and the proton is [H1]. *)
Definition zam_of_name (nm : string) : result (Z * Z * Z) :=
  match nm with
  | String c rest =>
      if is_upper c || Ascii.eqb c "n" then
        let '(low, rest1) := span_lower rest in
        match leading_digits rest1 with
        | [] => Raise ValueError
        | ds =>
            match symbol_number (String c low) 0 element_symbols with
            | None => Raise (KeyError (String c low))
            | Some z =>
                Ok (z, int_of_digits ds, parse_state (drop_str (length ds) rest1))
            end
        end
      else Raise ValueError
  | EmptyString => Raise ValueError
  end.

(** Modelled from the spec: [openmc.data.ATOMIC_SYMBOL] as a dict. *)
Definition symbol_table : gmap Z string :=
  list_to_map (imap (fun i s => (Z.of_nat i, s)) element_symbols).

(** Modelled from the spec: [openmc.data.gnd_name], the name
    "Symbol+MassNumber[_metastable-suffix]" of (Z, A, state). *)
Definition name_of_zam (z a m : Z) : string :=
  let symbol := default "" (symbol_table !! z) in
  if (0 <? m)%Z then format2 symbol a ++ "_m" ++ str_of_Z m else format2 symbol a.

#[export] Instance endf_names : NuclearData := {
  ATOMIC_SYMBOL := symbol_table;
  zam := zam_of_name;
  gnd_name := name_of_zam
}.

(** * The vocabulary of the properties *)

Section ResolverTerms.
Context {F : Type} `{Arith F} `{NuclearData}.

(** The candidate name after [n] turns of the loop, when every symbol on
    the way is in the table. *)
Fixpoint walk (n : nat) (beta_minus : bool) (za : Z * Z) (product : string)
    : option string :=
  match n with
  | O => Some product
  | S n' =>
      let za' := decay_step beta_minus za in
      match ATOMIC_SYMBOL !! fst za' with
      | None => None
      | Some sym => walk n' beta_minus za' (format2 sym (snd za'))
      end
  end.

(** The name the walk starts from: the product, or its ground state. *)
Definition start_name (product symbol : string) (a state : Z) : string :=
  if (state =? 0)%Z then product else format2 symbol a.

(** The daughter of a mode is in the decay data, or [replace_missing]
    finds a replacement within [fuel] turns. *)
Definition resolves (fuel : nat) (decay_data : odict (Decay F)) (mode : DecayMode F) : bool :=
  match mode_target fuel decay_data mode with
  | Some (Ok _) => true
  | _ => false
  end.

End ResolverTerms.

(** The ratios [from_endf] stores for source ratios [brs]: the last one
    is recomputed when the running sum is not 1.0. *)
Definition stored_ratios {F} `{Arith F} (brs : list F) : list F :=
  match brs with
  | [] => []
  | _ => removelast brs ++
         [if fneb (fsum brs) f1 then fsub f1 (fsum (removelast brs)) else List.last brs f0]
  end.

Section MatrixTerms.
Context {F : Type} {AF : Arith F}.

(** [<] on the energies of a table is irreflexive and transitive. *)
Definition ordered_keys (keys : list F) : bool :=
  forallb (fun a =>
    negb (fltb a a) &&
    forallb (fun b =>
      forallb (fun c => implb (fltb a b && fltb b c) (fltb a c)) keys) keys) keys.

(** No gain of the nuclide at position [i] lands on its own diagonal
    entry: neither a reaction target nor a fission product is the nuclide
    itself. *)
Definition off_diagonal (c : Chain F) (i : nat) (nuc : Nuclide F) : bool :=
  forallb (fun rx : ReactionTuple F =>
             match r_target rx with
             | TName t => negb (bool_decide (nuclide_dict c !! t = Some i))
             | _ => true
             end) (reactions nuc) &&
  forallb (fun ed : F * list (string * F) =>
             forallb (fun py : string * F =>
                        negb (bool_decide (nuclide_dict c !! fst py = Some i))) (snd ed))
          (yield_data nuc).

(** No decay of the nuclide at position [i] leads to the nuclide itself. *)
Definition decay_off_diagonal (c : Chain F) (i : nat) (nuc : Nuclide F) : bool :=
  forallb (fun mode : DecayTuple F =>
             negb (bool_decide (nuclide_dict c !! d_target mode = Some i)))
          (decay_modes nuc).

(** The diagonal entry of a nuclide after its decay block: minus the
    decay constant, when the nuclide decays. *)
Definition decay_diagonal (log2 : F) (nuc : Nuclide F) : F :=
  if negb (n_decay_modes nuc =? 0) then
    match half_life nuc with
    | Some hl => if fneb (fdiv log2 hl) f0 then fsub f0 (fdiv log2 hl) else f0
    | None => f0
    end
  else f0.

(** Two matrices agree outside column [j]. *)
Definition same_outside (j : nat) (m m' : gmap (nat * nat) F) : Prop :=
  forall k : nat * nat, snd k <> j -> m_get m' k = m_get m k.

(** [nuc_rates[rates.index_rx[r]]] *)
Definition path_rate_of (rates : ReactionRates F) (nuc_rates : list F) (r : string) : result F :=
  r_id ← getitem (index_rx rates) r;
  nth_item nuc_rates r_id.

(** The loss of one reaction type on a diagonal entry [d]. *)
Definition subtract_rate (rates : ReactionRates F) (nuc_rates : list F) (d : F) (r : string) : F :=
  match path_rate_of rates nuc_rates r with
  | Ok p => if fneb p f0 then fsub d p else d
  | Raise _ => d
  end.

End MatrixTerms.

Section EditTerms.
Context {F : Type} {AF : Arith F} {ND : NuclearData}.

(** A transition of the requested type whose target is no secondary
    particle. *)
Definition edited (reaction : string) (rx : ReactionTuple F) : bool :=
  String.eqb (r_type rx) reaction && negb (target_in (r_target rx) (secondary_of reaction)).

Fixpoint edited_positions (reaction : string) (off : nat) (rxs : list (ReactionTuple F))
    : list nat :=
  match rxs with
  | [] => []
  | rx :: rxs' =>
      if edited reaction rx then off :: edited_positions reaction (S off) rxs'
      else edited_positions reaction (S off) rxs'
  end.

(** The ground state the scan leaves in [grounds]: the target of the
    last edited transition whose name has no ["_m"]. *)
Fixpoint observed_ground (reaction : string) (g : option string)
    (rxs : list (ReactionTuple F)) : option string :=
  match rxs with
  | [] => g
  | rx :: rxs' =>
      observed_ground reaction
        (if edited reaction rx then
           match r_target rx with
           | TName t => if contains "_m" t then g else Some t
           | _ => g
           end
         else g) rxs'
  end.

(** The sum check as a test: not above the upper bound, and not below
    the lower bound when the ground state [g] is among the keys. *)
Definition in_tolerance (tolerance s : F) (sub : odict F) (g : string) : bool :=
  negb (fgeb s (fadd f1 tolerance)) &&
  negb (od_mem sub g && fleb s (fsub f1 tolerance)).

(** What is known of a parent that validation put in [rxn_ix_map]. *)
Definition validated (c : Chain F) (brs : branch_ratios F) (reaction : string)
    (tolerance : F) (vs : vstate F) (p : string) (ixs : list nat) : Prop :=
  exists idx nuc id sub g,
    nuclide_dict c !! p = Some idx /\
    nuclides c !! idx = Some nuc /\
    (p, (id, sub)) ∈ brs /\
    ixs = edited_positions reaction 0 (reactions nuc) /\
    ixs <> [] /\
    sums vs !! p = Some (fsum (od_values sub)) /\
    grounds vs !! p = Some g /\
    observed_ground reaction None (reactions nuc) = Some g /\
    in_tolerance tolerance (fsum (od_values sub)) sub g = true.

Definition validation_inv (c : Chain F) (reaction : string) (tolerance : F)
    (done : branch_ratios F) (vs : vstate F) : Prop :=
  NoDup (od_keys (rxn_ix_map vs)) /\
  (forall p ixs, (p, ixs) ∈ rxn_ix_map vs ->
     p ∈ od_keys done /\ validated c done reaction tolerance vs p ixs) /\
  (forall q, q ∉ od_keys done -> grounds vs !! q = None).

(** The index of a chain names each position once. *)
Definition index_injective (c : Chain F) : Prop :=
  NoDup (map snd (map_to_list (nuclide_dict c))).

(** No two parents of [branch_ratios] map to one dict object. *)
Definition unshared (brs : branch_ratios F) : Prop :=
  NoDup (map (fun e : string * (nat * odict F) => fst (snd e)) brs).

(** The Q value the new transitions carry: that of the first edited one. *)
Definition first_Q (reaction : string) (nuc : Nuclide F) : F :=
  match List.find (edited reaction) (reactions nuc) with
  | Some rx0 => r_Q rx0
  | None => f0
  end.

Definition all_meta (sub : odict F) : bool :=
  forallb (fun kv : string * F => contains "_m" (fst kv)) sub.

(** The transitions of a parent after its ratios were applied: those not
    edited, one for each supplied ratio, and the ground-state complement
    when all supplied targets are metastable and the sum [s] is not 1.0. *)
Definition new_reactions (reaction : string) (nuc : Nuclide F) (sub : odict F)
    (s : F) (g : string) : list (ReactionTuple F) :=
  List.filter (fun rx => negb (edited reaction rx)) (reactions nuc) ++
  map (fun kv : string * F =>
         mkReaction reaction (TName (fst kv)) (first_Q reaction nuc) (snd kv)) sub ++
  (if all_meta sub && fneb s f1
   then [mkReaction reaction (TName g) (first_Q reaction nuc) (fsub f1 s)]
   else []).

Definition carries (c : Chain F) (reaction : string) : bool :=
  existsb (fun nuc : Nuclide F =>
             existsb (fun rx : ReactionTuple F => String.eqb (r_type rx) reaction)
                     (reactions nuc)) (nuclides c).

(** The nuclide has a transition of the requested type ... *)
Definition has_reaction (reaction : string) (nuc : Nuclide F) : bool :=
  existsb (fun rx : ReactionTuple F => String.eqb (r_type rx) reaction) (reactions nuc).

(** ... and every such transition goes to a metastable state. *)
Definition metastable_only (reaction : string) (nuc : Nuclide F) : bool :=
  forallb (fun rx : ReactionTuple F =>
             implb (String.eqb (r_type rx) reaction)
                   match r_target rx with
                   | TName t => contains "_m" t
                   | _ => false
                   end) (reactions nuc).

End EditTerms.

(** ** Terms for the loaders, the queries and the whole matrix *)

(** A transition [get_branch_ratios] reports: of the requested type,
    with a ratio that is not 1.0. *)
Definition reported {F} `{Arith F} (reaction : string) (rx : ReactionTuple F) : bool :=
  String.eqb (r_type rx) reaction && fneb (r_branching_ratio rx) f1.

(** The index of the chain is the dict of the names of its nuclides to
    their positions, and no two nuclides have one name. *)
Definition indexed {F} (c : Chain F) : Prop :=
  NoDup (map name (nuclides c)) /\
  nuclide_dict c = list_to_map (imap (fun i nuc => (name nuc, i)) (nuclides c)).

(** The attributes of a nuclide that [set_branch_ratios] has no business
    with. *)
Definition same_but_reactions {F} (nuc nuc' : Nuclide F) : Prop :=
  name nuc' = name nuc /\ half_life nuc' = half_life nuc /\
  decay_energy nuc' = decay_energy nuc /\ decay_modes nuc' = decay_modes nuc /\
  yield_data nuc' = yield_data nuc.

(** The transitions of the other types, in order. *)
Definition other_reactions {F} (reaction : string) (nuc : Nuclide F) : list (ReactionTuple F) :=
  List.filter (fun rx => negb (String.eqb (r_type rx) reaction)) (reactions nuc).

(** A dict of ratios as [get_branch_ratios] reports it: without the
    ratios equal to 1.0, and not at all when nothing is left. *)
Definition as_reported {F} `{Arith F} (sub : odict F) : option (tdict F) :=
  match List.filter (fun kv : string * F => fneb (snd kv) f1) sub with
  | [] => None
  | l => Some (map (fun kv : string * F => (TName (fst kv), snd kv)) l)
  end.

(** The index maps a name to the last position that holds a nuclide of
    that name. *)
Definition names_last {F} (c : Chain F) : Prop :=
  forall n i,
    nuclide_dict c !! n = Some i <->
    (exists nuc, nuclides c !! i = Some nuc /\ name nuc = n) /\
    (forall j nuc', nuclides c !! j = Some nuc' -> name nuc' = n -> j <= i).

(** The list of reactions of the chain names each type once, and names
    the types of the transitions of its nuclides. *)
Definition reactions_listed {F} (c : Chain F) : Prop :=
  NoDup (chain_reactions c) /\
  forall r, r ∈ chain_reactions c <->
            exists nuc rx, nuc ∈ nuclides c /\ rx ∈ reactions nuc /\ r_type rx = r.

(** The Q value [from_xml] hands to the parser of an element:
    [fission_q.get(elem.get("name"))]. *)
Definition q_for {F} {Element : Type} (element_name : Element -> option string)
    (fission_q : option (gmap string F)) (e : Element) : option F :=
  match element_name e with
  | Some n => default ∅ fission_q !! n
  | None => None
  end.

Section EndfTerms.
Context {F : Type} {AF : Arith F} {ND : NuclearData}.

(** The transition [from_endf] builds for one entry of [_REACTIONS]:
    none when the evaluation has no MT of the entry. *)
Definition endf_tuple (data : Decay F) (rx : gmap Z F) (entry : string * list Z * (Z * Z))
    : list (ReactionTuple F) :=
  let '(nm, mts, (delta_A, delta_Z)) := entry in
  if available rx mts then
    match ATOMIC_SYMBOL !! (dk_atomic_number data + delta_Z)%Z with
    | Some symbol =>
        [mkReaction nm (TName (format2 symbol (dk_mass_number data + delta_A)%Z))
                    (first_q rx mts) f1]
    | None => []
    end
  else [].

(** The fission transition: for a nuclide with fission yields whose
    evaluation has one of the fission MTs. *)
Definition fission_tuple (has_fpy : bool) (rx : gmap Z F) : list (ReactionTuple F) :=
  if available rx [18; 19; 20; 21; 38]%Z && has_fpy then
    match rx !! 18%Z with
    | Some q_value => [mkReaction "fission" TZero q_value f1]
    | None => []
    end
  else [].

(** The transitions of a nuclide of the chain, in order. *)
Definition endf_transitions (rx_data : gmap string (gmap Z F)) (has_fpy : bool)
    (parent : string) (data : Decay F) : list (ReactionTuple F) :=
  match rx_data !! parent with
  | None => []
  | Some rx => flat_map (endf_tuple data rx) REACTIONS ++ fission_tuple has_fpy rx
  end.

(** A nuclide as [from_endf] fills it: its decay attributes come from
    the decay block, its transitions from the reaction block and its
    yields from the yield block, all run for its own name. *)
Definition built (fuel : nat) (rx_data : gmap string (gmap Z F))
    (decay_data : odict (Decay F)) (fpy_data : gmap string (FissionProductYields F))
    (nuc : Nuclide F) : Prop :=
  exists data n0,
    od_get decay_data (name nuc) = Some data /\
    from_endf_decay fuel decay_data (name nuc) data = Some (Ok n0) /\
    half_life nuc = half_life n0 /\ decay_energy nuc = decay_energy n0 /\
    decay_modes nuc = decay_modes n0 /\
    reactions nuc = endf_transitions rx_data (bool_decide (is_Some (fpy_data !! name nuc)))
                                     (name nuc) data /\
    match fpy_data !! name nuc with
    | None => yield_data nuc = []
    | Some fpy =>
        exists missing es missing',
          from_endf_yields fuel decay_data (name nuc) fpy [] missing
            = Some (Ok (es, yield_data nuc, missing'))
    end.

(** The nuclides of a list are in the order of their (Z, A, state). *)
Definition zam_ordered (names : list string) : Prop :=
  forall i j ni nj,
    i < j -> names !! i = Some ni -> names !! j = Some nj ->
    exists ki kj, zam ni = Ok ki /\ zam nj = Ok kj /\ zam_ltb kj ki = false.

End EndfTerms.

(** The reaction types of [from_endf], in the order it appends them. *)
Definition endf_reaction_types : list string :=
  map (fun e : string * list Z * (Z * Z) => e.1.1) REACTIONS ++ ["fission"].

Section YieldTerms.
Context {F : Type} {AF : Arith F} {ND : NuclearData}.

(** The name a fission product is stored under (lines 291-296): its own
    when the decay data hold it, else the one [replace_missing] returns. *)
Definition stored_under (fuel : nat) (decay_data : odict (Decay F)) (product : string)
    : option string :=
  if od_mem decay_data product then Some product
  else match replace_missing fuel product decay_data with
       | Some (Ok daughter) => Some daughter
       | _ => None
       end.

(** The yields of the entries of a table that are stored under [k], in
    the order of the table. *)
Definition yields_of (fuel : nat) (decay_data : odict (Decay F)) (table : odict F)
    (k : string) : list F :=
  map snd (List.filter (fun py : string * F =>
                          bool_decide (stored_under fuel decay_data py.1 = Some k)) table).

End YieldTerms.

Section ReadyTerms.
Context {F : Type} {AF : Arith F}.

(** The decay block of a nuclide has what it reads: a half-life that is
    set and not zero, and every decay target in the chain. *)
Definition decay_ready (c : Chain F) (nuc : Nuclide F) : bool :=
  (n_decay_modes nuc =? 0) ||
  (match half_life nuc with
   | Some hl => negb (feqb hl f0)
   | None => false
   end &&
   forallb (fun mode : DecayTuple F =>
              String.eqb (d_target mode) "Nothing" || chain_contains c (d_target mode))
           (decay_modes nuc)).

(** A transition has what the reaction block reads: a column in the
    rate table, and its target in the chain (for fission, a table of
    yields whose products are in the chain). *)
Definition reaction_ready (c : Chain F) (rates : ReactionRates F) (nuc_rates : list F)
    (nuc : Nuclide F) (rx : ReactionTuple F) : bool :=
  match index_rx rates !! r_type rx with
  | Some r_id =>
      (r_id <? length nuc_rates) &&
      (target_is_nothing (r_target rx) ||
       if String.eqb (r_type rx) "fission" then
         negb (length (yield_data nuc) =? 0) &&
         forallb (fun ed : F * list (string * F) =>
                    forallb (fun py : string * F => chain_contains c (fst py)) (snd ed))
                 (yield_data nuc)
       else match r_target rx with
            | TName t => chain_contains c t
            | _ => false
            end)
  | None => false
  end.

Definition reactions_ready (c : Chain F) (rates : ReactionRates F) (nuc : Nuclide F) : bool :=
  match index_nuc rates !! name nuc with
  | None => true
  | Some nuc_ind =>
      match rates_data rates !! nuc_ind with
      | Some nuc_rates => forallb (reaction_ready c rates nuc_rates nuc) (reactions nuc)
      | None => false
      end
  end.

(** The chain and the rate table hold everything [form_matrix] reads. *)
Definition matrix_ready (c : Chain F) (rates : ReactionRates F) : bool :=
  forallb (fun nuc => decay_ready c nuc && reactions_ready c rates nuc) (nuclides c).

(** A nuclide for which [form_matrix] has nothing to do: it does not
    decay and the rate table does not know it. *)
Definition idle (rates : ReactionRates F) (nuc : Nuclide F) : bool :=
  (n_decay_modes nuc =? 0) && bool_decide (index_nuc rates !! name nuc = None).

(** The entries of [m'] that [m] does not have are in column [j], on
    the diagonal or in the row of a nuclide of the index. *)
Definition written (c : Chain F) (j : nat) (m m' : gmap (nat * nat) F) : Prop :=
  forall key : nat * nat,
    is_Some (m' !! key) ->
    is_Some (m !! key) \/
    (key.2 = j /\ (key.1 = j \/ exists nm, nuclide_dict c !! nm = Some key.1)).

(** The gains the decay block adds in row [k] (lines 418-425): ratio
    times decay constant for each mode whose target the index puts at
    [k], in the order of the modes; a target ['Nothing'] and a gain of
    0.0 add nothing. *)
Definition decay_gains_to (c : Chain F) (decay_constant : F) (modes : list (DecayTuple F))
    (k : nat) : list F :=
  map (fun mode : DecayTuple F => fmul (d_branching_ratio mode) decay_constant)
      (List.filter (fun mode : DecayTuple F =>
                      negb (String.eqb (d_target mode) "Nothing") &&
                      fneb (fmul (d_branching_ratio mode) decay_constant) f0 &&
                      bool_decide (nuclide_dict c !! d_target mode = Some k)) modes).

End ReadyTerms.

Section ScanTerms.
Context {F : Type} {AF : Arith F}.

(** An entry of the decay data that the scan of [replace_missing] takes
    as an isotope of the element and that binds [mass_longest_lived]
    when nothing is bound yet: it is stable, or its half-life is above
    0.0. *)
Definition binds_mass (symbol : string) (entry : string * Decay F) : bool :=
  match match_isotope symbol entry.1 with
  | Some _ => dk_stable entry.2 || fgtb (dk_half_life entry.2) f0
  | None => false
  end.

End ScanTerms.

(** The atomic numbers the walk towards heavier elements can reach from
    [z]: those above [z] up to 99, and 97 to 99, among which it cycles. *)
Definition on_the_way_up (z z' : Z) : Prop :=
  ((z < z' /\ z' <= 99) \/ (97 <= z' /\ z' <= 99))%Z.

Section LogTerms.
Context {F : Type} {AF : Arith F}.

(** Lines 254-255: the entry of [missing_rx_product] for a transition
    whose target has no decay data. *)
Definition missing_of (dd : odict (Decay F)) (parent : string) (rx : ReactionTuple F)
    : list (string * string * string) :=
  match r_target rx with
  | TName daughter => if od_mem dd daughter then [] else [(parent, r_type rx, daughter)]
  | _ => []
  end.

(** The transitions of a nuclide whose target is no nuclide of the
    chain, as (parent, reaction, target). *)
Definition dangling (c : Chain F) (nuc : Nuclide F) : list (string * string * string) :=
  flat_map (fun rx : ReactionTuple F =>
              match r_target rx with
              | TName daughter =>
                  if chain_contains c daughter then [] else [(name nuc, r_type rx, daughter)]
              | _ => []
              end) (reactions nuc).

(** A nuclide whose evaluation has a fission MT and that has no fission
    product yields. *)
Definition lacks_yields (rx_data : gmap string (gmap Z F))
    (fpy_data : gmap string (FissionProductYields F)) (nuc : Nuclide F) : bool :=
  match rx_data !! name nuc with
  | Some rx =>
      available rx [18; 19; 20; 21; 38]%Z && negb (bool_decide (is_Some (fpy_data !! name nuc)))
  | None => false
  end.

End LogTerms.

Section LoadTerms.
Context {F : Type} {AF : Arith F} {ND : NuclearData}.

(** [openmc.data.zam] reads the name. *)
Definition parses (n : string) : bool :=
  match zam n with
  | Ok _ => true
  | Raise _ => false
  end.

(** A fission product is in the decay data, or [replace_missing] finds
    within [fuel] turns a replacement whose name [zam] reads. *)
Definition product_resolves (fuel : nat) (decay_data : odict (Decay F)) (product : string)
    : bool :=
  od_mem decay_data product ||
  match replace_missing fuel product decay_data with
  | Some (Ok daughter) => parses daughter
  | _ => false
  end.

(** The reaction block has what it reads: a symbol for the atomic number
    of each product, and the Q value of MT 18 for a nuclide with a
    fission MT and yields. *)
Definition reactions_load (data : Decay F) (rx : gmap Z F) (has_fpy : bool) : bool :=
  forallb (fun entry : string * list Z * (Z * Z) =>
             negb (available rx entry.1.2) ||
             bool_decide (is_Some (ATOMIC_SYMBOL !! (dk_atomic_number data + entry.2.2)%Z)))
          REACTIONS &&
  (negb (available rx [18; 19; 20; 21; 38]%Z) || negb has_fpy ||
   bool_decide (is_Some (rx !! 18%Z))).

(** The three blocks of [from_endf] have what they read for one entry of
    the decay data. *)
Definition nuclide_loads (fuel : nat) (rx_data : gmap string (gmap Z F))
    (decay_data : odict (Decay F)) (fpy_data : gmap string (FissionProductYields F))
    (entry : string * Decay F) : bool :=
  (negb (negb (dk_stable entry.2) && fneb (dk_half_life entry.2) f0) ||
   forallb (resolves fuel decay_data) (dk_modes entry.2)) &&
  match rx_data !! entry.1 with
  | Some rx => reactions_load entry.2 rx (bool_decide (is_Some (fpy_data !! entry.1)))
  | None => true
  end &&
  match fpy_data !! entry.1 with
  | Some fpy =>
      forallb (fun table : odict F =>
                 forallb (fun py : string * F => product_resolves fuel decay_data py.1) table)
              (fpy_independent fpy)
  | None => true
  end.

(** [from_endf] has what it reads: names that [zam] reads, and the data
    of each nuclide. *)
Definition library_loads (fuel : nat) (rx_data : gmap string (gmap Z F))
    (decay_data : odict (Decay F)) (fpy_data : gmap string (FissionProductYields F)) : bool :=
  forallb parses (od_keys decay_data) &&
  forallb (nuclide_loads fuel rx_data decay_data fpy_data) decay_data.

End LoadTerms.

(** What [self[name]] validates to: [v] of the nuclide. *)
Definition validates {F} (c : Chain F) (v : Nuclide F -> bool) (name : string) : bool :=
  match chain_getitem c name with
  | Ok nuc => v nuc
  | Raise _ => true
  end.

(** * Example data (binary64) *)

(** Y86_m1 against a library holding Sr86 and Y89 (both stable). *)
Definition sr_y_library : odict (Decay float) :=
  [("Sr86", mkDecayData true 38 86 0%float [] []);
   ("Y89", mkDecayData true 39 89 0%float [] [])].

(** Bi212 with source ratios 0.6406 and 0.3593997, which add up to
    0.9999997. *)
Definition stable_data : Decay float := mkDecayData true 0 0 0%float [] [].
Definition bi212_data : Decay float :=
  mkDecayData false 83 212 3633%float [2.8e6%float]
    [mkMode ["beta-"] "Po212" 0.6406%float; mkMode ["alpha"] "Tl208" 0.3593997%float].
Definition bi212_library : odict (Decay float) :=
  [("Tl208", stable_data); ("Bi212", bi212_data); ("Po212", stable_data)].

(** Two modes with source ratios 0.9 and 0.1. *)
Definition two_mode_data : Decay float :=
  mkDecayData false 83 212 3633%float []
    [mkMode ["beta-"] "Po212" 0.9%float; mkMode ["alpha"] "Tl208" 0.1%float].
Definition two_mode_library : odict (Decay float) :=
  [("Tl208", stable_data); ("Bi212", two_mode_data); ("Po212", stable_data)].

Definition stable_nuclide (nm : string) : Nuclide float := mkNuclide nm None 0%float [] [] [].

(** Am241: alpha decay to Np237, capture to the ground and the
    metastable state of Am242, and (n,2n). *)
Definition am241 : Nuclide float :=
  mkNuclide "Am241" (Some 1.364e10%float) 5.6e6%float [mkDecay "alpha" "Np237" 1%float]
    [ mkReaction "(n,gamma)" (TName "Am242") 5.5e6%float 0.9%float;
      mkReaction "(n,gamma)" (TName "Am242_m1") 5.5e6%float 0.1%float;
      mkReaction "(n,2n)" (TName "Am240") (-6.6e6)%float 1%float ] [].

Definition am_chain : Chain float :=
  mkChain [am241; stable_nuclide "Am242"; stable_nuclide "Am242_m1"; stable_nuclide "Am240";
           stable_nuclide "Np237"]
          ["(n,gamma)"; "(n,2n)"]
          (list_to_map [("Am241", 0); ("Am242", 1); ("Am242_m1", 2); ("Am240", 3);
                        ("Np237", 4)]).

(** Capture rate 2.0, (n,2n) rate 0.5. *)
Definition am_rates : ReactionRates float :=
  mkRates (list_to_map [("Am241", 0)]) (list_to_map [("(n,gamma)", 0); ("(n,2n)", 1)])
          [[2%float; 0.5%float]].

(** The reaction block of Am241, from the empty matrix. *)
Definition am241_block : gmap (nat * nat) float :=
  list_to_map [((0, 0), (-2.5)%float); ((1, 0), 1.8%float); ((2, 0), 0.2%float);
               ((3, 0), 0.5%float)].

(** The matrix of the chain: the decay constant of Am241 is
    ln(2)/1.364e10 = 5.0817241976535577e-11. *)
Definition am_matrix : gmap (nat * nat) float :=
  list_to_map [((0, 0), (-2.5000000000508171)%float); ((1, 0), 1.8%float);
               ((2, 0), 0.2%float); ((3, 0), 0.5%float);
               ((4, 0), 5.0817241976535577e-11%float)].

Definition u235 : Nuclide float :=
  mkNuclide "U235" None 0%float []
    [ mkReaction "fission" TZero 1.9e8%float 1%float ]
    [ (5.0e5%float, [("Sr90", 0.04%float); ("Xe135", 0.07%float)]);
      (0.0253%float, [("Sr90", 0.05%float); ("Xe135", 0.06%float)]) ].

Definition u_chain : Chain float :=
  mkChain [stable_nuclide "Sr90"; stable_nuclide "Xe135"; u235] ["fission"]
          (list_to_map [("Sr90", 0); ("Xe135", 1); ("U235", 2)]).

Definition nuclide_a : Nuclide float :=
  mkNuclide "A" (Some 10%float) 0%float [mkDecay "beta-" "B" 1%float] [] [].
Definition nuclide_b : Nuclide float := mkNuclide "B" None 0%float [] [] [].
Definition chain_ab : Chain float :=
  mkChain [nuclide_a; nuclide_b] [] (list_to_map [("A", 0); ("B", 1)]).
Definition no_rates : ReactionRates float := mkRates ∅ ∅ [].

(** Ratios 0.9 and 0.3 for the capture branches of Am241: sum 1.2. *)
Definition ratios_sum_1_2 : branch_ratios float :=
  [("Am241", (0, [("Am242", 0.9%float); ("Am242_m1", 0.3%float)]))].

(** A ratio of 1.5 for the ground state. *)
Definition ratios_on_the_bound : branch_ratios float :=
  [("Am241", (0, [("Am242", 1.5%float)]))].

(** Only the metastable branch, with ratio 0.3. *)
Definition ratios_meta_only : branch_ratios float :=
  [("Am241", (0, [("Am242_m1", 0.3%float)]))].

Definition am243 : Nuclide float :=
  mkNuclide "Am243" None 0%float []
    [ mkReaction "(n,gamma)" (TName "Am244") 5.4e6%float 1%float ] [].

Definition am241_one_branch : Nuclide float :=
  mkNuclide "Am241" None 0%float []
    [ mkReaction "(n,gamma)" (TName "Am242") 5.5e6%float 1%float ] [].

Definition am_pair_chain : Chain float :=
  mkChain [am241_one_branch; stable_nuclide "Am242"; am243; stable_nuclide "Am244";
           stable_nuclide "Am244_m1"]
          ["(n,gamma)"]
          (list_to_map [("Am241", 0); ("Am242", 1); ("Am243", 2); ("Am244", 3);
                        ("Am244_m1", 4)]).

(** A chain whose index has two names for position 0. *)
Definition aliased_chain : Chain float :=
  mkChain [ mkNuclide "Am241" None 0%float []
              [ mkReaction "(n,gamma)" (TName "Am242") 5.5e6%float 0.9%float;
                mkReaction "(n,gamma)" (TName "Am242_m1") 5.5e6%float 0.1%float ] [];
            stable_nuclide "Am242"; stable_nuclide "Am242_m1" ]
          ["(n,gamma)"]
          (list_to_map [("Am241", 0); ("Am-241", 0); ("Am242", 1); ("Am242_m1", 2)]).

Definition aliased_ratios : branch_ratios float :=
  [("Am241", (0, [("Am242", 1%float)])); ("Am-241", (1, [("Am242", 1%float)]))].

(** [d = {"Am244_m1": 0.3}; {"Am241": d, "Am243": d}] *)
Definition shared_ratios : branch_ratios float :=
  [("Am241", (0, [("Am244_m1", 0.3%float)])); ("Am243", (0, [("Am244_m1", 0.3%float)]))].

(** [{"Am241": {"Am244_m1": 0.3}, "Am243": {"Am244_m1": 0.3}}] *)
Definition separate_ratios : branch_ratios float :=
  [("Am241", (0, [("Am244_m1", 0.3%float)])); ("Am243", (1, [("Am244_m1", 0.3%float)]))].

Definition am241_meta : Nuclide float :=
  mkNuclide "Am241" None 0%float []
    [ mkReaction "(n,gamma)" (TName "Am242_m1") 5.5e6%float 1%float ] [].

Definition pu239 : Nuclide float :=
  mkNuclide "Pu239" None 0%float []
    [ mkReaction "(n,gamma)" (TName "Pu240") 6.5e6%float 1%float ] [].

Definition meta_chain : Chain float :=
  mkChain [am241_meta; stable_nuclide "Am242_m1"; pu239; stable_nuclide "Pu240"]
          ["(n,gamma)"]
          (list_to_map [("Am241", 0); ("Am242_m1", 1); ("Pu239", 2); ("Pu240", 3)]).

(** Am241 given the ratio 1.5, and a valid edit of Pu239. *)
Definition ratios_meta_too_large : branch_ratios float :=
  [("Am241", (0, [("Am242_m1", 1.5%float)])); ("Pu239", (1, [("Pu240", 1%float)]))].

(** Ratios 0.8 and 0.2 for the two capture branches of Am241. *)
Definition ratios_both : branch_ratios float :=
  [("Am241", (0, [("Am242", 0.8%float); ("Am242_m1", 0.2%float)]))].

(** A small library for [from_endf]: U235 with (n,2n), fission and
    capture, Xe135 with capture and an MT of the (n,2n) range, Th231
    with a fission MT and no yields, Sr90 decaying to Y90, which the
    library does not hold, and two tables of fission yields, the second
    with the product Y90. *)
Definition endf_decay : odict (Decay float) :=
  [ ("U235", mkDecayData false 92 235 2.22e16%float [4.6e6%float]
               [mkMode ["alpha"] "Th231" 1%float]);
    ("Xe135", mkDecayData false 54 135 32900%float [5.6e5%float]
               [mkMode ["beta-"] "Cs135" 1%float]);
    ("Sr90", mkDecayData false 38 90 9.1e8%float [1.9e5%float]
               [mkMode ["beta-"] "Y90" 1%float]);
    ("Zr90", mkDecayData true 40 90 0%float [] []);
    ("Y89", mkDecayData true 39 89 0%float [] []);
    ("Cs135", mkDecayData true 55 135 0%float [] []);
    ("Th231", mkDecayData true 90 231 0%float [] []);
    ("H1", mkDecayData true 1 1 0%float [] []) ].

Definition endf_rx : gmap string (gmap Z float) :=
  list_to_map
    [ ("U235", list_to_map [(16%Z, (-5.3e6)%float); (18%Z, 1.93e8%float);
                            (102%Z, 6.5e6%float)]);
      ("Xe135", list_to_map [(102%Z, 7.9e6%float); (875%Z, (-6.4e6)%float)]);
      ("Th231", list_to_map [(18%Z, 1.9e8%float)]) ].

Definition endf_fpy : gmap string (FissionProductYields float) :=
  list_to_map
    [ ("U235", mkFPY (Some [5.0e5%float; 0.0253%float])
         [ [("Xe135", 0.07%float); ("Sr90", 0.04%float)];
           [("Xe135", 0.06%float); ("Y90", 0.01%float); ("Sr90", 0.05%float)] ]) ].

Definition endf_sr90 : Nuclide float :=
  mkNuclide "Sr90" (Some 9.1e8%float) 1.9e5%float [mkDecay "beta-" "Zr90" 1%float] [] [].

Definition endf_xe135 : Nuclide float :=
  mkNuclide "Xe135" (Some 32900%float) 5.6e5%float [mkDecay "beta-" "Cs135" 1%float]
    [ mkReaction "(n,2n)" (TName "Xe134") (-6.4e6)%float 1%float;
      mkReaction "(n,gamma)" (TName "Xe136") 7.9e6%float 1%float ] [].

Definition endf_u235 : Nuclide float :=
  mkNuclide "U235" (Some 2.22e16%float) 4.6e6%float [mkDecay "alpha" "Th231" 1%float]
    [ mkReaction "(n,2n)" (TName "U234") (-5.3e6)%float 1%float;
      mkReaction "(n,gamma)" (TName "U236") 6.5e6%float 1%float;
      mkReaction "fission" TZero 1.93e8%float 1%float ]
    [ (5.0e5%float, [("Sr90", 0.04%float); ("Xe135", 0.07%float)]);
      (0.0253%float, [("Sr90", 0.05%float); ("Zr90", 0.01%float); ("Xe135", 0.06%float)]) ].

Definition endf_chain : Chain float :=
  mkChain [stable_nuclide "H1"; endf_sr90; stable_nuclide "Y89"; stable_nuclide "Zr90";
           endf_xe135; stable_nuclide "Cs135"; stable_nuclide "Th231"; endf_u235]
          ["(n,2n)"; "(n,gamma)"; "fission"]
          (list_to_map [("H1", 0); ("Sr90", 1); ("Y89", 2); ("Zr90", 3); ("Xe135", 4);
                        ("Cs135", 5); ("Th231", 6); ("U235", 7)]).

Definition endf_chain_log : endf_log float :=
  mkLog [None; None; None; None; None; None; None; Some [5.0e5%float; 0.0253%float]]
        [("Xe135", "(n,2n)", "Xe134"); ("Xe135", "(n,gamma)", "Xe136");
         ("U235", "(n,2n)", "U234"); ("U235", "(n,gamma)", "U236")]
        ["Th231"]
        [("U235", 0.0253%float, 0.01%float)].

(** The evaluation of U235 with the fission MT 19 and without MT 18. *)
Definition endf_rx_mt19 : gmap string (gmap Z float) :=
  list_to_map [ ("U235", list_to_map [(19%Z, 1.93e8%float)]) ].

(** The outcome of setting both capture ratios of Am241. *)
Definition am_both : outcome float :=
  set_branch_ratios am_chain ratios_both "(n,gamma)" true 1e-5%float.

(** A parser for [from_xml] whose elements are nuclides already. *)
Definition parsed_name (e : Nuclide float) : option string := Some (name e).
Definition parsed (e : Nuclide float) (this_q : option float) : result (Nuclide float) := Ok e.

(** U240 against a library whose only isotope of uranium is U238. *)
Definition u238_library : odict (Decay float) :=
  [("U238", mkDecayData false 92 238 1.41e17%float [] [])].

(** Li4 against a library whose only isotope of lithium is Li6. *)
Definition li6_library : odict (Decay float) :=
  [("Li6", mkDecayData true 3 6 0%float [] [])].

(** A valid edit of Pu239, then Am241 (whose only capture branch goes to
    Am242_m1) given the ratio 0.5. *)
Definition ratios_pu_then_am : branch_ratios float :=
  [("Pu239", (0, [("Pu240", 1%float)])); ("Am241", (1, [("Am242_m1", 0.5%float)]))].

(** A validation of one nuclide for the examples: its capture ratios
    add up to 1.0 within the tolerance; in strict mode a failure is a
    [ValueError]. *)
Definition capture_sum_ok (tolerance : float) (nuc : Nuclide float) : bool :=
  let s := fsum (map r_branching_ratio
                     (List.filter (fun rx => String.eqb (r_type rx) "(n,gamma)")
                                  (reactions nuc))) in
  (length (List.filter (fun rx => String.eqb (r_type rx) "(n,gamma)") (reactions nuc)) =? 0)
  || (fleb (fsub f1 tolerance) s && fleb s (fadd f1 tolerance)).

Definition validate_capture (nuc : Nuclide float) (strict quiet : bool) (tolerance : float)
    : result bool :=
  if capture_sum_ok tolerance nuc then Ok true
  else if strict then Raise ValueError else Ok false.

Definition any_tolerance (tolerance : float) : result unit := Ok tt.

(** Am241 with the capture ratios 0.9 and 0.3. *)
Definition am_chain_1_2 : Chain float :=
  mkChain [ mkNuclide "Am241" None 0%float []
              [ mkReaction "(n,gamma)" (TName "Am242") 5.5e6%float 0.9%float;
                mkReaction "(n,gamma)" (TName "Am242_m1") 5.5e6%float 0.3%float ] [];
            stable_nuclide "Am242"; stable_nuclide "Am242_m1" ]
          ["(n,gamma)"]
          (list_to_map [("Am241", 0); ("Am242", 1); ("Am242_m1", 2)]).

(** U235 with one table of yields: 0.1 for Xe135, 0.2 for Zr90 and 0.3
    for Y90, which the library does not hold and which is stored under
    Zr90. *)
Definition merge_decay : odict (Decay float) :=
  [ ("U235", mkDecayData true 92 235 0%float [] []);
    ("Xe135", mkDecayData true 54 135 0%float [] []);
    ("Zr90", mkDecayData true 40 90 0%float [] []);
    ("Y89", mkDecayData true 39 89 0%float [] []) ].

Definition merge_rx : gmap string (gmap Z float) :=
  list_to_map [ ("U235", list_to_map [(18%Z, 1.93e8%float)]) ].

Definition merge_table : odict float :=
  [("Xe135", 0.1%float); ("Zr90", 0.2%float); ("Y90", 0.3%float)].

Definition merge_fpy : gmap string (FissionProductYields float) :=
  list_to_map [ ("U235", mkFPY None [merge_table]) ].

Definition merge_u235 : Nuclide float :=
  mkNuclide "U235" None 0%float [] [ mkReaction "fission" TZero 1.93e8%float 1%float ]
    [ (0%float, [("Zr90", 0.5%float); ("Xe135", 0.1%float)]) ].

Definition merge_chain : Chain float :=
  mkChain [stable_nuclide "Y89"; stable_nuclide "Zr90"; stable_nuclide "Xe135"; merge_u235]
          ["fission"]
          (list_to_map [("Y89", 0); ("Zr90", 1); ("Xe135", 2); ("U235", 3)]).

Definition merge_chain_log : endf_log float :=
  mkLog [None; None; None; Some [0%float]] [] [] [("U235", 0%float, 0.3%float)].

(** A with half-life 10, decaying to B with ratio 0.1 and to C with
    ratio 0.9. *)
Definition abc_a : Nuclide float :=
  mkNuclide "A" (Some 10%float) 0%float
    [mkDecay "beta-" "B" 0.1%float; mkDecay "alpha" "C" 0.9%float] [] [].

Definition abc_chain : Chain float :=
  mkChain [abc_a; stable_nuclide "B"; stable_nuclide "C"] []
          (list_to_map [("A", 0); ("B", 1); ("C", 2)]).

Definition abc_matrix : gmap (nat * nat) float :=
  list_to_map [((0, 0), (-0.069314718055994526)%float);
               ((1, 0), 0.0069314718055994533%float);
               ((2, 0), 0.062383246250395076%float)].

(** * Properties *)

(** ** [replace_missing] *)

Section Resolver.
Context {F : Type} `{Arith F} `{NuclearData}.

(** A name the loop returns is a key. *)
Lemma search_member fuel (dd : odict (Decay F)) bm :
  forall za product r,
    search fuel dd bm za product = Some (Ok r) -> od_mem dd r = true.
Proof.
  induction fuel as [|fuel IH]; intros za product r Hs; simpl in Hs.
  - destruct (od_mem dd product) eqn:E; [|discriminate].
    injection Hs as <-. exact E.
  - destruct (od_mem dd product) eqn:E.
    + injection Hs as <-. exact E.
    + destruct (ATOMIC_SYMBOL !! fst (decay_step bm za)); [|discriminate].
      eapply IH. exact Hs.
Qed.

(** The loop's outcome, once reached, does not change with more turns. *)
Lemma search_more_fuel fuel (dd : odict (Decay F)) bm :
  forall za product o,
    search fuel dd bm za product = Some o ->
    forall n, search (fuel + n) dd bm za product = Some o.
Proof.
  induction fuel as [|fuel IH]; intros za product o Hs n.
  - simpl in Hs. destruct (od_mem dd product) eqn:E; [|discriminate].
    destruct n; simpl; rewrite E; exact Hs.
  - simpl in Hs |- *. destruct (od_mem dd product); [exact Hs|].
    destruct (ATOMIC_SYMBOL !! fst (decay_step bm za)); [|exact Hs].
    apply IH. exact Hs.
Qed.

Lemma search_fuel_irrelevant fuel fuel' (dd : odict (Decay F)) bm za product o o' :
  search fuel dd bm za product = Some o ->
  search fuel' dd bm za product = Some o' ->
  o = o'.
Proof.
  intros H1 H2.
  apply search_more_fuel with (n := fuel') in H1.
  apply search_more_fuel with (n := fuel) in H2.
  rewrite Nat.add_comm in H2. congruence.
Qed.

(** The loop ends when the walk meets a key. *)
Lemma search_reaches n (dd : odict (Decay F)) bm :
  forall za product r,
    walk n bm za product = Some r -> od_mem dd r = true ->
    exists r', od_mem dd r' = true /\
      forall fuel, n <= fuel -> search fuel dd bm za product = Some (Ok r').
Proof.
  induction n as [|n IH]; intros za product r Hw Hr.
  - simpl in Hw. injection Hw as ->. exists r. split; [exact Hr|].
    intros fuel _. destruct fuel; simpl; rewrite Hr; reflexivity.
  - destruct (od_mem dd product) eqn:E.
    + exists product. split; [exact E|].
      intros fuel _. destruct fuel; simpl; rewrite E; reflexivity.
    + simpl in Hw.
      destruct (ATOMIC_SYMBOL !! fst (decay_step bm za)) as [sym|] eqn:Es; [|discriminate].
      destruct (IH _ _ _ Hw Hr) as (r' & Hr' & Hfuel).
      exists r'. split; [exact Hr'|].
      intros [|fuel] Hle; [lia|].
      simpl. rewrite E, Es. apply Hfuel. lia.
Qed.

(** C2 (as the code has it): for the free neutron (Z = 0, A = 1)
    [replace_missing] returns ['H1'] whatever the decay data holds.  For
    any other product, a name it returns is a key of the decay data; the
    outcome is fixed by the product and the decay data (it does not
    depend on how long the loop is allowed to run); and it does return,
    with a key of the decay data, as soon as some name on its walk through
    the chart of nuclides is a key. *)
Theorem replace_missing_substitute product (dd : odict (Decay F)) z a state symbol :
  zam product = Ok (z, a, state) ->
  ATOMIC_SYMBOL !! z = Some symbol ->
  (((z =? 0) && (a =? 1))%Z = true ->
     forall fuel, replace_missing fuel product dd = Some (Ok "H1")) /\
  (((z =? 0) && (a =? 1))%Z = false ->
     (forall fuel r, replace_missing fuel product dd = Some (Ok r) -> od_mem dd r = true) /\
     (forall fuel fuel' o o',
        replace_missing fuel product dd = Some o ->
        replace_missing fuel' product dd = Some o' -> o = o') /\
     (forall mass n r,
        scan_isotopes symbol dd None f0 = Some mass ->
        walk n (mass <? a)%Z (z, a) (start_name product symbol a state) = Some r ->
        od_mem dd r = true ->
        exists r', od_mem dd r' = true /\
          forall fuel, n <= fuel -> replace_missing fuel product dd = Some (Ok r'))).
Proof.
  intros Hzam Hsym. unfold replace_missing. rewrite Hzam, Hsym. split.
  - intros ->. reflexivity.
  - intros ->. fold (start_name product symbol a state).
    destruct (scan_isotopes symbol dd None f0) as [mass|].
    + split; [|split].
      * intros fuel r. apply search_member.
      * intros fuel fuel' o o'. apply search_fuel_irrelevant.
      * intros mass' n r [= <-]. apply search_reaches.
    + split; [|split].
      * intros fuel r [=].
      * intros fuel fuel' o o' [= <-] [= <-]. reflexivity.
      * intros mass n r [=].
Qed.

End Resolver.

(** Y86_m1 with Sr86 and Y89 in the data: the ground state Y86 is
    missing too, Y89 is the longest-lived isotope, so the walk goes down
    in Z and meets Sr86 after one turn. *)
Lemma replace_missing_substitute_y86m :
  (zam "Y86_m1" = Ok (39, 86, 1)%Z /\ ATOMIC_SYMBOL !! 39%Z = Some "Y" /\
   ((39 =? 0) && (86 =? 1))%Z = false /\
   scan_isotopes "Y" sr_y_library None f0 = Some 89%Z /\
   walk 1 (89 <? 86)%Z (39, 86)%Z (start_name "Y86_m1" "Y" 86 1) = Some "Sr86" /\
   od_mem sr_y_library "Sr86" = true) /\
  exists r', od_mem sr_y_library r' = true /\
    forall fuel, 1 <= fuel -> replace_missing fuel "Y86_m1" sr_y_library = Some (Ok r').
Proof.
  split; [repeat split; vm_compute; reflexivity|].
  destruct (replace_missing_substitute "Y86_m1" sr_y_library 39 86 1 "Y")
    as [_ Hother]; [reflexivity | reflexivity |].
  destruct (Hother eq_refl) as (_ & _ & Hreach).
  apply (Hreach 89%Z 1 "Sr86"); vm_compute; reflexivity.
Defined.

(** The replacement of Y86_m1 in that library is Sr86. *)
Lemma replace_missing_y86m_is_sr86 :
  replace_missing 1 "Y86_m1" sr_y_library = Some (Ok "Sr86").
Proof. vm_compute. reflexivity. Qed.

(** The free neutron is replaced by H1 also when H1 has no decay data. *)
Lemma replace_missing_neutron_not_in_data :
  replace_missing (F := float) 0 "n1" sr_y_library = Some (Ok "H1") /\
  od_mem sr_y_library "H1" = false.
Proof. split; vm_compute; reflexivity. Qed.

(** No isotope of helium in the data: [mass_longest_lived] is read
    before it is assigned. *)
Lemma replace_missing_unbound :
  replace_missing (F := float) 0 "He4" sr_y_library = Some (Raise UnboundLocalError).
Proof. vm_compute. reflexivity. Qed.

(** Tritium against a library whose only hydrogen isotope is heavier:
    the walk goes down to Z = -1, which has no symbol. *)
Lemma replace_missing_walks_off_the_table :
  replace_missing 5 "H3" [("H9", mkDecayData false 1 9 1%float [] [])] =
    Some (Raise (KeyError "-1")).
Proof. vm_compute. reflexivity. Qed.

(** ** The decay block of [from_endf] *)

Section DecayBlock.
Context {F : Type} `{Arith F} `{NuclearData}.

Lemma fsum_snoc (xs : list F) (x : F) : fsum (xs ++ [x]) = fadd (fsum xs) x.
Proof. unfold fsum. rewrite fold_left_app. reflexivity. Qed.

Lemma removelast_map {A B} (f : A -> B) (l : list A) :
  removelast (map f l) = map f (removelast l).
Proof.
  induction l as [|a [|b l] IH]; simpl; try reflexivity.
  simpl in IH. rewrite IH. reflexivity.
Qed.

(** The loop returns when every daughter is present or can be replaced. *)
Lemma decay_loop_returns fuel dd modes rest :
  forallb (resolves fuel dd) rest = true ->
  forall i sum_br out, exists dms, decay_loop fuel dd modes i rest sum_br out = Some (Ok dms).
Proof.
  induction rest as [|m rest IH]; intros Hres i sum_br out; simpl.
  - eauto.
  - simpl in Hres. apply andb_true_iff in Hres as [Hm Hrest].
    unfold resolves in Hm.
    destruct (mode_target fuel dd m) as [[t|e]|]; try discriminate.
    apply IH. exact Hrest.
Qed.

(** The ratios the loop appends, with [pre] the modes already visited. *)
Lemma decay_loop_ratios fuel dd rest :
  forall pre sum_br out dms,
    sum_br = fsum (map m_branching_ratio pre) ->
    decay_loop fuel dd (pre ++ rest) (length pre) rest sum_br out = Some (Ok dms) ->
    map d_branching_ratio dms =
      map d_branching_ratio out ++
      match rest with
      | [] => []
      | _ => map m_branching_ratio (removelast rest) ++
             [if fneb (fsum (map m_branching_ratio (pre ++ rest))) f1
              then fsub f1 (fsum (map m_branching_ratio (removelast (pre ++ rest))))
              else List.last (map m_branching_ratio rest) f0]
      end.
Proof.
  induction rest as [|m rest IH]; intros pre sum_br out dms Hsum Hloop.
  - simpl in Hloop. injection Hloop as <-. rewrite app_nil_r. reflexivity.
  - simpl in Hloop.
    destruct (mode_target fuel dd m) as [[t|e]|]; try discriminate.
    assert (Hsplit : pre ++ m :: rest = (pre ++ [m]) ++ rest)
      by (rewrite <- app_assoc; reflexivity).
    assert (Hlen : S (length pre) = length (pre ++ [m]))
      by (rewrite length_app; simpl; lia).
    rewrite Hlen in Hloop. rewrite Hsplit in Hloop.
    apply IH in Hloop.
    2:{ rewrite map_app; simpl; rewrite fsum_snoc, Hsum. reflexivity. }
    rewrite Hloop, map_app, <- app_assoc. f_equal. simpl.
    destruct rest as [|m' rest].
    + rewrite app_nil_r.
      replace (length pre =? length (pre ++ [m]) - 1) with true
        by (symmetry; apply Nat.eqb_eq; rewrite length_app; simpl; lia).
      simpl. rewrite Hsum, <- fsum_snoc.
      change [m_branching_ratio m] with (map m_branching_ratio [m]).
      rewrite <- map_app. reflexivity.
    + replace (length pre =? length ((pre ++ [m]) ++ m' :: rest) - 1) with false
        by (symmetry; apply Nat.eqb_neq; rewrite !length_app; simpl; lia).
      simpl. rewrite <- Hsplit. reflexivity.
Qed.

Lemma stored_ratios_sum (brs : list F) :
  brs <> [] ->
  fsum (stored_ratios brs) =
    if fneb (fsum brs) f1
    then fadd (fsum (removelast brs)) (fsub f1 (fsum (removelast brs)))
    else fsum brs.
Proof.
  intros Hne. unfold stored_ratios.
  destruct brs as [|b brs]; [congruence|].
  rewrite fsum_snoc.
  destruct (fneb (fsum (b :: brs)) f1); [reflexivity|].
  rewrite <- fsum_snoc, <- app_removelast_last by discriminate. reflexivity.
Qed.

(** C1 (as the code has it): for a nuclide that is not stable and whose
    half-life is not zero, [from_endf] stores the source ratios of the
    modes before the last unchanged; the ratio stored for the last mode is
    1 minus the sum of the preceding source ratios when the running sum of
    all source ratios differs from 1.0, and the source ratio itself when
    the running sum equals 1.0.  The stored ratios then add up to
    [s + (1 - s)], with [s] the sum of the preceding ratios, in the first
    case and to the running sum, which is 1.0, in the second. *)
Theorem from_endf_decay_branching_ratios fuel dd parent data :
  dk_stable data = false ->
  fneb (dk_half_life data) f0 = true ->
  dk_modes data <> [] ->
  forallb (resolves fuel dd) (dk_modes data) = true ->
  exists nuc,
    from_endf_decay fuel dd parent data = Some (Ok nuc) /\
    let brs := map m_branching_ratio (dk_modes data) in
    let s := fsum (removelast brs) in
    map d_branching_ratio (decay_modes nuc) =
      removelast brs ++ [if fneb (fsum brs) f1 then fsub f1 s else List.last brs f0] /\
    fsum (map d_branching_ratio (decay_modes nuc)) =
      if fneb (fsum brs) f1 then fadd s (fsub f1 s) else fsum brs.
Proof.
  intros Hst Hhl Hne Hres.
  destruct (decay_loop_returns fuel dd (dk_modes data) (dk_modes data) Hres 0 f0 [])
    as [dms Hloop].
  exists (mkNuclide parent (Some (dk_half_life data))
                     (fsum (dk_average_energies data)) dms [] []).
  unfold from_endf_decay. rewrite Hst, Hhl. simpl. rewrite Hloop.
  split; [reflexivity|]. simpl.
  pose proof (decay_loop_ratios fuel dd (dk_modes data) [] f0 [] dms eq_refl Hloop) as Hr.
  simpl in Hr.
  assert (Hstored : map d_branching_ratio dms =
                    stored_ratios (map m_branching_ratio (dk_modes data))).
  { rewrite Hr. unfold stored_ratios.
    destruct (dk_modes data) as [|m ms] eqn:E; [congruence|].
    rewrite <- E. rewrite removelast_map.
    destruct (map m_branching_ratio (dk_modes data)) eqn:E'.
    - rewrite E in E'. discriminate.
    - rewrite <- E'. rewrite E. reflexivity. }
  split.
  - rewrite Hstored. unfold stored_ratios.
    destruct (map m_branching_ratio (dk_modes data)) eqn:E'; [|reflexivity].
    destruct (dk_modes data); [congruence|discriminate].
  - rewrite Hstored. apply stored_ratios_sum.
    destruct (dk_modes data); [congruence|discriminate].
Qed.

End DecayBlock.

(** Without rounding the stored ratios add up to exactly 1. *)
Lemma stored_ratios_sum_exact (brs : list Qc) :
  brs <> [] -> fsum (stored_ratios brs) = f1.
Proof.
  intros Hne. rewrite stored_ratios_sum by exact Hne.
  destruct (fneb (fsum brs) f1) eqn:E.
  - simpl. ring.
  - unfold fneb in E. apply negb_false_iff in E. simpl in E.
    apply Qc_eq_bool_correct in E. exact E.
Qed.

(** Bi212: the second ratio is stored as 1 - 0.6406 and the stored
    ratios add up to 1.0. *)
Lemma from_endf_decay_branching_ratios_bi212 :
  (dk_stable bi212_data = false /\
   fneb (dk_half_life bi212_data) f0 = true /\
   dk_modes bi212_data <> [] /\
   forallb (resolves 0 bi212_library) (dk_modes bi212_data) = true) /\
  exists nuc,
    from_endf_decay 0 bi212_library "Bi212" bi212_data = Some (Ok nuc) /\
    map d_branching_ratio (decay_modes nuc) =
      [0.6406%float; PrimFloat.sub 1 (PrimFloat.add 0 0.6406)] /\
    fsum (map d_branching_ratio (decay_modes nuc)) = 1%float.
Proof.
  split.
  - repeat split; try reflexivity. discriminate.
  - destruct (from_endf_decay_branching_ratios 0 bi212_library "Bi212" bi212_data)
      as (nuc & Hnuc & Hbr & Hsum); try reflexivity; try discriminate.
    exists nuc. split; [exact Hnuc|]. split.
    + rewrite Hbr. vm_compute. reflexivity.
    + rewrite Hsum. vm_compute. reflexivity.
Defined.

(** Source ratios 0.9 and 0.1: the running sum 0.9 + 0.1 is 1.0 in
    binary64, the test of line 234 fails, and the last ratio is stored
    as it is, 0.1; 1 minus the sum of the preceding ratios is
    0.09999999999999998. *)
Lemma from_endf_last_ratio_kept_when_sum_is_one :
  from_endf_decay 0 two_mode_library "Bi212" two_mode_data =
    Some (Ok (mkNuclide "Bi212" (Some 3633%float) 0%float
                [mkDecay "beta-" "Po212" 0.9%float; mkDecay "alpha" "Tl208" 0.1%float]
                [] [])) /\
  PrimFloat.sub 1 (fsum [0.9%float]) = 0.09999999999999998%float /\
  PrimFloat.eqb (PrimFloat.sub 1 (fsum [0.9%float])) 0.1%float = false.
Proof. repeat split; vm_compute; reflexivity. Qed.

(** ** [Chain.form_matrix] *)

Section MatrixFacts.
Context {F : Type} {AF : Arith F}.

Lemma m_get_sub (m : gmap (nat * nat) F) k v : m_get (m_sub m k v) k = fsub (m_get m k) v.
Proof. unfold m_sub, m_get at 1. rewrite lookup_insert_eq. reflexivity. Qed.

Lemma m_get_add_ne (m : gmap (nat * nat) F) k k' v : k <> k' -> m_get (m_add m k v) k' = m_get m k'.
Proof. intros Hne. unfold m_add, m_get at 1. rewrite lookup_insert_ne by exact Hne. reflexivity. Qed.

Lemma m_get_add (m : gmap (nat * nat) F) k v : m_get (m_add m k v) k = fadd (m_get m k) v.
Proof. unfold m_add, m_get at 1. rewrite lookup_insert_eq. reflexivity. Qed.

(** *** The lowest energy *)

Lemma insert_item_elem x y (l : list (F * list (string * F))) :
  x ∈ insert_item y l <-> x = y \/ x ∈ l.
Proof.
  induction l as [|z l IH]; simpl.
  - rewrite list_elem_of_singleton. set_solver.
  - destruct (fltb (fst y) (fst z)).
    + rewrite elem_of_cons. reflexivity.
    + rewrite !elem_of_cons, IH. tauto.
Qed.

Lemma sorted_from_elem (l acc : list (F * list (string * F))) x :
  x ∈ fold_left (fun acc x => insert_item x acc) l acc <-> x ∈ acc \/ x ∈ l.
Proof.
  revert acc. induction l as [|y l IH]; intros acc; simpl.
  - set_solver.
  - rewrite IH, insert_item_elem, elem_of_cons. tauto.
Qed.

Lemma sorted_items_elem (l : list (F * list (string * F))) x :
  x ∈ sorted_items l <-> x ∈ l.
Proof. unfold sorted_items. rewrite sorted_from_elem. set_solver. Qed.

Lemma ordered_keys_irrefl keys a : ordered_keys keys = true -> a ∈ keys -> fltb a a = false.
Proof.
  unfold ordered_keys. rewrite forallb_forall. intros Ho Ha.
  apply list_elem_of_In in Ha. apply Ho in Ha.
  apply andb_true_iff in Ha as [Hi _]. apply negb_true_iff in Hi. exact Hi.
Qed.

Lemma ordered_keys_trans keys a b c :
  ordered_keys keys = true -> a ∈ keys -> b ∈ keys -> c ∈ keys ->
  fltb a b = true -> fltb b c = true -> fltb a c = true.
Proof.
  unfold ordered_keys. rewrite forallb_forall. intros Ho Ha Hb Hc Hab Hbc.
  apply list_elem_of_In in Ha. apply Ho in Ha.
  apply andb_true_iff in Ha as [_ Ha].
  rewrite forallb_forall in Ha. apply list_elem_of_In, Ha in Hb.
  rewrite forallb_forall in Hb. apply list_elem_of_In, Hb in Hc.
  rewrite Hab, Hbc in Hc. exact Hc.
Qed.

(** The head of the sorted list is the running minimum. *)
Lemma insert_item_head x (l : list (F * list (string * F))) :
  head (insert_item x l) =
    match head l with
    | None => Some x
    | Some y => if fltb (fst x) (fst y) then Some x else Some y
    end.
Proof.
  destruct l as [|y l]; simpl; [reflexivity|].
  destruct (fltb (fst x) (fst y)); reflexivity.
Qed.

Lemma sorted_from_head_minimal keys (l : list (F * list (string * F))) :
  ordered_keys keys = true ->
  forall acc h,
    (forall x, x ∈ l -> fst x ∈ keys) ->
    (forall x, x ∈ acc -> fst x ∈ keys) ->
    (forall a x, head acc = Some a -> x ∈ acc -> fltb (fst x) (fst a) = false) ->
    head (fold_left (fun acc x => insert_item x acc) l acc) = Some h ->
      forall x, x ∈ acc \/ x ∈ l -> fltb (fst x) (fst h) = false.
Proof.
  intros Ho. induction l as [|y l IH]; intros acc h Hl Hacc Hmin Hh x Hx; simpl in Hh.
  - destruct Hx as [Hx|Hx]; [|inversion Hx]. eapply Hmin; eauto.
  - apply (IH (insert_item y acc) h).
    + intros z Hz. apply Hl. set_solver.
    + intros z Hz. apply insert_item_elem in Hz as [->|Hz]; [apply Hl; set_solver|auto].
    + intros a z Ha Hz. rewrite insert_item_head in Ha.
      apply insert_item_elem in Hz.
      destruct (head acc) as [b|] eqn:Eb.
      * destruct (fltb (fst y) (fst b)) eqn:Eyb; injection Ha as <-.
        -- destruct Hz as [->|Hz].
           ++ eapply ordered_keys_irrefl; [exact Ho|]. apply Hl. set_solver.
           ++ destruct (fltb (fst z) (fst y)) eqn:Ezy; [|reflexivity].
              assert (fltb (fst z) (fst b) = true) as Hzb.
              { apply (ordered_keys_trans keys _ (fst y)); auto.
                - apply Hl. set_solver.
                - apply Hacc. destruct acc; [discriminate|]. injection Eb as ->. set_solver. }
              rewrite (Hmin b z eq_refl Hz) in Hzb. discriminate.
        -- destruct Hz as [->|Hz]; [exact Eyb|]. apply (Hmin b z eq_refl Hz).
      * injection Ha as <-. destruct acc; [|discriminate].
        destruct Hz as [->|Hz]; [|inversion Hz].
        eapply ordered_keys_irrefl; [exact Ho|]. apply Hl. set_solver.
    + exact Hh.
    + rewrite insert_item_elem. set_solver.
Qed.

(** The first item of the sorted list belongs to the list, and no item
    has a lower energy. *)
Lemma sorted_items_head_minimal (l : list (F * list (string * F))) h :
  ordered_keys (map fst l) = true ->
  head (sorted_items l) = Some h ->
  h ∈ l /\ forall x, x ∈ l -> fltb (fst x) (fst h) = false.
Proof.
  intros Ho Hh. split.
  - apply sorted_items_elem. destruct (sorted_items l); [discriminate|].
    injection Hh as ->. set_solver.
  - intros x Hx.
    apply (sorted_from_head_minimal (map fst l) l Ho [] h); auto.
    + intros z Hz. apply list_elem_of_fmap. exists z. auto.
    + intros z Hz. inversion Hz.
    + intros a z Ha. discriminate.
Qed.

Lemma sorted_items_nonempty (l : list (F * list (string * F))) :
  l <> [] -> exists h, head (sorted_items l) = Some h.
Proof.
  intros Hne. destruct (sorted_items l) as [|h t] eqn:E; [|eauto].
  destruct l as [|x l]; [congruence|].
  assert (x ∈ sorted_items (x :: l)) as Hx by (apply sorted_items_elem; set_solver).
  rewrite E in Hx. inversion Hx.
Qed.

(** *** The reaction block of one nuclide *)

Lemma bind_ok {A B} (c : result A) (k : A -> result B) (b : B) :
  c ≫= k = Ok b -> exists a, c = Ok a /\ k a = Ok b.
Proof. destruct c as [a|e]; simpl; [eauto|discriminate]. Qed.

Lemma yield_gains_diag (c : Chain F) i p data :
  forallb (fun py : string * F => negb (bool_decide (nuclide_dict c !! fst py = Some i))) data = true ->
  forall m m', foldM (yield_gain c i p) m data = Ok m' -> m_get m' (i, i) = m_get m (i, i).
Proof.
  induction data as [|[product y] data IH]; intros Hoff m m' Hf; simpl in Hf.
  - injection Hf as <-. reflexivity.
  - simpl in Hoff. apply andb_true_iff in Hoff as [Hp Hoff].
    apply negb_true_iff, bool_decide_eq_false in Hp.
    apply bind_ok in Hf as (m1 & Hy & Hf).
    rewrite (IH Hoff _ _ Hf).
    unfold yield_gain in Hy. simpl in Hy.
    destruct (fneb (fmul y p) f0); [|injection Hy as <-; reflexivity].
    apply bind_ok in Hy as (k & Hk & Hy). injection Hy as <-.
    unfold getitem in Hk. destruct (nuclide_dict c !! product) as [k'|] eqn:E; [|discriminate].
    injection Hk as ->. apply m_get_add_ne. congruence.
Qed.

(** A gain leaves the diagonal entry alone. *)
Lemma reaction_gain_diag (c : Chain F) i nuc rx p m m' :
  off_diagonal c i nuc = true ->
  rx ∈ reactions nuc ->
  reaction_gain c i nuc rx p m = Ok m' ->
  m_get m' (i, i) = m_get m (i, i).
Proof.
  intros Hoff Hrx Hg. unfold off_diagonal in Hoff.
  apply andb_true_iff in Hoff as [Hrxs Hyd].
  rewrite forallb_forall in Hrxs. rewrite forallb_forall in Hyd.
  unfold reaction_gain in Hg.
  destruct (negb (target_is_nothing (r_target rx))); [|injection Hg as <-; reflexivity].
  destruct (negb (String.eqb (r_type rx) "fission")).
  - destruct (fneb p f0); [|injection Hg as <-; reflexivity].
    apply bind_ok in Hg as (k & Hk & Hg). injection Hg as <-.
    apply list_elem_of_In, Hrxs in Hrx.
    destruct (r_target rx) as [t| |]; simpl in Hk; try discriminate.
    apply negb_true_iff, bool_decide_eq_false in Hrx.
    unfold getitem in Hk. destruct (nuclide_dict c !! t) as [k'|] eqn:E; [|discriminate].
    injection Hk as ->. apply m_get_add_ne. congruence.
  - unfold fission_gain in Hg.
    apply bind_ok in Hg as ([energy data] & Hn & Hg).
    unfold nth_item in Hn.
    destruct (sorted_items (yield_data nuc) !! 0) as [ed|] eqn:E; [|discriminate].
    injection Hn as ->.
    assert ((energy, data) ∈ yield_data nuc) as Hin.
    { apply sorted_items_elem. eapply list_elem_of_lookup_2. exact E. }
    apply list_elem_of_In, Hyd in Hin. simpl in Hin.
    eapply yield_gains_diag; eauto.
Qed.

(** The loop over the transitions, from any matrix and any set of types
    seen so far. *)
Lemma reaction_fold_diag (c : Chain F) rates i nuc nuc_rates :
  off_diagonal c i nuc = true ->
  forall rxs m seen m' seen',
    (forall rx, rx ∈ rxs -> rx ∈ reactions nuc) ->
    foldM (reaction_term c rates i nuc nuc_rates) (m, seen) rxs = Ok (m', seen') ->
    exists types,
      NoDup types /\
      (forall r, r ∈ types <-> r ∈ map r_type rxs /\ r ∉ seen) /\
      (forall r, r ∈ types -> exists p, path_rate_of rates nuc_rates r = Ok p) /\
      m_get m' (i, i) = fold_left (subtract_rate rates nuc_rates) types (m_get m (i, i)).
Proof.
  intros Hoff. induction rxs as [|rx rxs IH]; intros m seen m' seen' Hsub Hf; simpl in Hf.
  - injection Hf as <- <-. exists []. split; [constructor|]. split; [|split].
    + intros r. simpl. set_solver.
    + intros r Hr. inversion Hr.
    + reflexivity.
  - apply bind_ok in Hf as ([m1 seen1] & Ht & Hf).
    unfold reaction_term in Ht.
    apply bind_ok in Ht as (r_id & Hid & Ht).
    apply bind_ok in Ht as (p & Hp & Ht).
    apply bind_ok in Ht as (m2 & Hg & Ht). injection Ht as <- <-.
    assert (Hrate : path_rate_of rates nuc_rates (r_type rx) = Ok p).
    { unfold path_rate_of. rewrite Hid. simpl. exact Hp. }
    apply reaction_gain_diag in Hg; [|exact Hoff|apply Hsub; set_solver].
    apply IH in Hf; [|intros rx' Hrx'; apply Hsub; set_solver].
    destruct Hf as (types & Hnd & Hel & Hok & Hdiag).
    unfold reaction_loss in Hg, Hel, Hdiag |- *.
    destruct (bool_decide (r_type rx ∉ seen)) eqn:Eseen; simpl in Hg, Hel, Hdiag.
    + apply bool_decide_eq_true in Eseen.
      exists (r_type rx :: types). split; [|split; [|split]].
      * constructor; [|exact Hnd]. intros Hin. apply Hel in Hin. set_solver.
      * intros r. rewrite elem_of_cons, Hel. simpl. rewrite elem_of_cons.
        split.
        -- intros [->|[Hr Hns]]; [tauto|]. split; [tauto|set_solver].
        -- intros [[->|Hr] Hns]; [tauto|].
           destruct (decide (r = r_type rx)) as [->|Hne]; [tauto|].
           right. split; [exact Hr|set_solver].
      * intros r [->|Hr]%elem_of_cons; [eauto|auto].
      * simpl. rewrite Hdiag, Hg. f_equal.
        unfold subtract_rate. rewrite Hrate.
        destruct (fneb p f0); [apply m_get_sub|reflexivity].
    + apply bool_decide_eq_false in Eseen.
      exists types. split; [exact Hnd|]. split; [|split; [exact Hok|]].
      * intros r. rewrite Hel. simpl. rewrite elem_of_cons.
        split; [tauto|]. intros [[->|Hr] Hns]; [|tauto].
        exfalso. apply Eseen. exact Hns.
      * rewrite Hdiag, Hg. reflexivity.
Qed.

(** The reaction block of a nuclide that is in the rate table: the
    diagonal entry after the block is the entry before it with the rate
    of each distinct reaction type subtracted once, in turn. *)
Lemma reaction_block_loss_once (c : Chain F) rates i nuc nuc_ind nuc_rates m m' :
  index_nuc rates !! name nuc = Some nuc_ind ->
  rates_data rates !! nuc_ind = Some nuc_rates ->
  off_diagonal c i nuc = true ->
  reaction_terms c rates i nuc m = Ok m' ->
  exists types,
    NoDup types /\
    (forall r, r ∈ types <-> r ∈ map r_type (reactions nuc)) /\
    (forall r, r ∈ types -> exists p, path_rate_of rates nuc_rates r = Ok p) /\
    m_get m' (i, i) = fold_left (subtract_rate rates nuc_rates) types (m_get m (i, i)).
Proof.
  intros Hnuc Hrow Hoff Hrt. unfold reaction_terms in Hrt. rewrite Hnuc in Hrt.
  unfold nth_item in Hrt. rewrite Hrow in Hrt. simpl in Hrt.
  apply bind_ok in Hrt as ([m1 seen1] & Hf & Hrt). injection Hrt as <-.
  apply (reaction_fold_diag c rates i nuc nuc_rates Hoff) in Hf; [|auto].
  destruct Hf as (types & Hnd & Hel & Hok & Hdiag).
  exists types. split; [exact Hnd|]. split; [|split; [exact Hok|exact Hdiag]].
  intros r. rewrite Hel. set_solver.
Qed.

(** *** Fission gains *)

(** C9: the gain of a fission transition is computed from the yield
    table of one energy of the nuclide's yield data, an energy below
    which the data has no other; the gain adds yield times rate to the
    entry (product row, parent column) for each product of that table. *)
Theorem fission_gain_uses_lowest_energy (c : Chain F) i nuc rx path_rate m :
  ordered_keys (map fst (yield_data nuc)) = true ->
  yield_data nuc <> [] ->
  r_type rx = "fission" ->
  target_is_nothing (r_target rx) = false ->
  exists energy data,
    (energy, data) ∈ yield_data nuc /\
    (forall e d, (e, d) ∈ yield_data nuc -> fltb e energy = false) /\
    reaction_gain c i nuc rx path_rate m = foldM (yield_gain c i path_rate) m data /\
    (forall m0 product y,
        yield_gain c i path_rate m0 (product, y) =
          if fneb (fmul y path_rate) f0
          then k ← getitem (nuclide_dict c) product;
               Ok (<[(k, i) := fadd (m_get m0 (k, i)) (fmul y path_rate)]> m0)
          else Ok m0).
Proof.
  intros Ho Hne Hty Htg.
  destruct (sorted_items_nonempty _ Hne) as [[energy data] Hh].
  destruct (sorted_items_head_minimal _ _ Ho Hh) as [Hin Hmin].
  exists energy, data. split; [exact Hin|]. split; [|split].
  - intros e d Hed. apply (Hmin (e, d) Hed).
  - unfold reaction_gain. rewrite Htg, Hty. simpl.
    unfold fission_gain, nth_item. rewrite <- head_lookup, Hh. reflexivity.
  - intros m0 product y. reflexivity.
Qed.

End MatrixFacts.

Section WholeMatrix.
Context {F : Type} {AF : Arith F}.
Variable log2 : F.

(** *** The entries of a column are written in the turn of its nuclide *)

Lemma m_get_sub_ne (m : gmap (nat * nat) F) k k' v : k <> k' -> m_get (m_sub m k v) k' = m_get m k'.
Proof. intros Hne. unfold m_sub, m_get at 1. rewrite lookup_insert_ne by exact Hne. reflexivity. Qed.

Lemma foldM_frame {A B} (P : A -> A -> Prop) (f : A -> B -> result A) (l : list B) :
  (forall a, P a a) ->
  (forall a b c, P a b -> P b c -> P a c) ->
  (forall a b a', f a b = Ok a' -> P a a') ->
  forall a a', foldM f a l = Ok a' -> P a a'.
Proof.
  intros Hrefl Htrans Hstep. induction l as [|b l IH]; intros a a' Hf; simpl in Hf.
  - injection Hf as <-. apply Hrefl.
  - apply bind_ok in Hf as (a1 & H1 & Hf). eapply Htrans; eauto.
Qed.

Lemma same_outside_refl j m : same_outside j m m.
Proof. intros k _. reflexivity. Qed.

Lemma same_outside_trans j m1 m2 m3 :
  same_outside j m1 m2 -> same_outside j m2 m3 -> same_outside j m1 m3.
Proof. intros H12 H23 k Hk. rewrite H23, H12; auto. Qed.

Lemma same_outside_add j m r v : same_outside j m (m_add m (r, j) v).
Proof. intros k Hk. apply m_get_add_ne. intros <-. apply Hk. reflexivity. Qed.

Lemma same_outside_sub j m r v : same_outside j m (m_sub m (r, j) v).
Proof. intros k Hk. apply m_get_sub_ne. intros <-. apply Hk. reflexivity. Qed.

Lemma decay_gain_column (c : Chain F) j dc m mode m' :
  decay_gain c j dc m mode = Ok m' -> same_outside j m m'.
Proof.
  unfold decay_gain. intros Hg.
  destruct (negb (String.eqb (d_target mode) "Nothing")); [|injection Hg as <-; apply same_outside_refl].
  destruct (fneb _ f0); [|injection Hg as <-; apply same_outside_refl].
  apply bind_ok in Hg as (k & _ & Hg). injection Hg as <-. apply same_outside_add.
Qed.

Lemma decay_terms_column (c : Chain F) j nuc m m' :
  decay_terms log2 c j nuc m = Ok m' -> same_outside j m m'.
Proof.
  unfold decay_terms. intros Hd.
  destruct (negb (n_decay_modes nuc =? 0)); [|injection Hd as <-; apply same_outside_refl].
  destruct (half_life nuc) as [hl|]; [|discriminate].
  destruct (feqb hl f0); [discriminate|].
  eapply same_outside_trans; [|eapply (foldM_frame (same_outside j)); eauto].
  - destruct (fneb _ f0); [apply same_outside_sub|apply same_outside_refl].
  - apply same_outside_refl.
  - intros a b d. apply same_outside_trans.
  - intros a b a'. apply decay_gain_column.
Qed.

Lemma yield_gain_column (c : Chain F) j p m py m' :
  yield_gain c j p m py = Ok m' -> same_outside j m m'.
Proof.
  unfold yield_gain. intros Hg.
  destruct (fneb _ f0); [|injection Hg as <-; apply same_outside_refl].
  apply bind_ok in Hg as (k & _ & Hg). injection Hg as <-. apply same_outside_add.
Qed.

Lemma reaction_gain_column (c : Chain F) j nuc rx p m m' :
  reaction_gain c j nuc rx p m = Ok m' -> same_outside j m m'.
Proof.
  unfold reaction_gain. intros Hg.
  destruct (negb (target_is_nothing (r_target rx))); [|injection Hg as <-; apply same_outside_refl].
  destruct (negb (String.eqb (r_type rx) "fission")).
  - destruct (fneb p f0); [|injection Hg as <-; apply same_outside_refl].
    apply bind_ok in Hg as (k & _ & Hg). injection Hg as <-. apply same_outside_add.
  - unfold fission_gain in Hg. apply bind_ok in Hg as ([energy data] & _ & Hg).
    eapply (foldM_frame (same_outside j)); eauto.
    + apply same_outside_refl.
    + intros a b d. apply same_outside_trans.
    + intros a b a'. apply yield_gain_column.
Qed.

Lemma reaction_term_column (c : Chain F) rates j nuc nuc_rates st rx st' :
  reaction_term c rates j nuc nuc_rates st rx = Ok st' -> same_outside j (fst st) (fst st').
Proof.
  unfold reaction_term. intros Ht.
  apply bind_ok in Ht as (r_id & _ & Ht).
  apply bind_ok in Ht as (p & _ & Ht).
  apply bind_ok in Ht as (m2 & Hg & Ht). injection Ht as <-. simpl.
  apply reaction_gain_column in Hg.
  eapply same_outside_trans; [|exact Hg].
  unfold reaction_loss. destruct st as [m seen]. simpl.
  destruct (bool_decide (r_type rx ∉ seen)); simpl; [|apply same_outside_refl].
  destruct (fneb p f0); [apply same_outside_sub|apply same_outside_refl].
Qed.

Lemma reaction_terms_column (c : Chain F) rates j nuc m m' :
  reaction_terms c rates j nuc m = Ok m' -> same_outside j m m'.
Proof.
  unfold reaction_terms. intros Hr.
  destruct (index_nuc rates !! name nuc); [|injection Hr as <-; apply same_outside_refl].
  apply bind_ok in Hr as (nuc_rates & _ & Hr).
  apply bind_ok in Hr as (st & Hf & Hr). injection Hr as <-.
  change m with (fst (m, (∅ : gset string))).
  eapply (foldM_frame (fun a b => same_outside j (fst a) (fst b))); eauto.
  - intros a. apply same_outside_refl.
  - intros a b d. apply same_outside_trans.
  - intros a b a'. apply reaction_term_column.
Qed.

(** The turns of the other nuclides leave a column alone. *)
Lemma form_loop_column (c : Chain F) rates nucs :
  forall j m m' (k : nat * nat),
    form_loop log2 c rates j nucs m = Ok m' ->
    (snd k < j \/ j + length nucs <= snd k) ->
    m_get m' k = m_get m k.
Proof.
  induction nucs as [|nuc nucs IH]; intros j m m' k Hf Hk; simpl in Hf.
  - injection Hf as <-. reflexivity.
  - apply bind_ok in Hf as (m1 & Hd & Hf).
    apply bind_ok in Hf as (m2 & Hr & Hf).
    simpl in Hk.
    rewrite (IH _ _ _ k Hf) by lia.
    rewrite (reaction_terms_column _ _ _ _ _ _ Hr k) by lia.
    apply (decay_terms_column _ _ _ _ _ Hd k). lia.
Qed.

Lemma form_loop_split (c : Chain F) rates pre nuc post :
  forall j m m',
    form_loop log2 c rates j (pre ++ nuc :: post) m = Ok m' ->
    exists m1 m2 m3,
      form_loop log2 c rates j pre m = Ok m1 /\
      decay_terms log2 c (j + length pre) nuc m1 = Ok m2 /\
      reaction_terms c rates (j + length pre) nuc m2 = Ok m3 /\
      form_loop log2 c rates (S (j + length pre)) post m3 = Ok m'.
Proof.
  induction pre as [|x pre IH]; intros j m m' Hf; simpl in Hf.
  - apply bind_ok in Hf as (m2 & Hd & Hf).
    apply bind_ok in Hf as (m3 & Hr & Hf).
    exists m, m2, m3. simpl. rewrite Nat.add_0_r. auto.
  - apply bind_ok in Hf as (a & Hd & Hf).
    apply bind_ok in Hf as (b & Hr & Hf).
    apply IH in Hf as (m1 & m2 & m3 & H1 & H2 & H3 & H4).
    exists m1, m2, m3. simpl. rewrite Hd. simpl. rewrite Hr. simpl.
    replace (j + S (length pre)) with (S j + length pre) by lia. auto.
Qed.

(** *** The diagonal entry after the decay block *)

Lemma decay_gains_diag (c : Chain F) i dc modes :
  forallb (fun mode : DecayTuple F =>
             negb (bool_decide (nuclide_dict c !! d_target mode = Some i))) modes = true ->
  forall m m', foldM (decay_gain c i dc) m modes = Ok m' -> m_get m' (i, i) = m_get m (i, i).
Proof.
  induction modes as [|mode modes IH]; intros Hoff m m' Hf; simpl in Hf.
  - injection Hf as <-. reflexivity.
  - simpl in Hoff. apply andb_true_iff in Hoff as [Hm Hoff].
    apply negb_true_iff, bool_decide_eq_false in Hm.
    apply bind_ok in Hf as (m1 & Hg & Hf).
    rewrite (IH Hoff _ _ Hf).
    unfold decay_gain in Hg.
    destruct (negb (String.eqb (d_target mode) "Nothing")); [|injection Hg as <-; reflexivity].
    destruct (fneb _ f0); [|injection Hg as <-; reflexivity].
    apply bind_ok in Hg as (k & Hk & Hg). injection Hg as <-.
    unfold getitem in Hk.
    destruct (nuclide_dict c !! d_target mode) as [k'|] eqn:E; [|discriminate].
    injection Hk as ->. apply m_get_add_ne. congruence.
Qed.

Lemma decay_terms_diag (c : Chain F) i nuc m m' :
  decay_off_diagonal c i nuc = true ->
  m_get m (i, i) = f0 ->
  decay_terms log2 c i nuc m = Ok m' ->
  m_get m' (i, i) = decay_diagonal log2 nuc.
Proof.
  intros Hoff Hm Hd. unfold decay_terms in Hd. unfold decay_diagonal.
  destruct (negb (n_decay_modes nuc =? 0)); [|injection Hd as <-; exact Hm].
  destruct (half_life nuc) as [hl|]; [|discriminate].
  destruct (feqb hl f0); [discriminate|].
  apply (decay_gains_diag c i _ _ Hoff) in Hd. rewrite Hd.
  destruct (fneb (fdiv log2 hl) f0); [|exact Hm].
  rewrite m_get_sub, Hm. reflexivity.
Qed.

(** C4: in the matrix [form_matrix] returns, the diagonal entry of a
    nuclide that is in the rate table is what its decay block leaves
    there (minus the decay constant, or zero) with the rate of each
    distinct reaction type of the nuclide subtracted exactly once,
    however many of its transitions carry that type: the types
    subtracted form a duplicate-free list of the types of the nuclide's
    transitions.  (A rate equal to zero is not subtracted, which leaves
    the value as it is; the gains are kept apart by asking that no decay
    or reaction of the nuclide produces the nuclide itself.) *)
Theorem reaction_loss_once_per_type (c : Chain F) rates i nuc nuc_ind nuc_rates n M :
  nuclides c !! i = Some nuc ->
  index_nuc rates !! name nuc = Some nuc_ind ->
  rates_data rates !! nuc_ind = Some nuc_rates ->
  decay_off_diagonal c i nuc = true ->
  off_diagonal c i nuc = true ->
  form_matrix log2 c rates = Ok (n, M) ->
  exists types,
    NoDup types /\
    (forall r, r ∈ types <-> r ∈ map r_type (reactions nuc)) /\
    (forall r, r ∈ types -> exists p, path_rate_of rates nuc_rates r = Ok p) /\
    m_get M (i, i) =
      fold_left (subtract_rate rates nuc_rates) types (decay_diagonal log2 nuc).
Proof.
  intros Hnuc Hin Hrow Hdoff Hoff Hfm. unfold form_matrix in Hfm.
  apply bind_ok in Hfm as (m & Hloop & Hfm). injection Hfm as <- <-.
  apply list_elem_of_split_length in Hnuc as (pre & post & Hsplit & Hlen).
  rewrite Hsplit in Hloop.
  apply form_loop_split in Hloop as (m1 & m2 & m3 & Hpre & Hd & Hr & Hpost).
  simpl in Hd, Hr, Hpost. rewrite <- Hlen in Hd, Hr, Hpost.
  rewrite (form_loop_column _ _ _ _ _ _ (i, i) Hpost) by (simpl; lia).
  destruct (reaction_block_loss_once c rates i nuc nuc_ind nuc_rates m2 m3 Hin Hrow Hoff Hr)
    as (types & Hnd & Hel & Hok & Hdiag).
  exists types. split; [exact Hnd|]. split; [exact Hel|]. split; [exact Hok|].
  rewrite Hdiag. f_equal.
  apply (decay_terms_diag c i nuc m1 m2 Hdoff); [|exact Hd].
  rewrite (form_loop_column _ _ _ _ _ _ (i, i) Hpre) by (simpl; lia).
  reflexivity.
Qed.

End WholeMatrix.

(** *** Am241 with two capture branches *)

(** Am241 at capture rate 2.0 and (n,2n) rate 0.5. *)
Lemma reaction_loss_once_per_type_am241 :
  (nuclides am_chain !! 0 = Some am241 /\
   index_nuc am_rates !! name am241 = Some 0 /\
   rates_data am_rates !! 0 = Some [2%float; 0.5%float] /\
   decay_off_diagonal am_chain 0 am241 = true /\
   off_diagonal am_chain 0 am241 = true /\
   form_matrix log2_binary64 am_chain am_rates = Ok (5, am_matrix)) /\
  exists types,
    NoDup types /\
    (forall r, r ∈ types <-> r ∈ map r_type (reactions am241)) /\
    (forall r, r ∈ types -> exists p, path_rate_of am_rates [2%float; 0.5%float] r = Ok p) /\
    m_get am_matrix (0, 0) =
      fold_left (subtract_rate am_rates [2%float; 0.5%float]) types
                (decay_diagonal log2_binary64 am241).
Proof.
  split.
  - repeat split; vm_compute; reflexivity.
  - apply (reaction_loss_once_per_type log2_binary64 am_chain am_rates 0 am241 0
             [2%float; 0.5%float] 5 am_matrix);
      vm_compute; reflexivity.
Defined.

(** The capture rate is on the diagonal once, though two transitions
    carry it: the block subtracts 2.0 and 0.5, not 2.0 twice. *)
Lemma am241_diagonal :
  reaction_terms am_chain am_rates 0 am241 ∅ = Ok am241_block /\
  m_get am241_block (0, 0) = (-2.5)%float /\
  m_get am_matrix (0, 0) =
    PrimFloat.sub (PrimFloat.sub (PrimFloat.sub 0 (PrimFloat.div log2_binary64 1.364e10)) 2) 0.5.
Proof. repeat split; vm_compute; reflexivity. Qed.

(** *** U235 with yields at two energies *)

(** U235 with yield tables at 0.5 MeV and at 0.0253 eV. *)
Lemma fission_gain_uses_lowest_energy_u235 :
  (ordered_keys (map fst (yield_data u235)) = true /\
   yield_data u235 <> [] /\
   r_type (mkReaction "fission" TZero 1.9e8%float 1%float) = "fission" /\
   target_is_nothing TZero = false) /\
  exists energy data,
    (energy, data) ∈ yield_data u235 /\
    (forall e d, (e, d) ∈ yield_data u235 -> fltb e energy = false) /\
    reaction_gain u_chain 2 u235 (mkReaction "fission" TZero 1.9e8%float 1%float) 2%float ∅ =
      foldM (yield_gain u_chain 2 2%float) ∅ data /\
    (forall m0 product y,
        yield_gain u_chain 2 2%float m0 (product, y) =
          if fneb (fmul y 2%float) f0
          then k ← getitem (nuclide_dict u_chain) product;
               Ok (<[(k, 2) := fadd (m_get m0 (k, 2)) (fmul y 2%float)]> m0)
          else Ok m0).
Proof.
  split.
  - repeat split; try (vm_compute; reflexivity). discriminate.
  - apply (fission_gain_uses_lowest_energy u_chain 2 u235); try reflexivity. discriminate.
Defined.

(** The thermal table (0.0253 eV) is the one used, though it comes second. *)
Lemma u235_fission_gain :
  reaction_gain u_chain 2 u235 (mkReaction "fission" TZero 1.9e8%float 1%float) 2%float ∅ =
    Ok (list_to_map [((0, 2), 0.1%float); ((1, 2), 0.12%float)]).
Proof. vm_compute. reflexivity. Qed.

(** *** Two nuclides, one decay *)

(** C3: for the chain of A (half-life 10 s, decaying to B with ratio
    1.0) and B (stable), [form_matrix] without reaction rates returns the
    matrix of order 2 whose stored entries are (0,0) = -ln(2)/10 and
    (1,0) = ln(2)/10; the entries (0,1) and (1,1) are not stored, that is,
    zero; and the column of A adds up to exactly 0. *)
Theorem form_matrix_two_nuclides :
  let lambda := PrimFloat.div log2_binary64 10 in
  exists m,
    form_matrix log2_binary64 chain_ab no_rates = Ok (2, m) /\
    m !! (0, 0) = Some (PrimFloat.div (PrimFloat.opp log2_binary64) 10) /\
    m !! (1, 0) = Some lambda /\
    (m !! (0, 1) = None /\ m_get m (0, 1) = 0%float) /\
    (m !! (1, 1) = None /\ m_get m (1, 1) = 0%float) /\
    PrimFloat.add (m_get m (0, 0)) (m_get m (1, 0)) = 0%float.
Proof.
  intros lambda.
  destruct (form_matrix log2_binary64 chain_ab no_rates) as [[n m]|e] eqn:E;
    vm_compute in E; [|discriminate].
  injection E as <- <-.
  eexists. split; [reflexivity|].
  repeat split; vm_compute; reflexivity.
Qed.

(** ** [Chain.set_branch_ratios] *)

(** *** Ordered dictionaries *)

Lemma od_get_elem {V} (d : odict V) k v : od_get d k = Some v -> (k, v) ∈ d.
Proof.
  induction d as [|[k' v'] d IH]; simpl; [discriminate|].
  destruct (String.eqb k' k) eqn:E.
  - apply String.eqb_eq in E as ->. intros [= ->]. left.
  - intros Hg. right. auto.
Qed.

Lemma od_get_none {V} (d : odict V) k : od_get d k = None <-> k ∉ od_keys d.
Proof.
  induction d as [|[k' v'] d IH]; simpl.
  - split; [intros _ Hin; inversion Hin|reflexivity].
  - destruct (String.eqb k' k) eqn:E.
    + apply String.eqb_eq in E as ->. split; [discriminate|]. intros Hn. exfalso. apply Hn. left.
    + apply String.eqb_neq in E. rewrite IH. rewrite not_elem_of_cons. split; [auto|tauto].
Qed.

Lemma od_get_nodup {V} (d : odict V) k v :
  NoDup (od_keys d) -> (k, v) ∈ d -> od_get d k = Some v.
Proof.
  induction d as [|[k' v'] d IH]; simpl; intros Hnd Hin; [inversion Hin|].
  apply NoDup_cons in Hnd as [Hk' Hnd].
  apply elem_of_cons in Hin as [[= <- <-]|Hin].
  - rewrite String.eqb_refl. reflexivity.
  - destruct (String.eqb k' k) eqn:E; [|auto].
    apply String.eqb_eq in E as ->. exfalso. apply Hk'.
    apply list_elem_of_fmap. exists (k, v). auto.
Qed.

Lemma od_set_fresh {V} (d : odict V) k v : k ∉ od_keys d -> od_set d k v = d ++ [(k, v)].
Proof.
  induction d as [|[k' v'] d IH]; simpl; intros Hk; [reflexivity|].
  apply not_elem_of_cons in Hk as [Hne Hk].
  destruct (String.eqb k' k) eqn:E.
  - apply String.eqb_eq in E. congruence.
  - rewrite IH by exact Hk. reflexivity.
Qed.

Section EditFacts.
Context {F : Type} {AF : Arith F} {ND : NuclearData}.

(** *** The transitions an edit replaces *)

Lemma scan_reactions_from reaction parent (rxs : list (ReactionTuple F)) :
  forall off ixs grounds ixs' grounds',
    foldM (scan_reaction reaction parent (secondary_of reaction)) (ixs, grounds)
          (imap (fun n rx => (off + n, rx)) rxs) = Ok (ixs', grounds') ->
    ixs' = ixs ++ edited_positions reaction off rxs /\
    (forall q, q <> parent -> grounds' !! q = grounds !! q) /\
    grounds' !! parent = observed_ground reaction (grounds !! parent) rxs.
Proof.
  induction rxs as [|rx rxs IH]; intros off ixs grounds ixs' grounds' Hf.
  - simpl in Hf. injection Hf as <- <-. rewrite app_nil_r. auto.
  - rewrite imap_cons in Hf. simpl in Hf.
    rewrite (imap_ext _ (fun n rx => (S off + n, rx))) in Hf
      by (intros; simpl; f_equal; lia).
    fold (edited reaction rx) in Hf. simpl.
    destruct (edited reaction rx) eqn:E.
    + destruct (r_target rx) as [t| |] eqn:Et; simpl in Hf; try discriminate.
      apply (IH (S off) (ixs ++ [off + 0]) _ ixs' grounds') in Hf as (-> & Hother & Hp).
      rewrite Nat.add_0_r, <- app_assoc. split; [reflexivity|]. split.
      * intros q Hq. rewrite Hother by exact Hq.
        destruct (negb (contains "_m" t)); [|reflexivity].
        apply lookup_insert_ne. congruence.
      * rewrite Hp. f_equal.
        destruct (contains "_m" t); simpl; [reflexivity|].
        apply lookup_insert_eq.
    + simpl in Hf. apply (IH (S off) ixs grounds ixs' grounds') in Hf as (-> & Hother & Hp).
      auto.
Qed.

Lemma scan_reactions_spec reaction parent (rxs : list (ReactionTuple F)) grounds ixs' grounds' :
  foldM (scan_reaction reaction parent (secondary_of reaction)) ([], grounds)
        (imap pair rxs) = Ok (ixs', grounds') ->
  ixs' = edited_positions reaction 0 rxs /\
  (forall q, q <> parent -> grounds' !! q = grounds !! q) /\
  grounds' !! parent = observed_ground reaction (grounds !! parent) rxs.
Proof.
  intros Hf. apply (scan_reactions_from reaction parent rxs 0 [] grounds). exact Hf.
Qed.

(** *** Popping the edited transitions *)

Lemma pop_all_app ixs1 ixs2 (rs : list (ReactionTuple F)) rs1 :
  pop_all ixs1 rs = (None, rs1) -> pop_all (ixs1 ++ ixs2) rs = pop_all ixs2 rs1.
Proof.
  revert rs. induction ixs1 as [|ix ixs1 IH]; intros rs Hp; simpl in *.
  - injection Hp as ->. reflexivity.
  - destruct (ix <? length rs); [|discriminate]. apply IH. exact Hp.
Qed.

Lemma pop_edited_from reaction (rs : list (ReactionTuple F)) :
  forall pre,
    pop_all (rev (edited_positions reaction (length pre) rs)) (pre ++ rs) =
      (None, pre ++ List.filter (fun rx => negb (edited reaction rx)) rs).
Proof.
  induction rs as [|rx rs IH]; intros pre; simpl.
  - reflexivity.
  - specialize (IH (pre ++ [rx])).
    rewrite length_app, Nat.add_1_r, <- !app_assoc in IH. simpl in IH.
    destruct (edited reaction rx) eqn:E; simpl.
    + rewrite (pop_all_app _ _ _ _ IH). simpl.
      replace (length pre <? length (pre ++ rx :: List.filter (fun rx0 => negb (edited reaction rx0)) rs))
        with true by (symmetry; apply Nat.ltb_lt; rewrite length_app; simpl; lia).
      f_equal. rewrite delete_middle. reflexivity.
    + exact IH.
Qed.

Lemma pop_edited reaction (rs : list (ReactionTuple F)) :
  pop_all (rev (edited_positions reaction 0 rs)) rs =
    (None, List.filter (fun rx => negb (edited reaction rx)) rs).
Proof. apply (pop_edited_from reaction rs []). Qed.

(** The first edited position holds the first edited transition. *)
Lemma edited_positions_head reaction (rs : list (ReactionTuple F)) :
  forall pre ix0 ixs,
    edited_positions reaction (length pre) rs = ix0 :: ixs ->
    exists rx0, (pre ++ rs) !! ix0 = Some rx0 /\
                List.find (edited reaction) rs = Some rx0.
Proof.
  induction rs as [|rx rs IH]; intros pre ix0 ixs Hp; simpl in Hp; [discriminate|].
  simpl. destruct (edited reaction rx) eqn:E.
  - injection Hp as <- <-. exists rx. split; [|reflexivity].
    rewrite lookup_app_r by lia. rewrite Nat.sub_diag. reflexivity.
  - specialize (IH (pre ++ [rx]) ix0 ixs).
    rewrite length_app, Nat.add_1_r, <- app_assoc in IH. apply IH. exact Hp.
Qed.

(** *** What validation establishes *)

Lemma validated_mono c done entry reaction tolerance vs vs' p ixs :
  validated c done reaction tolerance vs p ixs ->
  sums vs' !! p = sums vs !! p ->
  grounds vs' !! p = grounds vs !! p ->
  validated c (done ++ [entry]) reaction tolerance vs' p ixs.
Proof.
  intros (idx & nuc & id & sub & g & H1 & H2 & H3 & H4 & H5 & H6 & H7 & H8 & H9) Hs Hg.
  exists idx, nuc, id, sub, g. rewrite Hs, Hg.
  repeat split; auto. apply elem_of_app. auto.
Qed.

(** A step that leaves [rxn_ix_map] and [sums] alone and touches
    [grounds] at the new parent only. *)
Lemma validation_inv_skip c reaction tolerance done vs vs' p id sub :
  validation_inv c reaction tolerance done vs ->
  p ∉ od_keys done ->
  rxn_ix_map vs' = rxn_ix_map vs ->
  sums vs' = sums vs ->
  (forall q, q <> p -> grounds vs' !! q = grounds vs !! q) ->
  validation_inv c reaction tolerance (done ++ [(p, (id, sub))]) vs'.
Proof.
  intros (Hnd & Hval & Hfresh) Hp Hmap Hsums Hgr.
  unfold validation_inv. rewrite Hmap. split; [exact Hnd|]. split.
  - intros q ixs Hq. destruct (Hval q ixs Hq) as [Hdone Hv].
    assert (q <> p) as Hne by (intros ->; auto).
    split.
    + unfold od_keys. rewrite fmap_app. apply elem_of_app. auto.
    + eapply validated_mono; [exact Hv|rewrite Hsums; reflexivity|apply Hgr; exact Hne].
  - intros q Hq. unfold od_keys in Hq. rewrite fmap_app in Hq.
    apply not_elem_of_app in Hq as [Hq1 Hq2]. simpl in Hq2.
    rewrite Hgr; [auto|]. intros ->. apply Hq2. left.
Qed.

Lemma chain_getitem_ok (c : Chain F) p nuc :
  chain_getitem c p = Ok nuc ->
  exists idx, nuclide_dict c !! p = Some idx /\ nuclides c !! idx = Some nuc.
Proof.
  unfold chain_getitem. intros Hg. apply bind_ok in Hg as (idx & Hi & Hn).
  unfold getitem in Hi. destruct (nuclide_dict c !! p) as [i|]; [|discriminate].
  injection Hi as ->. unfold nth_item in Hn.
  destruct (nuclides c !! idx) as [n|] eqn:E; [|discriminate].
  injection Hn as ->. eauto.
Qed.

Lemma sum_is_bad_false tolerance s (sub : odict F) grounds p :
  sum_is_bad tolerance s sub grounds p = Ok false ->
  exists g, grounds !! p = Some g /\ in_tolerance tolerance s sub g = true.
Proof.
  unfold sum_is_bad, in_tolerance.
  destruct (fgeb s (fadd f1 tolerance)); [discriminate|].
  intros Hb. apply bind_ok in Hb as (g & Hg & Hb).
  unfold getitem in Hg. destruct (grounds !! p) as [g'|]; [|discriminate].
  injection Hg as ->. exists g. split; [reflexivity|].
  injection Hb as ->. reflexivity.
Qed.

(** One turn of the validation loop keeps the invariant. *)
Lemma validate_parent_inv c reaction strict tolerance done vs vs' p id sub :
  validation_inv c reaction tolerance done vs ->
  p ∉ od_keys done ->
  validate_parent c reaction strict tolerance vs (p, (id, sub)) = Ok vs' ->
  validation_inv c reaction tolerance (done ++ [(p, (id, sub))]) vs'.
Proof.
  intros Hinv Hp Hv. unfold validate_parent in Hv. simpl in Hv.
  destruct (negb (chain_contains c p)).
  { destruct strict; [discriminate|]. injection Hv as <-.
    apply (validation_inv_skip c reaction tolerance done vs); auto. }
  destruct (List.find _ (od_keys sub)).
  { destruct strict; [discriminate|]. injection Hv as <-.
    apply (validation_inv_skip c reaction tolerance done vs); auto. }
  apply bind_ok in Hv as (nuc & Hnuc & Hv).
  apply bind_ok in Hv as ([indexes grounds'] & Hscan & Hv).
  apply scan_reactions_spec in Hscan as (-> & Hother & Hg).
  destruct (length (edited_positions reaction 0 (reactions nuc)) =? 0) eqn:Elen.
  { destruct strict; [discriminate|]. injection Hv as <-.
    apply (validation_inv_skip c reaction tolerance done vs); auto. }
  apply bind_ok in Hv as ([|] & Hbad & Hv).
  { destruct strict; [discriminate|]. injection Hv as <-.
    apply (validation_inv_skip c reaction tolerance done vs); auto. }
  injection Hv as <-.
  apply sum_is_bad_false in Hbad as (g & Hgp & Htol).
  apply chain_getitem_ok in Hnuc as (idx & Hidx & Hnuc).
  destruct Hinv as (Hnd & Hval & Hfresh).
  assert (Hnew : p ∉ od_keys (rxn_ix_map vs)).
  { intros Hin. apply list_elem_of_fmap in Hin as ([q ixs] & -> & Hin).
    apply Hval in Hin as [Hin _]. auto. }
  unfold validation_inv. simpl. rewrite od_set_fresh by exact Hnew.
  split; [|split].
  - unfold od_keys. rewrite fmap_app. simpl. apply NoDup_app. split; [exact Hnd|].
    split; [|apply NoDup_singleton].
    intros q Hq Hq'. apply list_elem_of_singleton in Hq' as ->. auto.
  - intros q ixs Hq. apply elem_of_app in Hq as [Hq|Hq].
    + destruct (Hval q ixs Hq) as [Hdone Hv].
      assert (q <> p) as Hne by (intros ->; auto).
      split; [unfold od_keys; rewrite fmap_app; apply elem_of_app; auto|].
      eapply validated_mono; [exact Hv| |]; simpl.
      * apply lookup_insert_ne. congruence.
      * apply Hother. exact Hne.
    + apply list_elem_of_singleton in Hq as [= -> ->].
      split; [unfold od_keys; rewrite fmap_app; apply elem_of_app; right; left|].
      exists idx, nuc, id, sub, g. simpl.
      repeat split; auto.
      * apply elem_of_app. right. left.
      * intros E. rewrite E in Elen. discriminate.
      * apply lookup_insert_eq.
      * rewrite <- Hgp, Hg, (Hfresh p Hp). reflexivity.
  - intros q Hq. unfold od_keys in Hq. rewrite fmap_app in Hq.
    apply not_elem_of_app in Hq as [Hq1 Hq2]. simpl in Hq2.
    rewrite Hother; [auto|]. intros ->. apply Hq2. left.
Qed.

(** The validation loop establishes the invariant for all of
    [branch_ratios]. *)
Lemma validation_loop_inv c reaction strict tolerance todo :
  forall done vs vs',
    NoDup (od_keys (done ++ todo)) ->
    validation_inv c reaction tolerance done vs ->
    foldM (validate_parent c reaction strict tolerance) vs todo = Ok vs' ->
    validation_inv c reaction tolerance (done ++ todo) vs'.
Proof.
  induction todo as [|[p [id sub]] todo IH]; intros done vs vs' Hnd Hinv Hf; simpl in Hf.
  - injection Hf as <-. rewrite app_nil_r. exact Hinv.
  - apply bind_ok in Hf as (vs1 & Hv & Hf).
    assert (Hp : p ∉ od_keys done).
    { unfold od_keys in Hnd. rewrite fmap_app in Hnd. apply NoDup_app in Hnd as (_ & Hd & _).
      intros Hin. apply (Hd p Hin). left. }
    replace (done ++ (p, (id, sub)) :: todo) with ((done ++ [(p, (id, sub))]) ++ todo) in *
      by (rewrite <- app_assoc; reflexivity).
    eapply IH; [exact Hnd| |exact Hf].
    eapply validate_parent_inv; eauto.
Qed.

Lemma validation_inv_init c reaction tolerance : validation_inv c reaction tolerance [] vstate0.
Proof.
  split; [constructor|]. split.
  - intros p ixs Hin. inversion Hin.
  - intros q _. apply lookup_empty.
Qed.

(** *** Applying the ratios *)

Lemma NoDup_map_inj {A B} (f : A -> B) (l : list A) x y :
  NoDup (map f l) -> x ∈ l -> y ∈ l -> f x = f y -> x = y.
Proof.
  induction l as [|a l IH]; intros Hnd Hx Hy Hf; [inversion Hx|].
  simpl in Hnd. apply NoDup_cons in Hnd as [Ha Hnd].
  apply elem_of_cons in Hx as [Hx|Hx]; apply elem_of_cons in Hy as [Hy|Hy].
  - congruence.
  - subst a. exfalso. apply Ha. rewrite Hf.
    apply list_elem_of_In, in_map, list_elem_of_In. exact Hy.
  - subst a. exfalso. apply Ha. rewrite <- Hf.
    apply list_elem_of_In, in_map, list_elem_of_In. exact Hx.
  - auto.
Qed.

Lemma index_injective_lookup (c : Chain F) n1 n2 i :
  index_injective c ->
  nuclide_dict c !! n1 = Some i -> nuclide_dict c !! n2 = Some i -> n1 = n2.
Proof.
  intros Hinj H1 H2.
  apply elem_of_map_to_list in H1. apply elem_of_map_to_list in H2.
  assert ((n1, i) = (n2, i)) as E by (eapply (NoDup_map_inj snd); eauto).
  congruence.
Qed.

Lemma fold_append_ratio reaction q (sub : odict F) :
  forall b rs,
    fold_left (append_ratio reaction q) sub (b, rs) =
      (b && all_meta sub,
       rs ++ map (fun kv : string * F => mkReaction reaction (TName (fst kv)) q (snd kv)) sub).
Proof.
  induction sub as [|kv sub IH]; intros b rs; simpl.
  - rewrite andb_true_r, app_nil_r. reflexivity.
  - change (append_ratio reaction q (b, rs) kv)
      with (b && contains "_m" (fst kv),
            rs ++ [mkReaction reaction (TName (fst kv)) q (snd kv)]).
    rewrite IH. unfold all_meta. simpl. rewrite andb_assoc, <- app_assoc. reflexivity.
Qed.

(** One turn of the loop that applies the ratios, for a validated
    parent whose nuclide is as validation saw it. *)
Lemma apply_parent_validated reaction (vs : vstate F) ck (bk : branch_ratios F)
    p ixs idx nuc id sub s g :
  nuclide_dict ck !! p = Some idx ->
  nuclides ck !! idx = Some nuc ->
  od_get bk p = Some (id, sub) ->
  ixs = edited_positions reaction 0 (reactions nuc) ->
  ixs <> [] ->
  sums vs !! p = Some s ->
  grounds vs !! p = Some g ->
  apply_parent reaction vs (ck, bk) (p, ixs) =
    (None,
     (write_reactions ck idx nuc (new_reactions reaction nuc sub s g),
      if all_meta sub && fneb s f1 then store_set bk id g (fsub f1 s) else bk)).
Proof.
  intros Hidx Hnuc Hget Hixs Hne Hs Hg.
  unfold apply_parent. rewrite Hidx, Hnuc, Hget.
  destruct ixs as [|ix0 ixs']; [congruence|].
  destruct (edited_positions_head reaction (reactions nuc) [] ix0 ixs' (eq_sym Hixs))
    as (rx0 & Hrx0 & Hfind).
  simpl in Hrx0. rewrite Hrx0, Hixs, pop_edited, fold_append_ratio, Hs, Hg.
  unfold new_reactions, first_Q. rewrite Hfind. simpl.
  destruct (all_meta sub); simpl.
  - destruct (fneb s f1); simpl.
    + rewrite <- app_assoc. reflexivity.
    + rewrite app_nil_r. reflexivity.
  - rewrite app_nil_r. reflexivity.
Qed.

Lemma store_set_keys (b : branch_ratios F) id k v : od_keys (store_set b id k v) = od_keys b.
Proof.
  unfold store_set, od_keys. rewrite map_map. apply map_ext.
  intros [p [id' sub]]. simpl. destruct (id' =? id); reflexivity.
Qed.

Lemma store_set_other (b : branch_ratios F) id k v p id' sub :
  od_get b p = Some (id', sub) -> id' <> id ->
  od_get (store_set b id k v) p = Some (id', sub).
Proof.
  induction b as [|[q [i s']] b IH]; simpl; [discriminate|].
  destruct (String.eqb q p) eqn:E.
  - intros [= -> ->] Hne. apply Nat.eqb_neq in Hne. rewrite Hne. simpl. rewrite E. reflexivity.
  - intros Hg Hne. destruct (i =? id); simpl; rewrite E; auto.
Qed.

Lemma unshared_ids (brs : branch_ratios F) p q id sub sub' :
  unshared brs -> (p, (id, sub)) ∈ brs -> (q, (id, sub')) ∈ brs -> p = q.
Proof.
  intros Hnd Hp Hq.
  assert ((p, (id, sub)) = (q, (id, sub'))) as E
    by (eapply (NoDup_map_inj (fun e : string * (nat * odict F) => fst (snd e))); eauto).
  congruence.
Qed.

Lemma od_keys_elem {V} (d : odict V) k v : (k, v) ∈ d -> k ∈ od_keys d.
Proof. intros Hin. apply list_elem_of_fmap. exists (k, v). auto. Qed.

(** The loop that applies the ratios never raises on what validation
    hands over, and leaves each validated parent with its new
    transitions. *)
Lemma apply_all_validated c (brs : branch_ratios F) reaction tolerance (vs : vstate F) :
  index_injective c -> NoDup (od_keys brs) ->
  forall entries ck (bk : branch_ratios F),
    NoDup (od_keys entries) ->
    (forall p ixs, (p, ixs) ∈ entries -> validated c brs reaction tolerance vs p ixs) ->
    nuclide_dict ck = nuclide_dict c ->
    (forall p ixs idx, (p, ixs) ∈ entries -> nuclide_dict c !! p = Some idx ->
        nuclides ck !! idx = nuclides c !! idx) ->
    od_keys bk = od_keys brs ->
    (unshared brs -> forall p ixs, (p, ixs) ∈ entries -> od_get bk p = od_get brs p) ->
    exists c' b',
      apply_all reaction vs (ck, bk) entries = (None, (c', b')) /\
      nuclide_dict c' = nuclide_dict c /\
      chain_reactions c' = chain_reactions ck /\
      (forall idx, (forall p ixs, (p, ixs) ∈ entries -> nuclide_dict c !! p <> Some idx) ->
         nuclides c' !! idx = nuclides ck !! idx) /\
      (forall p ixs, (p, ixs) ∈ entries ->
         exists idx nuc id sub s g,
           nuclide_dict c !! p = Some idx /\ nuclides c !! idx = Some nuc /\
           sums vs !! p = Some s /\ grounds vs !! p = Some g /\
           nuclides c' !! idx = Some (set_reactions nuc (new_reactions reaction nuc sub s g)) /\
           (unshared brs -> od_get brs p = Some (id, sub))).
Proof.
  intros Hinj Hbrs. induction entries as [|[p ixs] rest IH];
    intros ck bk Hnd Hval Hdict Hnucs Hkeys Hsame.
  - exists ck, bk. simpl. repeat split; auto. intros p ixs Hin. inversion Hin.
  - simpl in Hnd. apply NoDup_cons in Hnd as [Hp Hnd].
    destruct (Hval p ixs) as (idx & nuc & id & sub & g & Hidx & Hnuc & Hin & Hixs & Hne & Hs & Hg & _);
      [left|].
    assert (Hgetk : exists idk subk, od_get bk p = Some (idk, subk)).
    { destruct (od_get bk p) as [[idk subk]|] eqn:E; [eauto|].
      apply od_get_none in E. rewrite Hkeys in E. exfalso. apply E.
      eapply od_keys_elem. exact Hin. }
    destruct Hgetk as (idk & subk & Hgetk).
    assert (Hnuck : nuclides ck !! idx = Some nuc).
    { rewrite (Hnucs p ixs idx); [exact Hnuc|left|exact Hidx]. }
    assert (Hother : forall q jxs, (q, jxs) ∈ rest -> nuclide_dict c !! q <> Some idx).
    { intros q jxs Hq Hqi.
      assert (Hq' : exists idq, nuclide_dict c !! q = Some idq) by eauto.
      assert (q = p) as -> by (eapply index_injective_lookup; eauto).
      apply Hp. eapply od_keys_elem. exact Hq. }
    set (c1 := write_reactions ck idx nuc (new_reactions reaction nuc subk (fsum (od_values sub)) g)).
    set (b1 := if all_meta subk && fneb (fsum (od_values sub)) f1
               then store_set bk idk g (fsub f1 (fsum (od_values sub))) else bk).
    destruct (IH c1 b1) as (c' & b' & Happ & Hd' & Hr' & Hun' & Hres'); auto.
    + intros q jxs Hq. apply Hval. right. exact Hq.
    + intros q jxs j Hq Hqj. unfold c1. simpl.
      rewrite list_lookup_insert_ne.
      * apply (Hnucs q jxs); [right; exact Hq|exact Hqj].
      * intros ->. eapply Hother; eauto.
    + unfold b1. destruct (all_meta subk && fneb (fsum (od_values sub)) f1); [|exact Hkeys].
      rewrite store_set_keys. exact Hkeys.
    + intros Hun q jxs Hq. unfold b1.
      destruct (all_meta subk && fneb (fsum (od_values sub)) f1);
        [|apply (Hsame Hun q jxs); right; exact Hq].
      destruct (Hval q jxs) as (_ & _ & idq & subq & _ & _ & _ & Hinq & _); [right; exact Hq|].
      pose proof (od_get_nodup brs q (idq, subq) Hbrs Hinq) as Hgq.
      rewrite Hgq. apply store_set_other.
      * rewrite (Hsame Hun q jxs) by (right; exact Hq). exact Hgq.
      * intros ->.
        rewrite (Hsame Hun p ixs) in Hgetk by left.
        apply od_get_elem in Hgetk.
        assert (q = p) as -> by (eapply unshared_ids; eauto).
        apply Hp. eapply od_keys_elem. exact Hq.
    + exists c', b'. split; [|split; [|split; [|split]]].
      * change (apply_all reaction vs (ck, bk) ((p, ixs) :: rest))
          with (match apply_parent reaction vs (ck, bk) (p, ixs) with
                | (Some e, st') => (Some e, st')
                | (None, st') => apply_all reaction vs st' rest
                end).
        rewrite (apply_parent_validated reaction vs ck bk p ixs idx nuc idk subk
                   (fsum (od_values sub)) g); auto.
        rewrite Hdict. exact Hidx.
      * exact Hd'.
      * rewrite Hr'. reflexivity.
      * intros j Hj. rewrite Hun'.
        -- unfold c1. simpl. apply list_lookup_insert_ne.
           intros ->. apply (Hj p ixs); [left|exact Hidx].
        -- intros q jxs Hq. apply (Hj q jxs). right. exact Hq.
      * intros q jxs Hq. apply elem_of_cons in Hq as [[= -> ->]|Hq]; [|eauto].
        exists idx, nuc, idk, subk, (fsum (od_values sub)), g.
        repeat split; auto.
        -- rewrite Hun' by exact Hother. unfold c1. simpl.
           apply list_lookup_insert_eq. eapply lookup_lt_Some. exact Hnuck.
        -- intros Hun. rewrite <- (Hsame Hun p ixs) by left. exact Hgetk.
Qed.

(** *** A rejected edit *)

(** C5: whenever [set_branch_ratios] ends with an exception, in strict
    mode as in non-strict mode, the chain is as it was before the call
    (nuclides, transition lists and index), and so are the caller's
    dicts: every exception is raised before the first change.  The chain
    is one whose index names each position once, as the chains built by
    [from_endf] and [from_xml] are. *)
Theorem set_branch_ratios_raise_leaves_chain (c : Chain F) (brs : branch_ratios F)
    reaction strict tolerance :
  index_injective c ->
  NoDup (od_keys brs) ->
  is_Some (out_exn (set_branch_ratios c brs reaction strict tolerance)) ->
  out_chain (set_branch_ratios c brs reaction strict tolerance) = c /\
  out_ratios (set_branch_ratios c brs reaction strict tolerance) = brs.
Proof.
  intros Hinj Hnd. unfold set_branch_ratios.
  destruct (foldM _ vstate0 brs) as [vs|e] eqn:Hval; [|auto].
  destruct (length (rxn_ix_map vs) =? 0); [auto|].
  pose proof (validation_loop_inv c reaction strict (fabs tolerance) brs [] vstate0 vs
                Hnd (validation_inv_init _ _ _) Hval) as (Hkeys & Hvalid & _).
  simpl in Hvalid.
  destruct (apply_all_validated c brs reaction (fabs tolerance) vs Hinj Hnd
              (rxn_ix_map vs) c brs) as (c' & b' & Happ & _); auto.
  - intros p ixs Hin. apply Hvalid. exact Hin.
  - rewrite Happ. simpl. intros [e He]. discriminate.
Qed.

(** *** A reaction no nuclide has *)

Lemma edited_positions_none reaction (rxs : list (ReactionTuple F)) off :
  existsb (fun rx : ReactionTuple F => String.eqb (r_type rx) reaction) rxs = false ->
  edited_positions reaction off rxs = [].
Proof.
  revert off. induction rxs as [|rx rxs IH]; intros off Hex; simpl in *; [reflexivity|].
  apply orb_false_iff in Hex as [Hrx Hex].
  unfold edited. rewrite Hrx. simpl. apply IH. exact Hex.
Qed.

Lemma validate_parent_unknown_reaction c reaction strict tolerance (vs vs' : vstate F) entry :
  carries c reaction = false ->
  validate_parent c reaction strict tolerance vs entry = Ok vs' ->
  rxn_ix_map vs' = rxn_ix_map vs.
Proof.
  intros Hc Hv. unfold validate_parent in Hv.
  destruct (negb (chain_contains c (fst entry))).
  { destruct strict; [discriminate|]. injection Hv as <-. reflexivity. }
  destruct (List.find _ (od_keys (snd (snd entry)))).
  { destruct strict; [discriminate|]. injection Hv as <-. reflexivity. }
  apply bind_ok in Hv as (nuc & Hnuc & Hv).
  apply bind_ok in Hv as ([indexes grounds'] & Hscan & Hv).
  apply scan_reactions_spec in Hscan as (-> & _ & _).
  apply chain_getitem_ok in Hnuc as (idx & _ & Hnuc).
  rewrite edited_positions_none in Hv.
  - simpl in Hv. destruct strict; [discriminate|]. injection Hv as <-. reflexivity.
  - unfold carries in Hc.
    destruct (existsb _ (reactions nuc)) eqn:E; [|reflexivity].
    rewrite <- Hc. symmetry. apply existsb_exists. exists nuc. split; [|exact E].
    apply list_elem_of_In. eapply list_elem_of_lookup_2. exact Hnuc.
Qed.

Lemma validation_unknown_reaction c reaction strict tolerance brs :
  carries c reaction = false ->
  forall vs vs' : vstate F,
    foldM (validate_parent c reaction strict tolerance) vs brs = Ok vs' ->
    rxn_ix_map vs' = rxn_ix_map vs.
Proof.
  intros Hc. induction brs as [|entry brs IH]; intros vs vs' Hf; simpl in Hf.
  - injection Hf as <-. reflexivity.
  - apply bind_ok in Hf as (vs1 & Hv & Hf).
    rewrite (IH _ _ Hf). eapply validate_parent_unknown_reaction; eauto.
Qed.

(** C8: when no nuclide of the chain has a transition of the requested
    type, [set_branch_ratios] ends with an exception, in strict and in
    non-strict mode, and nothing is changed. *)
Theorem set_branch_ratios_unknown_reaction (c : Chain F) (brs : branch_ratios F)
    reaction strict tolerance :
  carries c reaction = false ->
  is_Some (out_exn (set_branch_ratios c brs reaction strict tolerance)) /\
  out_chain (set_branch_ratios c brs reaction strict tolerance) = c /\
  out_ratios (set_branch_ratios c brs reaction strict tolerance) = brs.
Proof.
  intros Hc. unfold set_branch_ratios.
  destruct (foldM _ vstate0 brs) as [vs|e] eqn:Hval; [|simpl; eauto].
  apply (validation_unknown_reaction c reaction strict (fabs tolerance) brs Hc) in Hval.
  rewrite Hval. simpl. eauto.
Qed.

(** *** The sum check *)

Lemma foldM_raise {A B} (f : A -> B -> result A) pre x post a a1 e :
  foldM f a pre = Ok a1 -> f a1 x = Raise e -> foldM f a (pre ++ x :: post) = Raise e.
Proof.
  revert a. induction pre as [|y pre IH]; intros a Hpre Hx; simpl in *.
  - injection Hpre as ->. rewrite Hx. reflexivity.
  - destruct (f a y) as [a'|e']; simpl in *; [auto|discriminate].
Qed.

(** C6 (as the code has it): for a parent that is in the chain with all
    its supplied targets, has transitions of the requested type and
    ground state [g], the supplied ratios pass the sum check exactly when
    their sum is not [>= 1 + tolerance] and, when [g] is among the
    supplied keys, not [<= 1 - tolerance] either: both bounds are
    excluded.  Otherwise strict mode raises [ValueError] (the whole call
    ends with it) and non-strict mode records the sum in [bad_sums]. *)
Theorem sum_check_is_strict (c : Chain F) reaction strict tolerance (vs : vstate F)
    p id sub nuc indexes grounds' g :
  chain_contains c p = true ->
  List.find (fun product => negb (chain_contains c product)) (od_keys sub) = None ->
  chain_getitem c p = Ok nuc ->
  foldM (scan_reaction reaction p (secondary_of reaction)) ([], grounds vs)
        (imap pair (reactions nuc)) = Ok (indexes, grounds') ->
  indexes <> [] ->
  grounds' !! p = Some g ->
  (in_tolerance tolerance (fsum (od_values sub)) sub g = true <->
     fgeb (fsum (od_values sub)) (fadd f1 tolerance) = false /\
     (od_mem sub g = true -> fleb (fsum (od_values sub)) (fsub f1 tolerance) = false)) /\
  validate_parent c reaction strict tolerance vs (p, (id, sub)) =
    (if in_tolerance tolerance (fsum (od_values sub)) sub g
     then Ok (mkV (<[p := fsum (od_values sub)]> (sums vs))
                  (od_set (rxn_ix_map vs) p indexes) grounds'
                  (missing_parents vs) (missing_products vs)
                  (missing_reaction vs) (bad_sums vs))
     else if strict then Raise ValueError
          else Ok (mkV (sums vs) (rxn_ix_map vs) grounds'
                       (missing_parents vs) (missing_products vs)
                       (missing_reaction vs)
                       (<[p := fsum (od_values sub)]> (bad_sums vs)))) /\
  (forall pre post tolerance0,
     tolerance = fabs tolerance0 ->
     foldM (validate_parent c reaction true tolerance) vstate0 pre = Ok vs ->
     in_tolerance tolerance (fsum (od_values sub)) sub g = false ->
     out_exn (set_branch_ratios c (pre ++ (p, (id, sub)) :: post) reaction true tolerance0)
       = Some ValueError).
Proof.
  intros Hp Hfind Hnuc Hscan Hne Hg.
  assert (Hstep : forall strict',
    validate_parent c reaction strict' tolerance vs (p, (id, sub)) =
    (if in_tolerance tolerance (fsum (od_values sub)) sub g
     then Ok (mkV (<[p := fsum (od_values sub)]> (sums vs))
                  (od_set (rxn_ix_map vs) p indexes) grounds'
                  (missing_parents vs) (missing_products vs)
                  (missing_reaction vs) (bad_sums vs))
     else if strict' then Raise ValueError
          else Ok (mkV (sums vs) (rxn_ix_map vs) grounds'
                       (missing_parents vs) (missing_products vs)
                       (missing_reaction vs)
                       (<[p := fsum (od_values sub)]> (bad_sums vs))))).
  { intros strict'. unfold validate_parent. simpl. rewrite Hp. simpl.
    rewrite Hfind, Hnuc. simpl. rewrite Hscan. simpl.
    destruct indexes as [|ix indexes]; [congruence|]. simpl.
    unfold sum_is_bad, in_tolerance, getitem.
    destruct (fgeb (fsum (od_values sub)) (fadd f1 tolerance)); simpl; [reflexivity|].
    rewrite Hg. simpl.
    destruct (od_mem sub g && fleb (fsum (od_values sub)) (fsub f1 tolerance)); reflexivity. }
  split; [|split].
  - unfold in_tolerance.
    destruct (fgeb (fsum (od_values sub)) (fadd f1 tolerance)); simpl.
    + split; [discriminate|]. intros [? _]. discriminate.
    + destruct (od_mem sub g); simpl.
      * destruct (fleb (fsum (od_values sub)) (fsub f1 tolerance)); simpl.
        -- split; [discriminate|]. intros [_ Hl]. specialize (Hl eq_refl). discriminate.
        -- tauto.
      * split; [|reflexivity]. intros _. split; [reflexivity|discriminate].
  - apply Hstep.
  - intros pre post tolerance0 -> Hpre Hout.
    unfold set_branch_ratios.
    rewrite (foldM_raise _ pre (p, (id, sub)) post vstate0 vs ValueError Hpre).
    + reflexivity.
    + rewrite Hstep, Hout. reflexivity.
Qed.

(** *** A parent with metastable targets only *)

Lemma secondary_not_metastable reaction s :
  In s (secondary_of reaction) -> contains "_m" s = false.
Proof.
  unfold secondary_of.
  assert (Hall : forallb (fun kv : string * list string =>
                            forallb (fun s => negb (contains "_m" s)) (snd kv))
                         SECONDARY_PARTICLES = true) by (vm_compute; reflexivity).
  rewrite forallb_forall in Hall.
  destruct (od_get SECONDARY_PARTICLES reaction) as [l|] eqn:E; simpl; [|tauto].
  apply od_get_elem, list_elem_of_In, Hall in E. simpl in E.
  rewrite forallb_forall in E. intros Hs. apply E in Hs.
  apply negb_true_iff in Hs. exact Hs.
Qed.

Lemma metastable_target_edited reaction (rx : ReactionTuple F) t :
  String.eqb (r_type rx) reaction = true -> r_target rx = TName t ->
  contains "_m" t = true -> edited reaction rx = true.
Proof.
  intros Hty Ht Hm. unfold edited. rewrite Hty, Ht. simpl.
  apply negb_true_iff. destruct (existsb _ (secondary_of reaction)) eqn:E; [|reflexivity].
  apply existsb_exists in E as (s & Hs & Heq). apply String.eqb_eq in Heq as <-.
  apply secondary_not_metastable in Hs. congruence.
Qed.

Lemma scan_metastable_only reaction p (rxs : list (ReactionTuple F)) :
  forallb (fun rx : ReactionTuple F =>
             implb (String.eqb (r_type rx) reaction)
                   match r_target rx with
                   | TName t => contains "_m" t
                   | _ => false
                   end) rxs = true ->
  forall off ixs (grounds : gmap string string),
    foldM (scan_reaction reaction p (secondary_of reaction)) (ixs, grounds)
          (imap (fun n rx => (off + n, rx)) rxs) =
      Ok (ixs ++ edited_positions reaction off rxs, grounds).
Proof.
  induction rxs as [|rx rxs IH]; intros Hall off ixs grounds.
  - simpl. rewrite app_nil_r. reflexivity.
  - simpl in Hall. apply andb_true_iff in Hall as [Hrx Hall].
    rewrite imap_cons. simpl.
    rewrite (imap_ext _ (fun n rx => (S off + n, rx))) by (intros; simpl; f_equal; lia).
    fold (edited reaction rx).
    destruct (edited reaction rx) eqn:E.
    + unfold edited in E. apply andb_true_iff in E as [Hty _]. rewrite Hty in Hrx. simpl in Hrx.
      destruct (r_target rx) as [t| |]; try discriminate.
      rewrite Hrx. simpl. rewrite (IH Hall (S off)), Nat.add_0_r, <- app_assoc. reflexivity.
    + simpl. rewrite (IH Hall (S off)). reflexivity.
Qed.

Lemma edited_positions_some reaction (rxs : list (ReactionTuple F)) off :
  (exists rx, In rx rxs /\ edited reaction rx = true) ->
  edited_positions reaction off rxs <> [].
Proof.
  revert off. induction rxs as [|rx rxs IH]; intros off (rx' & Hin & He); [inversion Hin|].
  simpl. destruct (edited reaction rx) eqn:E; [discriminate|].
  apply IH. destruct Hin as [->|Hin]; [congruence|eauto].
Qed.

(** C10 (as the code has it): for a parent that is in the chain with
    all its supplied targets and has transitions of the requested type,
    all of them to metastable states, validation raises [KeyError] for
    the parent, in non-strict mode as in strict mode, provided the
    supplied sum is not [>= 1 + tolerance]; the whole call ends with that
    exception when the parents listed before it pass validation. *)
Theorem metastable_only_parent_raises (c : Chain F) reaction strict tolerance (vs : vstate F)
    p id sub nuc :
  chain_contains c p = true ->
  List.find (fun product => negb (chain_contains c product)) (od_keys sub) = None ->
  chain_getitem c p = Ok nuc ->
  has_reaction reaction nuc = true ->
  metastable_only reaction nuc = true ->
  grounds vs !! p = None ->
  fgeb (fsum (od_values sub)) (fadd f1 tolerance) = false ->
  validate_parent c reaction strict tolerance vs (p, (id, sub)) = Raise (KeyError p) /\
  (forall pre post tolerance0,
     tolerance = fabs tolerance0 ->
     foldM (validate_parent c reaction strict tolerance) vstate0 pre = Ok vs ->
     out_exn (set_branch_ratios c (pre ++ (p, (id, sub)) :: post) reaction strict tolerance0)
       = Some (KeyError p) /\
     out_chain (set_branch_ratios c (pre ++ (p, (id, sub)) :: post) reaction strict tolerance0)
       = c).
Proof.
  intros Hp Hfind Hnuc Hhas Hmeta Hg Hsum.
  assert (Hstep : validate_parent c reaction strict tolerance vs (p, (id, sub))
                  = Raise (KeyError p)).
  { unfold validate_parent. simpl. rewrite Hp. simpl. rewrite Hfind, Hnuc. simpl.
    assert (Hscan : foldM (scan_reaction reaction p (secondary_of reaction)) ([], grounds vs)
                          (imap pair (reactions nuc))
                    = Ok (edited_positions reaction 0 (reactions nuc), grounds vs))
      by exact (scan_metastable_only reaction p (reactions nuc) Hmeta 0 [] (grounds vs)).
    rewrite Hscan. simpl.
    assert (Hne : edited_positions reaction 0 (reactions nuc) <> []).
    { apply edited_positions_some. unfold has_reaction in Hhas.
      apply existsb_exists in Hhas as (rx & Hin & Hty). exists rx. split; [exact Hin|].
      unfold metastable_only in Hmeta. rewrite forallb_forall in Hmeta.
      specialize (Hmeta rx Hin). rewrite Hty in Hmeta. simpl in Hmeta.
      destruct (r_target rx) as [t| |] eqn:Et; try discriminate.
      eapply metastable_target_edited; eauto. }
    destruct (edited_positions reaction 0 (reactions nuc)) as [|ix ixs]; [congruence|]. simpl.
    unfold sum_is_bad. rewrite Hsum. unfold getitem. rewrite Hg. reflexivity. }
  split; [exact Hstep|].
  intros pre post tolerance0 -> Hpre. unfold set_branch_ratios.
  rewrite (foldM_raise _ pre (p, (id, sub)) post vstate0 vs (KeyError p) Hpre Hstep).
  split; reflexivity.
Qed.

(** *** The ground-state complement *)

Lemma observed_ground_spec reaction (rxs : list (ReactionTuple F)) :
  forall g0 g,
    observed_ground reaction g0 rxs = Some g ->
    g0 = Some g \/
    exists rx, rx ∈ rxs /\ edited reaction rx = true /\
               r_target rx = TName g /\ contains "_m" g = false.
Proof.
  induction rxs as [|rx rxs IH]; intros g0 g Ho; simpl in Ho; [auto|].
  apply IH in Ho as [Ho|(rx' & Hin & He & Ht & Hm)].
  - destruct (edited reaction rx) eqn:E; [|auto].
    destruct (r_target rx) as [t| |] eqn:Et; auto.
    destruct (contains "_m" t) eqn:Em; [auto|].
    injection Ho as <-. right. exists rx. repeat split; auto. left.
  - right. exists rx'. repeat split; auto. right. exact Hin.
Qed.

(** The ground-state complement where the code reaches it: when a call
    of [set_branch_ratios] returns and no two parents were given one
    dict object, every parent that passed validation and was given
    metastable targets only and a sum that is not 1.0 ends with these
    transitions: those the edit does not touch, one for each supplied
    ratio, and last a transition to a ground state with ratio 1 minus
    the supplied sum.  That ground state is the target of one of the
    parent's original transitions of the requested type, one whose name
    has no ["_m"]. *)
Theorem set_branch_ratios_ground_complement (c : Chain F) (brs : branch_ratios F)
    reaction strict tolerance p id sub :
  index_injective c ->
  NoDup (od_keys brs) ->
  unshared brs ->
  out_exn (set_branch_ratios c brs reaction strict tolerance) = None ->
  (p, (id, sub)) ∈ brs ->
  p ∈ od_keys (rxn_ix_map (out_report (set_branch_ratios c brs reaction strict tolerance))) ->
  all_meta sub = true ->
  fneb (fsum (od_values sub)) f1 = true ->
  exists idx nuc g rx,
    nuclide_dict c !! p = Some idx /\
    nuclides c !! idx = Some nuc /\
    (rx ∈ reactions nuc /\ r_type rx = reaction /\ r_target rx = TName g /\
     contains "_m" g = false) /\
    nuclides (out_chain (set_branch_ratios c brs reaction strict tolerance)) !! idx =
      Some (set_reactions nuc
              (List.filter (fun rx => negb (edited reaction rx)) (reactions nuc) ++
               map (fun kv : string * F =>
                      mkReaction reaction (TName (fst kv)) (first_Q reaction nuc) (snd kv)) sub ++
               [mkReaction reaction (TName g) (first_Q reaction nuc)
                           (fsub f1 (fsum (od_values sub)))])).
Proof.
  intros Hinj Hnd Hun. unfold set_branch_ratios.
  destruct (foldM _ vstate0 brs) as [vs|e] eqn:Hval; [|discriminate].
  destruct (length (rxn_ix_map vs) =? 0); [discriminate|].
  pose proof (validation_loop_inv c reaction strict (fabs tolerance) brs [] vstate0 vs
                Hnd (validation_inv_init _ _ _) Hval) as (Hkeys & Hvalid & _).
  simpl in Hvalid.
  destruct (apply_all_validated c brs reaction (fabs tolerance) vs Hinj Hnd
              (rxn_ix_map vs) c brs) as (c' & b' & Happ & _ & _ & _ & Hres); auto.
  { intros q ixs Hin. apply Hvalid. exact Hin. }
  rewrite Happ. simpl. intros _ Hin Hp Hmeta Hsum.
  apply list_elem_of_fmap in Hp as ([q ixs] & -> & Hp). simpl in *.
  destruct (Hres q ixs Hp) as (idx & nuc & id' & sub' & s & g & Hidx & Hnuc & Hs & Hg & Hnew & Hsame).
  destruct (Hvalid q ixs Hp) as (_ & idx0 & nuc0 & id0 & sub0 & g0 & Hidx0 & Hnuc0 & Hin0 & _ & _ & Hs0 & Hg0 & Hobs & _).
  pose proof (od_get_nodup brs q (id, sub) Hnd Hin) as Hget.
  pose proof (od_get_nodup brs q (id0, sub0) Hnd Hin0) as Hget0.
  rewrite (Hsame Hun) in Hget. injection Hget as -> ->.
  rewrite Hget0 in Hsame. specialize (Hsame Hun). injection Hsame as -> ->.
  assert (idx0 = idx) as -> by congruence.
  assert (nuc0 = nuc) as -> by congruence.
  assert (s = fsum (od_values sub)) as -> by congruence.
  assert (g0 = g) as -> by congruence.
  apply observed_ground_spec in Hobs as [Hobs|(rx & Hrx & He & Ht & Hm)]; [discriminate|].
  exists idx, nuc, g, rx. split; [exact Hidx|]. split; [exact Hnuc|]. split.
  - repeat split; auto. unfold edited in He. apply andb_true_iff in He as [He _].
    apply String.eqb_eq. exact He.
  - rewrite Hnew. unfold new_reactions. rewrite Hmeta, Hsum. reflexivity.
Qed.

End EditFacts.

(** *** Edits of the Am241 chain *)

(** A strict edit with ratios 0.9 and 0.3 raises and changes nothing. *)
Lemma set_branch_ratios_raise_leaves_chain_am241 :
  (index_injective am_chain /\
   NoDup (od_keys ratios_sum_1_2) /\
   is_Some (out_exn (set_branch_ratios am_chain ratios_sum_1_2 "(n,gamma)" true 1e-5%float))) /\
  out_chain (set_branch_ratios am_chain ratios_sum_1_2 "(n,gamma)" true 1e-5%float) = am_chain /\
  out_ratios (set_branch_ratios am_chain ratios_sum_1_2 "(n,gamma)" true 1e-5%float)
    = ratios_sum_1_2.
Proof.
  assert (H1 : index_injective am_chain) by (apply (bool_decide_unpack _); vm_compute; reflexivity).
  assert (H2 : NoDup (od_keys ratios_sum_1_2)) by (apply (bool_decide_unpack _); vm_compute; reflexivity).
  assert (H3 : is_Some (out_exn (set_branch_ratios am_chain ratios_sum_1_2 "(n,gamma)" true 1e-5%float)))
    by (exists ValueError; vm_compute; reflexivity).
  split; [auto|].
  exact (set_branch_ratios_raise_leaves_chain am_chain ratios_sum_1_2 "(n,gamma)" true
           1e-5%float H1 H2 H3).
Defined.

(** A sum of 1.2 is rejected in strict mode. *)
Lemma set_branch_ratios_rejects_sum_1_2 :
  out_exn (set_branch_ratios am_chain ratios_sum_1_2 "(n,gamma)" true 1e-5%float)
    = Some ValueError.
Proof. vm_compute. reflexivity. Qed.

(** Ratios 0.9 and 0.3 for Am241 with tolerance 1e-5. *)
Lemma sum_check_is_strict_am241 :
  (chain_contains am_chain "Am241" = true /\
   List.find (fun product => negb (chain_contains am_chain product))
             (od_keys [("Am242", 0.9%float); ("Am242_m1", 0.3%float)]) = None /\
   chain_getitem am_chain "Am241" = Ok am241 /\
   foldM (scan_reaction "(n,gamma)" "Am241" (secondary_of "(n,gamma)"))
         ([], grounds (vstate0 (F := float))) (imap pair (reactions am241))
     = Ok ([0; 1], {["Am241" := "Am242"]}) /\
   [0; 1] <> [] /\
   ({["Am241" := "Am242"]} : gmap string string) !! "Am241" = Some "Am242") /\
  in_tolerance 1e-5%float (fsum [0.9%float; 0.3%float])
               [("Am242", 0.9%float); ("Am242_m1", 0.3%float)] "Am242" = false /\
  validate_parent am_chain "(n,gamma)" true 1e-5%float vstate0
                  ("Am241", (0, [("Am242", 0.9%float); ("Am242_m1", 0.3%float)]))
    = Raise ValueError.
Proof.
  split.
  - repeat split; try (vm_compute; reflexivity). discriminate.
  - destruct (sum_check_is_strict am_chain "(n,gamma)" true 1e-5%float vstate0 "Am241" 0
                [("Am242", 0.9%float); ("Am242_m1", 0.3%float)] am241 [0; 1]
                {["Am241" := "Am242"]} "Am242")
      as (_ & Hstep & _); try (vm_compute; reflexivity); [discriminate|].
    split; [vm_compute; reflexivity|].
    etransitivity; [exact Hstep|]. vm_compute. reflexivity.
Defined.

(** The bound itself is rejected: with tolerance 0.5 the sum 1.5 is at
    most 1 + tolerance and, the ground state being among the keys, at
    least 1 - tolerance, and the strict call raises [ValueError]. *)
Lemma set_branch_ratios_rejects_the_bound :
  fleb (fsum [1.5%float]) (fadd f1 0.5%float) = true /\
  od_mem [("Am242", 1.5%float)] "Am242" = true /\
  fleb (fsub f1 0.5%float) (fsum [1.5%float]) = true /\
  out_exn (set_branch_ratios am_chain ratios_on_the_bound "(n,gamma)" true 0.5%float)
    = Some ValueError.
Proof. repeat split; vm_compute; reflexivity. Qed.

Lemma Qle_bool_false (x y : Qc) : Qle_bool (this x) (this y) = false <-> (y < x)%Qc.
Proof.
  split.
  - intros Hb. apply Qcnot_le_lt. intros Hle. apply Qle_bool_iff in Hle. congruence.
  - intros Hlt. destruct (Qle_bool (this x) (this y)) eqn:E; [|reflexivity].
    apply Qle_bool_iff in E. apply Qclt_not_le in Hlt. contradiction.
Qed.

(** Without rounding: strictly below the upper bound, and strictly above
    the lower bound when the ground state is among the keys. *)
Lemma in_tolerance_exact (tolerance s : Qc) (sub : odict Qc) (g : string) :
  in_tolerance tolerance s sub g = true <->
  (s < 1 + tolerance)%Qc /\ (od_mem sub g = true -> (1 - tolerance < s)%Qc).
Proof.
  unfold in_tolerance, fgeb. simpl.
  rewrite andb_true_iff, !negb_true_iff, andb_false_iff.
  rewrite (Qle_bool_false (1 + tolerance)%Qc s), (Qle_bool_false s (1 - tolerance)%Qc).
  destruct (od_mem sub g); split.
  - intros [Hs [Hm|Hl]]; [discriminate|auto].
  - intros [Hs Hl]. auto.
  - intros [Hs _]. split; [exact Hs|discriminate].
  - intros [Hs _]. auto.
Qed.

(** Am241 given the metastable branch alone, with ratio 0.3. *)
Lemma set_branch_ratios_ground_complement_am241 :
  (index_injective am_chain /\
   NoDup (od_keys ratios_meta_only) /\
   unshared ratios_meta_only /\
   out_exn (set_branch_ratios am_chain ratios_meta_only "(n,gamma)" true 1e-5%float) = None /\
   ("Am241", (0, [("Am242_m1", 0.3%float)])) ∈ ratios_meta_only /\
   "Am241" ∈ od_keys (rxn_ix_map (out_report
      (set_branch_ratios am_chain ratios_meta_only "(n,gamma)" true 1e-5%float))) /\
   all_meta [("Am242_m1", 0.3%float)] = true /\
   fneb (fsum (od_values [("Am242_m1", 0.3%float)])) f1 = true) /\
  exists idx nuc g rx,
    nuclide_dict am_chain !! "Am241" = Some idx /\
    nuclides am_chain !! idx = Some nuc /\
    (rx ∈ reactions nuc /\ r_type rx = "(n,gamma)" /\ r_target rx = TName g /\
     contains "_m" g = false) /\
    nuclides (out_chain (set_branch_ratios am_chain ratios_meta_only "(n,gamma)" true
                           1e-5%float)) !! idx =
      Some (set_reactions nuc
              (List.filter (fun rx => negb (edited "(n,gamma)" rx)) (reactions nuc) ++
               map (fun kv : string * float =>
                      mkReaction "(n,gamma)" (TName (fst kv)) (first_Q "(n,gamma)" nuc) (snd kv))
                   [("Am242_m1", 0.3%float)] ++
               [mkReaction "(n,gamma)" (TName g) (first_Q "(n,gamma)" nuc)
                           (fsub f1 (fsum (od_values [("Am242_m1", 0.3%float)])))])).
Proof.
  assert (H1 : index_injective am_chain) by (apply (bool_decide_unpack _); vm_compute; reflexivity).
  assert (H2 : NoDup (od_keys ratios_meta_only)) by (apply (bool_decide_unpack _); vm_compute; reflexivity).
  assert (H3 : unshared ratios_meta_only) by (apply (bool_decide_unpack _); vm_compute; reflexivity).
  assert (H4 : out_exn (set_branch_ratios am_chain ratios_meta_only "(n,gamma)" true 1e-5%float) = None)
    by (vm_compute; reflexivity).
  assert (H5 : ("Am241", (0, [("Am242_m1", 0.3%float)])) ∈ ratios_meta_only) by left.
  assert (H6 : "Am241" ∈ od_keys (rxn_ix_map (out_report
      (set_branch_ratios am_chain ratios_meta_only "(n,gamma)" true 1e-5%float))))
    by (vm_compute; left).
  split; [repeat split; auto|].
  exact (set_branch_ratios_ground_complement am_chain ratios_meta_only "(n,gamma)" true
           1e-5%float "Am241" 0 [("Am242_m1", 0.3%float)] H1 H2 H3 H4 H5 H6 eq_refl eq_refl).
Defined.

(** The metastable branch alone, 0.3: the ground state gets 0.7. *)
Lemma set_branch_ratios_infers_ground :
  reactions <$> nuclides (out_chain (set_branch_ratios am_chain ratios_meta_only "(n,gamma)"
                                       true 1e-5%float)) !! 0 =
    Some [ mkReaction "(n,2n)" (TName "Am240") (-6.6e6)%float 1%float;
           mkReaction "(n,gamma)" (TName "Am242_m1") 5.5e6%float 0.3%float;
           mkReaction "(n,gamma)" (TName "Am242") 5.5e6%float 0.7%float ].
Proof. vm_compute. reflexivity. Qed.

(** *** One dict of ratios given to two parents *)

(** C7, at an input where the code misses it: the one dict
    [{'Am244_m1': 0.3}] given to Am241 and to Am243.  The call returns
    and both parents pass validation, each with a metastable target only
    and the sum 0.3; the ground state among the original transitions of
    Am243 is Am244, so that Am243 should end with an additional
    transition to Am244 with ratio 0.7.  It ends with a transition to
    Am242 instead, the ground state of Am241, which the edit of Am241
    wrote into the shared dict (line 677). *)
Lemma set_branch_ratios_shared_dict :
  out_exn (set_branch_ratios am_pair_chain shared_ratios "(n,gamma)" true 1e-5%float) = None /\
  od_keys (rxn_ix_map (out_report (set_branch_ratios am_pair_chain shared_ratios "(n,gamma)"
                                     true 1e-5%float))) = ["Am241"; "Am243"] /\
  all_meta [("Am244_m1", 0.3%float)] = true /\
  fneb (fsum (od_values [("Am244_m1", 0.3%float)])) f1 = true /\
  reactions <$> nuclides am_pair_chain !! 2 =
    Some [ mkReaction "(n,gamma)" (TName "Am244") 5.4e6%float 1%float ] /\
  reactions <$> nuclides (out_chain (set_branch_ratios am_pair_chain shared_ratios "(n,gamma)"
                                       true 1e-5%float)) !! 2 =
    Some [ mkReaction "(n,gamma)" (TName "Am244_m1") 5.4e6%float 0.3%float;
           mkReaction "(n,gamma)" (TName "Am242") 5.4e6%float 0.7%float ] /\
  out_ratios (set_branch_ratios am_pair_chain shared_ratios "(n,gamma)" true 1e-5%float) =
    [("Am241", (0, [("Am244_m1", 0.3%float); ("Am242", 0.7%float)]));
     ("Am243", (0, [("Am244_m1", 0.3%float); ("Am242", 0.7%float)]))].
Proof. repeat split; vm_compute; reflexivity. Qed.

(** The same ratios in two dicts: Am243 gets the complement to its own
    ground state Am244. *)
Lemma set_branch_ratios_separate_dicts :
  out_exn (set_branch_ratios am_pair_chain separate_ratios "(n,gamma)" true 1e-5%float) = None /\
  reactions <$> nuclides (out_chain (set_branch_ratios am_pair_chain separate_ratios
                                       "(n,gamma)" true 1e-5%float)) !! 2 =
    Some [ mkReaction "(n,gamma)" (TName "Am244_m1") 5.4e6%float 0.3%float;
           mkReaction "(n,gamma)" (TName "Am244") 5.4e6%float 0.7%float ] /\
  out_ratios (set_branch_ratios am_pair_chain separate_ratios "(n,gamma)" true 1e-5%float) =
    [("Am241", (0, [("Am244_m1", 0.3%float); ("Am242", 0.7%float)]));
     ("Am243", (1, [("Am244_m1", 0.3%float); ("Am244", 0.7%float)]))].
Proof. repeat split; vm_compute; reflexivity. Qed.

(** *** Two names for one position *)

(** When the index maps two names to one nuclide, the edit under the
    second name finds the transitions already replaced: its [pop] raises
    [IndexError] after the first edit was applied. *)
Lemma set_branch_ratios_aliased_index :
  bool_decide (index_injective aliased_chain) = false /\
  out_exn (set_branch_ratios aliased_chain aliased_ratios "(n,gamma)" true 1e-5%float)
    = Some IndexError /\
  reactions <$> nuclides (out_chain (set_branch_ratios aliased_chain aliased_ratios
                                       "(n,gamma)" true 1e-5%float)) !! 0 =
    Some [ mkReaction "(n,gamma)" (TName "Am242") 5.5e6%float 1%float ].
Proof. repeat split; vm_compute; reflexivity. Qed.

(** *** A reaction the chain does not have *)

(** No nuclide of the chain has an (n,p) transition. *)
Lemma set_branch_ratios_unknown_reaction_am241 :
  carries am_chain "(n,p)" = false /\
  is_Some (out_exn (set_branch_ratios am_chain ratios_meta_only "(n,p)" false 1e-5%float)) /\
  out_chain (set_branch_ratios am_chain ratios_meta_only "(n,p)" false 1e-5%float) = am_chain /\
  out_ratios (set_branch_ratios am_chain ratios_meta_only "(n,p)" false 1e-5%float)
    = ratios_meta_only.
Proof.
  split; [reflexivity|].
  exact (set_branch_ratios_unknown_reaction am_chain ratios_meta_only "(n,p)" false
           1e-5%float eq_refl).
Defined.

(** *** A parent without a ground-state target *)

(** Am241 whose only capture branch goes to Am242_m1, given the ratio
    0.5 in non-strict mode. *)
Lemma metastable_only_parent_raises_am241 :
  (chain_contains meta_chain "Am241" = true /\
   List.find (fun product => negb (chain_contains meta_chain product))
             (od_keys [("Am242_m1", 0.5%float)]) = None /\
   chain_getitem meta_chain "Am241" = Ok am241_meta /\
   has_reaction "(n,gamma)" am241_meta = true /\
   metastable_only "(n,gamma)" am241_meta = true /\
   grounds (vstate0 (F := float)) !! "Am241" = None /\
   fgeb (fsum (od_values [("Am242_m1", 0.5%float)])) (fadd f1 (fabs 1e-5%float)) = false) /\
  validate_parent meta_chain "(n,gamma)" false (fabs 1e-5%float) vstate0
                  ("Am241", (0, [("Am242_m1", 0.5%float)])) = Raise (KeyError "Am241") /\
  out_exn (set_branch_ratios meta_chain [("Am241", (0, [("Am242_m1", 0.5%float)]))]
                             "(n,gamma)" false 1e-5%float) = Some (KeyError "Am241") /\
  out_chain (set_branch_ratios meta_chain [("Am241", (0, [("Am242_m1", 0.5%float)]))]
                               "(n,gamma)" false 1e-5%float) = meta_chain.
Proof.
  split.
  - repeat split; vm_compute; reflexivity.
  - destruct (metastable_only_parent_raises meta_chain "(n,gamma)" false (fabs 1e-5%float)
                vstate0 "Am241" 0 [("Am242_m1", 0.5%float)] am241_meta)
      as (Hstep & Hcall); try (vm_compute; reflexivity).
    split; [exact Hstep|].
    exact (Hcall [] [] 1e-5%float eq_refl eq_refl).
Defined.

(** The same parent given the ratio 1.5: the test on the upper bound
    decides, [grounds] is not read, and the non-strict call goes through;
    the sum is recorded for the warning and the other parent is edited. *)
Lemma set_branch_ratios_large_sum_only_warns :
  chain_contains meta_chain "Am241" = true /\
  List.find (fun product => negb (chain_contains meta_chain product))
            (od_keys [("Am242_m1", 1.5%float)]) = None /\
  has_reaction "(n,gamma)" am241_meta = true /\
  metastable_only "(n,gamma)" am241_meta = true /\
  out_exn (set_branch_ratios meta_chain ratios_meta_too_large "(n,gamma)" false 1e-5%float)
    = None /\
  bad_sums (out_report (set_branch_ratios meta_chain ratios_meta_too_large "(n,gamma)" false
                          1e-5%float)) !! "Am241" = Some 1.5%float.
Proof. repeat split; vm_compute; reflexivity. Qed.

(** ** [Chain.get_branch_ratios] *)

Lemma target_eqb_eq (a b : target) : target_eqb a b = true <-> a = b.
Proof.
  destruct a, b; simpl; try (split; [discriminate|congruence]); try tauto.
  rewrite String.eqb_eq. split; congruence.
Qed.

Lemma td_set_elem {V} (d : tdict V) k v t x :
  (t, x) ∈ td_set d k v -> (t, x) ∈ d \/ (t = k /\ x = v).
Proof.
  induction d as [|[k' v'] d IH]; simpl; intros Hin.
  - apply list_elem_of_singleton in Hin as [= -> ->]. auto.
  - destruct (target_eqb k' k) eqn:E.
    + apply elem_of_cons in Hin as [[= -> ->]|Hin].
      * apply target_eqb_eq in E. auto.
      * left. apply elem_of_cons. auto.
    + apply elem_of_cons in Hin as [Hin|Hin].
      * left. apply elem_of_cons. auto.
      * apply IH in Hin as [Hin|Hin]; [left; apply elem_of_cons|]; auto.
Qed.

Lemma td_set_nonempty {V} (d : tdict V) k v : td_set d k v <> [].
Proof. destruct d as [|[k' v'] d]; simpl; [|destruct (target_eqb k' k)]; discriminate. Qed.

Lemma od_get_set {V} (d : odict V) k v p :
  od_get (od_set d k v) p = if String.eqb k p then Some v else od_get d p.
Proof.
  induction d as [|[k' v'] d IH]; simpl.
  - reflexivity.
  - destruct (String.eqb k' k) eqn:E; simpl.
    + apply String.eqb_eq in E as ->. destruct (String.eqb k p); reflexivity.
    + destruct (String.eqb k' p) eqn:E'; [|exact IH].
      apply String.eqb_eq in E' as ->. rewrite String.eqb_sym, E. reflexivity.
Qed.

Lemma od_get_is_key {V} (d : odict V) k : is_Some (od_get d k) <-> k ∈ od_keys d.
Proof.
  destruct (od_get d k) as [v|] eqn:E.
  - split; [intros _|eauto]. apply od_get_elem in E. eapply od_keys_elem. exact E.
  - split; [intros [v Hv]; discriminate|]. intros Hk. apply od_get_none in E. contradiction.
Qed.

Section QueryFacts.
Context {F : Type} {AF : Arith F}.

Lemma capt_fold_elem reaction (rxs : list (ReactionTuple F)) :
  forall d0 t v,
    (t, v) ∈ fold_left (capt_step reaction) rxs d0 ->
    (t, v) ∈ d0 \/
    exists rx, rx ∈ rxs /\ reported reaction rx = true /\
               r_target rx = t /\ r_branching_ratio rx = v.
Proof.
  induction rxs as [|rx rxs IH]; intros d0 t v Hin; simpl in Hin; [auto|].
  apply IH in Hin as [Hin|(rx' & Hrx' & Hrep & Ht & Hv)].
  - unfold capt_step in Hin. fold (reported reaction rx) in Hin.
    destruct (reported reaction rx) eqn:E; [|auto].
    apply td_set_elem in Hin as [Hin|[-> ->]]; [auto|].
    right. exists rx. repeat split; auto. left.
  - right. exists rx'. repeat split; auto. right. exact Hrx'.
Qed.

Lemma capt_fold_nonempty reaction (rxs : list (ReactionTuple F)) :
  forall d0,
    fold_left (capt_step reaction) rxs d0 <> [] <->
    d0 <> [] \/ exists rx, rx ∈ rxs /\ reported reaction rx = true.
Proof.
  induction rxs as [|rx rxs IH]; intros d0; simpl.
  - split; [auto|]. intros [Hd|(rx & Hin & _)]; [exact Hd|inversion Hin].
  - rewrite IH. unfold capt_step. fold (reported reaction rx).
    destruct (reported reaction rx) eqn:E.
    + split.
      * intros _. right. exists rx. split; [left|exact E].
      * intros _. left. apply td_set_nonempty.
    + split.
      * intros [Hd|(rx' & Hin & Hrep)]; [auto|]. right. exists rx'. split; [right|]; auto.
      * intros [Hd|(rx' & Hin & Hrep)]; [auto|].
        apply elem_of_cons in Hin as [->|Hin]; [congruence|]. right. eauto.
Qed.

Lemma nuc_capt_nonempty reaction (nuc : Nuclide F) :
  (0 <? length (nuc_capt_of reaction nuc)) = true <->
  exists rx, rx ∈ reactions nuc /\ reported reaction rx = true.
Proof.
  rewrite Nat.ltb_lt. unfold nuc_capt_of.
  pose proof (capt_fold_nonempty reaction (reactions nuc) []) as Hne.
  split.
  - intros Hlen. destruct Hne as [Hne _].
    destruct Hne as [Hd|Hex]; [|congruence|exact Hex].
    intros E. rewrite E in Hlen. simpl in Hlen. lia.
  - intros Hex. destruct Hne as [_ Hne]. specialize (Hne (or_intror Hex)).
    destruct (fold_left _ _ _); [congruence|simpl; lia].
Qed.

Lemma capt_loop_get reaction (nucs : list (Nuclide F)) :
  forall capt0 p d,
    od_get (fold_left (fun capt nuclide =>
                         let nuc_capt := nuc_capt_of reaction nuclide in
                         if 0 <? length nuc_capt then od_set capt (name nuclide) nuc_capt
                         else capt) nucs capt0) p = Some d ->
    od_get capt0 p = Some d \/
    exists nuc, nuc ∈ nucs /\ name nuc = p /\ d = nuc_capt_of reaction nuc /\
                (0 <? length d) = true.
Proof.
  induction nucs as [|nuc nucs IH]; intros capt0 p d Hg; simpl in Hg; [auto|].
  apply IH in Hg as [Hg|(nuc' & Hin & Hn & Hd & Hlen)].
  - destruct (0 <? length (nuc_capt_of reaction nuc)) eqn:E; [|auto].
    rewrite od_get_set in Hg. destruct (String.eqb (name nuc) p) eqn:En; [|auto].
    injection Hg as <-. apply String.eqb_eq in En. right. exists nuc.
    repeat split; auto. left.
  - right. exists nuc'. repeat split; auto. right. exact Hin.
Qed.

Lemma capt_loop_keys reaction (nucs : list (Nuclide F)) :
  forall capt0 p,
    is_Some (od_get (fold_left (fun capt nuclide =>
                         let nuc_capt := nuc_capt_of reaction nuclide in
                         if 0 <? length nuc_capt then od_set capt (name nuclide) nuc_capt
                         else capt) nucs capt0) p) <->
    is_Some (od_get capt0 p) \/
    exists nuc, nuc ∈ nucs /\ name nuc = p /\ (0 <? length (nuc_capt_of reaction nuc)) = true.
Proof.
  induction nucs as [|nuc nucs IH]; intros capt0 p; simpl.
  - split; [auto|]. intros [Hs|(nuc & Hin & _)]; [exact Hs|inversion Hin].
  - rewrite IH. destruct (0 <? length (nuc_capt_of reaction nuc)) eqn:E.
    + rewrite od_get_set. destruct (String.eqb (name nuc) p) eqn:En.
      * apply String.eqb_eq in En. split; intros _.
        -- right. exists nuc. repeat split; auto. left.
        -- left. eauto.
      * split.
        -- intros [Hs|(nuc' & Hin & Hn & Hl)]; [auto|]. right. exists nuc'.
           repeat split; auto. right. exact Hin.
        -- intros [Hs|(nuc' & Hin & Hn & Hl)]; [auto|].
           apply elem_of_cons in Hin as [->|Hin].
           ++ apply String.eqb_neq in En. contradiction.
           ++ right. eauto.
    + split.
      * intros [Hs|(nuc' & Hin & Hn & Hl)]; [auto|]. right. exists nuc'.
        repeat split; auto. right. exact Hin.
      * intros [Hs|(nuc' & Hin & Hn & Hl)]; [auto|].
        apply elem_of_cons in Hin as [->|Hin]; [congruence|]. right. eauto.
Qed.

(** [get_branch_ratios] lists a name exactly when a nuclide of that name
    has a transition of the requested type whose ratio is not 1.0; the
    dict it gives for a name is never empty, and each of its items is the
    target and the ratio of such a transition of one nuclide of that
    name: no ratio equal to 1.0 is ever reported. *)
Theorem get_branch_ratios_reports (c : Chain F) (reaction : string) :
  (forall p,
     p ∈ od_keys (get_branch_ratios c reaction) <->
     exists nuc rx, nuc ∈ nuclides c /\ name nuc = p /\ rx ∈ reactions nuc /\
                    r_type rx = reaction /\ fneb (r_branching_ratio rx) f1 = true) /\
  (forall p d,
     od_get (get_branch_ratios c reaction) p = Some d ->
     d <> [] /\
     exists nuc, nuc ∈ nuclides c /\ name nuc = p /\
       forall t v, (t, v) ∈ d ->
         fneb v f1 = true /\
         exists rx, rx ∈ reactions nuc /\ r_type rx = reaction /\
                    r_target rx = t /\ r_branching_ratio rx = v).
Proof.
  split.
  - intros p. rewrite <- od_get_is_key. unfold get_branch_ratios.
    rewrite capt_loop_keys. simpl. split.
    + intros [[v Hv]|(nuc & Hin & Hn & Hl)]; [discriminate|].
      apply nuc_capt_nonempty in Hl as (rx & Hrx & Hrep).
      unfold reported in Hrep. apply andb_true_iff in Hrep as [Hty Hbr].
      apply String.eqb_eq in Hty. exists nuc, rx. auto.
    + intros (nuc & rx & Hin & Hn & Hrx & Hty & Hbr). right. exists nuc.
      repeat split; auto. apply nuc_capt_nonempty. exists rx. split; [exact Hrx|].
      unfold reported. rewrite Hbr, andb_true_r. apply String.eqb_eq. exact Hty.
  - intros p d Hg. unfold get_branch_ratios in Hg.
    apply capt_loop_get in Hg as [Hg|(nuc & Hin & Hn & -> & Hl)]; [discriminate|].
    split.
    + intros E. rewrite E in Hl. discriminate.
    + exists nuc. repeat split; auto.
      * apply capt_fold_elem in H as [H|(rx & Hrx & Hrep & Ht & Hv)]; [inversion H|].
        unfold reported in Hrep. apply andb_true_iff in Hrep as [_ Hbr]. congruence.
      * apply capt_fold_elem in H as [H|(rx & Hrx & Hrep & Ht & Hv)]; [inversion H|].
        unfold reported in Hrep. apply andb_true_iff in Hrep as [Hty _].
        apply String.eqb_eq in Hty. exists rx. auto.
Qed.

End QueryFacts.

(** ** Chains and their index *)

Section IndexFacts.
Context {F : Type}.

Lemma names_of_positions (nucs : list (Nuclide F)) :
  (imap (fun i nuc => (name nuc, i)) nucs).*1 = map name nucs.
Proof.
  rewrite fmap_imap. exact (imap_const name nucs).
Qed.

Lemma indexed_lookup (c : Chain F) n i :
  indexed c ->
  nuclide_dict c !! n = Some i <-> exists nuc, nuclides c !! i = Some nuc /\ name nuc = n.
Proof.
  intros [Hnd ->].
  rewrite <- elem_of_list_to_map by (rewrite names_of_positions; exact Hnd).
  rewrite elem_of_lookup_imap. split.
  - intros (j & nuc & [= -> ->] & Hl). eauto.
  - intros (nuc & Hl & <-). eauto.
Qed.

Lemma indexed_intro (c : Chain F) :
  NoDup (map name (nuclides c)) ->
  (forall n i, nuclide_dict c !! n = Some i <->
               exists nuc, nuclides c !! i = Some nuc /\ name nuc = n) ->
  indexed c.
Proof.
  intros Hnd Hl. split; [exact Hnd|]. apply map_eq. intros n.
  apply option_eq. intros i. rewrite Hl.
  rewrite <- elem_of_list_to_map by (rewrite names_of_positions; exact Hnd).
  rewrite elem_of_lookup_imap. split.
  - intros (nuc & Hn & <-). eauto.
  - intros (j & nuc & [= -> ->] & Hn). eauto.
Qed.

Lemma injective_index (m : gmap string nat) :
  (forall n1 n2 i, m !! n1 = Some i -> m !! n2 = Some i -> n1 = n2) ->
  NoDup (map snd (map_to_list m)).
Proof.
  intros Hinj. apply (NoDup_fmap_2_strong snd); [|apply NoDup_map_to_list].
  intros [n1 i1] [n2 i2] H1 H2 E. simpl in E. subst i2.
  apply elem_of_map_to_list in H1, H2. f_equal. eauto.
Qed.

Lemma indexed_injective (c : Chain F) : indexed c -> index_injective c.
Proof.
  intros Hix. apply injective_index. intros n1 n2 i H1 H2.
  apply (indexed_lookup c n1 i Hix) in H1 as (nuc1 & Hn1 & <-).
  apply (indexed_lookup c n2 i Hix) in H2 as (nuc2 & Hn2 & <-).
  congruence.
Qed.

End IndexFacts.

(** ** What an edit leaves alone *)

Section FrameFacts.
Context {F : Type} {AF : Arith F} {ND : NuclearData}.

Lemma edited_has_type reaction (rx : ReactionTuple F) :
  edited reaction rx = true -> String.eqb (r_type rx) reaction = true.
Proof. unfold edited. intros Hb. apply andb_true_iff in Hb as [Hb _]. exact Hb. Qed.

Lemma filter_filter_other reaction (rxs : list (ReactionTuple F)) :
  List.filter (fun rx => negb (String.eqb (r_type rx) reaction))
              (List.filter (fun rx => negb (edited reaction rx)) rxs) =
  List.filter (fun rx => negb (String.eqb (r_type rx) reaction)) rxs.
Proof.
  induction rxs as [|rx rxs IH]; simpl; [reflexivity|].
  destruct (edited reaction rx) eqn:E; simpl.
  - rewrite (edited_has_type _ _ E). simpl. exact IH.
  - rewrite IH. reflexivity.
Qed.

Lemma filter_none {A} (f : A -> bool) (l : list A) :
  (forall x, In x l -> f x = false) -> List.filter f l = [].
Proof.
  induction l as [|a l IH]; intros Hf; simpl; [reflexivity|].
  rewrite (Hf a) by (left; reflexivity). apply IH. intros x Hx. apply Hf. right. exact Hx.
Qed.

Lemma other_reactions_new reaction (nuc : Nuclide F) sub s g :
  other_reactions reaction (set_reactions nuc (new_reactions reaction nuc sub s g)) =
  other_reactions reaction nuc.
Proof.
  unfold other_reactions, new_reactions. simpl.
  rewrite !List.filter_app, filter_filter_other.
  rewrite (filter_none _ (map _ sub)).
  - rewrite (filter_none _ (if _ : bool then _ else _)); [rewrite !app_nil_r; reflexivity|].
    intros x Hx. destruct (all_meta sub && fneb s f1); [|inversion Hx].
    destruct Hx as [<-|[]]. simpl. rewrite String.eqb_refl. reflexivity.
  - intros x Hx. apply in_map_iff in Hx as (kv & <- & _). simpl.
    rewrite String.eqb_refl. reflexivity.
Qed.

(** Where the positions of the entries of [rxn_ix_map] are. *)
Lemma entry_position_dec (c : Chain F) (entries : odict (list nat)) i :
  (exists p ixs, (p, ixs) ∈ entries /\ nuclide_dict c !! p = Some i) \/
  (forall p ixs, (p, ixs) ∈ entries -> nuclide_dict c !! p <> Some i).
Proof.
  induction entries as [|[p ixs] entries IH].
  - right. intros p ixs Hin. inversion Hin.
  - destruct (decide (nuclide_dict c !! p = Some i)) as [E|E].
    + left. exists p, ixs. split; [left|exact E].
    + destruct IH as [(q & jxs & Hin & Hq)|IH].
      * left. exists q, jxs. split; [right|]; auto.
      * right. intros q jxs Hin. apply elem_of_cons in Hin as [[= -> ->]|Hin]; eauto.
Qed.

(** What the loop over [rxn_ix_map] leaves of each nuclide: [c'] is the
    chain after the loop, as [apply_all_validated] describes it. *)
Lemma applied_nuclides (c c' : Chain F) (brs : branch_ratios F) reaction
    (entries : odict (list nat)) :
  (forall p ixs, (p, ixs) ∈ entries -> p ∈ od_keys brs) ->
  (forall idx, (forall p ixs, (p, ixs) ∈ entries -> nuclide_dict c !! p <> Some idx) ->
     nuclides c' !! idx = nuclides c !! idx) ->
  (forall p ixs, (p, ixs) ∈ entries ->
     exists idx nuc (id : nat) (sub : odict F) s g,
       nuclide_dict c !! p = Some idx /\ nuclides c !! idx = Some nuc /\
       nuclides c' !! idx = Some (set_reactions nuc (new_reactions reaction nuc sub s g))) ->
  chain_len c' = chain_len c /\
  forall i nuc,
    nuclides c !! i = Some nuc ->
    exists nuc',
      nuclides c' !! i = Some nuc' /\
      same_but_reactions nuc nuc' /\
      other_reactions reaction nuc' = other_reactions reaction nuc /\
      ((forall p, p ∈ od_keys brs -> nuclide_dict c !! p <> Some i) -> nuc' = nuc).
Proof.
  intros Hkeys Hun Hres.
  assert (Hat : forall i nuc, nuclides c !! i = Some nuc ->
            exists nuc', nuclides c' !! i = Some nuc' /\
              same_but_reactions nuc nuc' /\
              other_reactions reaction nuc' = other_reactions reaction nuc /\
              ((forall p, p ∈ od_keys brs -> nuclide_dict c !! p <> Some i) -> nuc' = nuc)).
  { intros i nuc Hn.
    destruct (entry_position_dec c entries i) as [(p & ixs & Hin & Hp)|Hno].
    - destruct (Hres p ixs Hin) as (idx & nuc0 & id & sub & s & g & Hidx & Hnuc0 & Hnew).
      assert (idx = i) as -> by congruence.
      assert (nuc0 = nuc) as -> by congruence.
      exists (set_reactions nuc (new_reactions reaction nuc sub s g)).
      split; [exact Hnew|]. split; [repeat split|]. split; [apply other_reactions_new|].
      intros Hfree. exfalso. apply (Hfree p); [|exact Hp]. eapply Hkeys. exact Hin.
    - exists nuc. rewrite (Hun i Hno). repeat split; auto. }
  split; [|exact Hat].
  unfold chain_len. apply Nat.le_antisymm.
  - destruct (nuclides c' !! length (nuclides c)) as [x|] eqn:E.
    + destruct (entry_position_dec c entries (length (nuclides c)))
        as [(p & ixs & Hin & Hp)|Hno].
      * destruct (Hres p ixs Hin) as (idx & nuc0 & _ & _ & _ & _ & Hidx & Hnuc0 & _).
        assert (idx = length (nuclides c)) as -> by congruence.
        apply lookup_lt_Some in Hnuc0. lia.
      * rewrite (Hun _ Hno) in E. apply lookup_lt_Some in E. lia.
    + apply lookup_ge_None in E. exact E.
  - destruct (nuclides c) as [|n0 l] eqn:El using rev_ind; [simpl; lia|].
    destruct (Hat (length l) n0) as (nuc' & Hn' & _).
    { rewrite lookup_app_r by lia. rewrite Nat.sub_diag. reflexivity. }
    apply lookup_lt_Some in Hn'. rewrite length_app. simpl. lia.
Qed.

(** [set_branch_ratios] never touches the index of the chain, its list
    of reactions or the number of its nuclides, whether it returns or
    raises.  Every nuclide keeps its name, half-life, decay energy, decay
    modes and yields, and its transitions of the other types in their
    order; a nuclide that no key of [branch_ratios] names is left as it
    is. *)
Theorem set_branch_ratios_frame (c : Chain F) (brs : branch_ratios F)
    reaction strict tolerance :
  index_injective c ->
  NoDup (od_keys brs) ->
  nuclide_dict (out_chain (set_branch_ratios c brs reaction strict tolerance)) = nuclide_dict c /\
  chain_reactions (out_chain (set_branch_ratios c brs reaction strict tolerance))
    = chain_reactions c /\
  chain_len (out_chain (set_branch_ratios c brs reaction strict tolerance)) = chain_len c /\
  forall i nuc,
    nuclides c !! i = Some nuc ->
    exists nuc',
      nuclides (out_chain (set_branch_ratios c brs reaction strict tolerance)) !! i = Some nuc' /\
      same_but_reactions nuc nuc' /\
      other_reactions reaction nuc' = other_reactions reaction nuc /\
      ((forall p, p ∈ od_keys brs -> nuclide_dict c !! p <> Some i) -> nuc' = nuc).
Proof.
  intros Hinj Hnd.
  assert (Hraise : forall e b vs,
    nuclide_dict (out_chain (mkOut e c b vs)) = nuclide_dict c /\
    chain_reactions (out_chain (mkOut e c b vs)) = chain_reactions c /\
    chain_len (out_chain (mkOut e c b vs)) = chain_len c /\
    forall i nuc,
      nuclides c !! i = Some nuc ->
      exists nuc',
        nuclides (out_chain (mkOut e c b vs)) !! i = Some nuc' /\
        same_but_reactions nuc nuc' /\
        other_reactions reaction nuc' = other_reactions reaction nuc /\
        ((forall p, p ∈ od_keys brs -> nuclide_dict c !! p <> Some i) -> nuc' = nuc)).
  { intros e b vs. simpl. repeat split; auto. intros i nuc Hn. exists nuc.
    repeat split; auto. }
  unfold set_branch_ratios.
  destruct (foldM _ vstate0 brs) as [vs|e] eqn:Hval; [|apply Hraise].
  destruct (length (rxn_ix_map vs) =? 0); [apply Hraise|].
  pose proof (validation_loop_inv c reaction strict (fabs tolerance) brs [] vstate0 vs
                Hnd (validation_inv_init _ _ _) Hval) as (Hkeys & Hvalid & _).
  simpl in Hvalid.
  destruct (apply_all_validated c brs reaction (fabs tolerance) vs Hinj Hnd
              (rxn_ix_map vs) c brs) as (c' & b' & Happ & Hd & Hr & Hun & Hres); auto.
  { intros p ixs Hin. apply Hvalid. exact Hin. }
  rewrite Happ. simpl.
  split; [exact Hd|]. split; [exact Hr|].
  apply (applied_nuclides c c' brs reaction (rxn_ix_map vs)).
  - intros p ixs Hin. apply Hvalid in Hin as [Hin _]. exact Hin.
  - exact Hun.
  - intros p ixs Hin.
    destruct (Hres p ixs Hin) as (idx & nuc & id & sub & s & g & H1 & H2 & _ & _ & H3 & _).
    exists idx, nuc, id, sub, s, g. auto.
Qed.

(** ** [set_branch_ratios], then [get_branch_ratios] *)

Lemma store_set_same (b : branch_ratios F) id k v p sub :
  od_get b p = Some (id, sub) ->
  od_get (store_set b id k v) p = Some (id, od_set sub k v).
Proof.
  induction b as [|[q [i s']] b IH]; simpl; [discriminate|].
  destruct (String.eqb q p) eqn:E.
  - intros [= -> ->]. rewrite Nat.eqb_refl. simpl. rewrite E. reflexivity.
  - intros Hg. destruct (i =? id); simpl; rewrite E; auto.
Qed.

(** A dict that belongs to no parent still in [entries] stays as it is. *)
Lemma apply_all_keeps reaction (vs : vstate F) (entries : odict (list nat)) :
  forall ck (bk : branch_ratios F) c' (b' : branch_ratios F) q id sub,
    apply_all reaction vs (ck, bk) entries = (None, (c', b')) ->
    od_get bk q = Some (id, sub) ->
    (forall p ixs idp subp, (p, ixs) ∈ entries -> od_get bk p = Some (idp, subp) -> idp <> id) ->
    od_get b' q = Some (id, sub).
Proof.
  induction entries as [|[p ixs] rest IH]; intros ck bk c' b' q id sub Happ Hq Hids.
  - simpl in Happ. injection Happ as <- <-. exact Hq.
  - change (apply_all reaction vs (ck, bk) ((p, ixs) :: rest))
      with (match apply_parent reaction vs (ck, bk) (p, ixs) with
            | (Some e, st') => (Some e, st')
            | (None, st') => apply_all reaction vs st' rest
            end) in Happ.
    destruct (apply_parent reaction vs (ck, bk) (p, ixs)) as [[e|] [c1 b1]] eqn:Hstep;
      [discriminate|].
    assert (Hb1 : (b1 = bk) \/
                  exists idp subp k v, od_get bk p = Some (idp, subp) /\
                                       b1 = store_set bk idp k v).
    { unfold apply_parent in Hstep.
      destruct (nuclide_dict ck !! p); [|discriminate].
      destruct (nuclides ck !! n); [|discriminate].
      destruct (od_get bk p) as [[idp subp]|]; [|discriminate].
      destruct ixs as [|ix0 ixs]; [discriminate|].
      destruct (reactions n0 !! ix0); [|discriminate].
      destruct (pop_all _ _) as [[e|] rs]; [discriminate|].
      destruct (fold_left _ subp _) as [[|] rs'].
      - destruct (sums vs !! p); [|discriminate].
        destruct (fneb f f1).
        + destruct (match grounds vs !! p with Some g => _ | None => _ end) as [g|e];
            [|discriminate].
          injection Hstep as <- <-. right. exists idp, subp, g, (fsub f1 f). split; reflexivity.
        + injection Hstep as <- <-. auto.
      - injection Hstep as <- <-. auto. }
    eapply (IH c1 b1); [exact Happ| |].
    + destruct Hb1 as [->|(idp & subp & k & v & Hp & ->)]; [exact Hq|].
      apply store_set_other; [exact Hq|].
      intros ->. eapply (Hids p ixs); [left|exact Hp|reflexivity].
    + intros p' ixs' idp' subp' Hin Hp'.
      destruct Hb1 as [->|(idp & subp & k & v & Hp & ->)].
      * eapply Hids; [right; exact Hin|exact Hp'].
      * destruct (od_get bk p') as [[i0 s0]|] eqn:E.
        -- destruct (decide (i0 = idp)) as [->|Hne].
           ++ rewrite (store_set_same _ _ _ _ _ _ E) in Hp'. injection Hp' as <- _.
              eapply Hids; [right; exact Hin|exact E].
           ++ rewrite (store_set_other _ _ _ _ _ _ _ E Hne) in Hp'. injection Hp' as <- _.
              eapply Hids; [right; exact Hin|exact E].
        -- exfalso. apply od_get_none in E. rewrite <- (store_set_keys bk idp k v) in E.
           apply od_get_none in E. congruence.
Qed.

(** The caller's dicts after the loop over [rxn_ix_map]: the dict of a
    validated parent has gained the ground-state complement, when one
    was added. *)
Lemma apply_all_ratios c (brs : branch_ratios F) reaction tolerance (vs : vstate F) :
  index_injective c -> NoDup (od_keys brs) -> unshared brs ->
  forall entries ck (bk : branch_ratios F) c' (b' : branch_ratios F),
    NoDup (od_keys entries) ->
    (forall p ixs, (p, ixs) ∈ entries -> validated c brs reaction tolerance vs p ixs) ->
    nuclide_dict ck = nuclide_dict c ->
    (forall p ixs idx, (p, ixs) ∈ entries -> nuclide_dict c !! p = Some idx ->
        nuclides ck !! idx = nuclides c !! idx) ->
    (forall p ixs, (p, ixs) ∈ entries -> od_get bk p = od_get brs p) ->
    apply_all reaction vs (ck, bk) entries = (None, (c', b')) ->
    forall p ixs, (p, ixs) ∈ entries ->
      exists id sub g,
        od_get brs p = Some (id, sub) /\ grounds vs !! p = Some g /\
        od_get b' p =
          Some (id, if all_meta sub && fneb (fsum (od_values sub)) f1
                    then od_set sub g (fsub f1 (fsum (od_values sub))) else sub).
Proof.
  intros Hinj Hbrs Hun. induction entries as [|[p ixs] rest IH];
    intros ck bk c' b' Hnd Hval Hdict Hnucs Hsame Happ q jxs Hq; [inversion Hq|].
  simpl in Hnd. apply NoDup_cons in Hnd as [Hp Hnd].
  destruct (Hval p ixs) as (idx & nuc & id & sub & g & Hidx & Hnuc & Hin & Hixs & Hne & Hs & Hg & _);
    [left|].
  pose proof (od_get_nodup brs p (id, sub) Hbrs Hin) as Hget.
  assert (Hgetk : od_get bk p = Some (id, sub)) by (rewrite (Hsame p ixs) by left; exact Hget).
  assert (Hnuck : nuclides ck !! idx = Some nuc).
  { rewrite (Hnucs p ixs idx); [exact Hnuc|left|exact Hidx]. }
  assert (Hother : forall q jxs, (q, jxs) ∈ rest -> nuclide_dict c !! q <> Some idx).
  { intros q' jxs' Hq' Hqi.
    assert (q' = p) as -> by (eapply index_injective_lookup; eauto).
    apply Hp. eapply od_keys_elem. exact Hq'. }
  assert (Hids : forall q' jxs' idq subq, (q', jxs') ∈ rest ->
                   od_get brs q' = Some (idq, subq) -> idq <> id).
  { intros q' jxs' idq subq Hq' Hgq ->. apply od_get_elem in Hgq.
    assert (q' = p) as -> by (eapply unshared_ids; eauto).
    apply Hp. eapply od_keys_elem. exact Hq'. }
  change (apply_all reaction vs (ck, bk) ((p, ixs) :: rest))
    with (match apply_parent reaction vs (ck, bk) (p, ixs) with
          | (Some e, st') => (Some e, st')
          | (None, st') => apply_all reaction vs st' rest
          end) in Happ.
  rewrite (apply_parent_validated reaction vs ck bk p ixs idx nuc id sub
             (fsum (od_values sub)) g) in Happ; auto;
    [|rewrite Hdict; exact Hidx].
  set (c1 := write_reactions ck idx nuc (new_reactions reaction nuc sub (fsum (od_values sub)) g)) in *.
  set (b1 := if all_meta sub && fneb (fsum (od_values sub)) f1
             then store_set bk id g (fsub f1 (fsum (od_values sub))) else bk) in *.
  assert (Hsame1 : forall q' jxs', (q', jxs') ∈ rest -> od_get b1 q' = od_get brs q').
  { intros q' jxs' Hq'. unfold b1.
    destruct (all_meta sub && fneb (fsum (od_values sub)) f1);
      [|apply (Hsame q' jxs'); right; exact Hq'].
    destruct (Hval q' jxs') as (_ & _ & idq & subq & _ & _ & _ & Hinq & _); [right; exact Hq'|].
    pose proof (od_get_nodup brs q' (idq, subq) Hbrs Hinq) as Hgq.
    rewrite Hgq. apply store_set_other.
    - rewrite (Hsame q' jxs') by (right; exact Hq'). exact Hgq.
    - eapply Hids; eauto. }
  apply elem_of_cons in Hq as [[= -> ->]|Hq].
  - exists id, sub, g. split; [exact Hget|]. split; [exact Hg|].
    eapply (apply_all_keeps reaction vs rest c1 b1); [exact Happ| |].
    + unfold b1. destruct (all_meta sub && fneb (fsum (od_values sub)) f1); [|exact Hgetk].
      apply store_set_same. exact Hgetk.
    + intros q' jxs' idq subq Hq' Hgq. rewrite (Hsame1 q' jxs' Hq') in Hgq.
      eapply Hids; eauto.
  - eapply (IH c1 b1); eauto.
    + intros q' jxs' Hq'. apply Hval. right. exact Hq'.
    + intros q' jxs' j Hq' Hqj. unfold c1. simpl.
      rewrite list_lookup_insert_ne.
      * apply (Hnucs q' jxs'); [right; exact Hq'|exact Hqj].
      * intros ->. eapply Hother; eauto.
Qed.

Lemma td_set_fresh {V} (d : tdict V) k v :
  k ∉ map fst d -> td_set d k v = d ++ [(k, v)].
Proof.
  induction d as [|[k' v'] d IH]; simpl; intros Hk; [reflexivity|].
  apply not_elem_of_cons in Hk as [Hne Hk].
  destruct (target_eqb k' k) eqn:E.
  - apply target_eqb_eq in E. congruence.
  - rewrite IH by exact Hk. reflexivity.
Qed.

(** Transitions of the other types are not reported. *)
Lemma capt_fold_skip reaction (rxs : list (ReactionTuple F)) d0 :
  (forall rx, rx ∈ rxs -> String.eqb (r_type rx) reaction = false) ->
  fold_left (capt_step reaction) rxs d0 = d0.
Proof.
  revert d0. induction rxs as [|rx rxs IH]; intros d0 Hno; simpl; [reflexivity|].
  unfold capt_step at 2. rewrite (Hno rx) by left. simpl.
  apply IH. intros rx' Hin. apply Hno. right. exact Hin.
Qed.

(** Transitions built from a dict are reported as the dict has them,
    without the ratios equal to 1.0. *)
Lemma capt_fold_new reaction q (sub : odict F) :
  forall d0,
    NoDup (od_keys sub) ->
    (forall k, k ∈ od_keys sub -> TName k ∉ map fst d0) ->
    fold_left (capt_step reaction)
              (map (fun kv : string * F => mkReaction reaction (TName (fst kv)) q (snd kv)) sub)
              d0 =
    d0 ++ map (fun kv : string * F => (TName (fst kv), snd kv))
              (List.filter (fun kv : string * F => fneb (snd kv) f1) sub).
Proof.
  induction sub as [|[k v] sub IH]; intros d0 Hnd Hfresh; simpl.
  - rewrite app_nil_r. reflexivity.
  - simpl in Hnd. apply NoDup_cons in Hnd as [Hk Hnd].
    unfold capt_step at 2. simpl. rewrite String.eqb_refl. simpl.
    destruct (fneb v f1) eqn:E; simpl.
    + rewrite td_set_fresh by (apply Hfresh; left).
      rewrite IH; [rewrite <- app_assoc; reflexivity|exact Hnd|].
      intros k' Hk'. rewrite map_app. simpl. intros Hin.
      apply elem_of_app in Hin as [Hin|Hin].
      * revert Hin. apply Hfresh. right. exact Hk'.
      * apply list_elem_of_singleton in Hin as [= ->]. contradiction.
    + apply IH; [exact Hnd|]. intros k' Hk'. apply Hfresh. right. exact Hk'.
Qed.

(** What [get_branch_ratios] holds for a name that one nuclide has. *)
Lemma capt_loop_other reaction (nucs : list (Nuclide F)) p :
  forall capt0,
    (forall nuc, nuc ∈ nucs -> name nuc <> p) ->
    od_get (fold_left (fun capt nuclide =>
                         let nuc_capt := nuc_capt_of reaction nuclide in
                         if 0 <? length nuc_capt then od_set capt (name nuclide) nuc_capt
                         else capt) nucs capt0) p = od_get capt0 p.
Proof.
  induction nucs as [|nuc nucs IH]; intros capt0 Hno; simpl; [reflexivity|].
  rewrite IH by (intros nuc' Hin; apply Hno; right; exact Hin).
  destruct (0 <? length (nuc_capt_of reaction nuc)); [|reflexivity].
  rewrite od_get_set.
  destruct (String.eqb (name nuc) p) eqn:E; [|reflexivity].
  apply String.eqb_eq in E. exfalso. apply (Hno nuc); [left|exact E].
Qed.

Lemma capt_loop_lookup reaction (nucs : list (Nuclide F)) :
  NoDup (map name nucs) ->
  forall capt0 nuc,
    nuc ∈ nucs ->
    od_get (fold_left (fun capt nuclide =>
                         let nuc_capt := nuc_capt_of reaction nuclide in
                         if 0 <? length nuc_capt then od_set capt (name nuclide) nuc_capt
                         else capt) nucs capt0) (name nuc) =
      if 0 <? length (nuc_capt_of reaction nuc) then Some (nuc_capt_of reaction nuc)
      else od_get capt0 (name nuc).
Proof.
  induction nucs as [|nuc0 nucs IH]; intros Hnd capt0 nuc Hin; [inversion Hin|].
  simpl in Hnd. apply NoDup_cons in Hnd as [Hfresh Hnd].
  apply elem_of_cons in Hin as [->|Hin]; simpl.
  - rewrite capt_loop_other.
    + destruct (0 <? length (nuc_capt_of reaction nuc0)); [|reflexivity].
      rewrite od_get_set, String.eqb_refl. reflexivity.
    + intros nuc' Hin E. apply Hfresh. rewrite <- E.
      apply list_elem_of_In, in_map, list_elem_of_In. exact Hin.
  - rewrite (IH Hnd _ nuc Hin).
    destruct (0 <? length (nuc_capt_of reaction nuc)); [reflexivity|].
    destruct (0 <? length (nuc_capt_of reaction nuc0)); [|reflexivity].
    rewrite od_get_set.
    destruct (String.eqb (name nuc0) (name nuc)) eqn:E; [|reflexivity].
    apply String.eqb_eq in E. exfalso. apply Hfresh. rewrite E.
    apply list_elem_of_In, in_map, list_elem_of_In. exact Hin.
Qed.

Lemma all_meta_not_key (sub : odict F) g :
  all_meta sub = true -> contains "_m" g = false -> g ∉ od_keys sub.
Proof.
  unfold all_meta. rewrite forallb_forall. intros Hall Hg Hin.
  apply list_elem_of_fmap in Hin as ([k v] & -> & Hin).
  apply list_elem_of_In, Hall in Hin. simpl in *. congruence.
Qed.

Lemma od_set_keys_nodup {V} (d : odict V) k v : NoDup (od_keys d) -> NoDup (od_keys (od_set d k v)).
Proof.
  intros Hnd. destruct (decide (k ∈ od_keys d)) as [Hin|Hout].
  - assert (od_keys (od_set d k v) = od_keys d) as ->; [|exact Hnd].
    clear Hnd. induction d as [|[k' v'] d IH]; [inversion Hin|]. simpl.
    destruct (String.eqb k' k) eqn:E; simpl; [reflexivity|].
    f_equal. apply IH. simpl in Hin. apply elem_of_cons in Hin as [->|Hin]; [|exact Hin].
    rewrite String.eqb_refl in E. discriminate.
  - rewrite od_set_fresh by exact Hout. unfold od_keys. rewrite map_app. simpl.
    apply NoDup_app. split; [exact Hnd|]. split; [|apply NoDup_singleton].
    intros x Hx Hx'. apply list_elem_of_singleton in Hx' as ->. contradiction.
Qed.

(** After a call of [set_branch_ratios] that returned, for a reaction
    without secondary particles, [get_branch_ratios] gives for every
    parent that passed validation the ratios of the caller's dict as the
    call left it: the ratios passed in, with the ground-state complement
    when one was added, without the ratios equal to 1.0. *)
Theorem set_then_get_branch_ratios (c : Chain F) (brs : branch_ratios F)
    reaction strict tolerance p id sub :
  indexed c ->
  NoDup (od_keys brs) ->
  unshared brs ->
  secondary_of reaction = [] ->
  out_exn (set_branch_ratios c brs reaction strict tolerance) = None ->
  (p, (id, sub)) ∈ brs ->
  p ∈ od_keys (rxn_ix_map (out_report (set_branch_ratios c brs reaction strict tolerance))) ->
  NoDup (od_keys sub) ->
  exists sub',
    od_get (out_ratios (set_branch_ratios c brs reaction strict tolerance)) p = Some (id, sub') /\
    od_get (get_branch_ratios (out_chain (set_branch_ratios c brs reaction strict tolerance))
                              reaction) p = as_reported sub'.
Proof.
  intros Hix Hnd Hun Hsec. pose proof (indexed_injective c Hix) as Hinj.
  unfold set_branch_ratios.
  destruct (foldM _ vstate0 brs) as [vs|e] eqn:Hval; [|discriminate].
  destruct (length (rxn_ix_map vs) =? 0); [discriminate|].
  pose proof (validation_loop_inv c reaction strict (fabs tolerance) brs [] vstate0 vs
                Hnd (validation_inv_init _ _ _) Hval) as (Hkeys & Hvalid & _).
  simpl in Hvalid.
  destruct (apply_all_validated c brs reaction (fabs tolerance) vs Hinj Hnd
              (rxn_ix_map vs) c brs) as (c' & b' & Happ & Hd & Hr & Hunt & Hres); auto.
  { intros q ixs Hin. apply Hvalid. exact Hin. }
  rewrite Happ. simpl. intros _ Hin Hp Hsub.
  apply list_elem_of_fmap in Hp as ([q ixs] & -> & Hp). simpl in *.
  destruct (apply_all_ratios c brs reaction (fabs tolerance) vs Hinj Hnd Hun
              (rxn_ix_map vs) c brs c' b' Hkeys) with (p := q) (ixs := ixs)
    as (id1 & sub1 & g & Hget1 & Hg & Hb'); auto.
  { intros q' ixs' Hin'. apply Hvalid. exact Hin'. }
  pose proof (od_get_nodup brs q (id, sub) Hnd Hin) as Hget.
  rewrite Hget in Hget1. injection Hget1 as <- <-.
  destruct (Hres q ixs Hp) as (idx & nuc & id2 & sub2 & s & g2 & Hidx & Hnuc & Hs & Hg2 & Hnew & Hsame).
  specialize (Hsame Hun). rewrite Hget in Hsame. injection Hsame as <- <-.
  assert (g2 = g) as -> by congruence.
  destruct (Hvalid q ixs Hp) as (_ & idx0 & nuc0 & id0 & sub0 & g0 & Hidx0 & Hnuc0 & Hin0 & _ & _ & Hs0 & Hg0 & Hobs & _).
  pose proof (od_get_nodup brs q (id0, sub0) Hnd Hin0) as Hget0.
  rewrite Hget in Hget0. injection Hget0 as <- <-.
  assert (s = fsum (od_values sub)) as -> by congruence.
  assert (g0 = g) as -> by congruence.
  assert (idx0 = idx) as -> by congruence.
  assert (nuc0 = nuc) as -> by congruence.
  apply observed_ground_spec in Hobs as [Hobs|(rx & _ & _ & _ & Hm)]; [discriminate|].
  set (sub' := if all_meta sub && fneb (fsum (od_values sub)) f1
               then od_set sub g (fsub f1 (fsum (od_values sub))) else sub) in *.
  exists sub'. split; [exact Hb'|].
  (* the names of the nuclides are as before *)
  destruct (applied_nuclides c c' brs reaction (rxn_ix_map vs)) as [Hlen Hat].
  { intros p' ixs' Hin'. apply Hvalid in Hin' as [Hin' _]. exact Hin'. }
  { exact Hunt. }
  { intros p' ixs' Hin'.
    destruct (Hres p' ixs' Hin') as (i' & n' & id' & s' & x' & g' & H1 & H2 & _ & _ & H3 & _).
    exists i', n', id', s', x', g'. auto. }
  assert (Hnames : map name (nuclides c') = map name (nuclides c)).
  { apply list_eq. intros i. rewrite !list_lookup_fmap.
    destruct (nuclides c !! i) as [n|] eqn:E.
    - destruct (Hat i n E) as (n' & -> & (Hn & _) & _). simpl. congruence.
    - apply lookup_ge_None in E. unfold chain_len in Hlen. rewrite <- Hlen in E.
      apply lookup_ge_None in E. rewrite E. reflexivity. }
  assert (Hq : name nuc = q).
  { destruct (indexed_lookup c q idx Hix) as [Hl _].
    destruct (Hl Hidx) as (n & Hn & <-). congruence. }
  rewrite <- Hq.
  change (name nuc)
    with (name (set_reactions nuc (new_reactions reaction nuc sub (fsum (od_values sub)) g))).
  unfold get_branch_ratios. rewrite capt_loop_lookup.
  2: { rewrite Hnames. apply Hix. }
  2: { eapply list_elem_of_lookup_2. exact Hnew. }
  simpl.
  assert (Hcapt : nuc_capt_of reaction
                    (set_reactions nuc (new_reactions reaction nuc sub (fsum (od_values sub)) g))
                  = map (fun kv : string * F => (TName (fst kv), snd kv))
                        (List.filter (fun kv : string * F => fneb (snd kv) f1) sub')).
  { unfold nuc_capt_of, new_reactions. simpl.
    rewrite fold_left_app.
    rewrite (capt_fold_skip reaction (List.filter _ (reactions nuc)) []).
    2: { intros rx' Hrx'. apply list_elem_of_In, filter_In in Hrx' as [_ Hrx'].
         unfold edited in Hrx'. rewrite Hsec in Hrx'.
         destruct (r_target rx'); simpl in Hrx'; rewrite andb_true_r in Hrx';
           apply negb_true_iff in Hrx'; exact Hrx'. }
    unfold sub'. destruct (all_meta sub && fneb (fsum (od_values sub)) f1) eqn:Ec.
    - apply andb_true_iff in Ec as [Hmeta _].
      rewrite (od_set_fresh sub g) by (apply all_meta_not_key; assumption).
      change ([mkReaction reaction (TName g) (first_Q reaction nuc)
                          (fsub f1 (fsum (od_values sub)))])
        with (map (fun kv : string * F =>
                     mkReaction reaction (TName (fst kv)) (first_Q reaction nuc) (snd kv))
                  [(g, fsub f1 (fsum (od_values sub)))]).
      rewrite <- map_app. rewrite capt_fold_new; [reflexivity| |intros k _ Hk; inversion Hk].
      rewrite <- (od_set_fresh sub g) by (apply all_meta_not_key; assumption).
      apply od_set_keys_nodup. exact Hsub.
    - rewrite app_nil_r.
      rewrite capt_fold_new; [reflexivity|exact Hsub|intros k _ Hk; inversion Hk]. }
  rewrite Hcapt. unfold as_reported.
  destruct (List.filter _ sub'); reflexivity.
Qed.


End FrameFacts.

(** ** [Chain.from_xml] *)

Section IndexBuilt.
Context {F : Type}.

Lemma names_last_empty : names_last (mkChain (F := F) [] [] ∅).
Proof.
  intros n i. simpl. rewrite lookup_empty. split; [discriminate|].
  intros [(nuc & Hn & _) _]. rewrite lookup_nil in Hn. discriminate.
Qed.

(** Appending a nuclide and writing its position under its name. *)
Lemma names_last_append (c : Chain F) (nuc : Nuclide F) rs :
  names_last c ->
  names_last (mkChain (nuclides c ++ [nuc]) rs
                      (<[name nuc := length (nuclides c)]> (nuclide_dict c))).
Proof.
  intros Hinv n i. simpl. destruct (decide (name nuc = n)) as [<-|Hne].
  - rewrite lookup_insert_eq. split.
    + intros [= <-]. split.
      * exists nuc. rewrite lookup_app_r by lia. rewrite Nat.sub_diag. auto.
      * intros j nuc' Hj _. apply lookup_lt_Some in Hj. rewrite length_app in Hj.
        simpl in Hj. lia.
    + intros [(nuc' & Hi & Hn) Hlast]. f_equal.
      specialize (Hlast (length (nuclides c)) nuc).
      rewrite lookup_app_r, Nat.sub_diag in Hlast by lia.
      specialize (Hlast eq_refl eq_refl).
      apply lookup_lt_Some in Hi. rewrite length_app in Hi. simpl in Hi. lia.
  - rewrite lookup_insert_ne by exact Hne. rewrite (Hinv n i). split.
    + intros [(nuc' & Hi & Hn) Hlast]. split.
      * exists nuc'. rewrite lookup_app_l by (eapply lookup_lt_Some; exact Hi). auto.
      * intros j nuc'' Hj Hn''.
        destruct (decide (j < length (nuclides c))) as [Hlt|Hge].
        -- rewrite lookup_app_l in Hj by exact Hlt. eauto.
        -- rewrite lookup_app_r in Hj by lia.
           destruct (j - length (nuclides c)); simpl in Hj; [|discriminate].
           injection Hj as <-. contradiction.
    + intros [(nuc' & Hi & Hn) Hlast].
      assert (Hlt : i < length (nuclides c)).
      { destruct (decide (i < length (nuclides c))) as [Hlt|Hge]; [exact Hlt|].
        rewrite lookup_app_r in Hi by lia.
        destruct (i - length (nuclides c)); simpl in Hi; [|discriminate].
        injection Hi as <-. contradiction. }
      rewrite lookup_app_l in Hi by exact Hlt. split; [eauto|].
      intros j nuc'' Hj Hn''. apply (Hlast j nuc''); [|exact Hn''].
      rewrite lookup_app_l by (eapply lookup_lt_Some; exact Hj). exact Hj.
Qed.

Lemma names_last_injective (c : Chain F) : names_last c -> index_injective c.
Proof.
  intros Hinv. apply injective_index. intros n1 n2 i H1 H2.
  apply Hinv in H1 as [(nuc1 & Hn1 & <-) _]. apply Hinv in H2 as [(nuc2 & Hn2 & <-) _].
  congruence.
Qed.

Lemma names_last_indexed (c : Chain F) :
  names_last c -> NoDup (map name (nuclides c)) -> indexed c.
Proof.
  intros Hinv Hnd. apply indexed_intro; [exact Hnd|]. intros n i. rewrite (Hinv n i).
  split; [tauto|]. intros (nuc & Hi & Hn). split; [eauto|].
  intros j nuc' Hj Hn'.
  assert (j = i); [|lia].
  eapply (NoDup_lookup (map name (nuclides c))); [exact Hnd| |].
  - rewrite list_lookup_fmap, Hj. simpl. rewrite Hn'. reflexivity.
  - rewrite list_lookup_fmap, Hi. simpl. rewrite Hn. reflexivity.
Qed.

(** A name of the index is a key of [self] that [self[name]] finds. *)
Lemma names_last_getitem (c : Chain F) n :
  names_last c -> chain_contains c n = true ->
  exists nuc, chain_getitem c n = Ok nuc /\ name nuc = n.
Proof.
  intros Hinv Hc. unfold chain_contains in Hc. apply bool_decide_eq_true in Hc as [i Hi].
  pose proof Hi as Hi'. apply Hinv in Hi' as [(nuc & Hn & Hname) _].
  exists nuc. split; [|exact Hname].
  unfold chain_getitem, getitem. rewrite Hi. simpl. unfold nth_item. rewrite Hn. reflexivity.
Qed.

Lemma track_reaction_fold (rxs : list (ReactionTuple F)) :
  forall rs,
    NoDup rs ->
    NoDup (fold_left track_reaction rxs rs) /\
    forall r, r ∈ fold_left track_reaction rxs rs <->
              r ∈ rs \/ exists rx, rx ∈ rxs /\ r_type rx = r.
Proof.
  induction rxs as [|rx rxs IH]; intros rs Hnd; simpl.
  - split; [exact Hnd|]. intros r. split; [auto|].
    intros [Hr|(rx & Hin & _)]; [exact Hr|inversion Hin].
  - assert (Hstep : NoDup (track_reaction rs rx) /\
                    forall r, r ∈ track_reaction rs rx <-> r ∈ rs \/ r_type rx = r).
    { unfold track_reaction. destruct (bool_decide (r_type rx ∈ rs)) eqn:E.
      - apply bool_decide_eq_true in E. split; [exact Hnd|].
        intros r. split; [auto|]. intros [Hr|<-]; assumption.
      - apply bool_decide_eq_false in E. split.
        + apply NoDup_app. split; [exact Hnd|]. split; [|apply NoDup_singleton].
          intros x Hx Hx'. apply list_elem_of_singleton in Hx' as ->. contradiction.
        + intros r. rewrite elem_of_app, list_elem_of_singleton. split; intros [?|?]; auto. }
    destruct Hstep as [Hnd' Hmem]. destruct (IH _ Hnd') as [Hnd'' Hmem'].
    split; [exact Hnd''|]. intros r. rewrite Hmem', Hmem. split.
    + intros [[Hr|Hr]|(rx' & Hin & Hr)]; [auto| |].
      * right. exists rx. split; [left|exact Hr].
      * right. exists rx'. split; [right|]; auto.
    + intros [Hr|(rx' & Hin & Hr)]; [auto|].
      apply elem_of_cons in Hin as [->|Hin]; [auto|]. right. eauto.
Qed.

Lemma reactions_listed_carries (c : Chain F) r :
  reactions_listed c -> (r ∈ chain_reactions c <-> carries c r = true).
Proof.
  intros [_ Hmem]. rewrite Hmem. unfold carries. rewrite existsb_exists. split.
  - intros (nuc & rx & Hn & Hrx & <-). exists nuc. split; [apply list_elem_of_In; exact Hn|].
    apply existsb_exists. exists rx. split; [apply list_elem_of_In; exact Hrx|].
    apply String.eqb_refl.
  - intros (nuc & Hn & Hex). apply existsb_exists in Hex as (rx & Hrx & Heq).
    apply String.eqb_eq in Heq. exists nuc, rx.
    split; [apply list_elem_of_In; exact Hn|]. split; [apply list_elem_of_In; exact Hrx|].
    exact Heq.
Qed.

End IndexBuilt.

Section LoadFacts.
Context {F : Type} {AF : Arith F}.
Variable Element : Type.
Variable element_name : Element -> option string.
Variable Nuclide_from_xml : Element -> option F -> result (Nuclide F).

Lemma from_xml_loop fission_q (elems : list Element) :
  forall (c c' : Chain F),
    foldM (from_xml_step Element element_name Nuclide_from_xml (default ∅ fission_q)) c
          (imap (fun n e => (length (nuclides c) + n, e)) elems) = Ok c' ->
    names_last c -> reactions_listed c ->
    exists nucs,
      nuclides c' = nuclides c ++ nucs /\
      Forall2 (fun e nuc => Nuclide_from_xml e (q_for element_name fission_q e) = Ok nuc) elems nucs /\
      names_last c' /\ reactions_listed c'.
Proof.
  induction elems as [|e elems IH]; intros c c' Hf Hnames Hrs.
  - simpl in Hf. injection Hf as <-. exists []. rewrite app_nil_r.
    split; [reflexivity|]. split; [constructor|]. split; assumption.
  - rewrite imap_cons in Hf. simpl in Hf. rewrite Nat.add_0_r in Hf.
    fold (q_for element_name fission_q e) in Hf.
    destruct (Nuclide_from_xml e (q_for element_name fission_q e)) as [nuc|err] eqn:Hparse;
      simpl in Hf; [|discriminate].
    set (c1 := mkChain (nuclides c ++ [nuc])
                       (fold_left track_reaction (reactions nuc) (chain_reactions c))
                       (<[name nuc := length (nuclides c)]> (nuclide_dict c))) in *.
    rewrite (imap_ext _ (fun n e => (length (nuclides c1) + n, e))) in Hf.
    2: { intros i x _. simpl. rewrite length_app. simpl. f_equal. lia. }
    apply IH in Hf as (nucs & Hn & Hall & Hnames' & Hrs').
    + exists (nuc :: nucs). simpl in Hn. rewrite <- app_assoc in Hn. simpl in Hn.
      split; [exact Hn|]. split; [constructor; assumption|]. split; assumption.
    + apply names_last_append. exact Hnames.
    + destruct Hrs as [Hnd Hmem].
      destruct (track_reaction_fold (reactions nuc) (chain_reactions c) Hnd) as [Hnd' Hmem'].
      split; [exact Hnd'|]. intros r. simpl. rewrite Hmem', Hmem. split.
      * intros [(n0 & rx & Hn0 & Hrx & Hr)|(rx & Hrx & Hr)].
        -- exists n0, rx. rewrite elem_of_app. auto.
        -- exists nuc, rx. rewrite elem_of_app, list_elem_of_singleton. auto.
      * intros (n0 & rx & Hn0 & Hrx & Hr). apply elem_of_app in Hn0 as [Hn0|Hn0].
        -- left. eauto.
        -- apply list_elem_of_singleton in Hn0 as ->. right. eauto.
Qed.

Lemma from_xml_built fission_q (elems : list Element) (c : Chain F) :
  from_xml Element element_name Nuclide_from_xml fission_q elems = Ok c ->
  Forall2 (fun e nuc => Nuclide_from_xml e (q_for element_name fission_q e) = Ok nuc) elems (nuclides c) /\
  names_last c /\ reactions_listed c.
Proof.
  intros Hf. unfold from_xml in Hf.
  destruct (from_xml_loop fission_q elems (mkChain [] [] ∅) c) as (nucs & Hn & Hall & Hrest).
  - exact Hf.
  - apply names_last_empty.
  - split; [constructor|]. intros r. simpl. split; [intros Hr; inversion Hr|].
    intros (nuc & rx & Hn & _). inversion Hn.
  - simpl in Hn. rewrite Hn. auto.
Qed.

(** The chain [from_xml] returns holds the parsed nuclides in the order
    of the file, each parsed with the Q value [fission_q] has for its
    name.  Its index maps every name to the last nuclide of that name (a
    later element shadows an earlier one of the same name), so that
    [self[name]] returns a nuclide called [name] for every name in the
    chain, and no two names share a position.  When the names are
    pairwise different, the index is that of all the nuclides. *)
Theorem from_xml_index fission_q (elems : list Element) (c : Chain F) :
  from_xml Element element_name Nuclide_from_xml fission_q elems = Ok c ->
  Forall2 (fun e nuc => Nuclide_from_xml e (q_for element_name fission_q e) = Ok nuc) elems (nuclides c) /\
  names_last c /\
  index_injective c /\
  (forall n, chain_contains c n = true ->
             exists nuc, chain_getitem c n = Ok nuc /\ name nuc = n) /\
  (NoDup (map name (nuclides c)) -> indexed c).
Proof.
  intros Hf. apply from_xml_built in Hf as (Hall & Hnames & _).
  split; [exact Hall|]. split; [exact Hnames|]. split; [|split].
  - apply names_last_injective. exact Hnames.
  - intros n. apply names_last_getitem. exact Hnames.
  - apply names_last_indexed. exact Hnames.
Qed.

(** The list of reactions of the chain [from_xml] returns names every
    reaction type once, and names exactly the types of the transitions of
    the nuclides of the chain. *)
Theorem from_xml_reactions fission_q (elems : list Element) (c : Chain F) :
  from_xml Element element_name Nuclide_from_xml fission_q elems = Ok c ->
  NoDup (chain_reactions c) /\
  forall r, r ∈ chain_reactions c <-> carries c r = true.
Proof.
  intros Hf. apply from_xml_built in Hf as (_ & _ & Hrs).
  split; [apply Hrs|]. intros r. apply reactions_listed_carries. exact Hrs.
Qed.

End LoadFacts.

(** ** [Chain.from_endf] *)

Lemma fuel_bind_ok {A B} (c : option (result A)) (k : A -> option (result B)) (b : B) :
  fuel_bind c k = Some (Ok b) -> exists a, c = Some (Ok a) /\ k a = Some (Ok b).
Proof. destruct c as [[a|e]|]; simpl; [eauto|discriminate|discriminate]. Qed.

Lemma mapM_ok {A B} (f : A -> result B) (l : list A) (l' : list B) :
  mapM f l = Ok l' -> Forall2 (fun a b => f a = Ok b) l l'.
Proof.
  revert l'. induction l as [|a l IH]; intros l' Hm; simpl in Hm.
  - injection Hm as <-. constructor.
  - apply bind_ok in Hm as (b & Hb & Hm). apply bind_ok in Hm as (bs & Hbs & Hm).
    injection Hm as <-. constructor; auto.
Qed.

(** *** The order of the nuclides *)

Lemma zam_ltb_spec (x y : Z * Z * Z) :
  zam_ltb x y = true <->
  (x.1.1 < y.1.1 \/ (x.1.1 = y.1.1 /\ (x.1.2 < y.1.2 \/ (x.1.2 = y.1.2 /\ x.2 < y.2))))%Z.
Proof.
  destruct x as [[z1 a1] m1], y as [[z2 a2] m2]. simpl.
  rewrite orb_true_iff, andb_true_iff, orb_true_iff, andb_true_iff.
  rewrite !Z.ltb_lt, !Z.eqb_eq. reflexivity.
Qed.

Lemma zam_ltb_false (x y : Z * Z * Z) :
  zam_ltb x y = false <->
  ~ (x.1.1 < y.1.1 \/ (x.1.1 = y.1.1 /\ (x.1.2 < y.1.2 \/ (x.1.2 = y.1.2 /\ x.2 < y.2))))%Z.
Proof. rewrite <- zam_ltb_spec. destruct (zam_ltb x y); split; congruence. Qed.

Lemma StronglySorted_lookup {A} (R : A -> A -> Prop) (l : list A) i j x y :
  StronglySorted R l -> i < j -> l !! i = Some x -> l !! j = Some y -> R x y.
Proof.
  intros Hs Hij Hi Hj. rewrite <- (take_drop j l) in Hs.
  eapply StronglySorted_app_1_elem_of; [exact Hs| |].
  - eapply list_elem_of_lookup_2. rewrite lookup_take_lt by exact Hij. exact Hi.
  - eapply list_elem_of_lookup_2. rewrite lookup_drop, Nat.add_0_r. exact Hj.
Qed.

Lemma insert_by_zam_perm x l : insert_by_zam x l ≡ₚ x :: l.
Proof.
  induction l as [|y l IH]; simpl; [reflexivity|].
  destruct (zam_ltb x.1 y.1); [reflexivity|].
  rewrite IH. apply Permutation_swap.
Qed.

Lemma insert_by_zam_sorted x l :
  StronglySorted (fun a b : Z * Z * Z * string => zam_ltb b.1 a.1 = false) l ->
  StronglySorted (fun a b : Z * Z * Z * string => zam_ltb b.1 a.1 = false) (insert_by_zam x l).
Proof.
  induction 1 as [|y l Hs IH Hy]; simpl.
  - repeat constructor.
  - destruct (zam_ltb x.1 y.1) eqn:E.
    + constructor; [constructor; assumption|].
      constructor.
      * apply zam_ltb_false. apply zam_ltb_spec in E. lia.
      * rewrite Forall_forall in Hy |- *. intros z Hz. specialize (Hy z Hz).
        apply zam_ltb_false. apply zam_ltb_false in Hy. apply zam_ltb_spec in E. lia.
    + constructor; [exact IH|].
      rewrite (insert_by_zam_perm x l). constructor; [|exact Hy].
      exact E.
Qed.

Lemma sort_by_zam_fold (keyed acc : list (Z * Z * Z * string)) :
  StronglySorted (fun a b : Z * Z * Z * string => zam_ltb b.1 a.1 = false) acc ->
  fold_left (fun acc x => insert_by_zam x acc) keyed acc ≡ₚ acc ++ keyed /\
  StronglySorted (fun a b : Z * Z * Z * string => zam_ltb b.1 a.1 = false)
                 (fold_left (fun acc x => insert_by_zam x acc) keyed acc).
Proof.
  revert acc. induction keyed as [|x keyed IH]; intros acc Hs; simpl.
  - rewrite app_nil_r. auto.
  - destruct (IH (insert_by_zam x acc) (insert_by_zam_sorted x acc Hs)) as [Hp Hs'].
    split; [|exact Hs'].
    rewrite Hp, insert_by_zam_perm. simpl. apply Permutation_middle.
Qed.

Section EndfFacts.
Context {F : Type} {AF : Arith F} {ND : NuclearData}.

Lemma sorted_by_zam_spec (names sorted : list string) :
  sorted_by_zam names = Ok sorted ->
  sorted ≡ₚ names /\ zam_ordered sorted.
Proof.
  unfold sorted_by_zam. intros Hs. apply bind_ok in Hs as (keyed & Hk & Hs).
  injection Hs as <-. apply mapM_ok in Hk.
  destruct (sort_by_zam_fold keyed []) as [Hp Hsorted]; [constructor|]. simpl in Hp.
  assert (Hnames : map snd keyed = names).
  { clear Hp Hsorted. induction Hk as [|n kn names keyed Hn Hk IH]; [reflexivity|].
    simpl. apply bind_ok in Hn as (k & _ & Hn). injection Hn as <-. simpl. f_equal. exact IH. }
  assert (Hzam : forall kn, kn ∈ keyed -> zam kn.2 = Ok kn.1).
  { clear Hp Hsorted Hnames. induction Hk as [|n kn names keyed Hn Hk IH];
      intros x Hx; [inversion Hx|].
    apply elem_of_cons in Hx as [->|Hx]; [|auto].
    apply bind_ok in Hn as (k & Hz & Hn). injection Hn as <-. exact Hz. }
  split.
  - rewrite <- Hnames. apply Permutation_map. exact Hp.
  - intros i j ni nj Hij Hi Hj.
    rewrite list_lookup_fmap in Hi, Hj.
    destruct (_ !! i) as [ki|] eqn:Ei; [|discriminate].
    destruct (_ !! j) as [kj|] eqn:Ej; [|discriminate].
    simpl in Hi, Hj. injection Hi as <-. injection Hj as <-.
    exists ki.1, kj.1.
    assert (Hin : forall k n, fold_left (fun acc x => insert_by_zam x acc) keyed [] !! n = Some k ->
                              k ∈ keyed).
    { intros k n Hn. rewrite <- Hp. eapply list_elem_of_lookup_2. exact Hn. }
    split; [apply Hzam; eauto|]. split; [apply Hzam; eauto|].
    exact (StronglySorted_lookup _ _ i j ki kj Hsorted Hij Ei Ej).
Qed.

(** *** The reaction block *)

Lemma first_q_spec (rx : gmap Z F) (mts : list Z) :
  available rx mts = true ->
  exists pre mt post,
    mts = pre ++ mt :: post /\ rx !! mt = Some (first_q rx mts) /\
    forall mt', mt' ∈ pre -> rx !! mt' = None.
Proof.
  induction mts as [|mt mts IH]; simpl; [discriminate|].
  destruct (rx !! mt) as [q|] eqn:E.
  - intros _. exists [], mt, mts. repeat split; auto. intros mt' Hin. inversion Hin.
  - rewrite bool_decide_eq_false_2 by (intros [? ?]; discriminate). simpl.
    intros Hav. destruct (IH Hav) as (pre & mt0 & post & -> & Hq & Hpre).
    exists (mt :: pre), mt0, post. repeat split; auto.
    intros mt' Hin. apply elem_of_cons in Hin as [->|Hin]; auto.
Qed.

Lemma append_new_fold (l : list string) :
  forall rs,
    NoDup rs ->
    NoDup (fold_left append_new l rs) /\
    forall r, r ∈ fold_left append_new l rs <-> r ∈ rs \/ r ∈ l.
Proof.
  induction l as [|x l IH]; intros rs Hnd; simpl.
  - split; [exact Hnd|]. intros r. split; [auto|]. intros [Hr|Hr]; [exact Hr|inversion Hr].
  - assert (Hstep : NoDup (append_new rs x) /\
                    forall r, r ∈ append_new rs x <-> r ∈ rs \/ r = x).
    { unfold append_new. destruct (bool_decide (x ∈ rs)) eqn:E.
      - apply bool_decide_eq_true in E. split; [exact Hnd|].
        intros r. split; [auto|]. intros [Hr| ->]; assumption.
      - apply bool_decide_eq_false in E. split.
        + apply NoDup_app. split; [exact Hnd|]. split; [|apply NoDup_singleton].
          intros y Hy Hy'. apply list_elem_of_singleton in Hy' as ->. contradiction.
        + intros r. rewrite elem_of_app, list_elem_of_singleton. reflexivity. }
    destruct Hstep as [Hnd' Hmem]. destruct (IH _ Hnd') as [Hnd'' Hmem'].
    split; [exact Hnd''|]. intros r. rewrite Hmem', Hmem, elem_of_cons. tauto.
Qed.

Lemma endf_reaction_fold (dd : odict (Decay F)) parent data (rx : gmap Z F) entries :
  forall rs chain_rs missing rs' chain_rs' missing',
    foldM (endf_reaction dd parent data rx) (rs, chain_rs, missing) entries
      = Ok (rs', chain_rs', missing') ->
    rs' = rs ++ flat_map (endf_tuple data rx) entries /\
    chain_rs' = fold_left append_new (map r_type (flat_map (endf_tuple data rx) entries))
                          chain_rs.
Proof.
  induction entries as [|[[nm mts] [dA dZ]] entries IH];
    intros rs chain_rs missing rs' chain_rs' missing' Hf; simpl in Hf.
  - injection Hf as <- <- <-. simpl. rewrite app_nil_r. auto.
  - apply bind_ok in Hf as ([[rs1 crs1] m1] & Hstep & Hf).
    apply IH in Hf as [-> ->]. simpl.
    destruct (available rx mts).
    + destruct (ATOMIC_SYMBOL !! (dk_atomic_number data + dZ)%Z) as [sym|]; [|discriminate].
      injection Hstep as <- <- <-. simpl. rewrite <- app_assoc. auto.
    + injection Hstep as <- <- <-. auto.
Qed.

Lemma from_endf_reactions_ok rx_data (dd : odict (Decay F)) has_fpy parent data
    rs chain_rs missing_rx missing_fy rs' chain_rs' missing_rx' missing_fy' :
  from_endf_reactions rx_data dd has_fpy parent data rs chain_rs missing_rx missing_fy
    = Ok (rs', chain_rs', missing_rx', missing_fy') ->
  rs' = rs ++ endf_transitions rx_data has_fpy parent data /\
  chain_rs' = fold_left append_new
                        (map r_type (endf_transitions rx_data has_fpy parent data)) chain_rs.
Proof.
  unfold from_endf_reactions, endf_transitions. generalize REACTIONS as entries.
  intros entries. destruct (rx_data !! parent) as [rx|].
  - intros Hr. apply bind_ok in Hr as ([[rs1 crs1] m1] & Hloop & Hr).
    apply bind_ok in Hr as ([[rs2 crs2] m2] & Hfis & Hr). injection Hr as <- <- <- <-.
    apply endf_reaction_fold in Hloop as [-> ->].
    unfold endf_fission in Hfis. unfold fission_tuple.
    destruct (available rx [18; 19; 20; 21; 38]%Z); simpl.
    + destruct has_fpy.
      * destruct (rx !! 18%Z) as [q|]; [|discriminate].
        injection Hfis as <- <- _. rewrite app_assoc, map_app, fold_left_app.
        split; reflexivity.
      * injection Hfis as <- <- _. rewrite !app_nil_r. auto.
    + injection Hfis as <- <- _. rewrite !app_nil_r. auto.
  - intros [= <- <- <- <-]. rewrite app_nil_r. auto.
Qed.

(** *** The loop over the nuclides *)

Lemma from_endf_decay_name fuel (dd : odict (Decay F)) parent data n0 :
  from_endf_decay fuel dd parent data = Some (Ok n0) ->
  name n0 = parent /\ reactions n0 = [] /\ yield_data n0 = [].
Proof.
  unfold from_endf_decay.
  destruct (negb (dk_stable data) && fneb (dk_half_life data) f0).
  - destruct (decay_loop _ _ _ _ _ _ _) as [[dms|e]|]; try discriminate.
    intros [= <-]. auto.
  - intros [= <-]. auto.
Qed.

Lemma from_endf_nuclide_ok fuel rx_data (dd : odict (Decay F)) fpy_data
    (c : Chain F) log idx parent c' log' :
  from_endf_nuclide fuel rx_data dd fpy_data (c, log) (idx, parent) = Some (Ok (c', log')) ->
  exists nuc,
    name nuc = parent /\ built fuel rx_data dd fpy_data nuc /\
    nuclides c' = nuclides c ++ [nuc] /\
    nuclide_dict c' = <[parent := idx]> (nuclide_dict c) /\
    chain_reactions c' = fold_left append_new (map r_type (reactions nuc))
                                   (chain_reactions c) /\
    length (yield_energies log') = S (length (yield_energies log)).
Proof.
  unfold from_endf_nuclide.
  destruct (od_get dd parent) as [data|] eqn:Hdata; [|discriminate].
  intros Hn. apply fuel_bind_ok in Hn as (n0 & Hdecay & Hn).
  apply fuel_bind_ok in Hn as ([[[rs crs] mrx] mfy] & Hrx & Hn).
  injection Hrx as Hrx.
  apply fuel_bind_ok in Hn as ([[es yd] mfp] & Hy & Hn).
  injection Hn as <- <-.
  destruct (from_endf_decay_name _ _ _ _ _ Hdecay) as (Hname & Hrs0 & Hyd0).
  rewrite Hrs0 in Hrx. apply from_endf_reactions_ok in Hrx as [-> ->]. simpl in *.
  exists (mkNuclide (name n0) (half_life n0) (decay_energy n0) (decay_modes n0)
                    (endf_transitions rx_data (bool_decide (is_Some (fpy_data !! parent)))
                                      parent data) yd).
  simpl. split; [exact Hname|]. split; [|repeat split; rewrite ?length_app; simpl; auto; lia].
  exists data, n0. simpl. rewrite Hname. repeat split; auto.
  destruct (fpy_data !! parent) as [fpy|].
  - apply fuel_bind_ok in Hy as ([[es' yd'] mfp'] & Hy & Hy'). injection Hy' as <- <- <-.
    rewrite Hyd0 in Hy. eauto.
  - injection Hy as <- <- <-. exact Hyd0.
Qed.

Lemma from_endf_loop fuel rx_data (dd : odict (Decay F)) fpy_data (parents : list string) :
  forall (c : Chain F) log c' log',
    fuel_foldM (from_endf_nuclide fuel rx_data dd fpy_data) (c, log)
               (imap (fun n p => (length (nuclides c) + n, p)) parents) = Some (Ok (c', log')) ->
    names_last c -> reactions_listed c ->
    exists nucs,
      nuclides c' = nuclides c ++ nucs /\ map name nucs = parents /\
      Forall (built fuel rx_data dd fpy_data) nucs /\
      names_last c' /\ reactions_listed c' /\
      length (yield_energies log') = length (yield_energies log) + length parents.
Proof.
  induction parents as [|parent parents IH]; intros c log c' log' Hf Hnames Hrs.
  - simpl in Hf. injection Hf as <- <-. exists []. rewrite app_nil_r.
    split; [reflexivity|]. split; [reflexivity|]. split; [constructor|].
    split; [assumption|]. split; [assumption|]. simpl. lia.
  - rewrite imap_cons in Hf. simpl in Hf. rewrite Nat.add_0_r in Hf.
    apply fuel_bind_ok in Hf as ([c1 log1] & Hstep & Hf).
    apply from_endf_nuclide_ok in Hstep as (nuc & Hname & Hbuilt & Hn1 & Hd1 & Hr1 & Hl1).
    rewrite (imap_ext _ (fun n e => (length (nuclides c1) + n, e))) in Hf.
    2: { intros i x _. simpl. rewrite Hn1, length_app. simpl. f_equal. lia. }
    apply IH in Hf as (nucs & Hn & Hall & Hb & Hnames' & Hrs' & Hlen).
    + exists (nuc :: nucs). rewrite Hn, Hn1, <- app_assoc. simpl.
      split; [reflexivity|]. split; [congruence|]. split; [constructor; assumption|].
      split; [assumption|]. split; [assumption|]. lia.
    + pose proof (names_last_append c nuc (chain_reactions c1) Hnames) as Hnl.
      rewrite Hname, <- Hn1, <- Hd1 in Hnl. destruct c1. exact Hnl.
    + destruct Hrs as [Hnd Hmem].
      destruct (append_new_fold (map r_type (reactions nuc)) (chain_reactions c) Hnd)
        as [Hnd' Hmem'].
      split; [rewrite Hr1; exact Hnd'|]. intros r. rewrite Hr1, Hmem', Hmem, Hn1. split.
      * intros [(n0 & rx & Hn0 & Hrx & Hr)|Hr].
        -- exists n0, rx. rewrite elem_of_app. auto.
        -- apply list_elem_of_fmap in Hr as (rx & -> & Hrx).
           exists nuc, rx. rewrite elem_of_app, list_elem_of_singleton. auto.
      * intros (n0 & rx & Hn0 & Hrx & Hr). apply elem_of_app in Hn0 as [Hn0|Hn0].
        -- left. eauto.
        -- apply list_elem_of_singleton in Hn0 as ->. right.
           apply list_elem_of_fmap. eauto.
Qed.

(** What [from_endf] returns: one nuclide for each key of the decay
    data, in the order of their (Z, A, state). *)
Lemma from_endf_built fuel rx_data (dd : odict (Decay F)) fpy_data (c : Chain F) log :
  from_endf fuel rx_data dd fpy_data = Some (Ok (c, log)) ->
  sorted_by_zam (od_keys dd) = Ok (map name (nuclides c)) /\
  Forall (built fuel rx_data dd fpy_data) (nuclides c) /\
  names_last c /\ reactions_listed c /\
  length (yield_energies log) = length (nuclides c).
Proof.
  unfold from_endf. destruct (sorted_by_zam (od_keys dd)) as [parents|e]; [|discriminate].
  intros Hf.
  destruct (from_endf_loop fuel rx_data dd fpy_data parents (mkChain [] [] ∅)
              (mkLog [] [] [] []) c log) as (nucs & Hn & Hp & Hb & Hnames & Hrs & Hlen).
  - exact Hf.
  - apply names_last_empty.
  - split; [constructor|]. intros r. simpl. split; [intros Hr; inversion Hr|].
    intros (nuc & rx & Hn & _). inversion Hn.
  - simpl in Hn, Hlen. rewrite Hn. split; [congruence|]. split; [exact Hb|].
    split; [exact Hnames|]. split; [exact Hrs|]. rewrite Hlen, <- Hp, length_map. reflexivity.
Qed.

(** The chain [from_endf] returns has one nuclide for each key of the
    decay data, under that name, in the order of their (Z, A, state);
    its index is the dict of these names to their positions, so that no
    two names share a position; and every nuclide has its slot for
    [yield_energies]. *)
Theorem from_endf_index fuel rx_data (dd : odict (Decay F)) fpy_data (c : Chain F) log :
  NoDup (od_keys dd) ->
  from_endf fuel rx_data dd fpy_data = Some (Ok (c, log)) ->
  map name (nuclides c) ≡ₚ od_keys dd /\
  zam_ordered (map name (nuclides c)) /\
  indexed c /\
  index_injective c /\
  length (yield_energies log) = chain_len c.
Proof.
  intros Hnd Hf. apply from_endf_built in Hf as (Hsort & _ & Hnames & _ & Hlen).
  apply sorted_by_zam_spec in Hsort as [Hperm Hord].
  split; [exact Hperm|]. split; [exact Hord|].
  assert (Hix : indexed c).
  { apply names_last_indexed; [exact Hnames|]. rewrite Hperm. exact Hnd. }
  split; [exact Hix|]. split; [apply indexed_injective; exact Hix|exact Hlen].
Qed.

(** The list of reactions of the chain [from_endf] returns names every
    reaction type once, and names exactly the types of the transitions of
    the nuclides of the chain. *)
Theorem from_endf_reactions_listed fuel rx_data (dd : odict (Decay F)) fpy_data
    (c : Chain F) log :
  from_endf fuel rx_data dd fpy_data = Some (Ok (c, log)) ->
  NoDup (chain_reactions c) /\
  forall r, r ∈ chain_reactions c <-> carries c r = true.
Proof.
  intros Hf. apply from_endf_built in Hf as (_ & _ & _ & Hrs & _).
  split; [apply Hrs|]. intros r. apply reactions_listed_carries. exact Hrs.
Qed.

End EndfFacts.

Section TransitionFacts.
Context {F : Type} {AF : Arith F} {ND : NuclearData}.

Lemma endf_tuple_elem (data : Decay F) (rx : gmap Z F) entry rxt :
  rxt ∈ endf_tuple data rx entry ->
  exists symbol,
    available rx entry.1.2 = true /\
    ATOMIC_SYMBOL !! (dk_atomic_number data + entry.2.2)%Z = Some symbol /\
    rxt = mkReaction entry.1.1 (TName (format2 symbol (dk_mass_number data + entry.2.1)%Z))
                     (first_q rx entry.1.2) f1.
Proof.
  destruct entry as [[nm mts] [dA dZ]]. simpl.
  destruct (available rx mts); [|intros Hin; inversion Hin].
  destruct (ATOMIC_SYMBOL !! (dk_atomic_number data + dZ)%Z) as [sym|];
    [|intros Hin; inversion Hin].
  intros Hin. apply list_elem_of_singleton in Hin as ->. eauto.
Qed.

Lemma endf_tuples_types (data : Decay F) (rx : gmap Z F) (entries : list (string * list Z * (Z * Z))) :
  map r_type (flat_map (endf_tuple data rx) entries)
    `sublist_of` map (fun e : string * list Z * (Z * Z) => e.1.1) entries.
Proof.
  induction entries as [|[[nm mts] [dA dZ]] entries IH]; simpl; [constructor|].
  destruct (available rx mts); [|apply sublist_cons; exact IH].
  destruct (ATOMIC_SYMBOL !! (dk_atomic_number data + dZ)%Z);
    [|apply sublist_cons; exact IH].
  simpl. apply sublist_skip. exact IH.
Qed.

Lemma endf_transitions_types rx_data has_fpy parent (data : Decay F) :
  map r_type (endf_transitions rx_data has_fpy parent data) `sublist_of` endf_reaction_types.
Proof.
  unfold endf_transitions, endf_reaction_types.
  destruct (rx_data !! parent) as [rx|]; [|apply sublist_nil_l].
  rewrite map_app. apply sublist_app; [apply endf_tuples_types|].
  unfold fission_tuple. destruct (available rx _ && has_fpy); [|apply sublist_nil_l].
  destruct (rx !! 18%Z); [reflexivity|apply sublist_nil_l].
Qed.

Lemma endf_transitions_elem rx_data has_fpy parent (data : Decay F) rxt :
  rxt ∈ endf_transitions rx_data has_fpy parent data ->
  exists rx,
    rx_data !! parent = Some rx /\
    ((exists entry symbol,
        entry ∈ REACTIONS /\ available rx entry.1.2 = true /\
        ATOMIC_SYMBOL !! (dk_atomic_number data + entry.2.2)%Z = Some symbol /\
        rxt = mkReaction entry.1.1
                (TName (format2 symbol (dk_mass_number data + entry.2.1)%Z))
                (first_q rx entry.1.2) f1) \/
     (exists q_value,
        has_fpy = true /\ rx !! 18%Z = Some q_value /\
        rxt = mkReaction "fission" TZero q_value f1)).
Proof.
  unfold endf_transitions. destruct (rx_data !! parent) as [rx|]; [|intros Hin; inversion Hin].
  intros Hin. exists rx. split; [reflexivity|].
  apply elem_of_app in Hin as [Hin|Hin].
  - left. apply list_elem_of_In, in_flat_map in Hin as (entry & He & Hin).
    apply list_elem_of_In, endf_tuple_elem in Hin as (sym & Hav & Hsym & ->).
    exists entry, sym. repeat split; auto. apply list_elem_of_In. exact He.
  - right. unfold fission_tuple in Hin.
    destruct (available rx _); simpl in Hin; [|inversion Hin].
    destruct has_fpy; [|inversion Hin].
    destruct (rx !! 18%Z) as [q|]; [|inversion Hin].
    apply list_elem_of_singleton in Hin as ->. eauto.
Qed.

Lemma built_at fuel rx_data (dd : odict (Decay F)) fpy_data (c : Chain F) log nuc :
  from_endf fuel rx_data dd fpy_data = Some (Ok (c, log)) ->
  nuc ∈ nuclides c -> built fuel rx_data dd fpy_data nuc.
Proof.
  intros Hf Hin. apply from_endf_built in Hf as (_ & Hb & _).
  rewrite Forall_forall in Hb. apply Hb. exact Hin.
Qed.

(** Every nuclide of the chain [from_endf] returns has at most one
    transition of each type, in the order (n,2n), (n,3n), (n,4n),
    (n,gamma), (n,p), (n,a), fission, and every transition has the
    branching ratio 1.0. *)
Theorem from_endf_transitions fuel rx_data (dd : odict (Decay F)) fpy_data
    (c : Chain F) log nuc :
  from_endf fuel rx_data dd fpy_data = Some (Ok (c, log)) ->
  nuc ∈ nuclides c ->
  map r_type (reactions nuc) `sublist_of` endf_reaction_types /\
  NoDup (map r_type (reactions nuc)) /\
  forall rxt, rxt ∈ reactions nuc -> r_branching_ratio rxt = f1.
Proof.
  intros Hf Hin.
  destruct (built_at _ _ _ _ _ _ _ Hf Hin) as (data & n0 & _ & _ & _ & _ & _ & Hrs & _).
  rewrite Hrs.
  pose proof (endf_transitions_types rx_data (bool_decide (is_Some (fpy_data !! name nuc)))
                (name nuc) data) as Hsub.
  split; [exact Hsub|]. split.
  - eapply sublist_NoDup; [|exact Hsub].
    apply (bool_decide_unpack _). vm_compute. reflexivity.
  - intros rxt Hrxt.
    apply endf_transitions_elem in Hrxt as (rx & _ & [(e & s & _ & _ & _ & ->)|(q & _ & _ & ->)]);
      reflexivity.
Qed.

Lemma ascending_tail (pre post : list Z) mt :
  StronglySorted Z.lt (pre ++ mt :: post) -> forall mt', mt' ∈ post -> (mt < mt')%Z.
Proof.
  intros Hs mt' Hin. apply StronglySorted_app in Hs as (_ & _ & Hs).
  apply StronglySorted_cons in Hs as [Hall _]. rewrite Forall_forall in Hall. auto.
Qed.

Lemma REACTIONS_ascending :
  Forall (fun e : string * list Z * (Z * Z) => StronglySorted Z.lt e.1.2) REACTIONS.
Proof. apply (bool_decide_unpack _). vm_compute. reflexivity. Qed.

(** The transitions of a nuclide of the chain [from_endf] returns.  A
    transition other than fission belongs to an entry of [_REACTIONS];
    its target is the nuclide with the mass and atomic numbers of the
    nuclide changed as the entry says, and its Q value is the one the
    evaluation has for the smallest MT of the entry that the evaluation
    has at all (so 0.0, the value of the loop that finds none, is never
    used).  The fission transition has the target 0 and the Q value of
    MT 18. *)
Theorem from_endf_q_values fuel rx_data (dd : odict (Decay F)) fpy_data
    (c : Chain F) log nuc rxt :
  from_endf fuel rx_data dd fpy_data = Some (Ok (c, log)) ->
  nuc ∈ nuclides c ->
  rxt ∈ reactions nuc ->
  exists data rx,
    od_get dd (name nuc) = Some data /\ rx_data !! name nuc = Some rx /\
    ((r_type rxt = "fission" /\ r_target rxt = TZero /\ rx !! 18%Z = Some (r_Q rxt) /\
      is_Some (fpy_data !! name nuc)) \/
     (exists mts delta_A delta_Z symbol mt,
        (r_type rxt, mts, (delta_A, delta_Z)) ∈ REACTIONS /\
        ATOMIC_SYMBOL !! (dk_atomic_number data + delta_Z)%Z = Some symbol /\
        r_target rxt = TName (format2 symbol (dk_mass_number data + delta_A)%Z) /\
        mt ∈ mts /\ rx !! mt = Some (r_Q rxt) /\
        forall mt', mt' ∈ mts -> is_Some (rx !! mt') -> (mt <= mt')%Z)).
Proof.
  intros Hf Hin Hrxt.
  destruct (built_at _ _ _ _ _ _ _ Hf Hin) as (data & n0 & Hdata & _ & _ & _ & _ & Hrs & _).
  rewrite Hrs in Hrxt.
  apply endf_transitions_elem in Hrxt
    as (rx & Hrx & [(e & sym & He & Hav & Hsym & ->)|(q & Hfpy & Hq & ->)]).
  - exists data, rx. split; [exact Hdata|]. split; [exact Hrx|]. right.
    destruct e as [[nm mts] [dA dZ]]. simpl in *.
    destruct (first_q_spec rx mts Hav) as (pre & mt & post & Hmts & Hq & Hpre).
    exists mts, dA, dZ, sym, mt. split; [exact He|]. split; [exact Hsym|].
    split; [reflexivity|]. split; [rewrite Hmts, elem_of_app, elem_of_cons; auto|].
    split; [exact Hq|].
    intros mt' Hmt' [q' Hq'].
    pose proof REACTIONS_ascending as Hasc. rewrite Forall_forall in Hasc.
    specialize (Hasc _ He). simpl in Hasc. rewrite Hmts in Hasc, Hmt'.
    apply elem_of_app in Hmt' as [Hmt'|Hmt'].
    + rewrite (Hpre mt' Hmt') in Hq'. discriminate.
    + apply elem_of_cons in Hmt' as [->|Hmt']; [lia|].
      pose proof (ascending_tail pre post mt Hasc mt' Hmt'). lia.
  - exists data, rx. split; [exact Hdata|]. split; [exact Hrx|]. left.
    repeat split; auto. apply bool_decide_eq_true in Hfpy. exact Hfpy.
Qed.

(** A chain fresh from [from_endf] has no branching ratios to report:
    [get_branch_ratios] returns the empty dict for every reaction (in an
    arithmetic where 1.0 == 1.0). *)
Theorem from_endf_no_branch_ratios fuel rx_data (dd : odict (Decay F)) fpy_data
    (c : Chain F) log reaction :
  feqb (f1 : F) f1 = true ->
  from_endf fuel rx_data dd fpy_data = Some (Ok (c, log)) ->
  get_branch_ratios c reaction = [].
Proof.
  intros Hone Hf. unfold get_branch_ratios.
  assert (Hnone : forall nuc, nuc ∈ nuclides c -> nuc_capt_of reaction nuc = []).
  { intros nuc Hin.
    destruct (built_at _ _ _ _ _ _ _ Hf Hin) as (data & n0 & _ & _ & _ & _ & _ & Hrs & _).
    unfold nuc_capt_of.
    assert (Hall : forall rxt, rxt ∈ reactions nuc -> r_branching_ratio rxt = f1).
    { intros rxt Hrxt. rewrite Hrs in Hrxt.
      apply endf_transitions_elem in Hrxt
        as (rx & _ & [(e & s & _ & _ & _ & ->)|(q & _ & _ & ->)]); reflexivity. }
    clear Hrs. induction (reactions nuc) as [|rxt rxs IH]; [reflexivity|]. simpl.
    unfold capt_step at 2. rewrite (Hall rxt) by left. unfold fneb. rewrite Hone, andb_false_r.
    apply IH. intros r Hr. apply Hall. right. exact Hr. }
  induction (nuclides c) as [|nuc nucs IH]; [reflexivity|]. simpl.
  rewrite (Hnone nuc) by left. simpl. apply IH. intros n Hn. apply Hnone. right. exact Hn.
Qed.

(** *** A fissionable nuclide without MT 18 *)

Lemma fuel_foldM_elem {A B} (f : A -> B -> option (result A)) (l : list B) :
  forall a a' b,
    fuel_foldM f a l = Some (Ok a') -> b ∈ l ->
    exists a1 a2, f a1 b = Some (Ok a2).
Proof.
  induction l as [|x l IH]; intros a a' b Hf Hin; [inversion Hin|].
  simpl in Hf. apply fuel_bind_ok in Hf as (a1 & Hx & Hf).
  apply elem_of_cons in Hin as [->|Hin]; [eauto|]. eapply IH; eauto.
Qed.

(** [from_endf] never returns a chain when the decay data hold a nuclide
    with fission yields whose neutron evaluation has one of the MT
    numbers 19, 20, 21 and 38 but not MT 18: the Q value of fission is
    read from MT 18 alone. *)
Theorem from_endf_needs_mt18 fuel rx_data (dd : odict (Decay F)) fpy_data parent rx :
  parent ∈ od_keys dd ->
  rx_data !! parent = Some rx ->
  is_Some (fpy_data !! parent) ->
  available rx [19; 20; 21; 38]%Z = true ->
  rx !! 18%Z = None ->
  forall r, from_endf fuel rx_data dd fpy_data <> Some (Ok r).
Proof.
  intros Hkey Hrx Hfpy Hav H18 [c log] Hf. unfold from_endf in Hf.
  destruct (sorted_by_zam (od_keys dd)) as [parents|e] eqn:Hsort; [|discriminate].
  apply sorted_by_zam_spec in Hsort as [Hperm _].
  assert (Hin : parent ∈ parents) by (rewrite Hperm; exact Hkey).
  apply list_elem_of_lookup in Hin as [i Hi].
  assert (Hpair : (i, parent) ∈ imap pair parents).
  { apply elem_of_lookup_imap. eauto. }
  destruct (fuel_foldM_elem _ _ _ _ _ Hf Hpair) as ([c1 log1] & [c2 log2] & Hstep).
  unfold from_endf_nuclide in Hstep.
  destruct (od_get dd parent) as [data|]; [|discriminate].
  apply fuel_bind_ok in Hstep as (n0 & _ & Hstep).
  apply fuel_bind_ok in Hstep as ([[[rs crs] mrx] mfy] & Hblock & _).
  injection Hblock as Hblock. unfold from_endf_reactions in Hblock. rewrite Hrx in Hblock.
  apply bind_ok in Hblock as ([[rs1 crs1] m1] & _ & Hblock).
  apply bind_ok in Hblock as ([[rs2 crs2] m2] & Hfis & _).
  unfold endf_fission in Hfis. rewrite (bool_decide_eq_true_2 _ Hfpy) in Hfis.
  assert (Hall : available rx [18; 19; 20; 21; 38]%Z = true).
  { unfold available in *. simpl in *. rewrite Hav. apply orb_true_r. }
  rewrite Hall, H18 in Hfis. discriminate.
Qed.

End TransitionFacts.

(** *** The yield block *)

Lemma fuel_foldM_inv {A B} (P : A -> Prop) (f : A -> B -> option (result A)) (l : list B) :
  (forall a b a', b ∈ l -> P a -> f a b = Some (Ok a') -> P a') ->
  forall a a', P a -> fuel_foldM f a l = Some (Ok a') -> P a'.
Proof.
  induction l as [|b l IH]; intros Hstep a a' Ha Hf; simpl in Hf.
  - injection Hf as <-. exact Ha.
  - apply fuel_bind_ok in Hf as (a1 & Hb & Hf).
    eapply IH; [| |exact Hf].
    + intros a0 b0 a0' Hin. apply Hstep. right. exact Hin.
    + eapply Hstep; [left|exact Ha|exact Hb].
Qed.

Lemma names_last_contains {F} (c : Chain F) nuc :
  names_last c -> nuc ∈ nuclides c -> chain_contains c (name nuc) = true.
Proof.
  intros Hinv Hin. unfold chain_contains. apply bool_decide_eq_true.
  assert (Hlast : exists i nuc', nuclides c !! i = Some nuc' /\ name nuc' = name nuc /\
            forall j nuc'', nuclides c !! j = Some nuc'' -> name nuc'' = name nuc -> j <= i).
  { clear Hinv. induction (nuclides c) as [|x l IH] using rev_ind; [inversion Hin|].
    destruct (decide (name x = name nuc)) as [E|E].
    - exists (length l), x. split; [rewrite lookup_app_r, Nat.sub_diag by lia; reflexivity|].
      split; [exact E|]. intros j n Hj _. apply lookup_lt_Some in Hj.
      rewrite length_app in Hj. simpl in Hj. lia.
    - apply elem_of_app in Hin as [Hin|Hin].
      + destruct (IH Hin) as (i & n & Hi & Hn & Hmax). exists i, n.
        split; [rewrite lookup_app_l by (eapply lookup_lt_Some; exact Hi); exact Hi|].
        split; [exact Hn|]. intros j n' Hj Hn'.
        destruct (decide (j < length l)) as [Hlt|Hge].
        * rewrite lookup_app_l in Hj by exact Hlt. eauto.
        * rewrite lookup_app_r in Hj by lia.
          destruct (j - length l); simpl in Hj; [|discriminate].
          injection Hj as <-. contradiction.
      + apply list_elem_of_singleton in Hin as ->. contradiction. }
  destruct Hlast as (i & nuc' & Hi & Hn & Hmax). exists i. apply Hinv. split; eauto.
Qed.

Section YieldFacts.
Context {F : Type} {AF : Arith F} {ND : NuclearData}.

Lemma replace_missing_known fuel product (dd : odict (Decay F)) r :
  replace_missing fuel product dd = Some (Ok r) -> od_mem dd r = true \/ r = "H1".
Proof.
  unfold replace_missing. destruct (zam product) as [[[z a] state]|e]; [|discriminate].
  destruct (ATOMIC_SYMBOL !! z) as [symbol|]; [|discriminate].
  destruct ((z =? 0) && (a =? 1))%Z; [intros [= <-]; auto|].
  destruct (scan_isotopes symbol dd None f0) as [mass|]; [|discriminate].
  intros Hs. left. eapply search_member. exact Hs.
Qed.

Lemma od_add_keys (d : odict F) k y x :
  x ∈ od_keys (od_add d k y) <-> x ∈ od_keys d \/ x = k.
Proof.
  induction d as [|[k' v] d IH]; simpl.
  - rewrite list_elem_of_singleton. split; [auto|]. intros [H|H]; [inversion H|exact H].
  - destruct (String.eqb k' k) eqn:E; simpl.
    + apply String.eqb_eq in E as ->. rewrite !elem_of_cons. tauto.
    + rewrite !elem_of_cons, IH. tauto.
Qed.

Lemma od_add_nodup (d : odict F) k y : NoDup (od_keys d) -> NoDup (od_keys (od_add d k y)).
Proof.
  induction d as [|[k' v] d IH]; simpl; intros Hnd.
  - apply NoDup_singleton.
  - apply NoDup_cons in Hnd as [Hk Hnd].
    destruct (String.eqb k' k) eqn:E; simpl.
    + apply NoDup_cons. auto.
    + apply NoDup_cons. split; [|auto].
      rewrite od_add_keys. intros [Hin| ->]; [contradiction|].
      rewrite String.eqb_refl in E. discriminate.
Qed.

(** The products collected from one table are pairwise different, and
    each is a key of the decay data or the proton. *)
Lemma yield_steps_known fuel (dd : odict (Decay F)) table :
  forall st st',
    fuel_foldM (yield_step fuel dd) st table = Some (Ok st') ->
    NoDup (od_keys st.2) ->
    (forall k, k ∈ od_keys st.2 -> od_mem dd k = true \/ k = "H1") ->
    NoDup (od_keys st'.2) /\
    (forall k, k ∈ od_keys st'.2 -> od_mem dd k = true \/ k = "H1").
Proof.
  intros st st' Hf Hnd Hk.
  apply (fuel_foldM_inv
           (fun st : F * odict F =>
              NoDup (od_keys st.2) /\
              forall k, k ∈ od_keys st.2 -> od_mem dd k = true \/ k = "H1")
           (yield_step fuel dd) table) with (a := st); auto.
  clear. intros [yr ys] [product y] [yr' ys'] _ [Hnd Hk] Hstep. simpl in *.
  destruct (od_mem dd product) eqn:E.
  - injection Hstep as <- <-. split; [apply od_add_nodup; exact Hnd|].
    intros k Hin. apply od_add_keys in Hin as [Hin| ->]; auto.
  - apply fuel_bind_ok in Hstep as (daughter & Hr & Hstep). injection Hstep as <- <-.
    split; [apply od_add_nodup; exact Hnd|].
    intros k Hin. apply od_add_keys in Hin as [Hin| ->]; [auto|].
    eapply replace_missing_known. exact Hr.
Qed.

Lemma yd_set_elem (d : list (F * list (string * F))) E v E' v' :
  (E', v') ∈ yd_set d E v -> (E', v') ∈ d \/ v' = v.
Proof.
  induction d as [|[E0 v0] d IH]; simpl; intros Hin.
  - apply list_elem_of_singleton in Hin as [= -> ->]. auto.
  - destruct (feqb E0 E).
    + apply elem_of_cons in Hin as [[= -> ->]|Hin]; [auto|]. left. right. exact Hin.
    + apply elem_of_cons in Hin as [Hin|Hin]; [left; rewrite Hin; left|].
      apply IH in Hin as [Hin|Hin]; [left; right|right]; auto.
Qed.

(** What one turn of the loop over the energies stores. *)
Lemma yield_table_stores fuel (dd : odict (Decay F)) parent yd missing E table yd' missing' :
  yield_table fuel dd parent (yd, missing) (E, table) = Some (Ok (yd', missing')) ->
  exists yield_replace yields ks,
    fuel_foldM (yield_step fuel dd) (f0, []) table = Some (Ok (yield_replace, yields)) /\
    sorted_by_zam (od_keys yields) = Ok ks /\
    yd' = yd_set yd E (map (fun k => (k, default f0 (od_get yields k))) ks).
Proof.
  unfold yield_table. intros Ht.
  apply fuel_bind_ok in Ht as ([yr ys] & Hfold & Ht).
  destruct (sorted_by_zam (od_keys ys)) as [ks|e] eqn:Hs; [|discriminate].
  injection Ht as <- _. exists yr, ys, ks. split; [exact Hfold|]. split; [exact Hs|reflexivity].
Qed.

(** The lists [from_endf_yields] leaves in [yield_data] come from the
    tables of the evaluation. *)
Lemma from_endf_yields_items fuel (dd : odict (Decay F)) parent fpy missing es yd missing' E items :
  from_endf_yields fuel dd parent fpy [] missing = Some (Ok (es, yd, missing')) ->
  (E, items) ∈ yd ->
  exists table yield_replace yields ks,
    table ∈ fpy_independent fpy /\
    fuel_foldM (yield_step fuel dd) (f0, []) table = Some (Ok (yield_replace, yields)) /\
    sorted_by_zam (od_keys yields) = Ok ks /\
    items = map (fun k => (k, default f0 (od_get yields k))) ks.
Proof.
  unfold from_endf_yields. intros Hy Hin.
  apply fuel_bind_ok in Hy as ([yd1 m1] & Hfold & Hy). injection Hy as _ <- _.
  revert Hin.
  refine (fuel_foldM_inv
           (fun st : list (F * list (string * F)) * list (string * F * F) =>
              (E, items) ∈ st.1 ->
              exists table yield_replace yields ks,
                table ∈ fpy_independent fpy /\
                fuel_foldM (yield_step fuel dd) (f0, []) table
                  = Some (Ok (yield_replace, yields)) /\
                sorted_by_zam (od_keys yields) = Ok ks /\
                items = map (fun k => (k, default f0 (od_get yields k))) ks)
           (yield_table fuel dd parent) _ _ ([], missing) (yd1, m1) _ Hfold).
  - intros [yd0 m0] [E0 table] [yd' m'] Hzip IH Hstep Hin. simpl in *.
    apply yield_table_stores in Hstep as (yr & ys & ks & Hsteps & Hsort & ->).
    apply yd_set_elem in Hin as [Hin| ->]; [auto|].
    exists table, yr, ys, ks. repeat split; auto.
    apply elem_of_zip_r in Hzip. exact Hzip.
  - intros Hin. inversion Hin.
Qed.

Lemma keyed_items_fst (yields : odict F) (ks : list string) :
  map fst (map (fun k => (k, default f0 (od_get yields k))) ks) = ks.
Proof. rewrite map_map. simpl. apply map_id. Qed.

(** Every list of fission yields in the chain [from_endf] returns names
    pairwise different products, in the order of their (Z, A, state);
    every product is a nuclide of the chain, unless it is the proton
    ['H1'] that stands for a neutron. *)
Theorem from_endf_yield_products fuel rx_data (dd : odict (Decay F)) fpy_data
    (c : Chain F) log nuc E items :
  from_endf fuel rx_data dd fpy_data = Some (Ok (c, log)) ->
  nuc ∈ nuclides c ->
  (E, items) ∈ yield_data nuc ->
  NoDup (map fst items) /\
  zam_ordered (map fst items) /\
  forall k y, (k, y) ∈ items -> chain_contains c k = true \/ k = "H1".
Proof.
  intros Hf Hin Hitems.
  destruct (built_at _ _ _ _ _ _ _ Hf Hin) as (data & n0 & _ & _ & _ & _ & _ & _ & Hy).
  apply from_endf_built in Hf as (Hsorted & _ & Hnames & _).
  apply sorted_by_zam_spec in Hsorted as [Hperm _].
  destruct (fpy_data !! name nuc) as [fpy|]; [|rewrite Hy in Hitems; inversion Hitems].
  destruct Hy as (m & es & m' & Hy).
  destruct (from_endf_yields_items _ _ _ _ _ _ _ _ _ _ Hy Hitems)
    as (table & yr & ys & ks & _ & Hfold & Hsort & ->).
  apply yield_steps_known in Hfold as [Hnd Hk]; simpl;
    [|constructor|intros k Hk; inversion Hk].
  apply sorted_by_zam_spec in Hsort as [Hp Hord].
  rewrite keyed_items_fst. split; [rewrite Hp; exact Hnd|]. split; [exact Hord|].
  intros k y Hky. apply list_elem_of_fmap in Hky as (k' & [= -> ->] & Hk').
  rewrite Hp in Hk'. destruct (Hk k' Hk') as [Hmem|Hh1]; [left|right; exact Hh1].
  assert (Hkey : k' ∈ od_keys dd).
  { apply od_get_is_key. unfold od_mem in Hmem. destruct (od_get dd k'); [eauto|discriminate]. }
  rewrite <- Hperm in Hkey. apply list_elem_of_fmap in Hkey as (n & -> & Hn).
  apply names_last_contains; assumption.
Qed.

End YieldFacts.

(** *** What a stored yield adds up *)

Section YieldSums.
Context {F : Type} {AF : Arith F} {ND : NuclearData}.

Lemma od_add_same (d : odict F) k (y : F) :
  od_get (od_add d k y) k = Some (fadd (default f0 (od_get d k)) y).
Proof.
  induction d as [|[k' v] d IH]; simpl.
  - rewrite String.eqb_refl. reflexivity.
  - destruct (String.eqb k' k) eqn:E; simpl; rewrite E; [reflexivity|exact IH].
Qed.

Lemma od_add_other (d : odict F) k (y : F) k' :
  k' <> k -> od_get (od_add d k y) k' = od_get d k'.
Proof.
  intros Hne. induction d as [|[k0 v] d IH]; simpl.
  - destruct (String.eqb k k') eqn:E; [|reflexivity].
    apply String.eqb_eq in E. congruence.
  - destruct (String.eqb k0 k) eqn:E; simpl.
    + apply String.eqb_eq in E as ->.
      destruct (String.eqb k k') eqn:E'; [|reflexivity].
      apply String.eqb_eq in E'. congruence.
    + destruct (String.eqb k0 k'); [reflexivity|exact IH].
Qed.

Lemma yield_step_stores fuel (dd : odict (Decay F)) yr ys product y yr' ys' :
  yield_step fuel dd (yr, ys) (product, y) = Some (Ok (yr', ys')) ->
  exists k, stored_under fuel dd product = Some k /\ ys' = od_add ys k y.
Proof.
  unfold yield_step, stored_under. destruct (od_mem dd product).
  - intros [= _ <-]. eauto.
  - destruct (replace_missing fuel product dd) as [[daughter|e]|]; simpl; try discriminate.
    intros [= _ <-]. eauto.
Qed.

Lemma yield_steps_sums fuel (dd : odict (Decay F)) table :
  forall st st',
    fuel_foldM (yield_step fuel dd) st table = Some (Ok st') ->
    (forall k, default f0 (od_get st'.2 k)
               = fold_left fadd (yields_of fuel dd table k) (default f0 (od_get st.2 k))) /\
    (forall k, is_Some (od_get st'.2 k) <->
               is_Some (od_get st.2 k) \/ yields_of fuel dd table k <> []) /\
    (forall product y, (product, y) ∈ table ->
                       exists k, stored_under fuel dd product = Some k).
Proof.
  induction table as [|[product y] table IH]; intros [yr ys] [yr' ys'] Hf; simpl in Hf.
  - injection Hf as <- <-. simpl. split; [reflexivity|]. split.
    + intros k. split; [auto|]. intros [Hk|Hk]; [exact Hk|contradiction].
    + intros p y Hin. inversion Hin.
  - apply fuel_bind_ok in Hf as ([yr1 ys1] & Hstep & Hf).
    apply yield_step_stores in Hstep as (k0 & Hk0 & ->).
    apply IH in Hf as (Hsum & Hkeys & Hall). simpl in *.
    assert (Hhead : forall k,
              yields_of fuel dd ((product, y) :: table) k =
              if bool_decide (k0 = k) then y :: yields_of fuel dd table k
              else yields_of fuel dd table k).
    { intros k. unfold yields_of. simpl. rewrite Hk0.
      destruct (decide (k0 = k)) as [->|Hne].
      - rewrite !bool_decide_eq_true_2 by reflexivity. reflexivity.
      - rewrite (bool_decide_eq_false_2 (Some k0 = Some k)) by congruence.
        rewrite (bool_decide_eq_false_2 (k0 = k)) by exact Hne. reflexivity. }
    split; [|split].
    + intros k. rewrite Hsum, Hhead. destruct (decide (k0 = k)) as [->|Hne].
      * rewrite bool_decide_eq_true_2 by reflexivity. rewrite od_add_same. reflexivity.
      * rewrite bool_decide_eq_false_2 by exact Hne.
        rewrite od_add_other by congruence. reflexivity.
    + intros k. rewrite Hkeys, Hhead. destruct (decide (k0 = k)) as [->|Hne].
      * rewrite bool_decide_eq_true_2 by reflexivity. rewrite od_add_same.
        split; [intros _; right; discriminate|intros _; left; eauto].
      * rewrite bool_decide_eq_false_2 by exact Hne.
        rewrite od_add_other by congruence. reflexivity.
    + intros p y' Hin. apply elem_of_cons in Hin as [[= -> ->]|Hin]; [eauto|].
      eapply Hall. exact Hin.
Qed.

(** Every list of fission yields in the chain [from_endf] returns comes
    from one table of the evaluation of the nuclide: the yield stored
    for a product is the sum, from 0.0 and in the order of the table, of
    the yields of the entries of the table that are stored under that
    product (their own name when the decay data hold it, else the name
    [replace_missing] returns), there is at least one such entry, and
    every entry of the table is stored under a product of the list. *)
Theorem from_endf_yields_sums fuel rx_data (dd : odict (Decay F)) fpy_data
    (c : Chain F) log nuc E items :
  from_endf fuel rx_data dd fpy_data = Some (Ok (c, log)) ->
  nuc ∈ nuclides c ->
  (E, items) ∈ yield_data nuc ->
  exists fpy table,
    fpy_data !! name nuc = Some fpy /\ table ∈ fpy_independent fpy /\
    (forall k y, (k, y) ∈ items ->
       yields_of fuel dd table k <> [] /\ y = fsum (yields_of fuel dd table k)) /\
    (forall product y, (product, y) ∈ table ->
       exists k, stored_under fuel dd product = Some k /\ k ∈ map fst items).
Proof.
  intros Hf Hin Hitems.
  destruct (built_at _ _ _ _ _ _ _ Hf Hin) as (data & n0 & _ & _ & _ & _ & _ & _ & Hy).
  destruct (fpy_data !! name nuc) as [fpy|]; [|rewrite Hy in Hitems; inversion Hitems].
  destruct Hy as (m & es & m' & Hy).
  destruct (from_endf_yields_items _ _ _ _ _ _ _ _ _ _ Hy Hitems)
    as (table & yr & ys & ks & Htable & Hfold & Hsort & ->).
  exists fpy, table. split; [reflexivity|]. split; [exact Htable|].
  apply yield_steps_sums in Hfold as (Hsum & Hkeys & Hall). simpl in *.
  apply sorted_by_zam_spec in Hsort as [Hp _].
  split.
  - intros k y Hky. apply list_elem_of_fmap in Hky as (k' & [= -> ->] & Hk').
    rewrite Hp in Hk'. apply od_get_is_key, Hkeys in Hk' as [[v Hv]|Hne]; [discriminate|].
    split; [exact Hne|]. rewrite Hsum. reflexivity.
  - intros product y Hin'. destruct (Hall product y Hin') as [k Hk]. exists k.
    split; [exact Hk|]. rewrite keyed_items_fst, Hp. apply od_get_is_key, Hkeys. right.
    unfold yields_of. intros Hnil.
    assert (Hy' : y ∈ map snd (List.filter
                (fun py : string * F => bool_decide (stored_under fuel dd py.1 = Some k)) table)).
    { apply list_elem_of_fmap. exists (product, y). split; [reflexivity|].
      apply list_elem_of_In, filter_In. split; [apply list_elem_of_In; exact Hin'|].
      simpl. apply bool_decide_eq_true. exact Hk. }
    rewrite Hnil in Hy'. inversion Hy'.
Qed.

End YieldSums.

(** ** More on [Chain.form_matrix] *)

Lemma foldM_total {A B} (f : A -> B -> result A) (l : list B) :
  (forall a b, b ∈ l -> exists a', f a b = Ok a') ->
  forall a, exists a', foldM f a l = Ok a'.
Proof.
  induction l as [|b l IH]; intros Hf a; simpl; [eauto|].
  destruct (Hf a b) as [a1 H1]; [left|]. rewrite H1. simpl.
  apply IH. intros a0 b0 Hin. apply Hf. right. exact Hin.
Qed.

Section MatrixReady.
Context {F : Type} {AF : Arith F}.
Variable log2 : F.

Lemma chain_contains_getitem (c : Chain F) n :
  chain_contains c n = true -> exists k, getitem (nuclide_dict c) n = Ok k.
Proof.
  unfold chain_contains, getitem. intros Hc. apply bool_decide_eq_true in Hc as [k Hk].
  rewrite Hk. eauto.
Qed.

Lemma decay_terms_total (c : Chain F) i nuc m :
  decay_ready c nuc = true -> exists m', decay_terms log2 c i nuc m = Ok m'.
Proof.
  unfold decay_ready, decay_terms. intros Hr.
  destruct (n_decay_modes nuc =? 0); simpl in *; [eauto|].
  apply andb_true_iff in Hr as [Hhl Hmodes].
  destruct (half_life nuc) as [hl|]; [|discriminate].
  apply negb_true_iff in Hhl. rewrite Hhl.
  apply foldM_total. intros a mode Hin. unfold decay_gain.
  rewrite forallb_forall in Hmodes. apply list_elem_of_In, Hmodes in Hin.
  destruct (String.eqb (d_target mode) "Nothing"); simpl in *; [eauto|].
  destruct (fneb _ f0); [|eauto].
  destruct (chain_contains_getitem c _ Hin) as [k ->]. simpl. eauto.
Qed.

Lemma reaction_term_total (c : Chain F) rates i nuc nuc_rates st rx :
  reaction_ready c rates nuc_rates nuc rx = true ->
  exists st', reaction_term c rates i nuc nuc_rates st rx = Ok st'.
Proof.
  unfold reaction_ready, reaction_term, getitem. intros Hr.
  destruct (index_rx rates !! r_type rx) as [r_id|]; [|discriminate]. simpl.
  apply andb_true_iff in Hr as [Hid Hr]. apply Nat.ltb_lt in Hid.
  unfold nth_item. destruct (lookup_lt_is_Some_2 nuc_rates r_id Hid) as [p ->]. simpl.
  assert (Hg : exists m', reaction_gain c i nuc rx p (reaction_loss i rx p st).1 = Ok m').
  { unfold reaction_gain. generalize ((reaction_loss i rx p st).1). intros m.
    destruct (target_is_nothing (r_target rx)); simpl in *; [eauto|].
    destruct (String.eqb (r_type rx) "fission"); simpl.
    - apply andb_true_iff in Hr as [Hne Hall].
      unfold fission_gain, nth_item.
      destruct (sorted_items (yield_data nuc) !! 0) as [[energy data]|] eqn:E.
      + simpl. apply foldM_total. intros a [product y] Hin. unfold yield_gain. simpl.
        destruct (fneb _ f0); [|eauto].
        assert (Hed : (energy, data) ∈ yield_data nuc).
        { apply sorted_items_elem. eapply list_elem_of_lookup_2. exact E. }
        rewrite forallb_forall in Hall. apply list_elem_of_In, Hall in Hed. simpl in Hed.
        rewrite forallb_forall in Hed. apply list_elem_of_In, Hed in Hin. simpl in Hin.
        destruct (chain_contains_getitem c _ Hin) as [k ->]. simpl. eauto.
      + exfalso. rewrite <- head_lookup in E.
        destruct (yield_data nuc) as [|x l] eqn:Ey; [discriminate|].
        destruct (sorted_items_nonempty (x :: l)) as [h Hh]; [discriminate|]. congruence.
    - destruct (fneb p f0); [|eauto].
      destruct (r_target rx) as [t| |]; try discriminate. simpl.
      destruct (chain_contains_getitem c _ Hr) as [k ->]. simpl. eauto. }
  destruct Hg as [m' ->]. simpl. eauto.
Qed.

Lemma reaction_terms_total (c : Chain F) rates i nuc m :
  reactions_ready c rates nuc = true -> exists m', reaction_terms c rates i nuc m = Ok m'.
Proof.
  unfold reactions_ready, reaction_terms. intros Hr.
  destruct (index_nuc rates !! name nuc) as [nuc_ind|]; [|eauto].
  unfold nth_item. destruct (rates_data rates !! nuc_ind) as [nuc_rates|]; [|discriminate].
  simpl.
  destruct (foldM_total (reaction_term c rates i nuc nuc_rates) (reactions nuc)) with (a := (m, (∅ : gset string)))
    as [st' Hst].
  - intros a rx Hin. apply reaction_term_total.
    rewrite forallb_forall in Hr. apply Hr, list_elem_of_In. exact Hin.
  - rewrite Hst. simpl. eauto.
Qed.

Lemma form_loop_total (c : Chain F) rates nucs :
  forallb (fun nuc => decay_ready c nuc && reactions_ready c rates nuc) nucs = true ->
  forall i m, exists m', form_loop log2 c rates i nucs m = Ok m'.
Proof.
  induction nucs as [|nuc nucs IH]; intros Hr i m; simpl; [eauto|].
  simpl in Hr. apply andb_true_iff in Hr as [Hnuc Hr].
  apply andb_true_iff in Hnuc as [Hd Hx].
  destruct (decay_terms_total c i nuc m Hd) as [m1 ->]. simpl.
  destruct (reaction_terms_total c rates i nuc m1 Hx) as [m2 ->]. simpl.
  apply IH. exact Hr.
Qed.

(** [form_matrix] returns a matrix, of the order of the chain, whenever
    the chain and the rate table hold what it reads: for every nuclide
    with decay modes a half-life that is set and not zero and decay
    targets that are in the chain; for every nuclide of the rate table
    its row, a column for each of its reaction types, and the targets of
    its transitions (the products of its yields, for fission, which needs
    a table of yields) in the chain. *)
Theorem form_matrix_returns (c : Chain F) (rates : ReactionRates F) :
  matrix_ready c rates = true ->
  exists M, form_matrix log2 c rates = Ok (chain_len c, M).
Proof.
  intros Hr. unfold form_matrix.
  destruct (form_loop_total c rates (nuclides c) Hr 0 ∅) as [m ->]. simpl. eauto.
Qed.

(** *** What a returned matrix tells about the chain *)

Lemma form_loop_each (c : Chain F) rates nucs :
  forall i m m',
    form_loop log2 c rates i nucs m = Ok m' ->
    forall j nuc, nucs !! j = Some nuc ->
      exists m1 m2 m3,
        decay_terms log2 c (i + j) nuc m1 = Ok m2 /\
        reaction_terms c rates (i + j) nuc m2 = Ok m3.
Proof.
  intros i m m' Hf j nuc Hj.
  apply list_elem_of_split_length in Hj as (pre & post & -> & ->).
  apply form_loop_split in Hf as (m1 & m2 & m3 & _ & Hd & Hr & _). eauto.
Qed.

(** [form_matrix] returns only when every nuclide with decay modes has a
    half-life that is set and not zero (it raises [TypeError] or
    [ZeroDivisionError] otherwise), and when every nuclide of the rate
    table has its row there and every reaction type of its transitions a
    column within that row. *)
Theorem form_matrix_needs (c : Chain F) (rates : ReactionRates F) n M :
  form_matrix log2 c rates = Ok (n, M) ->
  n = chain_len c /\
  forall nuc, nuc ∈ nuclides c ->
    (n_decay_modes nuc <> 0 ->
       exists hl, half_life nuc = Some hl /\ feqb hl f0 = false) /\
    (forall nuc_ind, index_nuc rates !! name nuc = Some nuc_ind ->
       exists nuc_rates,
         rates_data rates !! nuc_ind = Some nuc_rates /\
         forall rx, rx ∈ reactions nuc ->
           exists r_id p, index_rx rates !! r_type rx = Some r_id /\
                          nuc_rates !! r_id = Some p).
Proof.
  unfold form_matrix. intros Hf. apply bind_ok in Hf as (m & Hloop & Hf).
  injection Hf as <- <-. split; [reflexivity|].
  intros nuc Hin. apply list_elem_of_lookup in Hin as [j Hj].
  destruct (form_loop_each c rates _ _ _ _ Hloop j nuc Hj) as (m1 & m2 & m3 & Hd & Hr).
  split.
  - intros Hmodes. unfold decay_terms in Hd.
    apply Nat.eqb_neq in Hmodes. rewrite Hmodes in Hd. simpl in Hd.
    destruct (half_life nuc) as [hl|]; [|discriminate].
    destruct (feqb hl f0) eqn:E; [discriminate|]. eauto.
  - intros nuc_ind Hind. unfold reaction_terms in Hr. rewrite Hind in Hr.
    apply bind_ok in Hr as (nuc_rates & Hrow & Hr).
    apply bind_ok in Hr as (st & Hfold & _).
    unfold nth_item in Hrow.
    destruct (rates_data rates !! nuc_ind) as [row|]; [|discriminate].
    injection Hrow as ->. exists nuc_rates. split; [reflexivity|].
    clear Hd Hj Hloop Hind. revert Hfold. generalize (m2, (∅ : gset string)).
    induction (reactions nuc) as [|rx0 rxs IH]; intros st0 Hfold rx Hrx; [inversion Hrx|].
    simpl in Hfold. apply bind_ok in Hfold as (st1 & Hstep & Hfold).
    apply elem_of_cons in Hrx as [->|Hrx]; [|eauto].
    unfold reaction_term in Hstep.
    apply bind_ok in Hstep as (r_id & Hid & Hstep).
    apply bind_ok in Hstep as (p & Hp & _).
    unfold getitem in Hid. destruct (index_rx rates !! r_type rx0) as [r|]; [|discriminate].
    injection Hid as ->. unfold nth_item in Hp.
    destruct (nuc_rates !! r_id) as [q|] eqn:Eq; [|discriminate]. exists r_id, q. auto.
Qed.

(** *** Where the entries are *)

Lemma written_refl (c : Chain F) j m : written c j m m.
Proof. intros key Hk. auto. Qed.

Lemma written_trans (c : Chain F) j m1 m2 m3 :
  written c j m1 m2 -> written c j m2 m3 -> written c j m1 m3.
Proof. intros H12 H23 key Hk. apply H23 in Hk as [Hk|Hk]; auto. Qed.

Lemma written_insert (c : Chain F) j m k v :
  (k = j \/ exists nm, nuclide_dict c !! nm = Some k) ->
  written c j m (<[(k, j) := v]> m).
Proof.
  intros Hk key Hs. destruct (decide (key = (k, j))) as [->|Hne].
  - right. simpl. auto.
  - rewrite lookup_insert_ne in Hs by congruence. auto.
Qed.

Lemma getitem_row (c : Chain F) nm k :
  getitem (nuclide_dict c) nm = Ok k -> exists nm', nuclide_dict c !! nm' = Some k.
Proof.
  unfold getitem. destruct (nuclide_dict c !! nm) as [k'|] eqn:E; [|discriminate].
  intros [= <-]. eauto.
Qed.

Lemma decay_terms_written (c : Chain F) j nuc m m' :
  decay_terms log2 c j nuc m = Ok m' -> written c j m m'.
Proof.
  unfold decay_terms. intros Hd.
  destruct (negb (n_decay_modes nuc =? 0)); [|injection Hd as <-; apply written_refl].
  destruct (half_life nuc) as [hl|]; [|discriminate].
  destruct (feqb hl f0); [discriminate|].
  eapply written_trans; [|eapply (foldM_frame (written c j)); eauto].
  - destruct (fneb _ f0); [apply written_insert; auto|apply written_refl].
  - apply written_refl.
  - intros a b d. apply written_trans.
  - intros a mode a' Hg. unfold decay_gain in Hg.
    destruct (negb (String.eqb (d_target mode) "Nothing")); [|injection Hg as <-; apply written_refl].
    destruct (fneb (fmul _ _) f0); [|injection Hg as <-; apply written_refl].
    apply bind_ok in Hg as (k & Hk & Hg). injection Hg as <-.
    apply written_insert. right. eapply getitem_row. exact Hk.
Qed.

Lemma reaction_terms_written (c : Chain F) rates j nuc m m' :
  reaction_terms c rates j nuc m = Ok m' -> written c j m m'.
Proof.
  unfold reaction_terms. intros Hr.
  destruct (index_nuc rates !! name nuc); [|injection Hr as <-; apply written_refl].
  apply bind_ok in Hr as (nuc_rates & _ & Hr).
  apply bind_ok in Hr as (st & Hf & Hr). injection Hr as <-.
  change m with (fst (m, (∅ : gset string))).
  eapply (foldM_frame (fun a b => written c j (fst a) (fst b))); eauto.
  - intros a. apply written_refl.
  - intros a b d. apply written_trans.
  - intros [m0 seen] rx st' Ht. unfold reaction_term in Ht.
    apply bind_ok in Ht as (r_id & _ & Ht).
    apply bind_ok in Ht as (p & _ & Ht).
    apply bind_ok in Ht as (m2 & Hg & Ht). injection Ht as <-. simpl.
    apply (written_trans c j m0 (reaction_loss j rx p (m0, seen)).1 m2).
    + unfold reaction_loss.
      destruct (bool_decide (r_type rx ∉ seen)); simpl; [|apply written_refl].
      destruct (fneb p f0); [apply written_insert; auto|apply written_refl].
    + unfold reaction_gain in Hg.
      destruct (negb (target_is_nothing (r_target rx))); [|injection Hg as <-; apply written_refl].
      destruct (negb (String.eqb (r_type rx) "fission")).
      * destruct (fneb p f0); [|injection Hg as <-; apply written_refl].
        apply bind_ok in Hg as (k & Hk & Hg). injection Hg as <-.
        apply written_insert. right.
        destruct (r_target rx) as [t| |]; simpl in Hk; try discriminate.
        eapply getitem_row. exact Hk.
      * unfold fission_gain in Hg. apply bind_ok in Hg as ([energy data] & _ & Hg).
        eapply (foldM_frame (written c j)); eauto.
        -- apply written_refl.
        -- intros a b d. apply written_trans.
        -- intros a [product y] a' Hy. unfold yield_gain in Hy. simpl in Hy.
           destruct (fneb _ f0); [|injection Hy as <-; apply written_refl].
           apply bind_ok in Hy as (k & Hk & Hy). injection Hy as <-.
           apply written_insert. right. eapply getitem_row. exact Hk.
Qed.

Lemma idle_turn (c : Chain F) rates j nuc m m' m'' :
  idle rates nuc = true ->
  decay_terms log2 c j nuc m = Ok m' -> reaction_terms c rates j nuc m' = Ok m'' ->
  m'' = m.
Proof.
  unfold idle, decay_terms, reaction_terms. intros Hi Hd Hr.
  apply andb_true_iff in Hi as [Hmodes Hrates]. apply bool_decide_eq_true in Hrates.
  rewrite Hmodes in Hd. rewrite Hrates in Hr. simpl in Hd. congruence.
Qed.

Lemma form_loop_written (c : Chain F) rates nucs :
  forall j m m' (key : nat * nat),
    form_loop log2 c rates j nucs m = Ok m' ->
    is_Some (m' !! key) ->
    is_Some (m !! key) \/
    exists nuc, j <= key.2 /\ nucs !! (key.2 - j) = Some nuc /\ idle rates nuc = false /\
                (key.1 = key.2 \/ exists nm, nuclide_dict c !! nm = Some key.1).
Proof.
  induction nucs as [|nuc nucs IH]; intros j m m' key Hf Hk; simpl in Hf.
  - injection Hf as <-. auto.
  - apply bind_ok in Hf as (m1 & Hd & Hf).
    apply bind_ok in Hf as (m2 & Hr & Hf).
    apply (IH _ _ _ key Hf) in Hk as [Hk|(n & Hj & Hn & Hidle & Hrow)].
    + destruct (idle rates nuc) eqn:Ei.
      * rewrite (idle_turn c rates j nuc m m1 m2 Ei Hd Hr) in Hk. auto.
      * apply (reaction_terms_written _ _ _ _ _ _ Hr) in Hk as [Hk|[Hc Hrow]].
        -- apply (decay_terms_written _ _ _ _ _ Hd) in Hk as [Hk|[Hc Hrow]]; [auto|].
           right. exists nuc. rewrite Hc, Nat.sub_diag. repeat split; auto.
        -- right. exists nuc. rewrite Hc, Nat.sub_diag. repeat split; auto.
    + right. exists n. split; [lia|]. split; [|auto].
      replace (key.2 - j) with (S (key.2 - S j)) by lia. exact Hn.
Qed.

(** Every entry of the matrix [form_matrix] returns is in the column of
    a nuclide of the chain that decays or is in the rate table, and in
    the row of a nuclide of the index (or on the diagonal): when the
    index points into the list of nuclides, every stored entry is within
    the order of the matrix; and nothing is stored in the column of a
    nuclide that does not decay and is not in the rate table. *)
Theorem form_matrix_entries (c : Chain F) (rates : ReactionRates F) n M k i v :
  form_matrix log2 c rates = Ok (n, M) ->
  M !! (k, i) = Some v ->
  (exists nuc, nuclides c !! i = Some nuc /\ idle rates nuc = false) /\
  i < n /\
  (k = i \/ exists nm, nuclide_dict c !! nm = Some k) /\
  ((forall nm k', nuclide_dict c !! nm = Some k' -> k' < chain_len c) -> k < n).
Proof.
  unfold form_matrix. intros Hf Hk. apply bind_ok in Hf as (m & Hloop & Hf).
  injection Hf as <- <-.
  destruct (form_loop_written c rates (nuclides c) 0 ∅ m (k, i) Hloop) as [Hs|Hs].
  - eauto.
  - destruct Hs as [x Hx]. rewrite lookup_empty in Hx. discriminate.
  - destruct Hs as (nuc & _ & Hnuc & Hidle & Hrow). simpl in *.
    rewrite Nat.sub_0_r in Hnuc.
    assert (Hi : i < chain_len c) by (eapply lookup_lt_Some; exact Hnuc).
    split; [eauto|]. split; [exact Hi|]. split; [exact Hrow|].
    intros Hrange. destruct Hrow as [->|(nm & Hnm)]; [exact Hi|eauto].
Qed.

End MatrixReady.

(** *** The column of a nuclide that only decays *)

Section DecayColumn.
Context {F : Type} {AF : Arith F}.
Variable log2 : F.

Lemma decay_gains_fold (c : Chain F) i (dc : F) modes k :
  forall m m',
    foldM (decay_gain c i dc) m modes = Ok m' ->
    m_get m' (k, i) = fold_left fadd (decay_gains_to c dc modes k) (m_get m (k, i)).
Proof.
  induction modes as [|mode modes IH]; intros m m' Hf; simpl in Hf.
  - injection Hf as <-. reflexivity.
  - apply bind_ok in Hf as (m1 & Hg & Hf). rewrite (IH _ _ Hf). clear IH Hf.
    unfold decay_gains_to. simpl. unfold decay_gain in Hg.
    destruct (negb (String.eqb (d_target mode) "Nothing")); simpl;
      [|injection Hg as <-; reflexivity].
    destruct (fneb (fmul (d_branching_ratio mode) dc) f0); simpl;
      [|injection Hg as <-; reflexivity].
    apply bind_ok in Hg as (k' & Hk' & Hg). injection Hg as <-.
    unfold getitem in Hk'. destruct (nuclide_dict c !! d_target mode) as [k0|]; [|discriminate].
    injection Hk' as ->. destruct (decide (k' = k)) as [->|Hne].
    + rewrite bool_decide_eq_true_2 by reflexivity. simpl. rewrite m_get_add. reflexivity.
    + rewrite bool_decide_eq_false_2 by congruence.
      rewrite m_get_add_ne by congruence. reflexivity.
Qed.

(** The column of the matrix [form_matrix] returns for a nuclide that
    decays and is not in the rate table: the entry of row [k] is the sum
    of ratio times decay constant over the decay modes whose target the
    index puts at [k], added in the order of the modes; on the diagonal
    the sum starts from 0.0 minus the decay constant (when that is not
    0.0), elsewhere from 0.0.  The decay constant is [math.log(2)]
    divided by the half-life. *)
Theorem decay_column_entries (c : Chain F) (rates : ReactionRates F) i nuc hl n M k :
  nuclides c !! i = Some nuc ->
  index_nuc rates !! name nuc = None ->
  n_decay_modes nuc <> 0 ->
  half_life nuc = Some hl ->
  form_matrix log2 c rates = Ok (n, M) ->
  m_get M (k, i) =
    fold_left fadd (decay_gains_to c (fdiv log2 hl) (decay_modes nuc) k)
              (if (k =? i) && fneb (fdiv log2 hl) f0 then fsub f0 (fdiv log2 hl) else f0).
Proof.
  intros Hnuc Hrates Hmodes Hhl Hf. unfold form_matrix in Hf.
  apply bind_ok in Hf as (m & Hloop & Hf). injection Hf as <- <-.
  apply list_elem_of_split_length in Hnuc as (pre & post & Hsplit & Hlen).
  rewrite Hsplit in Hloop.
  apply form_loop_split in Hloop as (m1 & m2 & m3 & Hpre & Hd & Hr & Hpost).
  simpl in Hd, Hr, Hpost. rewrite <- Hlen in Hd, Hr, Hpost.
  rewrite (form_loop_column log2 _ _ _ _ _ _ (k, i) Hpost) by (simpl; lia).
  unfold reaction_terms in Hr. rewrite Hrates in Hr. injection Hr as <-.
  assert (Hm1 : forall k', m_get m1 (k', i) = f0).
  { intros k'. rewrite (form_loop_column log2 _ _ _ _ _ _ (k', i) Hpre) by (simpl; lia).
    unfold m_get. rewrite lookup_empty. reflexivity. }
  unfold decay_terms in Hd. apply Nat.eqb_neq in Hmodes. rewrite Hmodes, Hhl in Hd.
  simpl in Hd. destruct (feqb hl f0); [discriminate|].
  rewrite (decay_gains_fold c i _ _ k _ _ Hd). f_equal.
  destruct (fneb (fdiv log2 hl) f0); [|rewrite andb_false_r; apply Hm1].
  rewrite andb_true_r. destruct (Nat.eqb_spec k i) as [->|Hne].
  - rewrite m_get_sub, Hm1. reflexivity.
  - rewrite m_get_sub_ne by congruence. apply Hm1.
Qed.

End DecayColumn.

(** ** More on [replace_missing] *)

Section ResolverEdges.
Context {F : Type} {AF : Arith F} {ND : NuclearData}.

Lemma scan_isotopes_keeps symbol (items : odict (Decay F)) :
  forall mass hl, is_Some (scan_isotopes symbol items (Some mass) hl).
Proof.
  induction items as [|[k d] items IH]; intros mass hl; simpl; [eauto|].
  destruct (match_isotope symbol k); [|apply IH].
  destruct (dk_stable d); [eauto|]. destruct (fgtb (dk_half_life d) hl); apply IH.
Qed.

(** The scan leaves [mass_longest_lived] unbound exactly when no entry
    binds it. *)
Lemma scan_isotopes_unbound symbol (items : odict (Decay F)) :
  scan_isotopes symbol items None f0 = None <->
  forall entry, entry ∈ items -> binds_mass symbol entry = false.
Proof.
  induction items as [|[k d] items IH]; simpl.
  - split; [intros _ e He; inversion He|reflexivity].
  - unfold binds_mass at 1. split.
    + intros Hs e He. apply elem_of_cons in He as [->|He].
      * unfold binds_mass. simpl. destruct (match_isotope symbol k) as [a|]; [|reflexivity].
        destruct (dk_stable d); [discriminate|]. simpl.
        destruct (fgtb (dk_half_life d) f0); [|reflexivity].
        destruct (scan_isotopes_keeps symbol items a (dk_half_life d)) as [m Hm]. congruence.
      * revert e He. apply IH.
        destruct (match_isotope symbol k) as [a|]; [|exact Hs].
        destruct (dk_stable d); [discriminate|].
        destruct (fgtb (dk_half_life d) f0); [|exact Hs].
        destruct (scan_isotopes_keeps symbol items a (dk_half_life d)) as [m Hm]. congruence.
    + intros Hall. pose proof (Hall (k, d)) as Hkd. unfold binds_mass in Hkd. simpl in Hkd.
      assert (Hrest : scan_isotopes symbol items None f0 = None).
      { apply IH. intros e He. apply Hall. right. exact He. }
      destruct (match_isotope symbol k) as [a|]; [|exact Hrest].
      specialize (Hkd ltac:(left)). apply orb_false_iff in Hkd as [-> ->]. exact Hrest.
Qed.

Lemma search_raises fuel (dd : odict (Decay F)) bm :
  forall za product e,
    search fuel dd bm za product = Some (Raise e) -> exists key, e = KeyError key.
Proof.
  induction fuel as [|fuel IH]; intros za product e Hs; simpl in Hs.
  - destruct (od_mem dd product); discriminate.
  - destruct (od_mem dd product); [discriminate|].
    destruct (ATOMIC_SYMBOL !! (decay_step bm za).1) as [sym|].
    + eapply IH. exact Hs.
    + injection Hs as <-. eauto.
Qed.

(** [replace_missing] ends with [UnboundLocalError] exactly when the
    decay data hold no isotope of the element of the product that is
    stable or has a half-life above 0.0 (whatever the time the loop is
    given): the name [mass_longest_lived] is read without having been
    assigned.  The neutron, which is answered before the scan, is
    excepted. *)
Theorem replace_missing_unbound_local fuel product (dd : odict (Decay F)) z a state symbol :
  zam product = Ok (z, a, state) ->
  ATOMIC_SYMBOL !! z = Some symbol ->
  ((z =? 0) && (a =? 1))%Z = false ->
  replace_missing fuel product dd = Some (Raise UnboundLocalError) <->
  forall entry, entry ∈ dd -> binds_mass symbol entry = false.
Proof.
  intros Hzam Hsym Hn. unfold replace_missing. rewrite Hzam, Hsym, Hn.
  rewrite <- scan_isotopes_unbound.
  destruct (scan_isotopes symbol dd None f0) as [mass|].
  - split; [|discriminate]. intros Hs. apply search_raises in Hs as [key Hk]. discriminate.
  - split; reflexivity.
Qed.

(** *** A walk that does not end *)

Lemma search_never_ends (dd : odict (Decay F)) (z : Z) :
  (z <= 98)%Z ->
  (forall z', on_the_way_up z z' ->
     exists sym, ATOMIC_SYMBOL !! z' = Some sym /\
                 forall a', od_mem dd (format2 sym a') = false) ->
  forall fuel z' a' product,
    z' = z \/ on_the_way_up z z' ->
    od_mem dd product = false ->
    search fuel dd true (z', a') product = None.
Proof.
  intros Hz Hway. induction fuel as [|fuel IH]; intros z' a' product Hz' Hp; cbn [search].
  - rewrite Hp. reflexivity.
  - rewrite Hp.
    assert (Hnext : on_the_way_up z (decay_step true (z', a')).1).
    { unfold decay_step, on_the_way_up in *.
      destruct (98 <? z')%Z eqn:E; simpl.
      - apply Z.ltb_lt in E. right. lia.
      - apply Z.ltb_ge in E. lia. }
    destruct (Hway _ Hnext) as (sym & Hsym & Hnone). cbv zeta. rewrite Hsym.
    destruct (decay_step true (z', a')) as [z'' a''] eqn:Ed. simpl in *.
    apply IH; auto.
Qed.

(** [replace_missing] does not return, however long its loop runs, for
    a product of atomic number at most 98 that is not in the decay data
    (nor is its ground state) and is heavier than the longest-lived
    isotope of its element, when the decay data hold no nuclide of the
    elements above it up to Z = 99: the walk climbs to Z = 99, falls
    back to Z = 97 with the mass number lowered by 4, and climbs
    again. *)
Theorem replace_missing_never_ends product (dd : odict (Decay F)) z a state symbol mass :
  zam product = Ok (z, a, state) ->
  ATOMIC_SYMBOL !! z = Some symbol ->
  ((z =? 0) && (a =? 1))%Z = false ->
  scan_isotopes symbol dd None f0 = Some mass ->
  (mass < a)%Z ->
  (z <= 98)%Z ->
  od_mem dd (start_name product symbol a state) = false ->
  (forall z', on_the_way_up z z' ->
     exists sym, ATOMIC_SYMBOL !! z' = Some sym /\
                 forall a', od_mem dd (format2 sym a') = false) ->
  forall fuel, replace_missing fuel product dd = None.
Proof.
  intros Hzam Hsym Hn Hscan Hmass Hz Hstart Hway fuel.
  unfold replace_missing. rewrite Hzam, Hsym, Hn, Hscan.
  apply Z.ltb_lt in Hmass. rewrite Hmass.
  apply (search_never_ends dd z Hz Hway); auto.
Qed.

(** *** A walk that leaves the table *)

Lemma search_walks_down (dd : odict (Decay F)) a :
  ATOMIC_SYMBOL !! (-1)%Z = None ->
  forall n z product,
    z = Z.of_nat n ->
    (z <= 98)%Z ->
    od_mem dd product = false ->
    (forall z', (0 <= z' < z)%Z ->
       exists sym, ATOMIC_SYMBOL !! z' = Some sym /\ od_mem dd (format2 sym a) = false) ->
    forall fuel, n < fuel ->
      search fuel dd false (z, a) product = Some (Raise (KeyError "-1")).
Proof.
  intros Hout. induction n as [|n IH]; intros z product Hn Hz Hp Hdown fuel Hfuel.
  - destruct fuel as [|fuel]; [lia|]. cbn [search]. rewrite Hp. subst z. simpl.
    change (Z.of_nat 0 - 1)%Z with (-1)%Z. rewrite Hout. reflexivity.
  - destruct fuel as [|fuel]; [lia|]. cbn [search]. rewrite Hp.
    assert (Hstep : decay_step false (z, a) = ((z - 1)%Z, a)).
    { unfold decay_step. destruct (98 <? z)%Z eqn:E; [apply Z.ltb_lt in E; lia|reflexivity]. }
    rewrite Hstep. cbv zeta. simpl.
    destruct (Hdown (z - 1)%Z) as (sym & Hsym & Hnone); [lia|]. rewrite Hsym.
    apply IH; [lia|lia|exact Hnone| |lia].
    intros z' Hz'. apply Hdown. lia.
Qed.

(** [replace_missing] ends with [KeyError(-1)] for a product of atomic
    number at most 98 that is no neutron, is not in the decay data (nor
    is its ground state) and is no heavier than the longest-lived
    isotope of its element, when the decay data hold no ground-state
    name of its mass number among the lighter elements: the walk goes
    down one element at a time to the neutron and leaves the table of
    symbols, which has no entry -1.  (Above 98 the first step is an
    alpha step, to another mass number.) *)
Theorem replace_missing_leaves_the_table product (dd : odict (Decay F)) z a state symbol mass :
  zam product = Ok (z, a, state) ->
  ATOMIC_SYMBOL !! z = Some symbol ->
  ((z =? 0) && (a =? 1))%Z = false ->
  scan_isotopes symbol dd None f0 = Some mass ->
  (a <= mass)%Z ->
  (0 <= z <= 98)%Z ->
  od_mem dd (start_name product symbol a state) = false ->
  (forall z', (0 <= z' < z)%Z ->
     exists sym, ATOMIC_SYMBOL !! z' = Some sym /\ od_mem dd (format2 sym a) = false) ->
  ATOMIC_SYMBOL !! (-1)%Z = None ->
  forall fuel, Z.to_nat z < fuel ->
    replace_missing fuel product dd = Some (Raise (KeyError "-1")).
Proof.
  intros Hzam Hsym Hn Hscan Hmass Hz Hstart Hdown Hout fuel Hfuel.
  unfold replace_missing. rewrite Hzam, Hsym, Hn, Hscan.
  assert (Hb : (mass <? a)%Z = false) by (apply Z.ltb_ge; lia). rewrite Hb.
  apply (search_walks_down dd a Hout (Z.to_nat z)); auto; lia.
Qed.

End ResolverEdges.

(** ** [get_temp] *)

Lemma list_ascii_app (s t : string) :
  list_ascii_of_string (s ++ t) = list_ascii_of_string s ++ list_ascii_of_string t.
Proof. induction s as [|c s IH]; simpl; [reflexivity|]. rewrite IH. reflexivity. Qed.

Lemma list_ascii_length (s : string) : length (list_ascii_of_string s) = String.length s.
Proof. induction s as [|c s IH]; simpl; [reflexivity|]. rewrite IH. reflexivity. Qed.

(** [get_temp] reads one character of the path, the third from its end:
    a path of fewer than three characters raises [IndexError]; any other
    path gives the temperature of that character when it is one of '0' to
    '6', whatever comes before and after it, and [KeyError] of that
    character otherwise. *)
Theorem get_temp_reads_third_from_end :
  (forall path, String.length path < 3 -> get_temp path = Raise IndexError) /\
  (forall pre k x y,
     get_temp (pre ++ String k (String x (String y EmptyString))) =
       match List.find (fun kv => Ascii.eqb kv.1 k) temp_dict with
       | Some kv => Ok kv.2
       | None => Raise (KeyError (String k EmptyString))
       end) /\
  (forall path t, get_temp path = Ok t ->
     t ∈ ["294K"; "600K"; "900K"; "1200K"; "2500K"; "0K"; "250K"]).
Proof.
  split; [|split].
  - intros path Hlen. unfold get_temp, from_end. rewrite list_ascii_length.
    destruct (3 <=? String.length path) eqn:E; [apply Nat.leb_le in E; lia|]. reflexivity.
  - intros pre k x y. unfold get_temp, from_end.
    rewrite list_ascii_app, length_app.
    change (list_ascii_of_string (String k (String x (String y EmptyString)))) with [k; x; y].
    change (length [k; x; y]) with 3.
    destruct (3 <=? length (list_ascii_of_string pre) + 3) eqn:E;
      [|apply Nat.leb_gt in E; lia].
    unfold nth_item. rewrite lookup_app_r by lia.
    replace (length (list_ascii_of_string pre) + 3 - 3 - length (list_ascii_of_string pre))
      with 0 by lia.
    reflexivity.
  - intros path t Hg. unfold get_temp in Hg. apply bind_ok in Hg as (k & _ & Hg).
    destruct (List.find _ temp_dict) as [kv|] eqn:Ef; [|discriminate].
    injection Hg as <-. apply find_some in Ef as [Hin _].
    apply list_elem_of_In. apply (in_map snd) in Hin. exact Hin.
Qed.

(** ** The exceptions of the non-strict mode *)

Lemma foldM_raised {A B} (f : A -> B -> result A) (l : list B) :
  forall a e, foldM f a l = Raise e -> exists a1 b, b ∈ l /\ f a1 b = Raise e.
Proof.
  induction l as [|b l IH]; intros a e Hf; simpl in Hf; [discriminate|].
  destruct (f a b) as [a1|e1] eqn:E; simpl in Hf.
  - apply IH in Hf as (a2 & b2 & Hin & Hr). exists a2, b2. split; [right|]; auto.
  - injection Hf as <-. exists a, b. split; [left|exact E].
Qed.

Section LenientFacts.
Context {F : Type} {AF : Arith F} {ND : NuclearData}.

Lemma scan_reaction_raises reaction parent secondary (rxs : list (nat * ReactionTuple F)) :
  forall st e,
    foldM (scan_reaction reaction parent secondary) st rxs = Raise e -> e = TypeError.
Proof.
  intros st e Hf. apply foldM_raised in Hf as ([ixs gs] & [ix rx] & _ & Hr).
  unfold scan_reaction in Hr.
  destruct (String.eqb (r_type rx) reaction && negb (target_in (r_target rx) secondary));
    [|discriminate].
  destruct (r_target rx); [discriminate| |]; injection Hr as <-; reflexivity.
Qed.

Lemma validate_parent_lenient (c : Chain F) reaction tolerance (vs : vstate F) entry e :
  validate_parent c reaction false tolerance vs entry = Raise e ->
  e = IndexError \/ e = TypeError \/
  (e = KeyError entry.1 /\ chain_contains c entry.1 = true).
Proof.
  unfold validate_parent. destruct (chain_contains c entry.1) eqn:Hc; simpl; [|discriminate].
  destruct (List.find _ (od_keys entry.2.2)); [discriminate|].
  unfold chain_getitem, getitem.
  destruct (nuclide_dict c !! entry.1) as [i|]; simpl.
  2: { intros [= <-]. right. right. auto. }
  unfold nth_item. destruct (nuclides c !! i) as [nuc|]; simpl; [|intros [= <-]; auto].
  destruct (foldM _ ([], grounds vs) (imap pair (reactions nuc))) as [[indexes grounds']|e1] eqn:Hs;
    simpl.
  2: { intros [= <-]. apply scan_reaction_raises in Hs. auto. }
  destruct (length indexes =? 0); [discriminate|].
  unfold sum_is_bad. destruct (fgeb _ _); simpl; [discriminate|].
  unfold getitem. destruct (grounds' !! entry.1); simpl.
  - destruct (od_mem _ _ && fleb _ _); discriminate.
  - intros [= <-]. right. right. auto.
Qed.

(** In non-strict mode [set_branch_ratios] raises no [ValueError] and no
    [AttributeError], and no [KeyError] for a name that is not in the
    chain: when it raises, the exception is [IndexError] (no parent
    passed validation, or the index points past the nuclides),
    [TypeError] (a transition of the requested type whose target is no
    name) or [KeyError] of a parent that is in the chain (whose
    transitions of the requested type name no ground state). *)
Theorem set_branch_ratios_lenient_exceptions (c : Chain F) (brs : branch_ratios F)
    reaction tolerance e :
  index_injective c ->
  NoDup (od_keys brs) ->
  out_exn (set_branch_ratios c brs reaction false tolerance) = Some e ->
  e = IndexError \/ e = TypeError \/
  exists p, e = KeyError p /\ p ∈ od_keys brs /\ chain_contains c p = true.
Proof.
  intros Hinj Hnd. unfold set_branch_ratios.
  destruct (foldM _ vstate0 brs) as [vs|e1] eqn:Hval.
  - destruct (length (rxn_ix_map vs) =? 0); [simpl; intros [= <-]; auto|].
    pose proof (validation_loop_inv c reaction false (fabs tolerance) brs [] vstate0 vs
                  Hnd (validation_inv_init _ _ _) Hval) as (Hkeys & Hvalid & _).
    simpl in Hvalid.
    destruct (apply_all_validated c brs reaction (fabs tolerance) vs Hinj Hnd
                (rxn_ix_map vs) c brs) as (c' & b' & Happ & _); auto.
    { intros p ixs Hin. apply Hvalid. exact Hin. }
    rewrite Happ. simpl. discriminate.
  - simpl. intros [= <-].
    apply foldM_raised in Hval as (vs1 & entry & Hin & Hr).
    apply validate_parent_lenient in Hr as [Hr|[Hr|[Hr Hc]]]; auto.
    right. right. exists entry.1. split; [exact Hr|]. split; [|exact Hc].
    apply list_elem_of_fmap. eauto.
Qed.

End LenientFacts.

(** ** More on [Chain.from_endf] *)

(** *** The decay block within the chain *)

Section DecayFacts.
Context {F : Type} {AF : Arith F} {ND : NuclearData}.

Lemma decay_loop_modes fuel (dd : odict (Decay F)) modes rest :
  forall i sum_br out dms,
    decay_loop fuel dd modes i rest sum_br out = Some (Ok dms) ->
    exists new,
      dms = out ++ new /\
      map d_type new = map (fun m : DecayMode F => String.concat "," (m_modes m)) rest /\
      forall mode, mode ∈ new -> od_mem dd (d_target mode) = true \/ d_target mode = "H1".
Proof.
  induction rest as [|m rest IH]; intros i sum_br out dms Hl; simpl in Hl.
  - injection Hl as <-. exists []. rewrite app_nil_r. split; [reflexivity|].
    split; [reflexivity|]. intros mode Hin. inversion Hin.
  - destruct (mode_target fuel dd m) as [[tgt|e]|] eqn:Ht; try discriminate.
    apply IH in Hl as (new & -> & Htypes & Hknown).
    eexists (_ :: new). rewrite <- app_assoc. simpl. split; [reflexivity|].
    split; [f_equal; exact Htypes|].
    intros mode Hin. apply elem_of_cons in Hin as [->|Hin]; [|auto]. simpl.
    unfold mode_target in Ht. destruct (od_mem dd (m_daughter m)) eqn:Hm.
    + injection Ht as <-. auto.
    + apply replace_missing_known in Ht. exact Ht.
Qed.

Lemma from_endf_contains fuel rx_data (dd : odict (Decay F)) fpy_data (c : Chain F) log k :
  from_endf fuel rx_data dd fpy_data = Some (Ok (c, log)) ->
  chain_contains c k = od_mem dd k.
Proof.
  intros Hf. apply from_endf_built in Hf as (Hsorted & _ & Hnames & _).
  apply sorted_by_zam_spec in Hsorted as [Hperm _].
  destruct (od_mem dd k) eqn:Hm.
  - assert (Hkey : k ∈ od_keys dd).
    { apply od_get_is_key. unfold od_mem in Hm. destruct (od_get dd k); [eauto|discriminate]. }
    rewrite <- Hperm in Hkey. apply list_elem_of_fmap in Hkey as (n & -> & Hn).
    apply names_last_contains; assumption.
  - destruct (chain_contains c k) eqn:Hc; [|reflexivity]. exfalso.
    unfold chain_contains in Hc. apply bool_decide_eq_true in Hc as [i Hi].
    apply Hnames in Hi as [(nuc & Hnuc & Hname) _].
    assert (Hkey : k ∈ od_keys dd).
    { rewrite <- Hperm, <- Hname. apply list_elem_of_fmap. exists nuc.
      split; [reflexivity|]. eapply list_elem_of_lookup_2. exact Hnuc. }
    apply od_get_is_key in Hkey as [v Hv]. unfold od_mem in Hm. rewrite Hv in Hm. discriminate.
Qed.

Lemma built_decay_modes fuel rx_data (dd : odict (Decay F)) fpy_data (nuc : Nuclide F) :
  built fuel rx_data dd fpy_data nuc ->
  exists data,
    od_get dd (name nuc) = Some data /\
    (if negb (dk_stable data) && fneb (dk_half_life data) f0
     then half_life nuc = Some (dk_half_life data) /\
          decay_energy nuc = fsum (dk_average_energies data) /\
          map d_type (decay_modes nuc) =
            map (fun m : DecayMode F => String.concat "," (m_modes m)) (dk_modes data)
     else half_life nuc = None /\ decay_energy nuc = f0 /\ decay_modes nuc = []) /\
    forall mode, mode ∈ decay_modes nuc ->
      od_mem dd (d_target mode) = true \/ d_target mode = "H1".
Proof.
  intros (data & n0 & Hdata & Hdecay & Hhl & Hde & Hdm & _ & _).
  exists data. split; [exact Hdata|]. rewrite Hhl, Hde, Hdm. clear Hhl Hde Hdm.
  unfold from_endf_decay in Hdecay.
  destruct (negb (dk_stable data) && fneb (dk_half_life data) f0).
  - destruct (decay_loop _ _ _ _ _ _ _) as [[dms|e]|] eqn:Hl; try discriminate.
    injection Hdecay as <-. simpl.
    apply decay_loop_modes in Hl as (new & -> & Htypes & Hknown). simpl. auto.
  - injection Hdecay as <-. simpl. split; [auto|]. intros mode Hm. inversion Hm.
Qed.

(** In the chain [from_endf] returns, a nuclide that is stable or has
    the half-life 0.0 in its evaluation has no half-life and no decay
    modes; any other has the half-life of its evaluation, the sum of its
    average energies as decay energy, and one decay mode for each mode
    of the evaluation, of the type that joins the names of the mode with
    commas.  Every decay target is a nuclide of the chain, unless it is
    the proton ['H1'] that stands for a neutron. *)
Theorem from_endf_decay_modes fuel rx_data (dd : odict (Decay F)) fpy_data
    (c : Chain F) log nuc :
  from_endf fuel rx_data dd fpy_data = Some (Ok (c, log)) ->
  nuc ∈ nuclides c ->
  exists data,
    od_get dd (name nuc) = Some data /\
    (if negb (dk_stable data) && fneb (dk_half_life data) f0
     then half_life nuc = Some (dk_half_life data) /\
          decay_energy nuc = fsum (dk_average_energies data) /\
          map d_type (decay_modes nuc) =
            map (fun m : DecayMode F => String.concat "," (m_modes m)) (dk_modes data)
     else half_life nuc = None /\ decay_energy nuc = f0 /\ decay_modes nuc = []) /\
    forall mode, mode ∈ decay_modes nuc ->
      chain_contains c (d_target mode) = true \/ d_target mode = "H1".
Proof.
  intros Hf Hin.
  destruct (built_decay_modes _ _ _ _ _ (built_at _ _ _ _ _ _ _ Hf Hin))
    as (data & Hdata & Hcase & Htargets).
  exists data. split; [exact Hdata|]. split; [exact Hcase|].
  intros mode Hm. rewrite (from_endf_contains _ _ _ _ _ _ _ Hf). auto.
Qed.

(** [form_matrix] returns the decay matrix of a chain [from_endf] built:
    when the decay data hold H1 and the rate table knows none of the
    nuclides, it raises nothing, whatever the library is. *)
Theorem from_endf_decay_matrix (log2 : F) fuel rx_data (dd : odict (Decay F)) fpy_data
    (c : Chain F) log (rates : ReactionRates F) :
  from_endf fuel rx_data dd fpy_data = Some (Ok (c, log)) ->
  od_mem dd "H1" = true ->
  (forall nuc, nuc ∈ nuclides c -> index_nuc rates !! name nuc = None) ->
  exists M, form_matrix log2 c rates = Ok (chain_len c, M).
Proof.
  intros Hf Hh1 Hrates. unfold form_matrix.
  destruct (form_loop_total log2 c rates (nuclides c)) with (i := 0) (m := (∅ : gmap (nat * nat) F))
    as [m Hm].
  - apply forallb_forall. intros nuc Hin. apply list_elem_of_In in Hin.
    apply andb_true_iff. split.
    + destruct (built_decay_modes _ _ _ _ _ (built_at _ _ _ _ _ _ _ Hf Hin))
        as (data & _ & Hcase & Htargets).
      unfold decay_ready, n_decay_modes.
      destruct (negb (dk_stable data) && fneb (dk_half_life data) f0) eqn:E.
      * destruct Hcase as (-> & _ & _). apply andb_true_iff in E as [_ E].
        unfold fneb in E. rewrite E. simpl. apply orb_true_iff. right.
        apply forallb_forall. intros mode Hm. apply list_elem_of_In in Hm.
        apply orb_true_iff. right. rewrite (from_endf_contains _ _ _ _ _ _ _ Hf).
        destruct (Htargets mode Hm) as [Ht| ->]; [exact Ht|exact Hh1].
      * destruct Hcase as (_ & _ & ->). reflexivity.
    + unfold reactions_ready. rewrite (Hrates nuc Hin). reflexivity.
  - rewrite Hm. simpl. eauto.
Qed.

End DecayFacts.

(** *** The lists of missing data *)

Section LogFacts.
Context {F : Type} {AF : Arith F} {ND : NuclearData}.

Lemma endf_reaction_missing (dd : odict (Decay F)) parent data (rx : gmap Z F) entries :
  forall rs chain_rs missing rs' chain_rs' missing',
    foldM (endf_reaction dd parent data rx) (rs, chain_rs, missing) entries
      = Ok (rs', chain_rs', missing') ->
    missing' = missing ++ flat_map (missing_of dd parent)
                                   (flat_map (endf_tuple data rx) entries).
Proof.
  induction entries as [|[[nm mts] [dA dZ]] entries IH];
    intros rs chain_rs missing rs' chain_rs' missing' Hf; simpl in Hf.
  - injection Hf as <- <- <-. simpl. rewrite app_nil_r. reflexivity.
  - apply bind_ok in Hf as ([[rs1 crs1] m1] & Hstep & Hf).
    apply IH in Hf as ->. simpl.
    destruct (available rx mts).
    + destruct (ATOMIC_SYMBOL !! (dk_atomic_number data + dZ)%Z) as [sym|]; [|discriminate].
      injection Hstep as <- <- <-. simpl. unfold missing_of at 2. simpl.
      destruct (od_mem dd _); simpl; [|rewrite <- app_assoc]; reflexivity.
    + injection Hstep as <- <- <-. reflexivity.
Qed.

Lemma from_endf_reactions_missing rx_data (dd : odict (Decay F)) has_fpy parent data
    rs chain_rs missing_rx missing_fy rs' chain_rs' missing_rx' missing_fy' :
  from_endf_reactions rx_data dd has_fpy parent data rs chain_rs missing_rx missing_fy
    = Ok (rs', chain_rs', missing_rx', missing_fy') ->
  missing_rx' = missing_rx ++ flat_map (missing_of dd parent)
                                       (endf_transitions rx_data has_fpy parent data) /\
  missing_fy' = missing_fy ++
                match rx_data !! parent with
                | Some rx => if available rx [18; 19; 20; 21; 38]%Z && negb has_fpy
                             then [parent] else []
                | None => []
                end.
Proof.
  unfold from_endf_reactions, endf_transitions. generalize REACTIONS as entries.
  intros entries. destruct (rx_data !! parent) as [rx|].
  - intros Hr. apply bind_ok in Hr as ([[rs1 crs1] m1] & Hloop & Hr).
    apply bind_ok in Hr as ([[rs2 crs2] m2] & Hfis & Hr). injection Hr as <- <- <- <-.
    apply endf_reaction_missing in Hloop as ->.
    unfold endf_fission in Hfis. unfold fission_tuple. rewrite flat_map_app.
    destruct (available rx [18; 19; 20; 21; 38]%Z); simpl.
    + destruct has_fpy; simpl.
      * destruct (rx !! 18%Z) as [q|]; [|discriminate].
        injection Hfis as _ _ <-. simpl. rewrite !app_nil_r. auto.
      * injection Hfis as _ _ <-. rewrite !app_nil_r. auto.
    + injection Hfis as _ _ <-. rewrite !app_nil_r. auto.
  - intros [= <- <- <- <-]. rewrite !app_nil_r. auto.
Qed.

Lemma from_endf_nuclide_log fuel rx_data (dd : odict (Decay F)) fpy_data
    (c : Chain F) log idx parent c' log' :
  from_endf_nuclide fuel rx_data dd fpy_data (c, log) (idx, parent) = Some (Ok (c', log')) ->
  exists nuc,
    nuclides c' = nuclides c ++ [nuc] /\ name nuc = parent /\
    missing_rx_product log' =
      missing_rx_product log ++ flat_map (missing_of dd (name nuc)) (reactions nuc) /\
    missing_fpy log' =
      missing_fpy log ++ (if lacks_yields rx_data fpy_data nuc then [name nuc] else []) /\
    (lacks_yields rx_data fpy_data nuc = true ->
     forall rx, rx ∈ reactions nuc -> r_type rx <> "fission").
Proof.
  unfold from_endf_nuclide.
  destruct (od_get dd parent) as [data|] eqn:Hdata; [|discriminate].
  intros Hn. apply fuel_bind_ok in Hn as (n0 & Hdecay & Hn).
  apply fuel_bind_ok in Hn as ([[[rs crs] mrx] mfy] & Hrx & Hn).
  injection Hrx as Hrx.
  apply fuel_bind_ok in Hn as ([[es yd] mfp] & Hy & Hn).
  injection Hn as <- <-.
  destruct (from_endf_decay_name _ _ _ _ _ Hdecay) as (Hname & Hrs0 & Hyd0).
  rewrite Hrs0 in Hrx.
  pose proof (from_endf_reactions_missing _ _ _ _ _ _ _ _ _ _ _ _ _ Hrx) as [-> ->].
  apply from_endf_reactions_ok in Hrx as [-> _]. simpl.
  eexists. split; [reflexivity|]. simpl. split; [exact Hname|].
  unfold lacks_yields. simpl. rewrite Hname.
  split; [reflexivity|]. split; [destruct (rx_data !! parent); reflexivity|].
  unfold endf_transitions. destruct (rx_data !! parent) as [rx|]; [|discriminate].
  intros Hlack rxt Hin. apply andb_true_iff in Hlack as [_ Hlack].
  apply negb_true_iff in Hlack. rewrite Hlack in Hin.
  unfold fission_tuple in Hin. rewrite andb_false_r, app_nil_r in Hin.
  intros Hty.
  assert (Hsub : r_type rxt ∈ map (fun e : string * list Z * (Z * Z) => e.1.1) REACTIONS).
  { eapply elem_of_sublist; [|apply (endf_tuples_types data rx)].
    apply list_elem_of_fmap. eauto. }
  rewrite Hty in Hsub. vm_compute in Hsub.
  repeat (apply elem_of_cons in Hsub as [Hsub|Hsub]; [discriminate|]).
  inversion Hsub.
Qed.

Lemma from_endf_loop_log fuel rx_data (dd : odict (Decay F)) fpy_data
    (parents : list (nat * string)) :
  forall (c : Chain F) log c' log',
    fuel_foldM (from_endf_nuclide fuel rx_data dd fpy_data) (c, log) parents
      = Some (Ok (c', log')) ->
    exists nucs,
      nuclides c' = nuclides c ++ nucs /\
      missing_rx_product log' =
        missing_rx_product log ++
        flat_map (fun nuc => flat_map (missing_of dd (name nuc)) (reactions nuc)) nucs /\
      missing_fpy log' =
        missing_fpy log ++ map name (List.filter (lacks_yields rx_data fpy_data) nucs) /\
      forall nuc, nuc ∈ nucs -> lacks_yields rx_data fpy_data nuc = true ->
        forall rx, rx ∈ reactions nuc -> r_type rx <> "fission".
Proof.
  induction parents as [|[idx parent] parents IH]; intros c log c' log' Hf; simpl in Hf.
  - injection Hf as <- <-. exists []. simpl. rewrite !app_nil_r.
    repeat split; auto. intros nuc Hin. inversion Hin.
  - apply fuel_bind_ok in Hf as ([c1 log1] & Hstep & Hf).
    apply from_endf_nuclide_log in Hstep as (nuc & Hn1 & Hname & Hrx1 & Hfy1 & Hno1).
    apply IH in Hf as (nucs & Hn & Hrx & Hfy & Hno).
    exists (nuc :: nucs). rewrite Hn, Hn1, Hrx, Hrx1, Hfy, Hfy1, <- !app_assoc. simpl.
    split; [reflexivity|]. split; [reflexivity|]. split.
    + destruct (lacks_yields rx_data fpy_data nuc); reflexivity.
    + intros nuc' Hin. apply elem_of_cons in Hin as [->|Hin]; [exact Hno1|exact (Hno nuc' Hin)].
Qed.

(** The two lists of missing data [from_endf] prints are exact: the
    list of missing reaction products holds, in the order of the chain,
    the transitions whose target is no nuclide of the chain, and the
    list of nuclides without yields holds the nuclides whose evaluation
    has a fission MT (18, 19, 20, 21 or 38) and that have no fission
    product yields; these nuclides have no fission transition. *)
Theorem from_endf_missing_lists fuel rx_data (dd : odict (Decay F)) fpy_data
    (c : Chain F) log :
  from_endf fuel rx_data dd fpy_data = Some (Ok (c, log)) ->
  missing_rx_product log = flat_map (dangling c) (nuclides c) /\
  missing_fpy log = map name (List.filter (lacks_yields rx_data fpy_data) (nuclides c)) /\
  forall nuc, nuc ∈ nuclides c -> lacks_yields rx_data fpy_data nuc = true ->
    forall rx, rx ∈ reactions nuc -> r_type rx <> "fission".
Proof.
  intros Hf. pose proof (fun k => from_endf_contains _ _ _ _ _ _ k Hf) as Hc.
  unfold from_endf in Hf. destruct (sorted_by_zam (od_keys dd)) as [parents|e]; [|discriminate].
  apply from_endf_loop_log in Hf as (nucs & Hn & Hrx & Hfy & Hno). simpl in *.
  subst nucs. rewrite Hrx, Hfy. split; [|split; [reflexivity|exact Hno]].
  apply flat_map_ext. intros nuc. unfold dangling. apply flat_map_ext. intros rx.
  unfold missing_of. destruct (r_target rx); auto. rewrite Hc. reflexivity.
Qed.

End LogFacts.

(** *** When [from_endf] returns *)

Lemma fuel_foldM_total {A B} (P : A -> Prop) (f : A -> B -> option (result A)) (l : list B) :
  (forall a b, b ∈ l -> P a -> exists a', f a b = Some (Ok a') /\ P a') ->
  forall a, P a -> exists a', fuel_foldM f a l = Some (Ok a') /\ P a'.
Proof.
  induction l as [|b l IH]; intros Hf a Ha; simpl; [eauto|].
  destruct (Hf a b) as (a1 & H1 & HP1); [left|exact Ha|]. rewrite H1. simpl.
  apply IH; [|exact HP1]. intros a0 b0 Hin. apply Hf. right. exact Hin.
Qed.

Lemma mapM_total {A B} (f : A -> result B) (l : list A) :
  (forall a, a ∈ l -> exists b, f a = Ok b) -> exists bs, mapM f l = Ok bs.
Proof.
  induction l as [|a l IH]; intros Hf; simpl; [eauto|].
  destruct (Hf a) as [b ->]; [left|]. simpl.
  destruct IH as [bs ->]; [intros a0 Hin; apply Hf; right; exact Hin|]. simpl. eauto.
Qed.

Section LoadFactsEndf.
Context {F : Type} {AF : Arith F} {ND : NuclearData}.

Lemma sorted_by_zam_total (names : list string) :
  forallb parses names = true -> exists sorted, sorted_by_zam names = Ok sorted.
Proof.
  intros Hp. unfold sorted_by_zam.
  destruct (mapM_total (fun n => k ← zam n; Ok (k, n)) names) as [keyed ->].
  - intros n Hin. rewrite forallb_forall in Hp. apply list_elem_of_In, Hp in Hin.
    unfold parses in Hin. destruct (zam n) as [k|e]; [|discriminate]. simpl. eauto.
  - simpl. eauto.
Qed.

Lemma from_endf_decay_total fuel (dd : odict (Decay F)) parent data :
  negb (negb (dk_stable data) && fneb (dk_half_life data) f0) ||
    forallb (resolves fuel dd) (dk_modes data) = true ->
  exists nuclide, from_endf_decay fuel dd parent data = Some (Ok nuclide).
Proof.
  intros Hr. unfold from_endf_decay.
  destruct (negb (dk_stable data) && fneb (dk_half_life data) f0); simpl in Hr; [|eauto].
  destruct (decay_loop_returns fuel dd (dk_modes data) (dk_modes data) Hr 0 f0
              (decay_modes (new_nuclide parent))) as [dms ->].
  eauto.
Qed.

Lemma from_endf_reactions_total rx_data (dd : odict (Decay F)) has_fpy parent data
    rs chain_rs missing_rx missing_fy :
  match rx_data !! parent with
  | Some rx => reactions_load data rx has_fpy
  | None => true
  end = true ->
  exists r, from_endf_reactions rx_data dd has_fpy parent data rs chain_rs missing_rx missing_fy
            = Ok r.
Proof.
  unfold from_endf_reactions, reactions_load. generalize REACTIONS as entries. intros entries.
  destruct (rx_data !! parent) as [rx|]; [|eauto].
  intros Hr. apply andb_true_iff in Hr as [Hsym Hq].
  destruct (foldM_total (endf_reaction dd parent data rx) entries)
    with (a := (rs, chain_rs, missing_rx)) as [[[rs1 crs1] m1] ->].
  - intros [[rs0 crs0] m0] [[nm mts] [dA dZ]] Hin.
    rewrite forallb_forall in Hsym. apply list_elem_of_In, Hsym in Hin. simpl in Hin.
    unfold endf_reaction. destruct (available rx mts); simpl in Hin; [|eauto].
    apply bool_decide_eq_true in Hin as [sym ->]. eauto.
  - unfold endf_fission.
    destruct (available rx [18; 19; 20; 21; 38]%Z); [|simpl; eauto].
    destruct has_fpy; [|simpl; eauto].
    simpl in Hq. apply bool_decide_eq_true in Hq as [q ->]. simpl. eauto.
Qed.

Lemma yield_steps_total fuel (dd : odict (Decay F)) (table : odict F) :
  forallb parses (od_keys dd) = true ->
  forallb (fun py : string * F => product_resolves fuel dd py.1) table = true ->
  forall st, forallb parses (od_keys st.2) = true ->
    exists st', fuel_foldM (yield_step fuel dd) st table = Some (Ok st') /\
                forallb parses (od_keys st'.2) = true.
Proof.
  intros Hnames Htable st Hst.
  apply (fuel_foldM_total (fun st : F * odict F => forallb parses (od_keys st.2) = true));
    [|exact Hst].
  intros [yr ys] [product y] Hin Hys. simpl in Hys.
  rewrite forallb_forall in Htable. apply list_elem_of_In, Htable in Hin. simpl in Hin.
  assert (Hadd : forall k, parses k = true -> forallb parses (od_keys (od_add ys k y)) = true).
  { intros k Hk. apply forallb_forall. intros x Hx. apply list_elem_of_In in Hx.
    apply od_add_keys in Hx as [Hx| ->]; [|exact Hk].
    rewrite forallb_forall in Hys. apply Hys, list_elem_of_In. exact Hx. }
  unfold yield_step, product_resolves in *. destruct (od_mem dd product) eqn:Hm.
  - eexists. split; [reflexivity|]. simpl. apply Hadd.
    rewrite forallb_forall in Hnames. apply Hnames, list_elem_of_In, od_get_is_key.
    unfold od_mem in Hm. destruct (od_get dd product); [eauto|discriminate].
  - simpl in Hin. destruct (replace_missing fuel product dd) as [[daughter|e]|];
      try discriminate.
    simpl. eexists. split; [reflexivity|]. simpl. apply Hadd. exact Hin.
Qed.

Lemma from_endf_yields_returns fuel (dd : odict (Decay F)) parent fpy yield_data missing :
  forallb parses (od_keys dd) = true ->
  forallb (fun table : odict F =>
             forallb (fun py : string * F => product_resolves fuel dd py.1) table)
          (fpy_independent fpy) = true ->
  exists r, from_endf_yields fuel dd parent fpy yield_data missing = Some (Ok r).
Proof.
  intros Hnames Hfpy. unfold from_endf_yields.
  destruct (fuel_foldM_total (fun _ => True) (yield_table fuel dd parent)
              (zip (match fpy_energies fpy with Some es => es | None => [f0] end)
                   (fpy_independent fpy)))
    with (a := (yield_data, missing)) as ([yd m] & -> & _); [|exact I|simpl; eauto].
  intros [yd0 m0] [E table] Hin _. apply elem_of_zip_r in Hin.
  rewrite forallb_forall in Hfpy. apply list_elem_of_In, Hfpy in Hin.
  unfold yield_table.
  destruct (yield_steps_total fuel dd table Hnames Hin (f0, [])) as ([yr ys] & -> & Hys);
    [reflexivity|].
  simpl in *. destruct (sorted_by_zam_total _ Hys) as [ks ->]. eauto.
Qed.

Lemma from_endf_nuclide_total fuel rx_data (dd : odict (Decay F)) fpy_data st idx parent :
  forallb parses (od_keys dd) = true ->
  forallb (nuclide_loads fuel rx_data dd fpy_data) dd = true ->
  parent ∈ od_keys dd ->
  exists st', from_endf_nuclide fuel rx_data dd fpy_data st (idx, parent) = Some (Ok st').
Proof.
  intros Hnames Hall Hkey. destruct st as [c log]. unfold from_endf_nuclide.
  apply od_get_is_key in Hkey as [data Hdata]. rewrite Hdata.
  rewrite forallb_forall in Hall.
  pose proof (Hall (parent, data) (proj1 (list_elem_of_In _ _) (od_get_elem _ _ _ Hdata)))
    as Hload.
  unfold nuclide_loads in Hload. simpl in Hload.
  apply andb_true_iff in Hload as [Hload Hy]. apply andb_true_iff in Hload as [Hd Hr].
  destruct (from_endf_decay_total fuel dd parent data Hd) as [nuclide ->]. simpl.
  destruct (from_endf_reactions_total rx_data dd (bool_decide (is_Some (fpy_data !! parent)))
              parent data (reactions nuclide) (chain_reactions c) (missing_rx_product log)
              (missing_fpy log) Hr) as [[[[rs crs] mrx] mfy] ->].
  simpl. destruct (fpy_data !! parent) as [fpy|]; simpl; [|eauto].
  destruct (from_endf_yields_returns fuel dd parent fpy (yield_data nuclide)
              (missing_fp log) Hnames Hy) as [[[es yd] mfp] ->].
  simpl. eauto.
Qed.

(** [from_endf] returns a chain whenever the library holds what the
    method reads: names that [openmc.data.zam] reads; for every nuclide
    that decays, daughters that are in the decay data or that
    [replace_missing] replaces within [fuel] turns; an entry of
    [ATOMIC_SYMBOL] for the product of every reaction the evaluation
    has; the Q value of MT 18 for every nuclide with a fission MT and
    yields; and fission products that are in the decay data or are
    replaced by a name [zam] reads. *)
Theorem from_endf_returns fuel rx_data (dd : odict (Decay F)) fpy_data :
  library_loads fuel rx_data dd fpy_data = true ->
  exists c log, from_endf fuel rx_data dd fpy_data = Some (Ok (c, log)).
Proof.
  intros Hl. unfold library_loads in Hl. apply andb_true_iff in Hl as [Hnames Hall].
  unfold from_endf.
  destruct (sorted_by_zam_total _ Hnames) as [parents Hs]. rewrite Hs.
  apply sorted_by_zam_spec in Hs as [Hperm _].
  destruct (fuel_foldM_total (fun _ => True) (from_endf_nuclide fuel rx_data dd fpy_data)
              (imap pair parents))
    with (a := (mkChain (F := F) [] [] ∅, mkLog (F := F) [] [] [] []))
    as ([c log] & Hf & _); [|exact I|eauto].
  intros st [idx parent] Hin _.
  apply elem_of_lookup_imap in Hin as (i & p & [= -> ->] & Hp).
  destruct (from_endf_nuclide_total fuel rx_data dd fpy_data st i p Hnames Hall) as [st' ->];
    [|eauto].
  rewrite <- Hperm. eapply list_elem_of_lookup_2. exact Hp.
Qed.

End LoadFactsEndf.

(** ** [Chain.validate] *)

Lemma insert_name_elem (x : string) (l : list string) y :
  y ∈ insert_name x l <-> y = x \/ y ∈ l.
Proof.
  induction l as [|z l IH]; simpl.
  - rewrite list_elem_of_singleton. split; [auto|]. intros [Hy|Hy]; [exact Hy|inversion Hy].
  - destruct (String.ltb x z); rewrite !elem_of_cons; [tauto|]. rewrite IH. tauto.
Qed.

Lemma sorted_names_elem (names : list string) y : y ∈ sorted_names names <-> y ∈ names.
Proof.
  unfold sorted_names.
  assert (Hgen : forall acc, y ∈ fold_left (fun acc x => insert_name x acc) names acc <->
                             y ∈ acc \/ y ∈ names).
  { induction names as [|x names IH]; intros acc; simpl.
    - split; [auto|]. intros [Hy|Hy]; [exact Hy|inversion Hy].
    - rewrite IH, insert_name_elem, elem_of_cons. tauto. }
  rewrite Hgen. split; [intros [Hy|Hy]; [inversion Hy|exact Hy]|auto].
Qed.

Section ValidateFacts.
Context {F : Type} {AF : Arith F}.
Variable check_tolerance : F -> result unit.
Variable Nuclide_validate : Nuclide F -> bool -> bool -> F -> result bool.

Lemma indexed_names (c : Chain F) name :
  name ∈ sorted_names (map fst (map_to_list (nuclide_dict c))) <->
  is_Some (nuclide_dict c !! name).
Proof.
  rewrite sorted_names_elem, list_elem_of_fmap. split.
  - intros ([n i] & -> & Hin). apply elem_of_map_to_list in Hin. simpl. eauto.
  - intros [i Hi]. exists (name, i). split; [reflexivity|].
    apply elem_of_map_to_list. exact Hi.
Qed.

Lemma validate_loop_all (c : Chain F) strict quiet tolerance (v : Nuclide F -> bool) names :
  (forall name, name ∈ names ->
     exists nuc, chain_getitem c name = Ok nuc /\
                 Nuclide_validate nuc strict quiet tolerance = Ok (v nuc)) ->
  forall valid,
    validate_loop Nuclide_validate c strict quiet tolerance names valid
      = Ok (valid && forallb (validates c v) names).
Proof.
  induction names as [|name names IH]; intros Hall valid; simpl.
  - rewrite andb_true_r. reflexivity.
  - destruct (Hall name) as (nuc & Hget & Hval); [left|].
    unfold validates at 1. rewrite Hget. simpl. rewrite Hval. simpl.
    destruct (quiet && negb (v nuc)) eqn:Eq.
    + apply andb_true_iff in Eq as [_ Eq]. apply negb_true_iff in Eq.
      rewrite Eq. simpl. rewrite andb_false_r. reflexivity.
    + rewrite IH, andb_assoc; [reflexivity|].
      intros n Hn. apply Hall. right. exact Hn.
Qed.

Lemma validate_loop_raises (c : Chain F) strict quiet tolerance names :
  forall valid e,
    validate_loop Nuclide_validate c strict quiet tolerance names valid = Raise e ->
    exists name, name ∈ names /\
      (chain_getitem c name = Raise e \/
       exists nuc, chain_getitem c name = Ok nuc /\
                   Nuclide_validate nuc strict quiet tolerance = Raise e).
Proof.
  induction names as [|name names IH]; intros valid e Hl; simpl in Hl; [discriminate|].
  destruct (chain_getitem c name) as [nuc|e1] eqn:Hget; simpl in Hl.
  - destruct (Nuclide_validate nuc strict quiet tolerance) as [stat|e2] eqn:Hval; simpl in Hl.
    + destruct (quiet && negb stat); [discriminate|].
      apply IH in Hl as (n & Hn & Hcase). exists n. split; [right; exact Hn|exact Hcase].
    + injection Hl as <-. exists name. split; [left|]. right. eauto.
  - injection Hl as <-. exists name. split; [left|]. left. exact Hget.
Qed.

(** When the tolerance passes its checks and [Nuclide.validate] raises
    nothing, [validate] returns the conjunction of the validations of
    the nuclides the index points to, in quiet mode as well: it returns
    [True] exactly when each of them validates.  A nuclide the index
    does not point to is not looked at. *)
Theorem validate_conjunction (c : Chain F) strict quiet tolerance (v : Nuclide F -> bool) :
  check_tolerance tolerance = Ok tt ->
  (forall name i, nuclide_dict c !! name = Some i ->
     exists nuc, nuclides c !! i = Some nuc /\
                 Nuclide_validate nuc strict quiet tolerance = Ok (v nuc)) ->
  exists valid,
    validate check_tolerance Nuclide_validate c strict quiet tolerance = Ok valid /\
    (valid = true <->
     forall name i nuc, nuclide_dict c !! name = Some i -> nuclides c !! i = Some nuc ->
                        v nuc = true).
Proof.
  intros Hcheck Hall. unfold validate. rewrite Hcheck. simpl.
  rewrite (validate_loop_all c strict quiet tolerance v).
  - eexists. split; [reflexivity|]. simpl. rewrite forallb_forall. split.
    + intros Hv name i nuc Hi Hnuc.
      assert (Hin : name ∈ sorted_names (map fst (map_to_list (nuclide_dict c))))
        by (apply indexed_names; eauto).
      apply list_elem_of_In, Hv in Hin. unfold validates, chain_getitem, getitem, nth_item in Hin.
      rewrite Hi in Hin. simpl in Hin. rewrite Hnuc in Hin. exact Hin.
    + intros Hv name Hin. apply list_elem_of_In, indexed_names in Hin as [i Hi].
      unfold validates, chain_getitem, getitem, nth_item. rewrite Hi. simpl.
      destruct (nuclides c !! i) as [nuc|] eqn:Hnuc; [|reflexivity].
      exact (Hv name i nuc Hi Hnuc).
  - intros name Hin. apply indexed_names in Hin as [i Hi].
    destruct (Hall name i Hi) as (nuc & Hnuc & Hval). exists nuc. split; [|exact Hval].
    unfold chain_getitem, getitem, nth_item. rewrite Hi. simpl. rewrite Hnuc. reflexivity.
Qed.

(** [validate] raises what the checks of the tolerance raise, what
    [Nuclide.validate] raises for a nuclide the index points to, or
    [IndexError] when the index points past the list of nuclides; it
    raises no [KeyError]. *)
Theorem validate_exceptions (c : Chain F) strict quiet tolerance e :
  validate check_tolerance Nuclide_validate c strict quiet tolerance = Raise e ->
  check_tolerance tolerance = Raise e \/
  exists name i,
    nuclide_dict c !! name = Some i /\
    ((nuclides c !! i = None /\ e = IndexError) \/
     exists nuc, nuclides c !! i = Some nuc /\
                 Nuclide_validate nuc strict quiet tolerance = Raise e).
Proof.
  unfold validate. destruct (check_tolerance tolerance) as [[]|e0]; simpl.
  - intros Hl. right. apply validate_loop_raises in Hl as (name & Hin & Hcase).
    apply indexed_names in Hin as [i Hi]. exists name, i. split; [exact Hi|].
    unfold chain_getitem, getitem, nth_item in Hcase. rewrite Hi in Hcase. simpl in Hcase.
    destruct (nuclides c !! i) as [nuc|].
    + right. exists nuc. split; [reflexivity|].
      destruct Hcase as [Hc|(nuc' & [= <-] & Hval)]; [discriminate|exact Hval].
    + left. split; [reflexivity|].
      destruct Hcase as [[= <-]|(nuc' & Hc & _)]; [reflexivity|discriminate].
  - intros [= <-]. left. reflexivity.
Qed.

End ValidateFacts.

(** ** Examples on the small libraries *)

Lemma endf_chain_built :
  from_endf 5 endf_rx endf_decay endf_fpy = Some (Ok (endf_chain, endf_chain_log)).
Proof. vm_compute. reflexivity. Qed.

Lemma endf_u235_listed : endf_u235 ∈ nuclides endf_chain.
Proof. unfold endf_chain. simpl. rewrite !elem_of_cons. auto 10. Qed.

Lemma endf_xe135_listed : endf_xe135 ∈ nuclides endf_chain.
Proof. unfold endf_chain. simpl. rewrite !elem_of_cons. auto 10. Qed.

Lemma am_matrix_formed : form_matrix log2_binary64 am_chain am_rates = Ok (5, am_matrix).
Proof. vm_compute. reflexivity. Qed.

(** Both capture ratios of Am241 set to 0.8 and 0.2. *)
Lemma set_branch_ratios_frame_am241 :
  (index_injective am_chain /\ NoDup (od_keys ratios_both)) /\
  nuclide_dict (out_chain am_both) = nuclide_dict am_chain /\
  chain_reactions (out_chain am_both) = chain_reactions am_chain /\
  chain_len (out_chain am_both) = chain_len am_chain /\
  forall i nuc,
    nuclides am_chain !! i = Some nuc ->
    exists nuc',
      nuclides (out_chain am_both) !! i = Some nuc' /\
      same_but_reactions nuc nuc' /\
      other_reactions "(n,gamma)" nuc' = other_reactions "(n,gamma)" nuc /\
      ((forall p, p ∈ od_keys ratios_both -> nuclide_dict am_chain !! p <> Some i) ->
       nuc' = nuc).
Proof.
  assert (H1 : index_injective am_chain) by (apply (bool_decide_unpack _); vm_compute; reflexivity).
  assert (H2 : NoDup (od_keys ratios_both)) by (apply (bool_decide_unpack _); vm_compute; reflexivity).
  split; [split; assumption|].
  exact (set_branch_ratios_frame am_chain ratios_both "(n,gamma)" true 1e-5%float H1 H2).
Defined.

(** The ratios 0.8 and 0.2 read back from the chain. *)
Lemma set_then_get_branch_ratios_am241 :
  (indexed am_chain /\
   NoDup (od_keys ratios_both) /\
   unshared ratios_both /\
   secondary_of "(n,gamma)" = [] /\
   out_exn am_both = None /\
   ("Am241", (0, [("Am242", 0.8%float); ("Am242_m1", 0.2%float)])) ∈ ratios_both /\
   "Am241" ∈ od_keys (rxn_ix_map (out_report am_both)) /\
   NoDup (od_keys [("Am242", 0.8%float); ("Am242_m1", 0.2%float)])) /\
  exists sub',
    od_get (out_ratios am_both) "Am241" = Some (0, sub') /\
    od_get (get_branch_ratios (out_chain am_both) "(n,gamma)") "Am241" = as_reported sub'.
Proof.
  assert (H1 : indexed am_chain).
  { split; [apply (bool_decide_unpack _); vm_compute; reflexivity|vm_compute; reflexivity]. }
  assert (H2 : NoDup (od_keys ratios_both)) by (apply (bool_decide_unpack _); vm_compute; reflexivity).
  assert (H3 : unshared ratios_both) by (apply (bool_decide_unpack _); vm_compute; reflexivity).
  assert (H4 : out_exn am_both = None) by (vm_compute; reflexivity).
  assert (H5 : ("Am241", (0, [("Am242", 0.8%float); ("Am242_m1", 0.2%float)])) ∈ ratios_both)
    by left.
  assert (H6 : "Am241" ∈ od_keys (rxn_ix_map (out_report am_both))) by (vm_compute; left).
  assert (H7 : NoDup (od_keys [("Am242", 0.8%float); ("Am242_m1", 0.2%float)]))
    by (apply (bool_decide_unpack _); vm_compute; reflexivity).
  split; [exact (conj H1 (conj H2 (conj H3 (conj eq_refl (conj H4 (conj H5 (conj H6 H7)))))))|].
  exact (set_then_get_branch_ratios am_chain ratios_both "(n,gamma)" true 1e-5%float
           "Am241" 0 [("Am242", 0.8%float); ("Am242_m1", 0.2%float)]
           H1 H2 H3 eq_refl H4 H5 H6 H7).
Defined.

(** The nuclides of the Am241 chain, loaded one by one. *)
Lemma from_xml_index_am_chain :
  from_xml (Nuclide float) parsed_name parsed None (nuclides am_chain) = Ok am_chain /\
  Forall2 (fun e nuc => parsed e (q_for parsed_name None e) = Ok nuc)
          (nuclides am_chain) (nuclides am_chain) /\
  names_last am_chain /\
  index_injective am_chain /\
  (forall n, chain_contains am_chain n = true ->
             exists nuc, chain_getitem am_chain n = Ok nuc /\ name nuc = n) /\
  (NoDup (map name (nuclides am_chain)) -> indexed am_chain).
Proof.
  assert (H1 : from_xml (Nuclide float) parsed_name parsed None (nuclides am_chain) = Ok am_chain)
    by (vm_compute; reflexivity).
  split; [exact H1|].
  exact (from_xml_index (Nuclide float) parsed_name parsed None (nuclides am_chain) am_chain H1).
Defined.

Lemma from_xml_reactions_am_chain :
  from_xml (Nuclide float) parsed_name parsed None (nuclides am_chain) = Ok am_chain /\
  NoDup (chain_reactions am_chain) /\
  forall r, r ∈ chain_reactions am_chain <-> carries am_chain r = true.
Proof.
  assert (H1 : from_xml (Nuclide float) parsed_name parsed None (nuclides am_chain) = Ok am_chain)
    by (vm_compute; reflexivity).
  split; [exact H1|].
  exact (from_xml_reactions (Nuclide float) parsed_name parsed None (nuclides am_chain)
           am_chain H1).
Defined.

(** The chain of the small library. *)
Lemma from_endf_index_small_library :
  (NoDup (od_keys endf_decay) /\
   from_endf 5 endf_rx endf_decay endf_fpy = Some (Ok (endf_chain, endf_chain_log))) /\
  map name (nuclides endf_chain) ≡ₚ od_keys endf_decay /\
  zam_ordered (map name (nuclides endf_chain)) /\
  indexed endf_chain /\
  index_injective endf_chain /\
  length (yield_energies endf_chain_log) = chain_len endf_chain.
Proof.
  assert (H1 : NoDup (od_keys endf_decay)) by (apply (bool_decide_unpack _); vm_compute; reflexivity).
  split; [split; [exact H1|exact endf_chain_built]|].
  exact (from_endf_index 5 endf_rx endf_decay endf_fpy endf_chain endf_chain_log H1
           endf_chain_built).
Defined.

Lemma from_endf_reactions_listed_small_library :
  from_endf 5 endf_rx endf_decay endf_fpy = Some (Ok (endf_chain, endf_chain_log)) /\
  NoDup (chain_reactions endf_chain) /\
  forall r, r ∈ chain_reactions endf_chain <-> carries endf_chain r = true.
Proof.
  split; [exact endf_chain_built|].
  exact (from_endf_reactions_listed 5 endf_rx endf_decay endf_fpy endf_chain endf_chain_log
           endf_chain_built).
Defined.

(** U235 of the small library: (n,2n), (n,gamma) and fission. *)
Lemma from_endf_transitions_u235 :
  (from_endf 5 endf_rx endf_decay endf_fpy = Some (Ok (endf_chain, endf_chain_log)) /\
   endf_u235 ∈ nuclides endf_chain) /\
  map r_type (reactions endf_u235) `sublist_of` endf_reaction_types /\
  NoDup (map r_type (reactions endf_u235)) /\
  forall rxt, rxt ∈ reactions endf_u235 -> r_branching_ratio rxt = f1.
Proof.
  split; [split; [exact endf_chain_built|exact endf_u235_listed]|].
  exact (from_endf_transitions 5 endf_rx endf_decay endf_fpy endf_chain endf_chain_log
           endf_u235 endf_chain_built endf_u235_listed).
Defined.

(** The (n,2n) transition of Xe135, whose evaluation has MT 875 and not
    MT 16. *)
Lemma from_endf_q_values_xe135 :
  (from_endf 5 endf_rx endf_decay endf_fpy = Some (Ok (endf_chain, endf_chain_log)) /\
   endf_xe135 ∈ nuclides endf_chain /\
   mkReaction "(n,2n)" (TName "Xe134") (-6.4e6)%float 1%float ∈ reactions endf_xe135) /\
  exists data rx,
    od_get endf_decay "Xe135" = Some data /\ endf_rx !! "Xe135" = Some rx /\
    (("(n,2n)" = "fission" /\ TName "Xe134" = @TZero /\ rx !! 18%Z = Some (-6.4e6)%float /\
      is_Some (endf_fpy !! "Xe135")) \/
     (exists mts delta_A delta_Z symbol mt,
        ("(n,2n)", mts, (delta_A, delta_Z)) ∈ REACTIONS /\
        ATOMIC_SYMBOL !! (dk_atomic_number data + delta_Z)%Z = Some symbol /\
        TName "Xe134" = TName (format2 symbol (dk_mass_number data + delta_A)%Z) /\
        mt ∈ mts /\ rx !! mt = Some (-6.4e6)%float /\
        forall mt', mt' ∈ mts -> is_Some (rx !! mt') -> (mt <= mt')%Z)).
Proof.
  assert (H3 : mkReaction "(n,2n)" (TName "Xe134") (-6.4e6)%float 1%float ∈ reactions endf_xe135)
    by left.
  split; [split; [exact endf_chain_built|split; [exact endf_xe135_listed|exact H3]]|].
  exact (from_endf_q_values 5 endf_rx endf_decay endf_fpy endf_chain endf_chain_log
           endf_xe135 _ endf_chain_built endf_xe135_listed H3).
Defined.

Lemma from_endf_no_branch_ratios_small_library :
  (feqb (f1 : float) f1 = true /\
   from_endf 5 endf_rx endf_decay endf_fpy = Some (Ok (endf_chain, endf_chain_log))) /\
  get_branch_ratios endf_chain "(n,gamma)" = [].
Proof.
  split; [split; [reflexivity|exact endf_chain_built]|].
  exact (from_endf_no_branch_ratios 5 endf_rx endf_decay endf_fpy endf_chain endf_chain_log
           "(n,gamma)" eq_refl endf_chain_built).
Defined.

(** U235 with fission yields and an evaluation that has MT 19 alone. *)
Lemma from_endf_needs_mt18_u235 :
  ("U235" ∈ od_keys endf_decay /\
   endf_rx_mt19 !! "U235" = Some (list_to_map [(19%Z, 1.93e8%float)]) /\
   is_Some (endf_fpy !! "U235") /\
   available (list_to_map [(19%Z, 1.93e8%float)] : gmap Z float) [19; 20; 21; 38]%Z = true /\
   (list_to_map [(19%Z, 1.93e8%float)] : gmap Z float) !! 18%Z = None) /\
  from_endf 5 endf_rx_mt19 endf_decay endf_fpy = Some (Raise (KeyError "18")) /\
  forall r, from_endf 5 endf_rx_mt19 endf_decay endf_fpy <> Some (Ok r).
Proof.
  assert (H1 : "U235" ∈ od_keys endf_decay) by left.
  assert (H2 : endf_rx_mt19 !! "U235" = Some (list_to_map [(19%Z, 1.93e8%float)]))
    by (vm_compute; reflexivity).
  assert (H3 : is_Some (endf_fpy !! "U235")) by (vm_compute; eauto).
  assert (H4 : available (list_to_map [(19%Z, 1.93e8%float)] : gmap Z float)
                 [19; 20; 21; 38]%Z = true) by (vm_compute; reflexivity).
  assert (H5 : (list_to_map [(19%Z, 1.93e8%float)] : gmap Z float) !! 18%Z = None)
    by (vm_compute; reflexivity).
  split; [exact (conj H1 (conj H2 (conj H3 (conj H4 H5))))|].
  split; [vm_compute; reflexivity|].
  exact (from_endf_needs_mt18 5 endf_rx_mt19 endf_decay endf_fpy "U235" _ H1 H2 H3 H4 H5).
Defined.

(** The yields of U235 at 0.0253 eV: Y90 is not in the library, and its
    yield is stored under Zr90. *)
Lemma from_endf_yield_products_u235 :
  (from_endf 5 endf_rx endf_decay endf_fpy = Some (Ok (endf_chain, endf_chain_log)) /\
   endf_u235 ∈ nuclides endf_chain /\
   (0.0253%float, [("Sr90", 0.05%float); ("Zr90", 0.01%float); ("Xe135", 0.06%float)])
     ∈ yield_data endf_u235) /\
  NoDup (map fst [("Sr90", 0.05%float); ("Zr90", 0.01%float); ("Xe135", 0.06%float)]) /\
  zam_ordered (map fst [("Sr90", 0.05%float); ("Zr90", 0.01%float); ("Xe135", 0.06%float)]) /\
  forall k y, (k, y) ∈ [("Sr90", 0.05%float); ("Zr90", 0.01%float); ("Xe135", 0.06%float)] ->
              chain_contains endf_chain k = true \/ k = "H1".
Proof.
  assert (H3 : (0.0253%float,
                [("Sr90", 0.05%float); ("Zr90", 0.01%float); ("Xe135", 0.06%float)])
               ∈ yield_data endf_u235) by (right; left).
  split; [split; [exact endf_chain_built|split; [exact endf_u235_listed|exact H3]]|].
  exact (from_endf_yield_products 5 endf_rx endf_decay endf_fpy endf_chain endf_chain_log
           endf_u235 _ _ endf_chain_built endf_u235_listed H3).
Defined.

(** The Am241 chain with its rate table. *)
Lemma form_matrix_returns_am_chain :
  matrix_ready am_chain am_rates = true /\
  exists M, form_matrix log2_binary64 am_chain am_rates = Ok (chain_len am_chain, M).
Proof.
  split; [vm_compute; reflexivity|].
  exact (form_matrix_returns log2_binary64 am_chain am_rates eq_refl).
Defined.

Lemma form_matrix_needs_am_chain :
  form_matrix log2_binary64 am_chain am_rates = Ok (5, am_matrix) /\
  5 = chain_len am_chain /\
  forall nuc, nuc ∈ nuclides am_chain ->
    (n_decay_modes nuc <> 0 ->
       exists hl, half_life nuc = Some hl /\ feqb hl f0 = false) /\
    (forall nuc_ind, index_nuc am_rates !! name nuc = Some nuc_ind ->
       exists nuc_rates,
         rates_data am_rates !! nuc_ind = Some nuc_rates /\
         forall rx, rx ∈ reactions nuc ->
           exists r_id p, index_rx am_rates !! r_type rx = Some r_id /\
                          nuc_rates !! r_id = Some p).
Proof.
  split; [exact am_matrix_formed|].
  exact (form_matrix_needs log2_binary64 am_chain am_rates 5 am_matrix am_matrix_formed).
Defined.

(** The decay gain of Np237 in the column of Am241. *)
Lemma form_matrix_entries_am_chain :
  (form_matrix log2_binary64 am_chain am_rates = Ok (5, am_matrix) /\
   am_matrix !! (4, 0) = Some 5.0817241976535577e-11%float) /\
  (exists nuc, nuclides am_chain !! 0 = Some nuc /\ idle am_rates nuc = false) /\
  0 < 5 /\
  (4 = 0 \/ exists nm, nuclide_dict am_chain !! nm = Some 4) /\
  ((forall nm k', nuclide_dict am_chain !! nm = Some k' -> k' < chain_len am_chain) -> 4 < 5).
Proof.
  assert (H2 : am_matrix !! (4, 0) = Some 5.0817241976535577e-11%float)
    by (vm_compute; reflexivity).
  split; [split; [exact am_matrix_formed|exact H2]|].
  exact (form_matrix_entries log2_binary64 am_chain am_rates 5 am_matrix 4 0 _
           am_matrix_formed H2).
Defined.

(** I135 against the small library, which holds no isotope of iodine. *)
Lemma replace_missing_unbound_local_i135 :
  (zam "I135" = Ok (53, 135, 0)%Z /\
   ATOMIC_SYMBOL !! 53%Z = Some "I" /\
   ((53 =? 0) && (135 =? 1))%Z = false) /\
  replace_missing 5 "I135" endf_decay = Some (Raise UnboundLocalError) /\
  (replace_missing 5 "I135" endf_decay = Some (Raise UnboundLocalError) <->
   forall entry, entry ∈ endf_decay -> binds_mass "I" entry = false).
Proof.
  split; [repeat split; vm_compute; reflexivity|].
  split; [vm_compute; reflexivity|].
  exact (replace_missing_unbound_local 5 "I135" endf_decay 53 135 0 "I"
           eq_refl eq_refl eq_refl).
Defined.

(** U240 is heavier than U238, so the walk goes up; the library holds no
    element above uranium. *)
Lemma replace_missing_never_ends_u240 :
  (zam "U240" = Ok (92, 240, 0)%Z /\
   ATOMIC_SYMBOL !! 92%Z = Some "U" /\
   ((92 =? 0) && (240 =? 1))%Z = false /\
   scan_isotopes "U" u238_library None f0 = Some 238%Z /\
   (238 < 240)%Z /\
   (92 <= 98)%Z /\
   od_mem u238_library (start_name "U240" "U" 240 0) = false /\
   (forall z', on_the_way_up 92 z' ->
      exists sym, ATOMIC_SYMBOL !! z' = Some sym /\
                  forall a', od_mem u238_library (format2 sym a') = false)) /\
  forall fuel, replace_missing fuel "U240" u238_library = None.
Proof.
  assert (H8 : forall z', on_the_way_up 92 z' ->
      exists sym, ATOMIC_SYMBOL !! z' = Some sym /\
                  forall a', od_mem u238_library (format2 sym a') = false).
  { intros z' Hz. unfold on_the_way_up in Hz.
    assert (Hc : (z' = 93 \/ z' = 94 \/ z' = 95 \/ z' = 96 \/ z' = 97 \/ z' = 98 \/ z' = 99)%Z)
      by lia.
    destruct Hc as [->|[->|[->|[->|[->|[->| ->]]]]]];
      (eexists; split; [reflexivity|intros a'; reflexivity]). }
  split.
  - split; [reflexivity|]. split; [reflexivity|]. split; [reflexivity|].
    split; [vm_compute; reflexivity|]. split; [lia|]. split; [lia|].
    split; [vm_compute; reflexivity|exact H8].
  - exact (replace_missing_never_ends "U240" u238_library 92 240 0 "U" 238
             eq_refl eq_refl eq_refl eq_refl eq_refl ltac:(lia) eq_refl H8).
Defined.

(** Li4 is lighter than Li6, so the walk goes down: He4, H4, n4, and
    then the atomic number -1. *)
Lemma replace_missing_leaves_the_table_li4 :
  (zam "Li4" = Ok (3, 4, 0)%Z /\
   ATOMIC_SYMBOL !! 3%Z = Some "Li" /\
   ((3 =? 0) && (4 =? 1))%Z = false /\
   scan_isotopes "Li" li6_library None f0 = Some 6%Z /\
   (4 <= 6)%Z /\
   (0 <= 3 <= 98)%Z /\
   od_mem li6_library (start_name "Li4" "Li" 4 0) = false /\
   (forall z', (0 <= z' < 3)%Z ->
      exists sym, ATOMIC_SYMBOL !! z' = Some sym /\ od_mem li6_library (format2 sym 4) = false) /\
   ATOMIC_SYMBOL !! (-1)%Z = None /\
   Z.to_nat 3 < 5) /\
  replace_missing 5 "Li4" li6_library = Some (Raise (KeyError "-1")).
Proof.
  assert (H8 : forall z', (0 <= z' < 3)%Z ->
      exists sym, ATOMIC_SYMBOL !! z' = Some sym /\ od_mem li6_library (format2 sym 4) = false).
  { intros z' Hz.
    assert (Hc : (z' = 0 \/ z' = 1 \/ z' = 2)%Z) by lia.
    destruct Hc as [->|[->| ->]]; (eexists; split; reflexivity). }
  split.
  - split; [reflexivity|]. split; [reflexivity|]. split; [reflexivity|].
    split; [vm_compute; reflexivity|]. split; [lia|]. split; [lia|].
    split; [vm_compute; reflexivity|]. split; [exact H8|]. split; [reflexivity|].
    vm_compute. lia.
  - exact (replace_missing_leaves_the_table "Li4" li6_library 3 4 0 "Li" 6
             eq_refl eq_refl eq_refl eq_refl ltac:(lia) ltac:(lia) eq_refl H8 eq_refl
             5 ltac:(vm_compute; lia)).
Defined.

(** Non-strict mode; Pu239 passes, Am241 has no ground-state target. *)
Lemma set_branch_ratios_lenient_exceptions_am241 :
  (index_injective meta_chain /\
   NoDup (od_keys ratios_pu_then_am) /\
   out_exn (set_branch_ratios meta_chain ratios_pu_then_am "(n,gamma)" false 1e-5%float)
     = Some (KeyError "Am241")) /\
  (KeyError "Am241" = IndexError \/ KeyError "Am241" = TypeError \/
   exists p, KeyError "Am241" = KeyError p /\ p ∈ od_keys ratios_pu_then_am /\
             chain_contains meta_chain p = true).
Proof.
  assert (H1 : index_injective meta_chain) by (apply (bool_decide_unpack _); vm_compute; reflexivity).
  assert (H2 : NoDup (od_keys ratios_pu_then_am)) by (apply (bool_decide_unpack _); vm_compute; reflexivity).
  assert (H3 : out_exn (set_branch_ratios meta_chain ratios_pu_then_am "(n,gamma)" false
                          1e-5%float) = Some (KeyError "Am241")) by (vm_compute; reflexivity).
  split; [exact (conj H1 (conj H2 H3))|].
  exact (set_branch_ratios_lenient_exceptions meta_chain ratios_pu_then_am "(n,gamma)"
           1e-5%float (KeyError "Am241") H1 H2 H3).
Defined.

Lemma merge_chain_built :
  from_endf 5 merge_rx merge_decay merge_fpy = Some (Ok (merge_chain, merge_chain_log)).
Proof. vm_compute. reflexivity. Qed.

Lemma abc_matrix_formed : form_matrix log2_binary64 abc_chain no_rates = Ok (3, abc_matrix).
Proof. vm_compute. reflexivity. Qed.

(** The yields 0.2 of Zr90 and 0.3 of Y90 are both stored under Zr90,
    as (0.0 + 0.2) + 0.3 = 0.5.  In binary64 the stored yields then add
    up to 0.5 + 0.1 = 0.59999999999999998, the table to
    (0.1 + 0.2) + 0.3 = 0.60000000000000009. *)
Lemma from_endf_yields_sums_u235 :
  (from_endf 5 merge_rx merge_decay merge_fpy = Some (Ok (merge_chain, merge_chain_log)) /\
   merge_u235 ∈ nuclides merge_chain /\
   (0%float, [("Zr90", 0.5%float); ("Xe135", 0.1%float)]) ∈ yield_data merge_u235) /\
  (yields_of 5 merge_decay merge_table "Zr90" = [0.2%float; 0.3%float] /\
   fsum [0.2%float; 0.3%float] = 0.5%float /\
   fsum [0.5%float; 0.1%float] = 0.59999999999999998%float /\
   fsum (od_values merge_table) = 0.60000000000000009%float) /\
  exists fpy table,
    merge_fpy !! "U235" = Some fpy /\ table ∈ fpy_independent fpy /\
    (forall k y, (k, y) ∈ [("Zr90", 0.5%float); ("Xe135", 0.1%float)] ->
       yields_of 5 merge_decay table k <> [] /\ y = fsum (yields_of 5 merge_decay table k)) /\
    (forall product y, (product, y) ∈ table ->
       exists k, stored_under 5 merge_decay product = Some k /\
                 k ∈ map fst [("Zr90", 0.5%float); ("Xe135", 0.1%float)]).
Proof.
  assert (H2 : merge_u235 ∈ nuclides merge_chain) by (do 3 right; left).
  assert (H3 : (0%float, [("Zr90", 0.5%float); ("Xe135", 0.1%float)]) ∈ yield_data merge_u235)
    by left.
  split; [exact (conj merge_chain_built (conj H2 H3))|].
  split; [repeat split; vm_compute; reflexivity|].
  exact (from_endf_yields_sums 5 merge_rx merge_decay merge_fpy merge_chain merge_chain_log
           merge_u235 _ _ merge_chain_built H2 H3).
Defined.

(** The column of A: the decay constant is ln(2)/10, row 2 holds
    0.9 times it.  In binary64 the three entries add up to
    6.9388939039072284e-18, not to 0.0. *)
Lemma decay_column_entries_abc :
  (nuclides abc_chain !! 0 = Some abc_a /\
   index_nuc no_rates !! name abc_a = None /\
   n_decay_modes abc_a <> 0 /\
   half_life abc_a = Some 10%float /\
   form_matrix log2_binary64 abc_chain no_rates = Ok (3, abc_matrix)) /\
  (decay_gains_to abc_chain (fdiv log2_binary64 10%float) (decay_modes abc_a) 2
     = [0.062383246250395076%float] /\
   fsum [m_get abc_matrix (0, 0); m_get abc_matrix (1, 0); m_get abc_matrix (2, 0)]
     = 6.9388939039072284e-18%float) /\
  m_get abc_matrix (2, 0) =
    fold_left fadd (decay_gains_to abc_chain (fdiv log2_binary64 10%float) (decay_modes abc_a) 2)
              (if (2 =? 0) && fneb (fdiv log2_binary64 10%float) f0
               then fsub f0 (fdiv log2_binary64 10%float) else f0).
Proof.
  assert (H3 : n_decay_modes abc_a <> 0) by (vm_compute; lia).
  split; [exact (conj eq_refl (conj eq_refl (conj H3 (conj eq_refl abc_matrix_formed))))|].
  split; [split; vm_compute; reflexivity|].
  exact (decay_column_entries log2_binary64 abc_chain no_rates 0 abc_a 10%float 3 abc_matrix 2
           eq_refl eq_refl H3 eq_refl abc_matrix_formed).
Defined.

(** The capture branches of Am241 as the chain reports them. *)
Lemma get_branch_ratios_reports_am_chain :
  get_branch_ratios am_chain "(n,gamma)" =
    [("Am241", [(TName "Am242", 0.9%float); (TName "Am242_m1", 0.1%float)])] /\
  (forall p,
     p ∈ od_keys (get_branch_ratios am_chain "(n,gamma)") <->
     exists nuc rx, nuc ∈ nuclides am_chain /\ name nuc = p /\ rx ∈ reactions nuc /\
                    r_type rx = "(n,gamma)" /\ fneb (r_branching_ratio rx) f1 = true) /\
  (forall p d,
     od_get (get_branch_ratios am_chain "(n,gamma)") p = Some d ->
     d <> [] /\
     exists nuc, nuc ∈ nuclides am_chain /\ name nuc = p /\
       forall t v, (t, v) ∈ d ->
         fneb v f1 = true /\
         exists rx, rx ∈ reactions nuc /\ r_type rx = "(n,gamma)" /\
                    r_target rx = t /\ r_branching_ratio rx = v).
Proof.
  split; [vm_compute; reflexivity|].
  exact (get_branch_ratios_reports am_chain "(n,gamma)").
Defined.

(** A path too short, the path of a library at 294K and a path whose
    third character from the end is no key of the table. *)
Lemma get_temp_reads_third_from_end_paths :
  get_temp "nc" = Raise IndexError /\
  get_temp "Lib80x/B/5010.800nc" = Ok "294K" /\
  get_temp "Lib80x/B/5010.807nc" = Raise (KeyError "7").
Proof.
  destruct get_temp_reads_third_from_end as (Hshort & Hkey & _).
  split; [apply Hshort; vm_compute; lia|].
  split.
  - exact (Hkey "Lib80x/B/5010.80" "0"%char "n"%char "c"%char).
  - exact (Hkey "Lib80x/B/5010.80" "7"%char "n"%char "c"%char).
Defined.

Lemma endf_sr90_listed : endf_sr90 ∈ nuclides endf_chain.
Proof. unfold endf_chain. simpl. rewrite !elem_of_cons. auto 10. Qed.

(** Sr90 of the small library, whose daughter Y90 is replaced by Zr90. *)
Lemma from_endf_decay_modes_sr90 :
  (from_endf 5 endf_rx endf_decay endf_fpy = Some (Ok (endf_chain, endf_chain_log)) /\
   endf_sr90 ∈ nuclides endf_chain) /\
  exists data,
    od_get endf_decay "Sr90" = Some data /\
    (if negb (dk_stable data) && fneb (dk_half_life data) f0
     then half_life endf_sr90 = Some (dk_half_life data) /\
          decay_energy endf_sr90 = fsum (dk_average_energies data) /\
          map d_type (decay_modes endf_sr90) =
            map (fun m : DecayMode float => String.concat "," (m_modes m)) (dk_modes data)
     else half_life endf_sr90 = None /\ decay_energy endf_sr90 = f0 /\
          decay_modes endf_sr90 = []) /\
    forall mode, mode ∈ decay_modes endf_sr90 ->
      chain_contains endf_chain (d_target mode) = true \/ d_target mode = "H1".
Proof.
  split; [exact (conj endf_chain_built endf_sr90_listed)|].
  exact (from_endf_decay_modes 5 endf_rx endf_decay endf_fpy endf_chain endf_chain_log
           endf_sr90 endf_chain_built endf_sr90_listed).
Defined.

(** The chain of the small library with an empty rate table. *)
Lemma from_endf_decay_matrix_small_library :
  (from_endf 5 endf_rx endf_decay endf_fpy = Some (Ok (endf_chain, endf_chain_log)) /\
   od_mem endf_decay "H1" = true /\
   (forall nuc, nuc ∈ nuclides endf_chain -> index_nuc no_rates !! name nuc = None)) /\
  exists M, form_matrix log2_binary64 endf_chain no_rates = Ok (chain_len endf_chain, M).
Proof.
  assert (H3 : forall nuc, nuc ∈ nuclides endf_chain -> index_nuc no_rates !! name nuc = None)
    by (intros nuc _; apply lookup_empty).
  split; [exact (conj endf_chain_built (conj eq_refl H3))|].
  exact (from_endf_decay_matrix log2_binary64 5 endf_rx endf_decay endf_fpy endf_chain
           endf_chain_log no_rates endf_chain_built eq_refl H3).
Defined.

(** The small library: four capture and (n,2n) products without decay
    data, and Th231 without yields. *)
Lemma from_endf_missing_lists_small_library :
  from_endf 5 endf_rx endf_decay endf_fpy = Some (Ok (endf_chain, endf_chain_log)) /\
  missing_rx_product endf_chain_log = flat_map (dangling endf_chain) (nuclides endf_chain) /\
  missing_fpy endf_chain_log =
    map name (List.filter (lacks_yields endf_rx endf_fpy) (nuclides endf_chain)) /\
  forall nuc, nuc ∈ nuclides endf_chain -> lacks_yields endf_rx endf_fpy nuc = true ->
    forall rx, rx ∈ reactions nuc -> r_type rx <> "fission".
Proof.
  split; [exact endf_chain_built|].
  exact (from_endf_missing_lists 5 endf_rx endf_decay endf_fpy endf_chain endf_chain_log
           endf_chain_built).
Defined.

(** The small library holds what [from_endf] reads, with five turns for
    the replacement of Y90. *)
Lemma from_endf_returns_small_library :
  library_loads 5 endf_rx endf_decay endf_fpy = true /\
  exists c log, from_endf 5 endf_rx endf_decay endf_fpy = Some (Ok (c, log)).
Proof.
  assert (H1 : library_loads 5 endf_rx endf_decay endf_fpy = true) by (vm_compute; reflexivity).
  split; [exact H1|].
  exact (from_endf_returns 5 endf_rx endf_decay endf_fpy H1).
Defined.

(** The Am241 chain, whose capture ratios add up, in non-strict mode. *)
Lemma validate_conjunction_am_chain :
  (any_tolerance 1e-4%float = Ok tt /\
   (forall name i, nuclide_dict am_chain !! name = Some i ->
      exists nuc, nuclides am_chain !! i = Some nuc /\
                  validate_capture nuc false false 1e-4%float
                    = Ok (capture_sum_ok 1e-4%float nuc))) /\
  validate any_tolerance validate_capture am_chain false false 1e-4%float = Ok true /\
  exists valid,
    validate any_tolerance validate_capture am_chain false false 1e-4%float = Ok valid /\
    (valid = true <->
     forall name i nuc, nuclide_dict am_chain !! name = Some i ->
                        nuclides am_chain !! i = Some nuc ->
                        capture_sum_ok 1e-4%float nuc = true).
Proof.
  assert (H2 : forall name i, nuclide_dict am_chain !! name = Some i ->
      exists nuc, nuclides am_chain !! i = Some nuc /\
                  validate_capture nuc false false 1e-4%float
                    = Ok (capture_sum_ok 1e-4%float nuc)).
  { intros name i Hi.
    assert (Hlt : i < 5).
    { apply elem_of_map_to_list in Hi. revert Hi. vm_compute map_to_list.
      rewrite !elem_of_cons. intros Hi.
      repeat (destruct Hi as [[= _ <-]|Hi]; [lia|]). inversion Hi. }
    destruct (lookup_lt_is_Some_2 (nuclides am_chain) i Hlt) as [nuc Hnuc].
    exists nuc. split; [exact Hnuc|]. unfold validate_capture.
    destruct (capture_sum_ok 1e-4%float nuc); reflexivity. }
  split; [exact (conj eq_refl H2)|]. split; [vm_compute; reflexivity|].
  exact (validate_conjunction any_tolerance validate_capture am_chain false false 1e-4%float
           (capture_sum_ok 1e-4%float) eq_refl H2).
Defined.

(** Am241 with the capture ratios 0.9 and 0.3, in strict mode. *)
Lemma validate_exceptions_am241 :
  validate any_tolerance validate_capture am_chain_1_2 true false 1e-4%float
    = Raise ValueError /\
  (any_tolerance 1e-4%float = Raise ValueError \/
   exists name i,
     nuclide_dict am_chain_1_2 !! name = Some i /\
     ((nuclides am_chain_1_2 !! i = None /\ ValueError = IndexError) \/
      exists nuc, nuclides am_chain_1_2 !! i = Some nuc /\
                  validate_capture nuc true false 1e-4%float = Raise ValueError)).
Proof.
  assert (H1 : validate any_tolerance validate_capture am_chain_1_2 true false 1e-4%float
               = Raise ValueError) by (vm_compute; reflexivity).
  split; [exact H1|].
  exact (validate_exceptions any_tolerance validate_capture am_chain_1_2 true false
           1e-4%float ValueError H1).
Defined.
